(* ===== verification/_CoqProject ===== *)
-Q . S2P
Prelude.v
Meta.v
RouteParser.v
RouteTable.v
JsonScan.v
JsonEscape.v
JsonGet.v
JsonTotal.v
JsonText.v
JsonSet.v
Lbs.v
Format.v
RateLimit.v
Matching.v
Etcd.v
Expr.v
Validation.v
Builders.v
Counters.v
ByteBuf.v
Caching.v
TimeWheel.v
HttpClient.v
Ring.v
Queue.v
UUID.v
Task.v
Runtime.v
Dispatcher.v
Store.v
Client.v
Codec.v
Filters.v
Jwt.v
Render.v
Proxy.v
Gateway.v
Circuit.v
Serve.v
DispatcherInv.v
DispatcherSpec.v
DispatcherRefine.v
DispatcherRoute.v
StorePages.v
StoreLogic.v
StoreSpec.v
StoreReads.v
Backup.v
StoreIds.v
Plugins.v
Events.v
Load.v
Mirror.v
StoreWatch.v
Follow.v
