(* ===== verification/Prelude.v ===== *)
(** * A verification development for vxway

    vxway is an HTTP API gateway in Go.  A request is resolved to an API by a routing table
    of URL patterns, each node of the API is sent to a server that a load balancer selects
    among the servers of a cluster that are up, and the answers are merged.  The metadata
    (APIs, servers, clusters, bindings, routings) comes from a store as a stream of events;
    a health checker turns servers up and down; rate limiters and circuit breakers protect
    servers and APIs.

    ** The files, in the order they build on each other

    - [Prelude]: outcomes of a Go call ([Ret], [Panic], [Hang]), wrapped integers, slices and
      bytes, and the lemmas and tactics on them that all files use.
    - [Meta]: the messages of [src/src/pb/metapb].
    - [RouteParser]: the pattern scanner and parser of [src/src/route].  Parsing returns on
      every input, and a pattern in the grammar parses to the nodes it prints.
    - [RouteTable]: [route.go].  The table is a finite map from patterns and methods to ids:
      [Add] updates it or reports a conflict, [Find] looks it up.
    - [JsonScan], [JsonEscape], [JsonGet], [JsonTotal], [JsonText], [JsonSet]: the JSON library
      [src/src/json].  The reader answers on every input, agrees with a concrete syntax of
      JSON texts, and [Set] followed by [Get] gives the value that was set.
    - [Lbs]: the balancers of [src/src/lbs], [utils/fastrand] and [utils/barrier.go].  Class
      [Balancer] is what a cluster needs of them: a selected server is one of the candidates.
    - [RateLimit]: [utils/ratelimit] and [proxy/rate_limit.go].  No more requests are
      admitted than the burst and the elapsed time allow.
    - [Matching]: parameter values, conditions and address patterns of
      [proxy/dispatcher_runtime.go].
    - [Format]: the conversions of [utils/format] and the address formats of [utils/ip.go].
    - [Etcd]: what the store asks of etcd and of the encoding of messages: keys in order,
      transactions and their events, and the classes [Etcd], [EtcdLaws], [Message], [Pb].
    - [Expr]: the URL rewrite expressions of [utils/expr].
    - [Validation]: the checks of [pb/validation.go] before a message is stored.
    - [Builders]: the builders of messages of [src/src/client].
    - [Counters]: the request statistics of [utils/analysis.go], their periods and figures.
    - [ByteBuf]: the byte buffer and the memory pool of [src/src/goetty].  The buffer is a queue
      of bytes over any pool, by class [Pool].
    - [Caching]: the encoding of cached responses ([filter/cache_utils.go]), the LRU cache
      ([utils/lru.go]) and the keys of the caching filter.
    - [TimeWheel]: the timer wheel of [src/src/goetty]: a timeout expires at its tick and is called
      once, or not at all after it was stopped.
    - [HttpClient]: the connections of the HTTP client ([utils/fasthttp.go]) as a step relation.
    - [Ring]: the lock-free ring buffer of [utils/task/ring.go] as a step relation: it is a queue.
    - [Queue]: the blocking queue of [utils/task/queue.go], whose puts lend their mutex to the polls
      they wake, as a step relation: it is a queue, no poll sleeps beside items, nobody is stuck.
    - [Task]: the runner of [utils/task/task.go], its tasks, workers and pooled jobs as a step
      relation on such queues: a job runs once at most, and [Stop] waits for all and can return.
    - [UUID]: [utils/uuid] and [goetty/uuid.go]: which texts are read as which UUID, and that the
      generators make what they should, by time without repeating one.
    - [Runtime]: the runtime objects the dispatcher keeps ([proxy/dispatcher_runtime.go]).
    - [Dispatcher]: the state of the dispatcher, one definition per handler of
      [dispatcher_meta.go], [dispatcher_copy_on_write.go] and [dispatcher_event.go], the
      health checker ([checker.go]) and the selection for a request ([dispatcher.go]).
    - [Store]: every operation of [store/store_etcd.go] on the keys of etcd, in a monad of
      outcomes and errors; [Codec] is an encoding for examples.
    - [Client]: the client of the admin interface ([client/client.go]) over a remote service,
      class [MetaService], and the connections of [grpcx/client.go].
    - [Filters]: the context of a request, the built-in filters and their chains
      ([filter/filter.go], [proxy/filters.go], [proxy/filter_*.go]).
    - [Jwt]: the authentication filter ([proxy/filter_jwt.go]), over classes for the token
      library and for Redis: what an admitted request must have shown.
    - [Render]: the parts of the nodes, their aggregation ([proxy/multi.go]) and the rendering of
      the response ([proxy/render.go]).  A template is rendered as the object it means.
    - [Proxy]: one dispatched node, [doProxy]: filters, cache and retries.  Class [Network] is
      what servers answer, class [Selector] what the dispatcher gives a retry.
    - [Circuit]: the circuits under the filters, the timers and the dispatcher.  A closed
      circuit keeps requests from servers, and comes back.
    - [Gateway]: what is around the requests: filters from the configuration ([cfg.go],
      [factory.go]), replaced engines ([proxy_gc.go]), the choice of workers, the figures
      ([metric.go]), the entry for web sockets and [Stop] as a step relation.
    - [Serve]: [ServeFastHTTP] and its workers as a step relation: the batches of nodes and the
      aggregation, in every interleaving.
    - [DispatcherInv]: the state machine in which events, health checks, timers and requests
      interleave ([step], [reachable]), and the invariant every step preserves.
    - [DispatcherSpec]: what a reachable state gives: selected servers are up, requests go
      where nodes and routings say, checks converge.
    - [DispatcherRefine]: the handlers refine plain maps of messages ([spec_step]).
    - [DispatcherRoute]: the routing table agrees with the registered APIs.
    - [StorePages]: reading a directory page by page visits every message once, in order.
    - [StoreLogic], [StoreSpec]: a logic for the operations of the store, by which every request
      keeps the store well typed and a message put is the message read.
    - [StoreReads]: what a well-typed store is read as when its requests succeed.
    - [Backup]: [BackupTo], the store copied to another gateway: all it is told.
    - [StoreIds]: several gateways allocating ids on one etcd, as a step relation.
    - [Plugins]: the engine of [plugin/engine.go] and the plugin handlers of the dispatcher.
    - [Load]: the loading of the dispatcher from the store ([load] of [dispatcher_meta.go]).
    - [Mirror]: what it means that the dispatcher holds the messages of a directory, and that the
      loading makes it so - or ends the process, when a bound server was removed.
    - [StoreWatch]: the watch of [store/store_watch.go] and the events the dispatcher takes.
    - [Follow]: the store, its history and a gateway that takes the changes one at a time, as a
      step relation; the gateway mirrors the store as it was after the last change it took.

    ** Conventions

    A definition has the name of the function it models.  A call that can panic or loop
    returns an [outcome]; [Panic] is a run-time panic or [log.Fatalf], [Hang] is fuel that
    ran out.  Fuel is always the length of the input (or a bound computed from it) plus a
    constant, and each component proves that [Hang] does not occur.  Integers are [Z],
    wrapped ([i64], [u64], [i32]) where Go's type wraps and the bound matters.  Bytes are
    lists of [Z].  A pointer that is updated in place is state passed in and out; the map of
    pointers a Go map is, is a [gmap] of values, since no two of them alias.  The order in
    which a [range] visits a map is an argument wherever it can be observed.

    What is not under [src/src] is an argument: the regular expressions of Go, the shuffle
    behind [NewRateBarrier], [sort.Slice], the clock, what an HTTP exchange answers, etcd (a
    request can fail, and a failed transaction may have been applied), the generated encoding
    of the messages, the library of tokens, Redis, the remote admin service, and the scripts
    of plugins.

    ** Not modelled

    The command line tools, listeners and TLS, logging and the bindings of the JavaScript engine are
    input and output around the core; the service behind the admin client is not in the
    repository.  In [Follow] the watch
    starts where the loading ends; in the code it starts in parallel with it, and a change that
    falls in between can be lost or undone.  The dispatcher sees the timer wheel as a set of pending
    timers, [Serve] the goroutines of a request as a set of running nodes, and the runner its queues
    as lists.  Of the modelled parts, generated marshalling code and HTTP timeouts are left out,
    and a web socket is one exchange.
    Data races (the code changes the dispatcher's maps without a lock while requests read
    them) are not: each event, check and request is one atomic step of the dispatcher, and
    each read of the shared bodies and each completed part is one step of [Serve]. *)
From Stdlib Require Export ZArith Lia Ascii String.
From stdpp Require Export base numbers list gmap strings.

Open Scope Z_scope.

(** ** Outcomes of a Go call

    [Ret a] is a normal return.  [Panic] is a run-time panic (index or slice
    bounds, nil dereference, explicit [panic]) or a [log.Fatalf] exit.
    [Hang] is produced only by a loop whose fuel ran out; each component proves
    that it never occurs. *)
Inductive outcome (A : Type) : Type :=
| Ret (a : A)
| Panic
| Hang.
Arguments Ret {A} a.
Arguments Panic {A}.
Arguments Hang {A}.

#[export] Instance outcome_mret : MRet outcome := λ A a, Ret a.
#[export] Instance outcome_mbind : MBind outcome := λ A B f m,
  match m with Ret a => f a | Panic => Panic | Hang => Hang end.
#[export] Instance outcome_fmap : FMap outcome := λ A B f m,
  match m with Ret a => Ret (f a) | Panic => Panic | Hang => Hang end.

(** A call that returns normally, with any value. *)
Definition returns {A} (m : outcome A) : Prop := ∃ a, m = Ret a.

(** ** Machine integers: values are [Z], wrapped where Go wraps. *)
Definition u8 (x : Z) : Z := x mod 2^8.
Definition u16 (x : Z) : Z := x mod 2^16.
Definition u32 (x : Z) : Z := x mod 2^32.
Definition u64 (x : Z) : Z := x mod 2^64.
Definition i64 (x : Z) : Z := (x + 2^63) mod 2^64 - 2^63.
Definition i32 (x : Z) : Z := (x + 2^31) mod 2^32 - 2^31.

Definition is_u8 (x : Z) : Prop := 0 <= x < 2^8.
Definition is_u64 (x : Z) : Prop := 0 <= x < 2^64.
Definition is_i64 (x : Z) : Prop := - 2^63 <= x < 2^63.

(** ** Byte strings: Go's [[]byte] and [string] are lists of byte values. *)
Abbreviation bytes := (list Z).

Definition ch (c : ascii) : Z := Z.of_N (N_of_ascii c).
Arguments ch c%_char.

Definition str (s : string) : bytes := map ch (String.list_ascii_of_string s).
Arguments str s%_string.

Definition len {A} (l : list A) : Z := Z.of_nat (length l).

(** Indexing and slicing with Go's bounds checks ([cap] is taken to be [len]). *)
Definition byte_at (l : bytes) (i : Z) : outcome Z :=
  if i <? 0 then Panic
  else match l !! Z.to_nat i with Some c => Ret c | None => Panic end.

Definition slice {A} (l : list A) (a b : Z) : outcome (list A) :=
  if (0 <=? a) && (a <=? b) && (b <=? len l)
  then Ret (take (Z.to_nat (b - a)) (drop (Z.to_nat a) l)) else Panic.

(** [l[a:]] *)
Definition slice_from {A} (l : list A) (a : Z) : outcome (list A) :=
  slice l a (len l).

(** [bytes.Equal] / [bytes.Compare(..) == 0] / string equality. *)
Definition bytes_eqb (x y : bytes) : bool := bool_decide (x = y).

(** ** Loops

    A Go [for] loop is the iteration of its body, which continues with a new state or
    leaves with a result.  The fuel bounds the number of turns. *)
Fixpoint loop {S R} (step : S -> outcome (S + R)) (fuel : nat) (s : S) : outcome R :=
  match fuel with
  | O => Hang
  | Datatypes.S fuel =>
      match step s with
      | Ret (inl s') => loop step fuel s'
      | Ret (inr r) => Ret r
      | Panic => Panic
      | Hang => Hang
      end
  end.

(** ** Automation *)

(** Evaluate the character constants of the goal and the context. *)
Ltac chars :=
  repeat match goal with
  | |- context [ch ?c] => let v := eval compute in (ch c) in change (ch c) with v
  | H : context [ch ?c] |- _ =>
      let v := eval compute in (ch c) in change (ch c) with v in H
  end.

(** Case analysis on the boolean integer tests of the goal. *)
Ltac bcase :=
  match goal with
  | |- context [?a =? ?b] => destruct (Z.eqb_spec a b)
  | |- context [?a <? ?b] => destruct (Z.ltb_spec a b)
  | |- context [?a <=? ?b] => destruct (Z.leb_spec a b)
  end.

(** Evaluate the decisions of the goal that are plainly true or false. *)
Ltac bdec :=
  repeat match goal with
  | |- context [bool_decide ?P] =>
      first [ rewrite (bool_decide_true P) by (done || congruence)
            | rewrite (bool_decide_false P) by (done || congruence) ]
  end; cbn [negb andb orb].

Ltac sinv H := inversion H; subst; clear H.

(** Split a hypothesis [x ← m; k = Ret v] into the call that returned and the rest. *)
Ltac bind_inv H :=
  match type of H with
  | (mbind _ ?m = Ret _) =>
      let E := fresh "E" in destruct m eqn:E; cbn in H; try discriminate H
  end.

(** ** Generic lemmas *)

Lemma len_nonneg {A} (l : list A) : 0 <= len l.
Proof. unfold len; lia. Qed.

Lemma len_nil {A} : len (@nil A) = 0.
Proof. reflexivity. Qed.

Lemma len_cons {A} (x : A) l : len (x :: l) = 1 + len l.
Proof. unfold len; cbn [length]; lia. Qed.

Lemma len_app {A} (l k : list A) : len (l ++ k) = len l + len k.
Proof. unfold len; rewrite length_app; lia. Qed.

Lemma len_to_nat {A} (l : list A) : Z.to_nat (len l) = length l.
Proof. unfold len; lia. Qed.

Lemma len_take {A} n (l : list A) : len (take n l) = Z.min (Z.of_nat n) (len l).
Proof. unfold len; rewrite length_take; lia. Qed.

Lemma len_drop {A} n (l : list A) : len (drop n l) = Z.max 0 (len l - Z.of_nat n).
Proof. unfold len; rewrite length_drop; lia. Qed.

Lemma len_map {A B} (f : A -> B) l : len (map f l) = len l.
Proof. unfold len; by rewrite length_map. Qed.

Lemma len_replicate {A} n (x : A) : len (replicate n x) = Z.of_nat n.
Proof. unfold len; by rewrite length_replicate. Qed.

Lemma len_zero {A} (l : list A) : len l = 0 -> l = [].
Proof. unfold len. destruct l; cbn; [done | lia]. Qed.

Create Rewrite HintDb len.
#[export] Hint Rewrite @len_nil @len_cons @len_app @len_take @len_drop @len_map @len_replicate
  : len.

Lemma bytes_eqb_eq x y : bytes_eqb x y = true <-> x = y.
Proof. unfold bytes_eqb; apply bool_decide_eq_true. Qed.

Lemma bytes_eqb_refl x : bytes_eqb x x = true.
Proof. by apply bytes_eqb_eq. Qed.

Lemma bytes_eqb_neq x y : bytes_eqb x y = false <-> x <> y.
Proof. unfold bytes_eqb; apply bool_decide_eq_false. Qed.

Lemma byte_at_app_r (pre post : bytes) c :
  byte_at (pre ++ c :: post) (len pre) = Ret c.
Proof.
  unfold byte_at. bcase; [pose proof (len_nonneg pre); lia|].
  by rewrite len_to_nat, list_lookup_middle.
Qed.

Lemma byte_at_inv l i c : byte_at l i = Ret c -> 0 <= i < len l /\ l !! Z.to_nat i = Some c.
Proof.
  unfold byte_at. bcase; [done|]. destruct (l !! Z.to_nat i) eqn:E; [|done].
  intros [= <-]. apply lookup_lt_Some in E as ?. unfold len. split; [lia|done].
Qed.

Lemma byte_at_in_range l i : 0 <= i < len l -> ∃ c, byte_at l i = Ret c /\ l !! Z.to_nat i = Some c.
Proof.
  intros Hi. unfold byte_at. bcase; [lia|].
  destruct (lookup_lt_is_Some_2 l (Z.to_nat i)) as [c Hc]; [unfold len in *; lia|].
  rewrite Hc; eauto.
Qed.

Lemma slice_in_range {A} (l : list A) a b :
  0 <= a <= b -> b <= len l ->
  slice l a b = Ret (take (Z.to_nat (b - a)) (drop (Z.to_nat a) l)).
Proof. intros. unfold slice. repeat bcase; try lia. done. Qed.

Lemma slice_inv {A} (l : list A) a b r :
  slice l a b = Ret r ->
  0 <= a <= b /\ b <= len l /\ r = take (Z.to_nat (b - a)) (drop (Z.to_nat a) l).
Proof. unfold slice. repeat bcase; cbn; try done. intros [= <-]. auto. Qed.

(** Slicing out the middle of [pre ++ mid ++ post]. *)
Lemma slice_middle {A} (pre mid post : list A) a b :
  a = len pre -> b = len pre + len mid ->
  slice (pre ++ mid ++ post) a b = Ret mid.
Proof.
  intros -> ->. pose proof (len_nonneg pre). pose proof (len_nonneg mid).
  rewrite slice_in_range; autorewrite with len; [| lia | pose proof (len_nonneg post); lia].
  rewrite len_to_nat, drop_app_length.
  replace (len pre + len mid - len pre) with (len mid) by lia.
  by rewrite len_to_nat, take_app_length.
Qed.

Lemma slice_from_app {A} (pre post : list A) a :
  a = len pre -> slice_from (pre ++ post) a = Ret post.
Proof.
  intros ->. unfold slice_from.
  rewrite <- (app_nil_r post) at 1 2. apply slice_middle; autorewrite with len; lia.
Qed.

Lemma slice_prefix {A} (pre post : list A) b :
  b = len pre -> slice (pre ++ post) 0 b = Ret pre.
Proof. intros ->. by apply (slice_middle [] pre post). Qed.

Lemma slice_from_in_range {A} (l : list A) a :
  0 <= a <= len l -> slice_from l a = Ret (drop (Z.to_nat a) l).
Proof.
  intros Ha. unfold slice_from. rewrite slice_in_range by lia. f_equal.
  apply take_ge. rewrite length_drop. unfold len in *. lia.
Qed.

(** ** Loop lemmas *)

Lemma returns_ret {A} (a : A) : returns (Ret a).
Proof. by exists a. Qed.

Lemma returns_bind {A B} (m : outcome A) (f : A -> outcome B) :
  returns m -> (∀ a, m = Ret a -> returns (f a)) -> returns (m ≫= f).
Proof. intros [a ->] Hf. by apply Hf. Qed.

#[export] Hint Resolve returns_ret : core.

Section Loop.
Context {S R : Type} (step : S -> outcome (S + R)).

(** An invariant and a measure that each turn decreases: the loop returns. *)
Lemma loop_returns (I : S -> Prop) (m : S -> nat) :
  (∀ s, I s -> ∃ r, step s = Ret r /\ ∀ s', r = inl s' -> I s' /\ (m s' < m s)%nat) ->
  ∀ fuel s, I s -> (m s < fuel)%nat -> returns (loop step fuel s).
Proof.
  intros Hstep. induction fuel as [|fuel IH]; intros s Hs Hm; [lia|]. cbn.
  destruct (Hstep s Hs) as ([s'|r] & -> & H); [|by eexists].
  destruct (H s' eq_refl). apply IH; [done|lia].
Qed.

(** The same, with what the result satisfies. *)
Lemma loop_post (I : S -> Prop) (Q : R -> Prop) :
  (∀ s, I s -> (∀ s', step s = Ret (inl s') -> I s') /\ (∀ r, step s = Ret (inr r) -> Q r)) ->
  ∀ fuel s r, I s -> loop step fuel s = Ret r -> Q r.
Proof.
  intros Hstep. induction fuel as [|fuel IH]; intros s r Hs; cbn; [done|].
  destruct (Hstep s Hs) as [H1 H2].
  destruct (step s) as [[s'|r']| |] eqn:E; try done.
  - apply IH. by apply H1.
  - intros [= <-]. by apply H2.
Qed.

(** Some number of turns leads from [s] to the result [r]. *)
Definition iterates (s : S) (r : R) : Prop := ∃ fuel, loop step fuel s = Ret r.

Lemma iterates_next s s' r : step s = Ret (inl s') -> iterates s' r -> iterates s r.
Proof. intros Hs [f Hf]. exists (Datatypes.S f). cbn. by rewrite Hs. Qed.

Lemma iterates_done s r : step s = Ret (inr r) -> iterates s r.
Proof. intros Hs. exists 1%nat. cbn. by rewrite Hs. Qed.

Lemma loop_fuel f : ∀ f' s r r', loop step f s = Ret r -> loop step f' s = Ret r' -> r = r'.
Proof.
  induction f as [|f IH]; intros [|f'] s r r'; cbn; try done.
  destruct (step s) as [[s'|q]| |]; try done; [apply IH|congruence].
Qed.

Lemma loop_iterates fuel s r : returns (loop step fuel s) -> iterates s r -> loop step fuel s = Ret r.
Proof. intros [r' Hr'] [f Hf]. rewrite Hr'. f_equal. by eapply loop_fuel. Qed.

End Loop.

(** ** Repeated calls *)

(** The results of [n] calls of a stateful function, in order, and the last state. *)
Fixpoint times {A S} (f : S -> outcome (A * S)) (n : nat) (s : S) : outcome (list A * S) :=
  match n with
  | O => Ret ([], s)
  | Datatypes.S n => '(a, s) ← f s; '(l, s) ← times f n s; Ret (a :: l, s)
  end.

(** How often [x] occurs. *)
Definition occurs `{EqDecision A} (x : A) (l : list A) : Z := len (filter (λ y, y = x) l).

Lemma occurs_nil `{EqDecision A} (x : A) : occurs x [] = 0.
Proof. reflexivity. Qed.

Lemma occurs_cons `{EqDecision A} (x y : A) l :
  occurs x (y :: l) = (if decide (y = x) then 1 else 0) + occurs x l.
Proof. unfold occurs. rewrite filter_cons. destruct (decide _); [by rewrite len_cons|done]. Qed.

Fixpoint sumZ {A} (f : A -> Z) (l : list A) : Z :=
  match l with [] => 0 | x :: l => f x + sumZ f l end.

Lemma sumZ_ext {A} (f g : A -> Z) l : (∀ x, x ∈ l -> f x = g x) -> sumZ f l = sumZ g l.
Proof.
  induction l as [|x l IH]; intros H; cbn; [done|]. rewrite H by left. f_equal.
  apply IH. intros. apply H. by right.
Qed.

Lemma sumZ_add {A} (f g : A -> Z) l : sumZ (λ x, f x + g x) l = sumZ f l + sumZ g l.
Proof. induction l as [|x l IH]; cbn; [done|]. rewrite IH. lia. Qed.

Lemma sumZ_scale {A} (c : Z) (f : A -> Z) l : sumZ (λ x, c * f x) l = c * sumZ f l.
Proof. induction l as [|x l IH]; cbn; [lia|]. rewrite IH. lia. Qed.

Lemma sumZ_le {A} (f g : A -> Z) l : (∀ x, x ∈ l -> f x <= g x) -> sumZ f l <= sumZ g l.
Proof.
  induction l as [|x l IH]; intros H; cbn; [done|].
  assert (f x <= g x) by (apply H; left).
  assert (sumZ f l <= sumZ g l) by (apply IH; intros; apply H; by right). lia.
Qed.

(** Terms below the bounds they add up to are equal to them. *)
Lemma sumZ_eq_le {A} (f g : A -> Z) l :
  (∀ x, x ∈ l -> f x <= g x) -> sumZ f l = sumZ g l -> ∀ x, x ∈ l -> f x = g x.
Proof.
  induction l as [|y l IH]; intros Hle Hs x Hx; cbn in Hs; [by apply elem_of_nil in Hx|].
  assert (f y <= g y) by (apply Hle; left).
  assert (sumZ f l <= sumZ g l) by (apply sumZ_le; intros; apply Hle; by right).
  apply elem_of_cons in Hx as [->|Hx]; [lia|].
  apply IH; [intros; apply Hle; by right|lia|done].
Qed.

(** A window of [n] consecutive integers meets every residue modulo [n] once. *)
Lemma mod_window a n : 0 < n -> map (λ k, k mod n) (seqZ a n) ≡ₚ seqZ 0 n.
Proof.
  intros Hn. apply submseteq_length_Permutation.
  - apply NoDup_submseteq.
    + apply NoDup_fmap_2_strong; [|apply NoDup_seqZ].
      intros x y Hx Hy E. rewrite elem_of_seqZ in *.
      assert (x - y = n * (x / n - y / n)).
      { pose proof (Z.div_mod x n ltac:(lia)). pose proof (Z.div_mod y n ltac:(lia)). lia. }
      assert (x / n - y / n = 0) by nia. lia.
    + intros x (y & -> & Hy)%list_elem_of_fmap. rewrite elem_of_seqZ.
      pose proof (Z.mod_pos_bound y n). lia.
  - rewrite length_map, !length_seqZ. lia.
Qed.

(** ** Machine-integer lemmas *)

Lemma u64_small x : is_u64 x -> u64 x = x.
Proof. intros; apply Z.mod_small; done. Qed.

Lemma u8_range x : is_u8 (u8 x).
Proof. apply Z.mod_pos_bound. lia. Qed.

Lemma u64_range x : is_u64 (u64 x).
Proof. apply Z.mod_pos_bound; lia. Qed.

Lemma i64_small x : is_i64 x -> i64 x = x.
Proof. unfold is_i64, i64; intros. rewrite Z.mod_small; lia. Qed.

Lemma i64_range x : is_i64 (i64 x).
Proof. unfold is_i64, i64. pose proof (Z.mod_pos_bound (x + 2^63) (2^64)). lia. Qed.

#[export] Hint Resolve len_nonneg u64_range i64_range : core.
