(* ===== verification/Meta.v ===== *)
(** The metadata messages of [src/src/pb/metapb] that the gateway's components exchange,
    as Rocq records.  Field names carry the message's name as a prefix.  Optional message
    fields (Go pointers) are [option]; an enum is an inductive type, with an [_other]
    constructor for the integers outside its constants where the code has a default arm. *)
From S2P Require Import Prelude.

Inductive Status := Down | Up | Unknown.
#[export] Instance Status_eq_dec : EqDecision Status.
Proof. solve_decision. Defined.

Inductive CircuitStatus := Open | Half | Close.
#[export] Instance CircuitStatus_eq_dec : EqDecision CircuitStatus.
Proof. solve_decision. Defined.

Inductive LoadBalance := RoundRobin | IPHash | WightRobin | Rand | LoadBalance_other (v : Z).
#[export] Instance LoadBalance_eq_dec : EqDecision LoadBalance.
Proof. solve_decision. Defined.

Inductive Source :=
| QueryString | FormData | JSONBody | Header | Cookie | PathValue | Source_other (v : Z).
#[export] Instance Source_eq_dec : EqDecision Source.
Proof. solve_decision. Defined.

Inductive CMP := CMPEQ | CMPLT | CMPLE | CMPGT | CMPGE | CMPIn | CMPMatch | CMP_other (v : Z).
#[export] Instance CMP_eq_dec : EqDecision CMP.
Proof. solve_decision. Defined.

Inductive RoutingStrategy := Copy | Split | RoutingStrategy_other (v : Z).
#[export] Instance RoutingStrategy_eq_dec : EqDecision RoutingStrategy.
Proof. solve_decision. Defined.

Inductive MatchRule := MatchDefault | MatchAll | MatchAny | MatchRule_other (v : Z).
#[export] Instance MatchRule_eq_dec : EqDecision MatchRule.
Proof. solve_decision. Defined.

Inductive Protocol := HTTP | Grpc | Dubbo | SpringCloud | Protocol_other (v : Z).
#[export] Instance Protocol_eq_dec : EqDecision Protocol.
Proof. solve_decision. Defined.

Inductive RateLimitOption := Wait | Reject.
#[export] Instance RateLimitOption_eq_dec : EqDecision RateLimitOption.
Proof. solve_decision. Defined.

Record HeathCheck := mkHeathCheck {
  HeathCheck_Path : bytes;
  HeathCheck_Body : bytes;
  HeathCheck_CheckInterval : Z;
  HeathCheck_Timeout : Z
}.

Record CircuitBreaker := mkCircuitBreaker {
  CircuitBreaker_CloseTimeout : Z;
  CircuitBreaker_HalfTrafficRate : Z;
  CircuitBreaker_RateCheckPeriod : Z;
  CircuitBreaker_FailureRateToClose : Z;
  CircuitBreaker_SucceedRateToOpen : Z
}.

Record Cluster := mkCluster {
  Cluster_ID : Z;
  Cluster_Name : bytes;
  Cluster_LoadBalance : LoadBalance
}.

Record Server := mkServer {
  Server_ID : Z;
  Server_Addr : bytes;
  Server_MaxQPS : Z;
  Server_HeathCheck : option HeathCheck;
  Server_CircuitBreaker : option CircuitBreaker;
  Server_Weight : Z;
  Server_RateLimitOption : RateLimitOption;
  Server_Protocol : Protocol
}.

Record Bind := mkBind { Bind_ClusterID : Z; Bind_ServerID : Z }.

Record IPAccessControl := mkIPAccessControl {
  IPAccessControl_Whitelist : list bytes;
  IPAccessControl_Blacklist : list bytes
}.

(** The message [Parameter]. *)
Record Param := mkParam {
  Param_Name : bytes;
  Param_Source : Source;
  Param_Index : Z
}.

Record Condition := mkCondition {
  Condition_Param : Param;
  Condition_Cmp : CMP;
  Condition_Expect : bytes
}.

Record Routing := mkRouting {
  Routing_ID : Z;
  Routing_ClusterID : Z;
  Routing_Conditions : list Condition;
  Routing_Strategy : RoutingStrategy;
  Routing_TrafficRate : Z;
  Routing_Status : Status;
  Routing_API : Z;
  Routing_Name : bytes
}.

(** A value to answer with; the headers and cookies are name/value pairs. *)
Record HTTPResult := mkHTTPResult {
  HTTPResult_Body : bytes;
  HTTPResult_Headers : list (bytes * bytes);
  HTTPResult_Cookies : list (bytes * bytes);
  HTTPResult_Code : Z
}.

Inductive RuleType := RuleRegexp | RuleType_other (v : Z).
#[export] Instance RuleType_eq_dec : EqDecision RuleType.
Proof. solve_decision. Defined.

Record ValidationRule := mkValidationRule { Rule_Type : RuleType; Rule_Expression : bytes }.

Record Validation := mkValidation {
  Validation_Param : Param;
  Validation_Required : bool;
  Validation_Rules : list ValidationRule
}.

Record RetryStrategy := mkRetryStrategy {
  RetryStrategy_Interval : Z;
  RetryStrategy_MaxTimes : Z;
  RetryStrategy_Codes : list Z
}.

(** The message [Cache]. *)
Record CacheOption := mkCacheOption {
  Cache_Keys : list Param;
  Cache_Deadline : Z;
  Cache_Conditions : list Condition
}.

Inductive HostType := HostOrigin | HostServerAddress | HostCustom | HostType_other (v : Z).
#[export] Instance HostType_eq_dec : EqDecision HostType.
Proof. solve_decision. Defined.

(** The attributes and objects of a render template; the web socket options. *)
Record RenderAttr := mkRenderAttr { RenderAttr_Name : bytes; RenderAttr_ExtractExp : bytes }.
Record RenderObject := mkRenderObject {
  RenderObject_Name : bytes;
  RenderObject_Attrs : list RenderAttr;
  RenderObject_FlatAttrs : bool
}.
Record RenderTemplate := mkRenderTemplate { RenderTemplate_Objects : list RenderObject }.
Record WebSocketOptions := mkWebSocketOptions { WebSocketOptions_Origin : bytes }.

Record DispatchNode := mkDispatchNode {
  DispatchNode_ClusterID : Z;
  DispatchNode_URLRewrite : bytes;
  DispatchNode_AttrName : bytes;
  DispatchNode_Validations : list Validation;
  DispatchNode_DefaultValue : option HTTPResult;
  DispatchNode_UseDefault : bool;
  DispatchNode_BatchIndex : Z;
  DispatchNode_RetryStrategy : option RetryStrategy;
  DispatchNode_Cache : option CacheOption;
  DispatchNode_HostType : HostType;
  DispatchNode_CustemHost : bytes;
  DispatchNode_WriteTimeout : Z;
  DispatchNode_ReadTimeout : Z
}.

Record TLSEmbedCert := mkTLSEmbedCert { CertData : bytes; KeyData : bytes }.

(** The tags are name/value pairs. *)
Record API := mkAPI {
  API_ID : Z;
  API_Name : bytes;
  API_URLPattern : bytes;
  API_Method : bytes;
  API_Domain : bytes;
  API_Status : Status;
  API_IPAccessControl : option IPAccessControl;
  API_DefaultValue : option HTTPResult;
  API_Nodes : list DispatchNode;
  API_UseDefault : bool;
  API_MatchRule : MatchRule;
  API_MaxQPS : Z;
  API_CircuitBreaker : option CircuitBreaker;
  API_RateLimitOption : RateLimitOption;
  API_RenderTemplate : option RenderTemplate;
  API_WebSocketOptions : option WebSocketOptions;
  API_Perms : list bytes;
  API_AuthFilter : bytes;
  API_Position : Z;
  API_Tags : list (bytes * bytes);
  API_UseTLS : bool;
  API_TlsEmbedCert : option TLSEmbedCert
}.

(** A gateway instance: its addresses. *)
Record Proxy := mkProxy { Proxy_Addr : bytes; Proxy_AddrRPC : bytes }.

(** A plugin of the JavaScript engine, and the plugins that are applied, in order. *)
Record Plugin := mkPlugin {
  Plugin_ID : Z;
  Plugin_Name : bytes;
  Plugin_Author : bytes;
  Plugin_Email : bytes;
  Plugin_Status : Status;
  Plugin_UpdateAt : Z;
  Plugin_Version : Z;
  Plugin_Type : Z;
  Plugin_Content : bytes;
  Plugin_Cfg : bytes
}.
Record AppliedPlugins := mkAppliedPlugins { AppliedPlugins_ID : Z; AppliedIDs : list Z }.
