(* ===== verification/RouteParser.v ===== *)
(** Model of the URL-pattern scanner and parser of the routing table:
    [src/src/route/const.go], [scanner.go] and [parser.go].  Module [Scanner] is the
    lexer, [Parser] the recursive pattern grammar
    [/const/(number|string|enum:m1|m2)[:argname]].  The same parser reads registered
    patterns (Route.Add) and request paths (Route.Find). *)
From Stdlib Require Import ZArith Lia.
From S2P Require Import Prelude.

(** ** const.go *)
Definition eoi : Z := 26.  (* 0x1A *)
Definition slash : Z := ch "/".

Inductive token :=
| tokenEOF | tokenUnknown | tokenSlash | tokenLParen | tokenRParen | tokenVertical | tokenColon.
#[export] Instance token_eq_dec : EqDecision token.
Proof. solve_decision. Defined.

Definition slashValue : bytes := str "/".
Definition numberValue : bytes := str "number".
Definition stringValue : bytes := str "string".
Definition enumValue : bytes := str "enum".
Definition matchAll : bytes := str "*".

Inductive nodeType := slashType | stringType | constType | enumType | numberType.
#[export] Instance nodeType_eq_dec : EqDecision nodeType.
Proof. solve_decision. Defined.

(** The integer values of the constants: they order a node's children. *)
Definition nt_val (t : nodeType) : Z :=
  match t with
  | slashType => 5 | stringType => 4 | constType => 3 | enumType => 2 | numberType => 1
  end.

(** ** scanner.go *)
Module Scanner.

Record scanner := mkScanner {
  sc_len : Z;
  sc_input : bytes;
  sc_token : token;
  sc_bp : Z;
  sc_sp : Z;
  sc_ch : Z
}.

(** [Next]: advance [bp], load the byte there, [eoi] past the end. *)
Definition Next (s : scanner) : outcome scanner :=
  let bp := sc_bp s + 1 in
  if bp <? sc_len s then
    c ← byte_at (sc_input s) bp;
    Ret (mkScanner (sc_len s) (sc_input s) (sc_token s) bp (sc_sp s) c)
  else Ret (mkScanner (sc_len s) (sc_input s) (sc_token s) bp (sc_sp s) eoi).

Definition newScanner (input : bytes) : outcome scanner :=
  Next (mkScanner (len input) input tokenEOF (-1) 0 0).

Definition set_token (s : scanner) (t : token) : scanner :=
  mkScanner (sc_len s) (sc_input s) t (sc_bp s) (sc_sp s) (sc_ch s).

(** The [switch scan.ch] of [NextToken]. *)
Definition classify (c : Z) : option token :=
  if c =? ch "/" then Some tokenSlash
  else if c =? ch "(" then Some tokenLParen
  else if c =? ch "|" then Some tokenVertical
  else if c =? ch ":" then Some tokenColon
  else if c =? ch ")" then Some tokenRParen
  else if c =? eoi then Some tokenEOF
  else None.

Fixpoint nextTokenLoop (fuel : nat) (s : scanner) : outcome scanner :=
  match fuel with
  | O => Hang
  | S fuel =>
      match classify (sc_ch s) with
      | Some t => Next (set_token s t)
      | None => s' ← Next s; nextTokenLoop fuel s'
      end
  end.

(** Each turn advances [bp], and [eoi] stops it: [len + 1] turns are enough. *)
Definition NextToken (s : scanner) : outcome scanner :=
  nextTokenLoop (S (length (sc_input s))) s.

Definition Current (s : scanner) : Z := sc_ch s.

Definition Token (s : scanner) : token := sc_token s.

Definition TokenIndex (s : scanner) : Z := sc_bp s - 1.

Definition ScanString (s : scanner) : outcome (bytes * scanner) :=
  value ← slice (sc_input s) (sc_sp s) (sc_bp s - 1);
  Ret (value, mkScanner (sc_len s) (sc_input s) (sc_token s) (sc_bp s) (sc_bp s) (sc_ch s)).

(** *** Scanner states reachable from [newScanner] *)

(** The byte under [bp]. *)
Definition char_at (inp : bytes) (k : Z) : Z := default eoi (inp !! Z.to_nat k).

(** The state over [inp] with last token [t], at byte [k], string start [sp]. *)
Definition st (inp : bytes) (t : token) (k sp : Z) : scanner :=
  mkScanner (len inp) inp t k sp (char_at inp k).

(** Bytes that [NextToken] skips. *)
Definition plain (w : bytes) : Prop := Forall (λ c, classify c = None) w.

Lemma Next_st inp t k sp : -1 <= k -> ∀ c,
  Next (mkScanner (len inp) inp t k sp c) = Ret (st inp t (k + 1) sp).
Proof.
  intros Hk c. unfold Next, st, char_at; cbn. bcase.
  - destruct (byte_at_in_range inp (k + 1)) as (c' & -> & ->); [lia|done].
  - rewrite lookup_ge_None_2; [done|]. unfold len in *. lia.
Qed.

Lemma newScanner_st inp : newScanner inp = Ret (st inp tokenEOF 0 0).
Proof. unfold newScanner. by rewrite Next_st by lia. Qed.

Lemma classify_not_unknown c t : classify c = Some t -> t <> tokenUnknown.
Proof. unfold classify. repeat bcase; intros [= <-]; done. Qed.

Lemma drop_next {A} (inp : list A) k c w : 0 <= k ->
  drop (Z.to_nat k) inp = c :: w ->
  inp !! Z.to_nat k = Some c /\ drop (Z.to_nat (k + 1)) inp = w /\ k < len inp.
Proof.
  intros Hk Hd. pose proof (lookup_drop inp (Z.to_nat k) 0) as Hl.
  rewrite Hd, Nat.add_0_r in Hl. cbn in Hl. repeat split; [done| |].
  - replace (Z.to_nat (k + 1)) with (Z.to_nat k + 1)%nat by lia.
    by rewrite <- drop_drop, Hd.
  - symmetry in Hl. apply lookup_lt_Some in Hl. unfold len. lia.
Qed.

Lemma drop_past {A} (inp : list A) k w rest : 0 <= k ->
  drop (Z.to_nat k) inp = w ++ rest -> drop (Z.to_nat (k + len w)) inp = rest.
Proof.
  intros Hk Hd. replace (Z.to_nat (k + len w)) with (Z.to_nat k + length w)%nat
    by (unfold len; lia).
  by rewrite <- drop_drop, Hd, drop_app_length.
Qed.

Lemma nextTokenLoop_skip w : ∀ inp t k sp rest f,
  plain w -> 0 <= k -> drop (Z.to_nat k) inp = w ++ rest ->
  nextTokenLoop (length w + f) (st inp t k sp) = nextTokenLoop f (st inp t (k + len w) sp).
Proof.
  induction w as [|c w IH]; intros inp t k sp rest f Hp Hk Hd; cbn.
  - by rewrite len_nil, Z.add_0_r.
  - inversion Hp as [|? ? Hc Hw]; subst. cbn in Hd.
    destruct (drop_next _ _ _ _ Hk Hd) as (Hl & Hd' & _).
    unfold char_at at 1. rewrite Hl; cbn. rewrite Hc.
    unfold st at 1. rewrite Next_st by lia. cbn.
    rewrite (IH _ _ _ _ rest) by (auto with lia). f_equal. f_equal.
    rewrite len_cons. lia.
Qed.

Lemma NextToken_special inp t k sp w c rest tk :
  plain w -> classify c = Some tk -> 0 <= k ->
  drop (Z.to_nat k) inp = w ++ c :: rest ->
  NextToken (st inp t k sp) = Ret (st inp tk (k + len w + 1) sp).
Proof.
  intros Hw Hc Hk Hd. unfold NextToken. cbn [sc_input st].
  pose proof (f_equal length Hd) as Hlen. rewrite length_drop, length_app in Hlen.
  cbn in Hlen.
  replace (S (length inp)) with (length w + S (length inp - length w))%nat by lia.
  rewrite (nextTokenLoop_skip _ _ _ _ _ _ _ Hw Hk Hd).
  destruct (drop_next inp (k + len w) c rest) as (Hl & _);
    [pose proof (len_nonneg w); lia | by apply drop_past|].
  cbn. unfold char_at at 1. rewrite Hl. cbn. rewrite Hc.
  unfold st, set_token. cbn. apply Next_st. pose proof (len_nonneg w); lia.
Qed.

Lemma NextToken_eof inp t k sp w :
  plain w -> 0 <= k -> drop (Z.to_nat k) inp = w ->
  NextToken (st inp t k sp) = Ret (st inp tokenEOF (k + len w + 1) sp).
Proof.
  intros Hw Hk Hd. unfold NextToken. cbn [sc_input st].
  pose proof (f_equal length Hd) as Hlen. rewrite length_drop in Hlen.
  replace (S (length inp)) with (length w + S (length inp - length w))%nat by lia.
  rewrite <- (app_nil_r w) in Hd.
  rewrite (nextTokenLoop_skip _ _ _ _ _ _ _ Hw Hk Hd).
  cbn. unfold char_at at 1. rewrite lookup_ge_None_2 by (unfold len; lia). cbn.
  unfold st, set_token. cbn. apply Next_st. pose proof (len_nonneg w); lia.
Qed.

Lemma plain_split l :
  plain l \/ ∃ w c rest tk, l = w ++ c :: rest /\ plain w /\ classify c = Some tk.
Proof.
  induction l as [|c l [IH|(w & d & rest & tk & -> & Hw & Hd)]].
  - left; constructor.
  - destruct (classify c) as [tk|] eqn:Hc; [right|left; by constructor].
    exists [], c, l, tk. repeat split; [constructor|done].
  - right. destruct (classify c) as [tk'|] eqn:Hc.
    + exists [], c, (w ++ d :: rest), tk'. repeat split; [constructor|done].
    + exists (c :: w), d, rest, tk. repeat split; [|done]. by constructor.
Qed.

(** [NextToken] returns from every reachable position, strictly ahead of it. *)
Lemma NextToken_returns inp t k sp : 0 <= k <= len inp ->
  ∃ tk j, NextToken (st inp t k sp) = Ret (st inp tk (j + 1) sp) /\
    k <= j <= len inp /\ tk <> tokenUnknown /\ (tk = tokenEOF \/ j < len inp).
Proof.
  intros Hk. pose proof (len_drop (Z.to_nat k) inp) as Hlen.
  destruct (plain_split (drop (Z.to_nat k) inp)) as [Hp|(w & c & rest & tk & Hd & Hw & Hc)].
  - eexists _, _. split; [eapply NextToken_eof; [done|lia|done]|].
    split; [lia|]. auto.
  - rewrite Hd in Hlen. autorewrite with len in Hlen.
    pose proof (len_nonneg w). pose proof (len_nonneg rest).
    eexists _, _. split; [eapply NextToken_special; [done|done|lia|done]|].
    split; [lia|]. split; [by eapply classify_not_unknown|]. right; lia.
Qed.

End Scanner.

(** ** parser.go *)
Module Parser.
Import Scanner.

Record node := mkNode {
  nt : nodeType;
  value : bytes;
  enums : list bytes;
  argName : bytes;
  hasArg : bool
}.

(** [node{nt: t, value: v}], the other fields zero. *)
Definition node_of (t : nodeType) (v : bytes) : node := mkNode t v [] [] false.

Definition isEnum (n : node) : bool := bool_decide (nt n = enumType).

Definition isConst (n : node) : bool := bool_decide (nt n = constType).

Definition addEnum (v : bytes) (n : node) : node :=
  mkNode (nt n) (value n) (enums n ++ [v]) (argName n) (hasArg n).

Definition setArgName (v : bytes) (n : node) : node :=
  mkNode (nt n) (value n) (enums n) v true.

Definition isNumberValue (n : node) : bool :=
  forallb (λ v, negb ((v <? ch "0") || (ch "9" <? v))) (value n).

Definition isMatchAllConstString (n : node) : bool :=
  match value n with [v] => v =? ch "*" | _ => false end.

Definition inEnumValue (n : node) (v : bytes) : bool :=
  fold_left (λ found enum, if bytes_eqb enum v then true else found) (enums n) false.

(** The messages of the [fmt.Errorf] calls of [parse]. *)
Inductive parseError :=
| ErrDoubleSlash        (* // not allowed *)
| ErrNamedArgConst      (* named arg not support const pattern *)
| ErrLParenNotAfterSlash (* ( must after / *)
| ErrNotEnumType        (* not a enum type *)
| ErrUnexpectedColon    (* unexpect : token *)
| ErrMissingColon       (* missing : with enum type *)
| ErrUnknownType (v : bytes) (* unknown type: %s *)
| ErrMissingEnum        (* missing enum *)
| ErrMissingLParen      (* missing ( *)
| ErrMustStartSlash.    (* must start with / *)

Record parser := mkParser { p_nodes : list node; p_input : bytes; p_lexer : scanner }.

Definition newParser (input : bytes) : outcome parser :=
  input ← (if 1 <? len input then
             c ← byte_at input (len input - 1);
             if c =? slash then slice input 0 (len input - 1) else Ret input
           else Ret input);
  lexer ← newScanner input;
  Ret (mkParser [] input lexer).

(** [prevNode]: a pointer to the last element of [p.nodes]; its updates are in place. *)
Definition prevNode (p : parser) : option node := last (p_nodes p).

Definition updPrev (f : node -> node) (p : parser) : parser :=
  mkParser (alter f (pred (length (p_nodes p))) (p_nodes p)) (p_input p) (p_lexer p).

Definition appendNode (n : node) (p : parser) : parser :=
  mkParser (p_nodes p ++ [n]) (p_input p) (p_lexer p).

Definition set_lexer (s : scanner) (p : parser) : parser :=
  mkParser (p_nodes p) (p_input p) s.

(** [p.lexer.ScanString()] *)
Definition scan (p : parser) : outcome (bytes * parser) :=
  '(v, s) ← ScanString (p_lexer p); Ret (v, set_lexer s p).

(** One turn of the [for] of [parse]: continue, or return nodes or an error. *)
Inductive stepResult :=
| Continue (p : parser) (prev : token) (prevIndex : Z)
| Done (r : parseError + list node).

(** The arm shared by [tokenSlash] and [tokenEOF] when the previous token is [:]. *)
Definition nameArg (p : parser) : outcome (parseError + parser) :=
  match prevNode p with
  | Some n =>
      if negb (isConst n) then '(v, p) ← scan p; Ret (inr (updPrev (setArgName v) p))
      else Ret (inl ErrNamedArgConst)
  | None => Ret (inl ErrNamedArgConst)
  end.

Definition onSlash (p : parser) (prev : token) (prevIndex : Z)
    : outcome (parseError + parser) :=
  r ← (if bool_decide (prev = tokenSlash) then
         if TokenIndex (p_lexer p) =? prevIndex + 1 then Ret (inl ErrDoubleSlash)
         else '(v, p) ← scan p; Ret (inr (appendNode (node_of constType v) p))
       else if bool_decide (prev = tokenColon) then nameArg p
       else if bool_decide (prev = tokenUnknown) then '(_, p) ← scan p; Ret (inr p)
       else Ret (inr p));
  Ret (match r with
       | inl e => inl e
       | inr p => inr (appendNode (node_of slashType slashValue) p)
       end).

Definition onLParen (p : parser) (prev : token) : outcome (parseError + parser) :=
  if negb (bool_decide (prev = tokenSlash)) then Ret (inl ErrLParenNotAfterSlash)
  else '(_, p) ← scan p; Ret (inr p).

Definition onColon (p : parser) (prev : token) : outcome (parseError + parser) :=
  if bool_decide (prev = tokenLParen) then
    '(v, p) ← scan p;
    if negb (bytes_eqb v enumValue) then Ret (inl ErrNotEnumType)
    else Ret (inr (appendNode (node_of enumType []) p))
  else if negb (bool_decide (prev = tokenRParen)) then Ret (inl ErrUnexpectedColon)
  else '(_, p) ← scan p; Ret (inr p).

Definition onVertical (p : parser) (prev : token) : outcome (parseError + parser) :=
  match prevNode p with
  | Some n =>
      if (bool_decide (prev = tokenColon) || bool_decide (prev = tokenVertical)) && isEnum n
      then '(v, p) ← scan p; Ret (inr (updPrev (addEnum v) p))
      else Ret (inl ErrMissingColon)
  | None => Ret (inl ErrMissingColon)
  end.

Definition onRParen (p : parser) (prev : token) : outcome (parseError + parser) :=
  if bool_decide (prev = tokenLParen) then
    '(v, p) ← scan p;
    if bytes_eqb v stringValue then Ret (inr (appendNode (node_of stringType []) p))
    else if bytes_eqb v numberValue then Ret (inr (appendNode (node_of numberType []) p))
    else Ret (inl (ErrUnknownType v))
  else if bool_decide (prev = tokenVertical) then
    match prevNode p with
    | Some n =>
        if negb (isEnum n) then Ret (inl ErrMissingEnum)
        else '(v, p) ← scan p; Ret (inr (updPrev (addEnum v) p))
    | None => Ret (inl ErrMissingEnum)
    end
  else Ret (inl ErrMissingLParen).

Definition onEOF (p : parser) (prev : token) : outcome (parseError + parser) :=
  if bool_decide (prev = tokenSlash) then
    '(v, p) ← scan p; Ret (inr (appendNode (node_of constType v) p))
  else if bool_decide (prev = tokenColon) then nameArg p
  else if bool_decide (prev = tokenUnknown) then Ret (inl ErrMustStartSlash)
  else Ret (inr p).

(** The [switch token] of [parse]; [break] leaves the switch, so the loop goes on. *)
Definition onToken (p : parser) (tok prev : token) (prevIndex : Z)
    : outcome stepResult :=
  let continue (r : parseError + parser) :=
    match r with
    | inl e => Done (inl e)
    | inr p => Continue p tok (TokenIndex (p_lexer p))
    end in
  match tok with
  | tokenSlash => continue <$> onSlash p prev prevIndex
  | tokenLParen => continue <$> onLParen p prev
  | tokenColon => continue <$> onColon p prev
  | tokenVertical => continue <$> onVertical p prev
  | tokenRParen => continue <$> onRParen p prev
  | tokenEOF => (λ r, Done (match r with inl e => inl e | inr p => inr (p_nodes p) end))
                  <$> onEOF p prev
  | tokenUnknown => Ret (continue (inr p))
  end.

Definition parseStep (p : parser) (prev : token) (prevIndex : Z) : outcome stepResult :=
  lexer ← NextToken (p_lexer p);
  let p := set_lexer lexer p in
  onToken p (Token (p_lexer p)) prev prevIndex.

Fixpoint parseLoop (fuel : nat) (p : parser) (prev : token) (prevIndex : Z)
    : outcome (parseError + list node) :=
  match fuel with
  | O => Hang
  | S fuel =>
      r ← parseStep p prev prevIndex;
      match r with
      | Done r => Ret r
      | Continue p prev prevIndex => parseLoop fuel p prev prevIndex
      end
  end.

(** Every turn but the last consumes a byte: [len + 1] turns are enough. *)
Definition parse (p : parser) : outcome (parseError + list node) :=
  if bool_decide (p_input p = [slash])
  then Ret (inr [node_of slashType slashValue])
  else parseLoop (S (length (p_input p))) p tokenUnknown (-1).

(** [newParser(input).parse()], as both callers use it. *)
Definition parseInput (input : bytes) : outcome (parseError + list node) :=
  p ← newParser input; parse p.

(** *** Parser states *)

(** The parser over [inp] with lexer position [k] and string start [sp]. *)
Definition pst (inp : bytes) (ns : list node) (t : token) (k sp : Z) : parser :=
  mkParser ns inp (st inp t k sp).

Lemma scan_pst inp ns t k sp : 0 <= sp <= k - 1 -> k - 1 <= len inp ->
  scan (pst inp ns t k sp) =
    Ret (take (Z.to_nat (k - 1 - sp)) (drop (Z.to_nat sp) inp), pst inp ns t k k).
Proof.
  intros H1 H2. unfold scan, ScanString, pst, set_lexer; cbn.
  rewrite slice_in_range by lia. done.
Qed.

(** [ScanString] when the text since [sp] is [w]. *)
Lemma scan_word inp ns t k sp w rest : 0 <= sp <= len inp -> k = sp + len w + 1 ->
  drop (Z.to_nat sp) inp = w ++ rest ->
  scan (pst inp ns t k sp) = Ret (w, pst inp ns t k k).
Proof.
  intros Hsp -> Hd. pose proof (len_drop (Z.to_nat sp) inp) as Hlen. rewrite Hd in Hlen.
  autorewrite with len in Hlen. pose proof (len_nonneg w). pose proof (len_nonneg rest).
  rewrite scan_pst by lia. rewrite Hd.
  replace (Z.to_nat (sp + len w + 1 - 1 - sp)) with (length w) by (unfold len; lia).
  by rewrite take_app_length.
Qed.

(** *** Termination and absence of panics *)

Definition upd_last (f : node -> node) (ns : list node) : list node :=
  alter f (pred (length ns)) ns.

Lemma upd_last_snoc f ns n : upd_last f (ns ++ [n]) = ns ++ [f n].
Proof.
  unfold upd_last. rewrite length_app. cbn.
  replace (pred (length ns + 1)) with (length ns) by lia.
  by rewrite alter_app_r_alt, Nat.sub_diag.
Qed.

(** The node list only grows at its end, or has its last node filled in. *)
Inductive grows (ns : list node) : list node -> Prop :=
| grows_refl : grows ns ns
| grows_app ns' n : grows ns ns' -> grows ns (ns' ++ [n])
| grows_upd f ns' : (∀ n, nt (f n) = nt n) -> grows ns ns' -> grows ns (upd_last f ns').

(** What every arm of [parse] leaves: an error, or the parser at the same byte with the
    string start unchanged or moved up to it, and the nodes grown. *)
Definition arm_ok inp tk k ns (m : outcome (parseError + parser)) : Prop :=
  (∃ e, m = Ret (inl e)) \/
  (∃ ns' sp, m = Ret (inr (pst inp ns' tk k sp)) /\ 0 <= sp <= k /\ grows ns ns').

Lemma arm_err inp tk k ns e : arm_ok inp tk k ns (Ret (inl e)).
Proof. left; eauto. Qed.

Lemma arm_pst inp tk k ns ns' sp : 0 <= sp <= k -> grows ns ns' ->
  arm_ok inp tk k ns (Ret (inr (pst inp ns' tk k sp))).
Proof. right; eauto. Qed.

#[local] Hint Constructors grows : core.

Lemma appendNode_pst n inp ns t k sp :
  appendNode n (pst inp ns t k sp) = pst inp (ns ++ [n]) t k sp.
Proof. done. Qed.

Lemma updPrev_pst f inp ns t k sp :
  updPrev f (pst inp ns t k sp) = pst inp (upd_last f ns) t k sp.
Proof. done. Qed.

Ltac arm_solve Hsp :=
  repeat first
    [ progress rewrite ?updPrev_pst, ?appendNode_pst | apply arm_err | apply arm_pst; [lia|solve [eauto using grows_upd]]
    | rewrite (scan_pst _ _ _ _ _ (proj1 Hsp) (proj2 Hsp)); cbn [mbind outcome_mbind fmap outcome_fmap]
    | case_bool_decide; cbn [mbind outcome_mbind orb andb negb]
    | match goal with
      | |- context [match prevNode ?p with _ => _ end] => destruct (prevNode p)
      | |- context [if ?b then _ else _] => destruct b; cbn [mbind outcome_mbind andb negb]
      end ].

Lemma onEOF_ok inp ns tk k sp prev : 0 <= sp <= k - 1 /\ k - 1 <= len inp ->
  arm_ok inp tk k ns (onEOF (pst inp ns tk k sp) prev).
Proof. intros Hsp. unfold onEOF, nameArg. arm_solve Hsp. Qed.

Lemma onSlash_ok inp ns tk k sp prev pi : 0 <= sp <= k - 1 /\ k - 1 <= len inp ->
  arm_ok inp tk k ns (onSlash (pst inp ns tk k sp) prev pi).
Proof. intros Hsp. unfold onSlash, nameArg. arm_solve Hsp. Qed.

Lemma onLParen_ok inp ns tk k sp prev : 0 <= sp <= k - 1 /\ k - 1 <= len inp ->
  arm_ok inp tk k ns (onLParen (pst inp ns tk k sp) prev).
Proof. intros Hsp. unfold onLParen. arm_solve Hsp. Qed.

Lemma onColon_ok inp ns tk k sp prev : 0 <= sp <= k - 1 /\ k - 1 <= len inp ->
  arm_ok inp tk k ns (onColon (pst inp ns tk k sp) prev).
Proof. intros Hsp. unfold onColon. arm_solve Hsp. Qed.

Lemma onVertical_ok inp ns tk k sp prev : 0 <= sp <= k - 1 /\ k - 1 <= len inp ->
  arm_ok inp tk k ns (onVertical (pst inp ns tk k sp) prev).
Proof. intros Hsp. unfold onVertical. arm_solve Hsp. Qed.

Lemma onRParen_ok inp ns tk k sp prev : 0 <= sp <= k - 1 /\ k - 1 <= len inp ->
  arm_ok inp tk k ns (onRParen (pst inp ns tk k sp) prev).
Proof. intros Hsp. unfold onRParen. arm_solve Hsp. Qed.

Ltac arm_step L :=
  let e := fresh "e" in let ns := fresh "ns" in let sp := fresh "sp" in
  destruct L as [(e & ->)|(ns & sp & -> & ? & ?)]; cbn.

(** One turn returns; if it continues, it has consumed at least one byte. *)
Lemma parseStep_ok inp ns t k sp prev pi : 0 <= sp <= k -> k <= len inp ->
  (∃ r, parseStep (pst inp ns t k sp) prev pi = Ret (Done r) /\
     ∀ ns', r = inr ns' -> grows ns ns') \/
  (∃ ns' t' k' sp' prev' pi',
     parseStep (pst inp ns t k sp) prev pi = Ret (Continue (pst inp ns' t' k' sp') prev' pi') /\
     0 <= sp' <= k' /\ k < k' <= len inp /\ grows ns ns').
Proof.
  intros Hsp Hk. unfold parseStep, onToken. cbn [p_lexer pst].
  destruct (NextToken_returns inp t k sp) as (tk & j & -> & Hj & Htk & Hlt); [lia|].
  cbn [mbind outcome_mbind]. change (set_lexer _ _) with (pst inp ns tk (j + 1) sp).
  assert (Hsp' : 0 <= sp <= (j + 1) - 1 /\ (j + 1) - 1 <= len inp) by lia.
  cbn [p_lexer pst Token sc_token st].
  destruct tk; try done;
    [ arm_step (onEOF_ok inp ns tokenEOF _ _ prev Hsp')
    | arm_step (onSlash_ok inp ns tokenSlash _ _ prev pi Hsp')
    | arm_step (onLParen_ok inp ns tokenLParen _ _ prev Hsp')
    | arm_step (onRParen_ok inp ns tokenRParen _ _ prev Hsp')
    | arm_step (onVertical_ok inp ns tokenVertical _ _ prev Hsp')
    | arm_step (onColon_ok inp ns tokenColon _ _ prev Hsp') ];
    first [ left; eexists; split; [done|]; by intros ? [= <-]
          | right; repeat eexists; [lia|lia|lia| |done]; destruct Hlt; [done|lia] ].
Qed.

Lemma parseLoop_returns f : ∀ inp ns t k sp prev pi,
  0 <= sp <= k -> k <= len inp -> len inp - k < Z.of_nat f ->
  returns (parseLoop f (pst inp ns t k sp) prev pi).
Proof.
  induction f as [|f IH]; intros inp ns t k sp prev pi Hsp Hk Hf; [lia|].
  cbn [parseLoop].
  destruct (parseStep_ok inp ns t k sp prev pi Hsp Hk)
    as [(r & -> & _)|(ns' & t' & k' & sp' & prev' & pi' & -> & ? & ? & _)]; cbn.
  - by eexists.
  - apply IH; lia.
Qed.

Lemma grows_trans ns1 ns2 ns3 : grows ns1 ns2 -> grows ns2 ns3 -> grows ns1 ns3.
Proof. intros H. induction 1; auto. Qed.

Lemma parseLoop_grows f : ∀ inp ns t k sp prev pi ns',
  0 <= sp <= k -> k <= len inp ->
  parseLoop f (pst inp ns t k sp) prev pi = Ret (inr ns') -> grows ns ns'.
Proof.
  induction f as [|f IH]; intros inp ns t k sp prev pi ns' Hsp Hk Hr; [done|].
  cbn [parseLoop] in Hr.
  destruct (parseStep_ok inp ns t k sp prev pi Hsp Hk)
    as [(r & E & Hg)|(ns1 & t' & k' & sp' & prev' & pi' & E & ? & ? & Hg)];
    rewrite E in Hr; cbn in Hr.
  - injection Hr as ->. by apply Hg.
  - eapply grows_trans; [exact Hg|]. eapply IH; [| |exact Hr]; lia.
Qed.

Lemma grows_head ns ns' : grows ns ns' ->
  ∀ n l, ns = n :: l -> ∃ n' l', ns' = n' :: l' /\ nt n' = nt n.
Proof.
  induction 1 as [|ns' m Hg IH|f ns' Hf Hg IH]; intros n l ->; [eauto| |].
  - destruct (IH n l eq_refl) as (n' & l' & -> & Hn). by exists n', (l' ++ [m]).
  - destruct (IH n l eq_refl) as (n' & l' & -> & Hn). unfold upd_last. cbn.
    destruct l' as [|m l']; cbn.
    + exists (f n'), []. by rewrite Hf.
    + by eexists _, _.
Qed.

(** [newParser] drops one trailing slash. *)
Definition trim (input : bytes) : bytes :=
  if (1 <? len input) && bool_decide (last input = Some slash)
  then take (pred (length input)) input else input.

Lemma newParser_pst input : newParser input = Ret (pst (trim input) [] tokenEOF 0 0).
Proof.
  unfold newParser, trim. bcase; cbn; [|by rewrite newScanner_st].
  destruct (byte_at_in_range input (len input - 1)) as (c & -> & Hc); [lia|]. cbn.
  replace (Z.to_nat (len input - 1)) with (pred (length input)) in Hc by (unfold len; lia).
  rewrite last_lookup, Hc. bcase.
  - subst c. rewrite bool_decide_true by done. rewrite slice_in_range by lia. cbn.
    rewrite newScanner_st. cbn. unfold pst. repeat f_equal; unfold len; lia.
  - rewrite bool_decide_false by congruence. cbn. by rewrite newScanner_st.
Qed.

Lemma parseInput_eq input :
  parseInput input =
    if bool_decide (trim input = [slash]) then Ret (inr [node_of slashType slashValue])
    else parseLoop (S (length (trim input))) (pst (trim input) [] tokenEOF 0 0) tokenUnknown (-1).
Proof. unfold parseInput. rewrite newParser_pst. done. Qed.

Lemma parse_returns : ∀ input, ∃ r, parseInput input = Ret r.
Proof.
  intros input. rewrite parseInput_eq. case_bool_decide; [by eexists|].
  apply parseLoop_returns; unfold len; lia.
Qed.

(** On every byte string, registered pattern or request path, the pattern parser
    returns nodes or one of its syntax errors: it neither loops nor panics on a slice
    bound. *)
Theorem parse_total : ∀ input, ∃ r, parseInput input = Ret r.
Proof. exact parse_returns. Qed.

(** What an accepted input starts with: the first node is a slash. *)
Lemma parse_starts_slash input ns :
  parseInput input = Ret (inr ns) -> ∃ n l, ns = n :: l /\ nt n = slashType.
Proof.
  rewrite parseInput_eq. case_bool_decide; [intros [= <-]; by eexists _, _|].
  generalize (trim input) as inp. clear. intros inp. cbn [parseLoop]. unfold parseStep.
  cbn [p_lexer pst].
  destruct (NextToken_returns inp tokenEOF 0 0) as (tk & j & -> & Hj & Htk & Hlt);
    [pose proof (len_nonneg inp); lia|].
  cbn [mbind outcome_mbind]. change (set_lexer _ _) with (pst inp [] tk (j + 1) 0).
  cbn [p_lexer pst Token sc_token st]. unfold onToken. intros Hr.
  destruct tk; try done.
  - unfold onSlash in Hr. revert Hr. bdec. rewrite scan_pst by lia. cbn. intros Hr.
    apply parseLoop_grows in Hr; [|lia|destruct Hlt; [done|lia]].
    destruct (grows_head _ _ Hr _ _ eq_refl) as (n' & l' & -> & Hn). by eexists _, _.
Qed.

(** *** Patterns and their text *)

(** A segment of a URL pattern: [/v], [/(number)], [/(string)] or [/(enum:v1|..|vn)],
    the last three with an optional [:argname]. *)
Inductive segment :=
| SConst (v : bytes)
| STyped (number : bool) (arg : option bytes)
| SEnum (v : bytes) (vs : list bytes) (arg : option bytes).

Definition print_arg (arg : option bytes) : bytes :=
  match arg with Some a => ch ":" :: a | None => [] end.

Definition print_alts (vs : list bytes) : bytes := mjoin (map (λ w, ch "|" :: w) vs).

Definition typed_name (number : bool) : bytes := if number then numberValue else stringValue.

(** The text of a segment after its slash. *)
Definition print_body (s : segment) : bytes :=
  match s with
  | SConst v => v
  | STyped number arg => ch "(" :: typed_name number ++ ch ")" :: print_arg arg
  | SEnum v vs arg =>
      ch "(" :: enumValue ++ ch ":" :: v ++ print_alts vs ++ ch ")" :: print_arg arg
  end.

Definition print (segs : list segment) : bytes := mjoin (map (λ s, slash :: print_body s) segs).

Definition wf_arg (arg : option bytes) : Prop :=
  match arg with Some a => plain a | None => True end.

Definition wf_segment (s : segment) : Prop :=
  match s with
  | SConst v => v <> [] /\ plain v
  | STyped _ arg => wf_arg arg
  | SEnum v vs arg => vs <> [] /\ plain v /\ Forall plain vs /\ wf_arg arg
  end.

Definition with_arg (arg : option bytes) (n : node) : node :=
  match arg with Some a => setArgName a n | None => n end.

(** A typed segment without an argument name: the parser leaves the string start on the
    next slash. *)
Definition unnamed (s : segment) : bool :=
  match s with STyped _ None | SEnum _ _ None => true | _ => false end.

Definition const_value (stale : bool) (v : bytes) : bytes := if stale then slash :: v else v.

Definition segment_node (stale : bool) (s : segment) : node :=
  match s with
  | SConst v => node_of constType (const_value stale v)
  | STyped number arg => with_arg arg (node_of (if number then numberType else stringType) [])
  | SEnum v vs arg => with_arg arg (mkNode enumType [] (v :: vs) [] false)
  end.

Fixpoint pattern_nodes (stale : bool) (segs : list segment) : list node :=
  match segs with
  | [] => []
  | s :: segs =>
      node_of slashType slashValue :: segment_node stale s :: pattern_nodes (unnamed s) segs
  end.

(** *** Parsing printed patterns *)

(** Some number of turns of [parse] returns [r]. *)
Definition runs (p : parser) (prev : token) (pi : Z) (r : parseError + list node) : Prop :=
  ∃ f, parseLoop f p prev pi = Ret r.

Lemma parseLoop_more f m : ∀ p prev pi r,
  parseLoop f p prev pi = Ret r -> parseLoop (f + m) p prev pi = Ret r.
Proof.
  induction f as [|f IH]; cbn; intros p prev pi r H; [done|].
  bind_inv H. destruct a; [by apply IH|done].
Qed.

Lemma runs_unique p prev pi f r r' :
  parseLoop f p prev pi = Ret r' -> runs p prev pi r -> r' = r.
Proof.
  intros H [f' H']. apply (parseLoop_more _ f') in H. apply (parseLoop_more _ f) in H'.
  rewrite Nat.add_comm in H'. congruence.
Qed.

(** A turn over a plain word and a special byte, or over the last word. *)
Lemma runs_special inp ns t k sp prev pi w c rest tk p' r :
  plain w -> classify c = Some tk -> 0 <= k -> drop (Z.to_nat k) inp = w ++ c :: rest ->
  onToken (pst inp ns tk (k + len w + 1) sp) tk prev pi =
    Ret (Continue p' tk (k + len w)) ->
  runs p' tk (k + len w) r -> runs (pst inp ns t k sp) prev pi r.
Proof.
  intros Hw Hc Hk Hd Hs [f Hr]. exists (S f). cbn [parseLoop]. unfold parseStep.
  cbn [p_lexer pst]. rewrite (NextToken_special _ _ _ _ _ _ _ _ Hw Hc Hk Hd).
  cbn [mbind outcome_mbind]. change (set_lexer _ _) with (pst inp ns tk (k + len w + 1) sp).
  cbn [p_lexer pst Token sc_token st]. by rewrite Hs.
Qed.

Lemma runs_eof inp ns t k sp prev pi w r :
  plain w -> 0 <= k -> drop (Z.to_nat k) inp = w ->
  onToken (pst inp ns tokenEOF (k + len w + 1) sp) tokenEOF prev pi = Ret (Done r) ->
  runs (pst inp ns t k sp) prev pi r.
Proof.
  intros Hw Hk Hd Hs. exists 1%nat. cbn [parseLoop]. unfold parseStep.
  cbn [p_lexer pst]. rewrite (NextToken_eof _ _ _ _ _ Hw Hk Hd).
  cbn [mbind outcome_mbind]. change (set_lexer _ _) with (pst inp ns tokenEOF (k + len w + 1) sp).
  cbn [p_lexer pst Token sc_token st]. by rewrite Hs.
Qed.

Lemma updPrev_snoc f inp ns n t k sp :
  updPrev f (pst inp (ns ++ [n]) t k sp) = pst inp (ns ++ [f n]) t k sp.
Proof.
  unfold updPrev, pst; cbn. f_equal. apply upd_last_snoc.
Qed.

Lemma TokenIndex_st inp t k sp : TokenIndex (st inp t (k + 1) sp) = k.
Proof. unfold TokenIndex; cbn; lia. Qed.

Lemma prevNode_snoc inp ns n t k sp : prevNode (pst inp (ns ++ [n]) t k sp) = Some n.
Proof. apply last_snoc. Qed.

(** What a turn leaves to be recorded when it reads the next slash or the end: nothing
    yet, a constant's text (with or without the slash before it), a typed segment already
    recorded, or an argument name. *)
Inductive pending :=
| PStart
| PConst (stale : bool) (v : bytes)
| PTyped
| PArg (a : bytes).

Definition pend_text (q : pending) : bytes :=
  match q with PConst _ v => v | PArg a => a | _ => [] end.

Definition pend_prev (q : pending) : token :=
  match q with
  | PStart => tokenUnknown | PConst _ _ => tokenSlash | PTyped => tokenRParen
  | PArg _ => tokenColon
  end.

Definition pend_sp (q : pending) (k : Z) : Z :=
  match q with PConst true _ => k - 1 | _ => k end.

Definition pend_typed (q : pending) : bool := match q with PTyped => true | _ => false end.

Definition flush (q : pending) (ns : list node) : list node :=
  match q with
  | PConst stale v => ns ++ [node_of constType (const_value stale v)]
  | PArg a => upd_last (setArgName a) ns
  | _ => ns
  end.

Definition pend_ok (inp : bytes) (k : Z) (ns : list node) (q : pending) : Prop :=
  match q with
  | PStart => k = 0
  | PConst stale v => v <> [] /\ plain v /\ 1 <= k /\
      (stale = true -> ∃ tl, drop (Z.to_nat (k - 1)) inp = slash :: tl)
  | PTyped => True
  | PArg a => plain a /\ ∃ ns' n, ns = ns' ++ [n] /\ isConst n = false
  end.

Lemma pend_plain inp k ns q : pend_ok inp k ns q -> plain (pend_text q).
Proof. destruct q; cbn; try constructor; tauto. Qed.

(** Recording the pending text when the next special byte is read at [k + len text]. *)
Lemma scan_pending inp ns t k q rest :
  pend_ok inp k ns q -> 0 <= k <= len inp -> drop (Z.to_nat k) inp = pend_text q ++ rest ->
  let j := k + len (pend_text q) + 1 in
  scan (pst inp ns t j (pend_sp q k)) =
    Ret (match q with PConst stale v => const_value stale v | _ => pend_text q end,
         pst inp ns t j j).
Proof.
  intros Hq Hk Hd. destruct q as [|[] v| |a]; cbn in *;
    try (by eapply scan_word; [lia| |done]; lia).
  destruct Hq as (_ & _ & Hk1 & [tl Htl]); [done|].
  destruct (drop_next inp (k - 1) _ _ ltac:(lia) Htl) as (_ & Htl' & _).
  replace (k - 1 + 1) with k in Htl' by lia. rewrite Htl' in Hd. subst tl.
  eapply scan_word; [lia| rewrite len_cons; lia |]. exact Htl.
Qed.

Lemma drop_le {A} (inp : list A) k c w : 0 <= k -> drop (Z.to_nat k) inp = c :: w ->
  k <= len inp.
Proof. intros Hk Hd. apply drop_next in Hd; lia. Qed.

(** Reading the slash of the next segment. *)
Lemma runs_slash inp ns t k q rest r :
  pend_ok inp k ns q -> 0 <= k <= len inp ->
  drop (Z.to_nat k) inp = pend_text q ++ slash :: rest ->
  (let j := k + len (pend_text q) in
   runs (pst inp (flush q ns ++ [node_of slashType slashValue]) tokenSlash (j + 1)
          (if pend_typed q then j else j + 1)) tokenSlash j r) ->
  runs (pst inp ns t k (pend_sp q k)) (pend_prev q) (k - 1) r.
Proof.
  intros Hq Hk Hd Hr. pose proof (len_nonneg (pend_text q)).
  eapply (runs_special _ _ _ _ _ _ _ (pend_text q) slash rest tokenSlash);
    [by eapply pend_plain|reflexivity|lia|exact Hd| |exact Hr].
  pose proof (scan_pending inp ns tokenSlash k q _ Hq Hk Hd) as Hs. cbn zeta in Hs.
  unfold onToken, onSlash.
  destruct q as [|stale v| |a]; cbn [pend_prev pend_typed flush pend_text] in *.
  - rewrite bool_decide_false, bool_decide_false, bool_decide_true by done.
    rewrite Hs. cbn. do 3 f_equal. apply TokenIndex_st.
  - bdec. cbn [p_lexer pst TokenIndex sc_bp st].
    bcase.
    { exfalso. destruct Hq as (Hv & _). apply Hv, len_zero.
      unfold TokenIndex in *; cbn in *. lia. }
    rewrite Hs. cbn. do 3 f_equal. apply TokenIndex_st.
  - bdec. cbn. rewrite len_nil, Z.add_0_r. do 2 f_equal.
    apply TokenIndex_st.
  - bdec. unfold nameArg.
    destruct Hq as (_ & ns' & n & -> & Hn). rewrite prevNode_snoc, Hn. cbn [negb].
    rewrite Hs. cbn [mbind outcome_mbind]. rewrite updPrev_snoc.
    rewrite upd_last_snoc. cbn. do 3 f_equal. apply TokenIndex_st.
Qed.

(** Reading the end of the input. *)
Lemma runs_end inp ns t k q :
  pend_ok inp k ns q -> q <> PStart -> 0 <= k <= len inp ->
  drop (Z.to_nat k) inp = pend_text q ->
  runs (pst inp ns t k (pend_sp q k)) (pend_prev q) (k - 1) (inr (flush q ns)).
Proof.
  intros Hq Hne Hk Hd.
  eapply runs_eof; [by eapply pend_plain|lia|exact Hd|].
  rewrite <- (app_nil_r (pend_text q)) in Hd.
  pose proof (scan_pending inp ns tokenEOF k q _ Hq Hk Hd) as Hs. cbn zeta in Hs.
  unfold onToken, onEOF.
  destruct q as [|stale v| |a]; cbn [pend_prev pend_typed flush pend_text] in *; [done|..].
  - bdec. by rewrite Hs.
  - done.
  - bdec. unfold nameArg.
    destruct Hq as (_ & ns' & n & -> & Hn). rewrite prevNode_snoc, Hn. cbn [negb].
    rewrite Hs. cbn [mbind outcome_mbind]. rewrite updPrev_snoc. cbn.
    by rewrite upd_last_snoc.
Qed.

(** Reading [(]: the text between the slash and the parenthesis is dropped. *)
Lemma runs_lparen inp ns t k sp pi rest r :
  0 <= k -> 0 <= sp <= k -> drop (Z.to_nat k) inp = ch "(" :: rest ->
  runs (pst inp ns tokenLParen (k + 1) (k + 1)) tokenLParen k r ->
  runs (pst inp ns t k sp) tokenSlash pi r.
Proof.
  intros Hk Hsp Hd Hr. pose proof (drop_next _ _ _ _ Hk Hd) as (_ & _ & Hlt).
  eapply (runs_special _ _ _ _ _ _ _ [] (ch "(") rest tokenLParen);
    [constructor|reflexivity|lia|exact Hd| |rewrite len_nil, Z.add_0_r; exact Hr].
  rewrite len_nil, Z.add_0_r.
  unfold onToken, onLParen. bdec. rewrite scan_pst by lia. cbn.
  by rewrite TokenIndex_st.
Qed.

(** Reading [number)] or [string)]. *)
Lemma runs_typed inp ns t k number pi rest r :
  0 <= k <= len inp -> drop (Z.to_nat k) inp = typed_name number ++ ch ")" :: rest ->
  (let j := k + len (typed_name number) in
   runs (pst inp (ns ++ [node_of (if number then numberType else stringType) []])
          tokenRParen (j + 1) (j + 1)) tokenRParen j r) ->
  runs (pst inp ns t k k) tokenLParen pi r.
Proof.
  intros Hk Hd Hr.
  eapply (runs_special _ _ _ _ _ _ _ (typed_name number) (ch ")") rest tokenRParen);
    [destruct number; repeat constructor|reflexivity|lia|exact Hd| |exact Hr].
  unfold onToken, onRParen. bdec.
  rewrite (scan_word _ _ _ _ _ (typed_name number) (ch ")" :: rest)) by (lia || done).
  cbn [mbind outcome_mbind].
  replace (bytes_eqb (typed_name number) stringValue) with (negb number)
    by (destruct number; reflexivity).
  replace (bytes_eqb (typed_name number) numberValue) with number
    by (destruct number; reflexivity).
  destruct number; cbn; by rewrite TokenIndex_st.
Qed.

(** Reading [enum:]. *)
Lemma runs_enum inp ns t k pi rest r :
  0 <= k <= len inp -> drop (Z.to_nat k) inp = enumValue ++ ch ":" :: rest ->
  (let j := k + len enumValue in
   runs (pst inp (ns ++ [node_of enumType []]) tokenColon (j + 1) (j + 1)) tokenColon j r) ->
  runs (pst inp ns t k k) tokenLParen pi r.
Proof.
  intros Hk Hd Hr.
  eapply (runs_special _ _ _ _ _ _ _ enumValue (ch ":") rest tokenColon);
    [repeat constructor|reflexivity|lia|exact Hd| |exact Hr].
  unfold onToken, onColon. bdec.
  rewrite (scan_word _ _ _ _ _ enumValue (ch ":" :: rest)) by (lia || done).
  cbn [mbind outcome_mbind]. rewrite bytes_eqb_refl.
  cbn. by rewrite TokenIndex_st.
Qed.

(** Reading the alternatives of an enum up to the closing parenthesis. *)
Lemma runs_alts vs : ∀ v inp ns es t k prev pi rest r,
  plain v -> Forall plain vs -> 0 <= k <= len inp ->
  drop (Z.to_nat k) inp = v ++ print_alts vs ++ ch ")" :: rest ->
  (prev = tokenVertical \/ prev = tokenColon /\ vs <> []) ->
  (∀ j t', 0 <= j -> drop (Z.to_nat (j + 1)) inp = rest -> j < len inp ->
     runs (pst inp (ns ++ [mkNode enumType [] (es ++ v :: vs) [] false]) t' (j + 1) (j + 1))
       tokenRParen j r) ->
  runs (pst inp (ns ++ [mkNode enumType [] es [] false]) t k k) prev pi r.
Proof.
  induction vs as [|v' vs IH]; intros v inp ns es t k prev pi rest r Hv Hvs Hk Hd Hprev Hr;
    pose proof (len_nonneg v).
  - destruct Hprev as [->|[]]; [|done]. cbn in Hd.
    destruct (drop_next inp (k + len v) _ _ ltac:(lia) (drop_past _ _ _ _ (proj1 Hk) Hd))
      as (_ & Hrest & Hlt).
    eapply (runs_special _ _ _ _ _ _ _ v (ch ")") rest tokenRParen);
      [done|reflexivity|lia|exact Hd| |apply Hr; [lia|exact Hrest|lia]].
    unfold onToken, onRParen. bdec.
    rewrite prevNode_snoc. unfold isEnum. bdec.
    rewrite (scan_word _ _ _ _ _ v (ch ")" :: rest)) by (lia || done).
    cbn [mbind outcome_mbind]. rewrite updPrev_snoc. cbn. by rewrite TokenIndex_st.
  - apply Forall_cons in Hvs as [Hv' Hvs]. cbn in Hd.
    destruct (drop_next inp (k + len v) _ _ ltac:(lia) (drop_past _ _ _ _ (proj1 Hk) Hd))
      as (_ & Hrest & Hlt).
    rewrite <- app_assoc in Hrest.
    eapply (runs_special _ _ _ _ _ _ _ v (ch "|") _ tokenVertical);
      [done|reflexivity|lia|exact Hd| |].
    + unfold onToken, onVertical. rewrite prevNode_snoc.
      replace (_ && isEnum _) with true
        by (destruct Hprev as [->|[-> _]]; reflexivity).
      rewrite (scan_word _ _ _ _ _ v (ch "|" :: (v' ++ mjoin (map (λ w, ch "|" :: w) vs))
        ++ ch ")" :: rest)) by (lia || done).
      cbn [mbind outcome_mbind]. rewrite updPrev_snoc. cbn. by rewrite TokenIndex_st.
    + eapply IH; [done|done|lia|exact Hrest|by left|].
      intros j t' Hj Hdj Hlj. rewrite <- app_assoc. cbn. by apply Hr.
Qed.

(** Reading [:argname] after a closing parenthesis, if there is one; the name itself is
    pending. *)
Lemma runs_arg inp ns n t k arg rest r :
  isConst n = false -> wf_arg arg -> 0 <= k <= len inp ->
  drop (Z.to_nat k) inp = print_arg arg ++ rest ->
  (∀ q t' j, pend_ok inp j (ns ++ [n]) q -> q <> PStart -> 0 <= j <= len inp ->
     drop (Z.to_nat j) inp = pend_text q ++ rest ->
     flush q (ns ++ [n]) = ns ++ [with_arg arg n] ->
     pend_typed q = bool_decide (arg = None) ->
     runs (pst inp (ns ++ [n]) t' j (pend_sp q j)) (pend_prev q) (j - 1) r) ->
  runs (pst inp (ns ++ [n]) t k k) tokenRParen (k - 1) r.
Proof.
  intros Hn Ha Hk Hd Hr. destruct arg as [a|]; cbn in Hd.
  - destruct (drop_next _ _ _ _ (proj1 Hk) Hd) as (_ & Hrest & Hlt).
    eapply (runs_special _ _ _ _ _ _ _ [] (ch ":") _ tokenColon);
      [constructor|reflexivity|lia|exact Hd| |].
    + unfold onToken, onColon. bdec.
      rewrite (scan_word _ _ _ _ _ [] (ch ":" :: a ++ rest)) by (rewrite ?len_nil; lia || done).
      cbn. by rewrite TokenIndex_st.
    + rewrite len_nil, Z.add_0_r. replace k with (k + 1 - 1) at 3 by lia.
      apply (Hr (PArg a)); cbn; try done; try lia; [eauto | by rewrite upd_last_snoc].
  - apply (Hr PTyped); done.
Qed.

Lemma print_cons s segs : print (s :: segs) = slash :: print_body s ++ print segs.
Proof. reflexivity. Qed.

(** The main induction: from any pending text, parsing the rest of a printed pattern
    appends the nodes of its segments. *)
Lemma runs_print segs : ∀ q inp ns t k,
  Forall wf_segment segs -> pend_ok inp k ns q -> (segs = [] -> q <> PStart) ->
  0 <= k <= len inp -> drop (Z.to_nat k) inp = pend_text q ++ print segs ->
  runs (pst inp ns t k (pend_sp q k)) (pend_prev q) (k - 1)
    (inr (flush q ns ++ pattern_nodes (pend_typed q) segs)).
Proof.
  induction segs as [|s segs IH]; intros q inp ns t k Hwf Hq Hne Hk Hd.
  - cbn in *. rewrite app_nil_r in *. apply runs_end; auto.
  - apply Forall_cons in Hwf as [Hs Hwf]. rewrite print_cons in Hd.
    eapply runs_slash; [done|done|exact Hd|]. cbn zeta.
    pose proof (len_nonneg (pend_text q)).
    destruct (drop_next inp (k + len (pend_text q)) _ _ ltac:(lia)
      (drop_past _ _ _ _ (proj1 Hk) Hd)) as (_ & Hrest & Hlt).
    pose proof (drop_past _ _ _ _ (proj1 Hk) Hd) as Hslash.
    remember (k + len (pend_text q)) as j eqn:Hj.
    replace (flush q ns ++ pattern_nodes (pend_typed q) (s :: segs))
      with ((flush q ns ++ [node_of slashType slashValue]) ++
              segment_node (pend_typed q) s :: pattern_nodes (unnamed s) segs)
      by (by rewrite <- app_assoc).
    generalize (flush q ns ++ [node_of slashType slashValue]) as ns'. intros ns'.
    assert (Htail : ∀ n arg t' j' jj, isConst n = false -> wf_arg arg -> 0 <= j' <= len inp ->
      jj = j' - 1 -> drop (Z.to_nat j') inp = print_arg arg ++ print segs ->
      runs (pst inp (ns' ++ [n]) t' j' j') tokenRParen jj
        (inr (ns' ++ with_arg arg n ::
           pattern_nodes (match arg with None => true | _ => false end) segs))).
    { intros n arg t' j' jj Hn Ha Hj' -> Hd'. eapply runs_arg; [done|exact Ha|lia|exact Hd'|].
      intros q' t'' j'' Hq' Hne' Hj'' Hd'' Hfl Hty. rewrite (cons_middle (with_arg arg n)), app_assoc, <- Hfl.
      replace (match arg with None => true | _ => false end) with (pend_typed q')
        by (rewrite Hty; by destruct arg).
      apply IH; done. }
    destruct s as [v|number arg|v vs arg]; cbn [print_body wf_segment] in *.
    + destruct Hs as [Hv Hp].
      specialize (IH (PConst (pend_typed q) v) inp ns' tokenSlash (j + 1) Hwf).
      cbn [pend_sp pend_prev flush pend_text pend_typed pend_ok] in IH.
      rewrite <- app_assoc in IH. cbn [app] in IH.
      replace (j + 1 - 1) with j in IH by lia.
      destruct (pend_typed q); apply IH; try done; try lia;
        split_and!; try done; try lia; by eexists.
    + assert (Hr1 : drop (Z.to_nat (j + 1)) inp =
          ch "(" :: (typed_name number ++ ch ")" :: (print_arg arg ++ print segs)))
        by (rewrite Hrest; cbn; by rewrite <- app_assoc).
      eapply runs_lparen with (k := j + 1); [lia|destruct (pend_typed q); lia|exact Hr1|].
      destruct (drop_next inp (j + 1) _ _ ltac:(lia) Hr1) as (_ & Hr2 & Hlt2).
      eapply runs_typed; [lia|exact Hr2|]. cbn zeta.
      pose proof (len_nonneg (typed_name number)).
      destruct (drop_next inp (j + 1 + 1 + len (typed_name number)) _ _ ltac:(lia)
        (drop_past inp (j + 1 + 1) _ _ ltac:(lia) Hr2)) as (_ & Hr3 & Hlt3).
      eapply Htail with (arg := arg); [by destruct number|done|lia|lia|exact Hr3].
    + destruct Hs as (Hvs & Hv & Hvs' & Harg).
      assert (Hr1 : drop (Z.to_nat (j + 1)) inp =
          ch "(" :: (enumValue ++ ch ":" :: (v ++ print_alts vs ++ ch ")" ::
             (print_arg arg ++ print segs))))
        by (rewrite Hrest; cbn; by rewrite <- !app_assoc).
      eapply runs_lparen with (k := j + 1); [lia|destruct (pend_typed q); lia|exact Hr1|].
      destruct (drop_next inp (j + 1) _ _ ltac:(lia) Hr1) as (_ & Hr2 & Hlt2).
      eapply runs_enum; [lia|exact Hr2|]. cbn zeta.
      pose proof (len_nonneg enumValue).
      destruct (drop_next inp (j + 1 + 1 + len enumValue) _ _ ltac:(lia)
        (drop_past inp (j + 1 + 1) _ _ ltac:(lia) Hr2)) as (_ & Hr3 & Hlt3).
      eapply runs_alts; [done|done|lia|exact Hr3|by right|].
      intros j' t' Hj' Hd' Hlt'. cbn [app].
      eapply Htail with (arg := arg); [done|done|lia|lia|exact Hd'].
Qed.

(** The text of a segment is not empty and holds no slash, so [newParser] trims nothing. *)
Lemma plain_no_slash w : plain w -> Forall (λ c, c <> slash) w.
Proof. intros Hw. eapply Forall_impl; [exact Hw|]. intros c Hc ->. discriminate Hc. Qed.

Lemma print_arg_no_slash arg : wf_arg arg -> Forall (λ c, c <> slash) (print_arg arg).
Proof.
  destruct arg as [a|]; cbn; [|constructor]. intros Ha.
  constructor; [done|by apply plain_no_slash].
Qed.

Lemma print_body_no_slash s : wf_segment s ->
  print_body s <> [] /\ Forall (λ c, c <> slash) (print_body s).
Proof.
  assert (Hname : ∀ w, Forall (λ c, c <> slash) (typed_name w)) by (intros []; by repeat constructor).
  assert (Halts : ∀ vs, Forall plain vs -> Forall (λ c, c <> slash) (print_alts vs)).
  { induction vs as [|v vs IH]; intros Hvs; [constructor|].
    apply Forall_cons in Hvs as [Hv Hvs].
    change (Forall (λ c, c <> slash) (ch "|" :: v ++ print_alts vs)).
    constructor; [done|]. apply Forall_app; split; [by apply plain_no_slash|auto]. }
  destruct s as [v|number arg|v vs arg]; cbn [wf_segment print_body]; intros Hs.
  - destruct Hs. split; [done|by apply plain_no_slash].
  - split; [done|]. constructor; [done|]. apply Forall_app; split; [done|].
    constructor; [done|by apply print_arg_no_slash].
  - destruct Hs as (_ & Hv & Hvs & Ha). split; [done|]. constructor; [done|].
    apply Forall_app; split; [by repeat constructor|]. constructor; [done|].
    apply Forall_app; split; [by apply plain_no_slash|].
    apply Forall_app; split; [auto|]. constructor; [done|by apply print_arg_no_slash].
Qed.

Lemma print_last segs : Forall wf_segment segs -> segs <> [] -> last (print segs) <> Some slash.
Proof.
  induction segs as [|s segs IH]; [done|]. intros Hwf _. rewrite print_cons.
  apply Forall_cons in Hwf as [Hs Hwf]. destruct (print_body_no_slash s Hs) as [Hne Hns].
  destruct segs as [|s' segs].
  - cbn [print map mjoin list_join]. rewrite app_nil_r.
    destruct (print_body s) as [|c w]; [done|]. rewrite last_cons_cons. intros Hl.
    apply last_Some_elem_of in Hl. rewrite Forall_forall in Hns. by apply (Hns slash).
  - rewrite app_comm_cons. specialize (IH Hwf ltac:(done)). rewrite print_cons in *.
    by rewrite last_app_cons.
Qed.

Lemma trim_print segs : Forall wf_segment segs -> segs <> [] -> trim (print segs) = print segs.
Proof.
  intros Hwf Hne. unfold trim. rewrite (bool_decide_false (last _ = _)) by (by apply print_last).
  by rewrite andb_false_r.
Qed.

Lemma parse_printed : ∀ segs, segs <> [] -> Forall wf_segment segs ->
  parseInput (print segs) = Ret (inr (pattern_nodes false segs)).
Proof.
  intros segs Hne Hwf. rewrite parseInput_eq, trim_print by done.
  destruct segs as [|s segs]; [done|].
  rewrite bool_decide_false.
  2:{ rewrite print_cons. apply Forall_cons in Hwf as [Hs _].
      apply print_body_no_slash in Hs as [Hs _]. intros [= Hb]. apply app_eq_nil in Hb. tauto. }
  pose proof (len_nonneg (print (s :: segs))).
  destruct (parseLoop_returns (S (length (print (s :: segs)))) (print (s :: segs)) []
    tokenEOF 0 0 tokenUnknown (-1)) as [r Hr]; [lia|lia|unfold len; lia|].
  rewrite Hr. f_equal. eapply runs_unique; [exact Hr|].
  apply (runs_print (s :: segs) PStart); done || lia.
Qed.

(** C27: parsing the text of a pattern gives back its segments, for every list of constant,
    typed and enum segments with optional argument names.  The constant that follows a
    typed segment without a name is the exception the statement spells out: the parser
    leaves the string start on its slash, so its node holds [/v], not [v]. *)
Theorem parse_print : ∀ segs, segs <> [] -> Forall wf_segment segs ->
  parseInput (print segs) = Ret (inr (pattern_nodes false segs)).
Proof. exact parse_printed. Qed.

Lemma parse_print_witness : ∃ segs,
  (segs <> [] /\ Forall wf_segment segs) /\
  parseInput (print segs) = Ret (inr (pattern_nodes false segs)).
Proof.
  exists [SConst (str "a"); STyped true None; SConst (str "b");
          SEnum (str "x") [str "y"] (Some (str "k"))].
  assert (H : [SConst (str "a"); STyped true None; SConst (str "b");
          SEnum (str "x") [str "y"] (Some (str "k"))] <> []) by done.
  assert (H' : Forall wf_segment [SConst (str "a"); STyped true None; SConst (str "b");
          SEnum (str "x") [str "y"] (Some (str "k"))]) by (repeat constructor; done).
  split; [by split|exact (parse_print _ H H')].
Defined.

End Parser.
