(* ===== verification/RouteTable.v ===== *)
(** Model of the routing table [src/src/route/route.go]: the tree of [routeItem]s, [Add],
    which registers an API under its URL pattern, and [Find], which resolves a request.
    The tree is a value; a pointer into it ([parent] in [Add]) is the list of child
    positions from the root, and an update through the pointer is [updateAt]. *)
From Stdlib Require Import Sorting.Sorted.
From stdpp Require Import sorting.
From S2P Require Import Prelude Meta RouteParser.
Import Parser.

(** ** The tree *)

(** [apis] is [None] for a nil map. *)
#[warnings="-register-all"]
Inductive routeItem :=
| RouteItem (n : node) (cs : list routeItem) (m : option (gmap bytes Z)).

Definition item_node (i : routeItem) : node := match i with RouteItem n _ _ => n end.
Definition children (i : routeItem) : list routeItem := match i with RouteItem _ cs _ => cs end.
Definition apis (i : routeItem) : option (gmap bytes Z) := match i with RouteItem _ _ m => m end.

Definition item_rank (i : routeItem) : Z := nt_val (nt (item_node i)).

(** [sort.Slice(children, by node type)].  Go documents the result as sorted and the sort
    as not stable, so a client can rely on these two laws only. *)
Class SortSlice := {
  sortChildren : list routeItem -> list routeItem;
  sortChildren_perm l : sortChildren l ≡ₚ l;
  sortChildren_sorted l : Sorted Z.le (map item_rank (sortChildren l))
}.

(** [if parent.apis == nil { make }; parent.apis[method] = id] *)
Definition setAPI (id : Z) (method : bytes) (item : routeItem) : routeItem :=
  RouteItem (item_node item) (children item) (Some (<[method := id]> (default ∅ (apis item)))).

(** [urlMatches] with the match-all buffer threaded. *)
Definition urlMatches (item : routeItem) (n : node) (matchAllParam : bytes) : bool * bytes :=
  match nt (item_node item) with
  | slashType => (bool_decide (nt n = slashType), matchAllParam)
  | numberType => (isNumberValue n, matchAllParam)
  | enumType => (inEnumValue (item_node item) (value n), matchAllParam)
  | constType =>
      if isMatchAllConstString (item_node item)
      then (true, matchAllParam ++ [ch "/"] ++ value n)
      else (bytes_eqb (value (item_node item)) (value n), matchAllParam)
  | stringType => (true, matchAllParam)
  end.

Definition matches (item : routeItem) (n : node) : bool :=
  if negb (bool_decide (nt (item_node item) = nt n)) then false
  else match nt (item_node item) with
       | constType => bytes_eqb (value (item_node item)) (value n)
       | _ => true
       end.

Definition Route : Type := routeItem.

Definition NewRoute : Route := RouteItem (node_of slashType []) [] None.

(** [removeSlash]: keeps the first node and the nodes that are not slashes. *)
Definition removeSlash (nodes : list node) : list node :=
  match nodes with
  | [] => []
  | n :: nodes => n :: filter (λ n, nt n <> slashType) nodes
  end.

(** ** Add *)

Section WithSort.
Context {sort : SortSlice}.

(** [addChildren]: a chain of new items below [item], the API at its end.  The new item is
    placed by the sort, which looks only at node types, so filling it before or after the
    sort is the same. *)
Fixpoint addChildren (id : Z) (method : bytes) (nodes : list node) (item : routeItem)
    : routeItem :=
  match nodes with
  | [] => setAPI id method item
  | n :: nodes =>
      let p := addChildren id method nodes (RouteItem n [] None) in
      RouteItem (item_node item) (sortChildren (children item ++ [p])) (apis item)
  end.

(** The item at a path of child positions, and an update there. *)
Fixpoint updateAt (path : list nat) (f : routeItem -> routeItem) (item : routeItem)
    : routeItem :=
  match path with
  | [] => f item
  | i :: path => RouteItem (item_node item) (alter (updateAt path f) i (children item)) (apis item)
  end.

(** The first child that [matches], with its position. *)
Definition firstMatch (cs : list routeItem) (n : node) : option (nat * routeItem) :=
  list_find (λ item, matches item n = true) cs.

(** The matching loop of [Add]: the state is [parent] (with its path) and [matchedIdx]. *)
Fixpoint addLoop (nodes : list node) (idx : Z) (parent : routeItem) (path : list nat)
    (matchedIdx : Z) : routeItem * list nat * Z :=
  match nodes with
  | [] => (parent, path, matchedIdx)
  | n :: nodes =>
      if (idx =? 0) && matches parent n then addLoop nodes (idx + 1) parent path idx
      else match firstMatch (children parent) n with
           | Some (i, item) => addLoop nodes (idx + 1) item (path ++ [i]) idx
           | None => (parent, path, matchedIdx)
           end
  end.

(** [ErrConflict ids]: "conflict with api %d"; [ids] are the APIs the message can name (in
    the wildcard case the code takes any key of the map). *)
Inductive addError :=
| ErrParse (e : parseError)
| ErrConflict (ids : list Z).

(** Go's [m[k]] on a [map[string]uint64]. *)
Definition mapGet (m : gmap bytes Z) (k : bytes) : Z := default 0 (m !! k).

(** The checks of [Add] against the method table of a fully matched pattern. *)
Definition conflict (m : gmap bytes Z) (method : bytes) : option addError :=
  if bytes_eqb method (str "*") && (0 <? Z.of_nat (size m))
  then Some (ErrConflict (map snd (map_to_list m)))
  else if negb (mapGet m (str "*") =? 0) then Some (ErrConflict [mapGet m (str "*")])
  else if negb (mapGet m method =? 0) then Some (ErrConflict [mapGet m method])
  else None.

Definition Add (r : Route) (api : API) : outcome (addError + Route) :=
  res ← parseInput (API_URLPattern api);
  match res with
  | inl e => Ret (inl (ErrParse e))
  | inr nodes =>
      let nodes := removeSlash nodes in
      let '(parent, path, matchedIdx) := addLoop nodes 0 r [] 0 in
      if matchedIdx =? len nodes - 1 then
        match (match apis parent with Some m => conflict m (API_Method api) | None => None end) with
        | Some e => Ret (inl e)
        | None => Ret (inr (updateAt path (setAPI (API_ID api) (API_Method api)) r))
        end
      else
        rest ← slice_from nodes (matchedIdx + 1);
        Ret (inr (updateAt path (addChildren (API_ID api) (API_Method api) rest) r))
  end.

(** ** Find *)

Record findState := mkFind {
  f_target : list routeItem;
  f_matchesItem : option routeItem;
  f_matchedIdx : Z;
  f_buf : bytes;                     (* matchAllParams *)
  f_params : list (bytes * bytes)    (* the calls of paramsFunc, in order *)
}.

(** The inner loop: the first item of [target] that matches, and the buffer after it. *)
Fixpoint firstUrlMatch (target : list routeItem) (n : node) (buf : bytes)
    : option (routeItem * bytes) :=
  match target with
  | [] => None
  | item :: target =>
      let '(ok, buf) := urlMatches item n buf in
      if ok then Some (item, buf) else firstUrlMatch target n buf
  end.

(** One node of the outer loop.  A node that no item of [target] matches is passed over. *)
Definition findNode (pf : bool) (idx : Z) (n : node) (s : findState) : findState :=
  match firstUrlMatch (f_target s) n (f_buf s) with
  | Some (item, buf) =>
      mkFind
        (if isMatchAllConstString (item_node item) then f_target s else children item)
        (Some item) idx buf
        (if hasArg (item_node item) && pf
         then f_params s ++ [(argName (item_node item), value n)] else f_params s)
  | None => s
  end.

Fixpoint findLoop (pf : bool) (nodes : list node) (idx : Z) (s : findState) : findState :=
  match nodes with
  | [] => s
  | n :: nodes => findLoop pf nodes (idx + 1) (findNode pf idx n s)
  end.

(** The end of [Find]: the API of the last matched item, if it matched the last node.
    [(0, false)] is [None]. *)
Definition findResult (pf : bool) (n : Z) (method : bytes) (s : findState)
    : outcome (option Z * list (bytes * bytes)) :=
  if f_matchedIdx s =? n - 1 then
    match f_matchesItem s with
    | None => Panic
    | Some item =>
        match apis item with
        | None => Ret (None, f_params s)
        | Some m =>
            params ← (if pf && (0 <? len (f_buf s)) then
                        v ← slice_from (f_buf s) 1; Ret (f_params s ++ [(matchAll, v)])
                      else Ret (f_params s));
            Ret (match m !! method with
                 | Some id => (Some id, params)
                 | None => (m !! str "*", params)
                 end)
        end
    end
  else Ret (None, f_params s).

Definition findStart (r : Route) : findState := mkFind [r] None 0 [] [].

(** [pf] is [paramsFunc != nil]; its calls are returned with the result. *)
Definition Find (r : Route) (url method : bytes) (pf : bool)
    : outcome (option Z * list (bytes * bytes)) :=
  res ← parseInput url;
  match res with
  | inl _ => Ret (None, [])
  | inr nodes =>
      let nodes := removeSlash nodes in
      findResult pf (len nodes) method (findLoop pf nodes 0 (findStart r))
  end.

(** ** The pattern table: the contract of [Add]

    Two pattern nodes denote the same edge when they have the same type and, for constants,
    the same text: that is what [matches] compares. *)
Abbreviation key := (nodeType * bytes)%type.

Definition node_key (n : node) : key :=
  (nt n, if bool_decide (nt n = constType) then value n else []).

Definition item_key (i : routeItem) : key := node_key (item_node i).

Definition childOf (cs : list routeItem) (k : key) : option routeItem :=
  snd <$> list_find (λ c, item_key c = k) cs.

(** The method table registered at a pattern, as keys below the root. *)
Fixpoint tableAt (item : routeItem) (ks : list key) : gmap bytes Z :=
  match ks with
  | [] => default ∅ (apis item)
  | k :: ks => match childOf (children item) k with Some c => tableAt c ks | None => ∅ end
  end.

(** Well-formed trees: the children of every item have distinct keys and are sorted by
    type, numbers first, then enums, constants and strings. *)
#[warnings="-register-all"]
Inductive wf_item : routeItem -> Prop :=
| wf_mk n cs m :
    NoDup (map item_key cs) -> Sorted Z.le (map item_rank cs) -> Forall wf_item cs ->
    wf_item (RouteItem n cs m).

Definition wf_route (r : Route) : Prop := wf_item r /\ nt (item_node r) = slashType.

(** *** Children *)


Lemma matches_key item n : matches item n = true <-> item_key item = node_key n.
Proof.
  unfold matches, item_key, node_key. destruct item as [m cs ms]; cbn [item_node].
  case_bool_decide as E; cbn [negb].
  - rewrite <- E. destruct (nt m); bdec; try (split; congruence).
    rewrite bytes_eqb_eq. split; congruence.
  - split; congruence.
Qed.

Lemma firstMatch_child cs n :
  snd <$> firstMatch cs n = childOf cs (node_key n).
Proof.
  unfold firstMatch, childOf. f_equal. apply list_find_ext. intros; apply matches_key.
Qed.

Lemma childOf_Some cs k c : childOf cs k = Some c -> c ∈ cs /\ item_key c = k.
Proof.
  unfold childOf. intros ([i c'] & H & ->)%fmap_Some. cbn.
  apply list_find_Some in H as (Hl & Hk & _). split; [|done].
  by apply list_elem_of_lookup_2 in Hl.
Qed.

Lemma childOf_in cs c : NoDup (map item_key cs) -> c ∈ cs -> childOf cs (item_key c) = Some c.
Proof.
  intros Hnd Hc. unfold childOf.
  destruct (list_find_elem_of (λ c', item_key c' = item_key c) cs c Hc eq_refl) as [[i c'] Hf].
  rewrite Hf. cbn. f_equal. apply list_find_Some in Hf as (Hl & Hk & _).
  apply list_elem_of_lookup in Hc as [j Hj].
  assert (i = j) as ->.
  { eapply NoDup_lookup; [exact Hnd| |]; rewrite list_lookup_fmap.
    - rewrite Hl. cbn. by rewrite Hk.
    - by rewrite Hj. }
  congruence.
Qed.

Lemma childOf_None cs k : childOf cs k = None <-> ∀ c, c ∈ cs -> item_key c <> k.
Proof.
  unfold childOf. rewrite fmap_None, list_find_None, Forall_forall. done.
Qed.

Lemma childOf_perm cs cs' k : NoDup (map item_key cs) -> cs ≡ₚ cs' -> childOf cs k = childOf cs' k.
Proof.
  intros Hnd Hp.
  assert (Hnd' : NoDup (map item_key cs')) by (by rewrite <- Hp).
  destruct (childOf cs k) as [c|] eqn:E.
  - apply childOf_Some in E as [Hc <-]. symmetry. apply childOf_in; [done|by rewrite <- Hp].
  - symmetry. rewrite childOf_None in *. intros c Hc. apply E. by rewrite Hp.
Qed.

Lemma childOf_sort cs p k :
  NoDup (map item_key cs) -> childOf cs (item_key p) = None ->
  childOf (sortChildren (cs ++ [p])) k = if bool_decide (item_key p = k) then Some p else childOf cs k.
Proof.
  intros Hnd Hp. rewrite childOf_None in Hp.
  assert (Hnd' : NoDup (map item_key (p :: cs))).
  { cbn. constructor; [|done]. intros (c & Hk & Hc)%list_elem_of_fmap.
    by apply (Hp c Hc). }
  rewrite <- (childOf_perm (p :: cs)); [|done|].
  - unfold childOf. cbn. case_bool_decide as E.
    + by rewrite decide_True.
    + rewrite decide_False by done. by destruct (list_find _ cs) as [[]|].
  - rewrite sortChildren_perm, Permutation_app_comm. done.
Qed.

Lemma childOf_alter cs i c f k :
  NoDup (map item_key cs) -> cs !! i = Some c -> item_key (f c) = item_key c ->
  childOf (alter f i cs) k = if bool_decide (item_key c = k) then Some (f c) else childOf cs k.
Proof.
  intros Hnd Hi Hf.
  assert (Hm : map item_key (alter f i cs) = map item_key cs).
  { apply list_eq. intros j. rewrite !list_lookup_fmap, list_lookup_alter.
    case_decide; subst; [|done]. rewrite Hi. cbn. by rewrite Hf. }
  case_bool_decide as E.
  - subst k. rewrite <- Hf. apply childOf_in; [by rewrite Hm|].
    apply list_elem_of_lookup. exists i. rewrite list_lookup_alter, decide_True by done.
    by rewrite Hi.
  - destruct (childOf cs k) as [d|] eqn:Ed.
    + apply childOf_Some in Ed as [Hd <-]. apply childOf_in; [by rewrite Hm|].
      apply list_elem_of_lookup in Hd as [j Hj]. apply list_elem_of_lookup. exists j.
      rewrite list_lookup_alter. case_decide; [congruence|done].
    + rewrite childOf_None in *. intros d (j & Hj)%list_elem_of_lookup.
      rewrite list_lookup_alter in Hj. case_decide; subst.
      * rewrite Hi in Hj. cbn in Hj. injection Hj as <-. by rewrite Hf.
      * apply Ed. by apply list_elem_of_lookup_2 in Hj.
Qed.

(** *** The insertion that [Add] performs, by recursion on the tree *)

Fixpoint insertAt (id : Z) (method : bytes) (nodes : list node) (item : routeItem) : routeItem :=
  match nodes with
  | [] => setAPI id method item
  | n :: ns =>
      match firstMatch (children item) n with
      | Some (i, c) =>
          RouteItem (item_node item) (alter (insertAt id method ns) i (children item)) (apis item)
      | None => addChildren id method nodes item
      end
  end.

(** The matching loop below the root: where it stops, the update it leads to is the
    recursive insertion, and it stops at the last node exactly when the pattern is there. *)
Lemma addLoop_insertAt id method nodes : ∀ idx parent path,
  1 <= idx ->
  ∃ parent' p,
    addLoop nodes idx parent path (idx - 1) = (parent', path ++ p, idx - 1 + len p) /\
    (length p <= length nodes)%nat /\
    updateAt p (addChildren id method (drop (length p) nodes)) parent = insertAt id method nodes parent /\
    (length p = length nodes -> default ∅ (apis parent') = tableAt parent (map node_key nodes)) /\
    ((length p < length nodes)%nat -> tableAt parent (map node_key nodes) = ∅).
Proof.
  induction nodes as [|n nodes IH]; intros idx parent path Hidx; cbn [addLoop].
  - exists parent, []. rewrite app_nil_r, len_nil, Z.add_0_r. cbn. split_and!; auto; lia.
  - bcase; [lia|]. cbn [andb]. pose proof (firstMatch_child (children parent) n) as Hch.
    cbn [insertAt map tableAt]. rewrite <- Hch.
    destruct (firstMatch (children parent) n) as [[i c]|] eqn:Hf; cbn [fmap option_fmap option_map snd].
    + specialize (IH (idx + 1) c (path ++ [i]) ltac:(lia)).
      replace (idx + 1 - 1) with idx in IH by lia.
      destruct IH as (parent' & p & -> & Hp & Hu & Hfull & Hpart).
      exists parent', (i :: p). rewrite <- app_assoc, len_cons. cbn [app length drop updateAt].
      split_and!; [f_equal; lia|lia| | intros; apply Hfull; lia | intros; apply Hpart; lia].
      f_equal. apply list_eq. intros j. rewrite !list_lookup_alter. case_decide; [|done].
      subst j. apply list_find_Some in Hf as (Hi & _). rewrite Hi. cbn. by rewrite Hu.
    + exists parent, []. rewrite app_nil_r, len_nil, Z.add_0_r. cbn [length drop updateAt].
      split_and!; auto; lia.
Qed.

Lemma addChildren_key id method nodes item :
  item_key (addChildren id method nodes item) = item_key item.
Proof. by destruct nodes. Qed.

Lemma insertAt_node id method nodes item :
  item_node (insertAt id method nodes item) = item_node item.
Proof. destruct nodes as [|n ns]; cbn; [done|]. by destruct (firstMatch _ _) as [[]|]. Qed.

Lemma insertAt_key id method nodes item : item_key (insertAt id method nodes item) = item_key item.
Proof. unfold item_key. by rewrite insertAt_node. Qed.

Lemma wf_leaf n : wf_item (RouteItem n [] None).
Proof. constructor; constructor. Qed.

Lemma setAPI_wf id method item : wf_item item -> wf_item (setAPI id method item).
Proof. destruct 1. by constructor. Qed.

Lemma addChildren_wf id method nodes : ∀ item,
  wf_item item ->
  (∀ n ns, nodes = n :: ns -> childOf (children item) (node_key n) = None) ->
  wf_item (addChildren id method nodes item).
Proof.
  induction nodes as [|n nodes IH]; intros item Hw Hn; cbn [addChildren]; [by apply setAPI_wf|].
  destruct Hw as [nd cs m Hnd Hs Hf]. cbn [item_node children apis] in *.
  assert (Hp : wf_item (addChildren id method nodes (RouteItem n [] None)))
    by (apply IH; [apply wf_leaf|done]).
  constructor; [|apply sortChildren_sorted|].
  - rewrite (fmap_Permutation item_key _ _ (sortChildren_perm _)).
    rewrite fmap_app, Permutation_app_comm. cbn. rewrite addChildren_key.
    constructor; [|done]. intros (c & Hk & Hc)%list_elem_of_fmap.
    specialize (Hn n nodes eq_refl). rewrite childOf_None in Hn. by apply (Hn c Hc).
  - rewrite sortChildren_perm, Forall_app. split; [done|by constructor].
Qed.

Lemma alter_map {A B} (g : A -> B) f i (l : list A) c :
  l !! i = Some c -> g (f c) = g c -> map g (alter f i l) = map g l.
Proof.
  intros Hi Hg. apply list_eq. intros j. rewrite !list_lookup_fmap, list_lookup_alter.
  case_decide; subst; [|done]. rewrite Hi. cbn. by rewrite Hg.
Qed.

Lemma insertAt_wf id method nodes : ∀ item, wf_item item -> wf_item (insertAt id method nodes item).
Proof.
  induction nodes as [|n nodes IH]; intros item Hw; cbn [insertAt]; [by apply setAPI_wf|].
  pose proof (firstMatch_child (children item) n) as Hch.
  destruct (firstMatch (children item) n) as [[i c]|] eqn:Hf.
  - destruct Hw as [nd cs m Hnd Hs Hfa]. cbn [item_node children apis] in *.
    apply list_find_Some in Hf as (Hi & _).
    constructor.
    + by rewrite (alter_map _ _ _ _ c) by (done || apply insertAt_key).
    + rewrite (alter_map _ _ _ _ c); [done|done|]. unfold item_rank. by rewrite insertAt_node.
    + apply Forall_lookup. intros j d. rewrite list_lookup_alter.
      rewrite Forall_lookup in Hfa. case_decide; [|apply Hfa].
      subst j. rewrite Hi. cbn. intros [= <-]. apply IH. by eapply Hfa.
  - apply addChildren_wf; [done|]. by intros ? ? [= <- <-].
Qed.

(** *** What the insertion does to the table *)

Lemma tableAt_leaf n ks : tableAt (RouteItem n [] None) ks = ∅.
Proof. destruct ks; done. Qed.

Lemma tableAt_addChildren id method nodes : ∀ item ks,
  NoDup (map item_key (children item)) ->
  (∀ n ns, nodes = n :: ns -> childOf (children item) (node_key n) = None) ->
  tableAt (addChildren id method nodes item) ks =
    if bool_decide (ks = map node_key nodes)
    then <[method := id]> (tableAt item (map node_key nodes)) else tableAt item ks.
Proof.
  induction nodes as [|n nodes IH]; intros item ks Hnd Hn; cbn [addChildren map];
    [destruct ks; by case_bool_decide|].
  specialize (Hn n nodes eq_refl).
  destruct ks as [|k ks]; bdec; [done|]. cbn [tableAt children].
  rewrite childOf_sort, addChildren_key; [|done|by rewrite addChildren_key].
  change (item_key (RouteItem n [] None)) with (node_key n).
  destruct (decide (node_key n = k)) as [<-|Hk]; bdec.
  - rewrite Hn. rewrite IH by (done || constructor). rewrite !tableAt_leaf.
    case_bool_decide; [subst; by rewrite bool_decide_true|].
    by rewrite bool_decide_false by congruence.
  - done.
Qed.

Lemma tableAt_insertAt id method nodes : ∀ item ks,
  wf_item item ->
  tableAt (insertAt id method nodes item) ks =
    if bool_decide (ks = map node_key nodes)
    then <[method := id]> (tableAt item (map node_key nodes)) else tableAt item ks.
Proof.
  induction nodes as [|n nodes IH]; intros item ks Hw; cbn [insertAt map];
    [destruct ks; by case_bool_decide|].
  pose proof (firstMatch_child (children item) n) as Hch.
  destruct (firstMatch (children item) n) as [[i c]|] eqn:Hf.
  - destruct Hw as [nd cs m Hnd Hs Hfa]. cbn [item_node children apis] in *.
    cbn in Hch. symmetry in Hch. pose proof Hch as [_ Hkey]%childOf_Some.
    apply list_find_Some in Hf as (Hi & _).
    destruct ks as [|k ks]; bdec; [done|]. cbn [tableAt children].
    rewrite (childOf_alter _ _ c) by (done || apply insertAt_key). rewrite Hkey.
    destruct (decide (node_key n = k)) as [<-|Hk]; bdec; [|done].
    rewrite Hch. rewrite IH by (rewrite Forall_lookup in Hfa; by eapply Hfa).
    case_bool_decide; [subst; by rewrite bool_decide_true|].
    by rewrite bool_decide_false by congruence.
  - apply tableAt_addChildren.
    + by destruct Hw.
    + by intros ? ? [= <- <-].
Qed.

Lemma slice_from_drop {A} (l : list A) n :
  (n <= length l)%nat -> slice_from l (Z.of_nat n) = Ret (drop n l).
Proof.
  intros Hn. unfold slice_from. rewrite slice_in_range by (unfold len; lia).
  rewrite Nat2Z.id. f_equal. apply take_ge. rewrite length_drop. unfold len. lia.
Qed.

Lemma tableAt_new ks : tableAt NewRoute ks = ∅.
Proof. apply tableAt_leaf. Qed.

(** The keys of a pattern below the root. *)
Definition pattern_keys (nodes : list node) : list key := map node_key (tail (removeSlash nodes)).

Lemma conflict_empty method : conflict ∅ method = None.
Proof. unfold conflict. rewrite map_size_empty. by rewrite andb_false_r. Qed.

Lemma conflict_apis (o : option (gmap bytes Z)) method :
  match o with Some m => conflict m method | None => None end = conflict (default ∅ o) method.
Proof. destruct o; [done|]. cbn. by rewrite conflict_empty. Qed.

Lemma Add_insertAt r api nodes :
  wf_route r -> parseInput (API_URLPattern api) = Ret (inr nodes) ->
  Add r api =
    Ret (match conflict (tableAt r (pattern_keys nodes)) (API_Method api) with
         | Some e => inl e
         | None => inr (insertAt (API_ID api) (API_Method api) (tail (removeSlash nodes)) r)
         end).
Proof.
  intros [Hw Hr] Hp. unfold Add, pattern_keys. rewrite Hp. cbn [mbind outcome_mbind].
  destruct (parse_starts_slash _ _ Hp) as (n & l & -> & Hn).
  cbn [removeSlash tail]. generalize (filter (λ n, nt n <> slashType) l) as ns. clear Hp l. intros ns.
  cbn [addLoop]. replace (matches r n) with true.
  2:{ symmetry. apply matches_key. unfold item_key, node_key. rewrite Hr, Hn. by bdec. }
  cbn [Z.eqb andb].
  destruct (addLoop_insertAt (API_ID api) (API_Method api) ns 1 r [] ltac:(lia))
    as (parent' & p & E & Hlen & Hu & Hfull & Hpart).
  replace (1 - 1) with 0 in E by lia. rewrite Z.add_0_l in *. rewrite E. cbn [app].
  rewrite len_cons. bcase.
  - rewrite conflict_apis, Hfull by (unfold len in *; lia).
    rewrite drop_ge in Hu by (unfold len in *; lia).
    change (addChildren (API_ID api) (API_Method api) [])
      with (setAPI (API_ID api) (API_Method api)) in Hu. rewrite Hu.
    by destruct (conflict _ _).
  - rewrite Hpart by (unfold len in *; lia). rewrite conflict_empty.
    replace (len p + 1) with (Z.of_nat (S (length p))) by (unfold len; lia).
    rewrite slice_from_drop by (cbn; lia). cbn [mbind outcome_mbind drop]. by rewrite Hu.
Qed.

Lemma insertAt_wf_route id method nodes r : wf_route r -> wf_route (insertAt id method nodes r).
Proof. intros [Hw Hr]. split; [by apply insertAt_wf|by rewrite insertAt_node]. Qed.

Lemma NewRoute_wf : wf_route NewRoute.
Proof. split; [apply wf_leaf|done]. Qed.

Lemma Add_updates : ∀ r api, wf_route r ->
  ∃ res, parseInput (API_URLPattern api) = Ret res /\
  match res with
  | inl e => Add r api = Ret (inl (ErrParse e))
  | inr nodes =>
      let ks := pattern_keys nodes in
      match conflict (tableAt r ks) (API_Method api) with
      | Some e => Add r api = Ret (inl e)
      | None => ∃ r', Add r api = Ret (inr r') /\ wf_route r' /\
          ∀ ks', tableAt r' ks' =
            if bool_decide (ks' = ks) then <[API_Method api := API_ID api]> (tableAt r ks)
            else tableAt r ks'
      end
  end.
Proof.
  intros r api Hw. destruct (parse_returns (API_URLPattern api)) as [res Hp].
  exists res. split; [done|]. destruct res as [e|nodes]; [unfold Add; by rewrite Hp|].
  cbn zeta. pose proof (Add_insertAt r api nodes Hw Hp) as Ha.
  destruct (conflict _ _); [done|]. eexists. split; [exact Ha|].
  split; [by apply insertAt_wf_route|]. intros ks'. apply tableAt_insertAt, Hw.
Qed.

(** C2: [Add] implements an update of a table from patterns to method tables, on every
    well-formed route and every API.  A pattern that does not parse is rejected with the
    parser's error.  Otherwise the answer depends only on the methods registered for the
    pattern's keys: on a conflict the route is not changed and the error names conflicting
    APIs; with no conflict the new route is well formed (children sorted by type, with
    distinct keys), binds the method to the API at this pattern, and agrees with the old
    one at every other pattern.  [Add] neither panics nor diverges. *)
Theorem Add_table : ∀ r api, wf_route r ->
  ∃ res, parseInput (API_URLPattern api) = Ret res /\
  match res with
  | inl e => Add r api = Ret (inl (ErrParse e))
  | inr nodes =>
      let ks := pattern_keys nodes in
      match conflict (tableAt r ks) (API_Method api) with
      | Some e => Add r api = Ret (inl e)
      | None => ∃ r', Add r api = Ret (inr r') /\ wf_route r' /\
          ∀ ks', tableAt r' ks' =
            if bool_decide (ks' = ks) then <[API_Method api := API_ID api]> (tableAt r ks)
            else tableAt r ks'
      end
  end.
Proof. exact Add_updates. Qed.

End WithSort.

(** Insertion sort is such a sort: Go runs it on slices of up to 12 elements. *)
Definition less (x y : routeItem) : bool := item_rank x <? item_rank y.

Fixpoint insertItem (x : routeItem) (l : list routeItem) : list routeItem :=
  match l with
  | [] => [x]
  | y :: l' => if less x y then x :: l else y :: insertItem x l'
  end.

Definition insertionSort (l : list routeItem) : list routeItem :=
  fold_left (λ acc x, insertItem x acc) l [].

Lemma insertItem_perm x l : insertItem x l ≡ₚ x :: l.
Proof.
  induction l as [|y l IH]; cbn; [done|]. destruct (less x y); [done|].
  rewrite IH. constructor.
Qed.

Lemma insertionSort_perm l : insertionSort l ≡ₚ l.
Proof.
  unfold insertionSort.
  assert (H : ∀ acc, fold_left (λ acc x, insertItem x acc) l acc ≡ₚ l ++ acc).
  { induction l as [|x l IH]; intros acc; cbn; [done|].
    rewrite IH, insertItem_perm. by rewrite Permutation_middle. }
  by rewrite H, app_nil_r.
Qed.

Lemma insertItem_sorted x l :
  Sorted Z.le (map item_rank l) -> Sorted Z.le (map item_rank (insertItem x l)).
Proof.
  induction l as [|y l IH]; cbn; intros Hs; [repeat constructor|].
  unfold less. bcase; cbn.
  - constructor; [done|]. constructor. lia.
  - inversion Hs as [|? ? Hs' Hh]; subst. constructor; [by apply IH|].
    destruct l as [|z l]; cbn in *; [by constructor|].
    unfold less. inversion Hh; subst. bcase; cbn; constructor; lia.
Qed.

Lemma insertionSort_sorted l : Sorted Z.le (map item_rank (insertionSort l)).
Proof.
  unfold insertionSort.
  assert (H : ∀ acc, Sorted Z.le (map item_rank acc) ->
    Sorted Z.le (map item_rank (fold_left (λ acc x, insertItem x acc) l acc))).
  { induction l as [|x l IH]; cbn; intros acc Ha; [done|]. apply IH.
    by apply insertItem_sorted. }
  apply H. constructor.
Qed.

#[export] Instance insertion_sort : SortSlice :=
  {| sortChildren := insertionSort;
     sortChildren_perm := insertionSort_perm;
     sortChildren_sorted := insertionSort_sorted |}.

Definition api_of (id : Z) (pattern method : string) : API :=
  mkAPI id [] (str pattern) (str method) [] Up None None [] false MatchDefault 0 None Wait None None
    [] [] 0 [] false None.

Lemma Add_table_witness : wf_route NewRoute /\
  ∃ r', Add NewRoute (api_of 7 "/users/(number):id" "GET") = Ret (inr r') /\ wf_route r'.
Proof.
  split; [exact NewRoute_wf|].
  destruct (Add_table NewRoute (api_of 7 "/users/(number):id" "GET") NewRoute_wf)
    as (res & Hp & H).
  vm_compute in Hp. injection Hp as <-. cbn zeta in H.
  rewrite tableAt_new, conflict_empty in H. destruct H as (r' & Ha & Hw & _). eauto.
Defined.

(** ** What Find resolves *)

Definition accepts (item : routeItem) (n : node) : Prop := fst (urlMatches item n []) = true.
#[export] Instance accepts_dec item n : Decision (accepts item n).
Proof. unfold accepts. apply _. Defined.

Definition star (item : routeItem) : bool := isMatchAllConstString (item_node item).

(** The parameters an item binds to a node, and the text its [*] adds. *)
Definition args (item : routeItem) (n : node) : list (bytes * bytes) :=
  if hasArg (item_node item) then [(argName (item_node item), value n)] else [].

Definition rest (item : routeItem) (n : node) : bytes :=
  if bool_decide (nt (item_node item) = constType) && star item then ch "/" :: value n else [].

(** [it] is the choice for [n] among [ts]: it accepts the node, and its type comes first,
    among the candidates that do. *)
Definition chooses (ts : list routeItem) (n : node) (it : routeItem) : Prop :=
  it ∈ ts /\ accepts it n /\ ∀ jt, jt ∈ ts -> accepts jt n -> item_rank it <= item_rank jt.

(** The items that a list of URL nodes goes through, from a list of candidates, with the
    parameters bound on the way; a [*] constant keeps the same candidates for the next. *)
Inductive resolves :
  list routeItem -> list node -> routeItem -> list (bytes * bytes) -> bytes -> Prop :=
| resolves_one ts it n : chooses ts n it -> resolves ts [n] it (args it n) (rest it n)
| resolves_more ts it n ns it' ps all : chooses ts n it ->
    resolves (if star it then ts else children it) ns it' ps all ->
    resolves ts (n :: ns) it' (args it n ++ ps) (rest it n ++ all).

Lemma urlMatches_eq item n buf :
  urlMatches item n buf = (fst (urlMatches item n []), buf ++ rest item n).
Proof.
  unfold urlMatches, rest, star. destruct (nt (item_node item)); bdec; rewrite ?app_nil_r; try done.
  destruct (isMatchAllConstString _); cbn; by rewrite ?app_nil_r.
Qed.

Lemma firstUrlMatch_eq ts n buf :
  firstUrlMatch ts n buf =
    (λ '(_, it), (it, buf ++ rest it n)) <$> list_find (λ it, accepts it n) ts.
Proof.
  induction ts as [|t ts IH]; cbn; [done|].
  rewrite urlMatches_eq. unfold accepts at 1. case_decide as E.
  - by rewrite E.
  - apply not_true_is_false in E. rewrite E.
    assert (Hr : rest t n = []).
    { unfold rest, star, urlMatches in *. destruct (nt (item_node t)); bdec; try done.
      by destruct (isMatchAllConstString _). }
    rewrite Hr, app_nil_r, IH. by destruct (list_find _ ts) as [[]|].
Qed.

Lemma sorted_first ts n i it :
  Sorted Z.le (map item_rank ts) -> list_find (λ it, accepts it n) ts = Some (i, it) ->
  chooses ts n it.
Proof.
  intros Hs (Hi & Ha & Hf)%list_find_Some.
  split_and!; [by apply list_elem_of_lookup_2 in Hi|done|].
  intros jt (j & Hj)%list_elem_of_lookup Hja.
  destruct (decide (j < i)%nat) as [Hlt|Hge]; [by destruct (Hf j jt Hj Hlt)|].
  apply Sorted_StronglySorted in Hs; [|intros ???; lia].
  destruct (decide (i = j)) as [->|Hne]; [rewrite Hj in Hi; injection Hi as ->; lia|].
  rewrite <- (take_drop_middle ts i it Hi), fmap_app in Hs. cbn in Hs.
  apply StronglySorted_app in Hs as (_ & _ & [Hs _]%StronglySorted_cons).
  rewrite Forall_forall in Hs. apply Hs, list_elem_of_fmap_2.
  apply list_elem_of_lookup. exists (j - S i)%nat. rewrite lookup_drop, <- Hj. f_equal. lia.
Qed.

Lemma wf_children item : wf_item item ->
  Sorted Z.le (map item_rank (children item)) /\ Forall wf_item (children item).
Proof. by destruct 1. Qed.

(** What the outer loop has established after the nodes [seen]: an item was reached through
    a subsequence of them that ends with number [f_matchedIdx], and whatever the
    candidates lead to prolongs that subsequence. *)
Definition find_inv (pf : bool) (r : Route) (seen : list node) (s : findState) : Prop :=
  Sorted Z.le (map item_rank (f_target s)) /\ Forall wf_item (f_target s) /\
  ∃ it ps d1 n d2 sub,
    f_matchesItem s = Some it /\ f_matchedIdx s = len d1 /\ seen = d1 ++ n :: d2 /\
    sub `sublist_of` d1 /\ f_params s = (if pf then ps else []) /\
    resolves [r] (sub ++ [n]) it ps (f_buf s) /\
    (∀ ns jt ps' all, resolves (f_target s) ns jt ps' all ->
       resolves [r] (sub ++ n :: ns) jt (ps ++ ps') (f_buf s ++ all)).

Lemma findNode_inv pf r seen s n :
  find_inv pf r seen s -> find_inv pf r (seen ++ [n]) (findNode pf (len seen) n s).
Proof.
  intros (Hs & Hw & it & ps & d1 & m & d2 & sub & Hit & Hidx & -> & Hsub & Hps & Hres & Hnext).
  unfold findNode. rewrite firstUrlMatch_eq.
  destruct (list_find _ _) as [[i jt]|] eqn:Hf; cbn.
  - pose proof (sorted_first _ _ _ _ Hs Hf) as Hch. pose proof Hch as (Hin & _ & _).
    assert (Hjw : wf_item jt) by (rewrite Forall_forall in Hw; auto).
    split_and!; cbn.
    { destruct (isMatchAllConstString _); [done|by apply wf_children]. }
    { destruct (isMatchAllConstString _); [done|by apply wf_children]. }
    exists jt, (ps ++ args jt n), (d1 ++ m :: d2), n, [], (sub ++ [m]).
    split_and!; try done.
    + apply sublist_app; [done|]. apply sublist_skip, sublist_nil_l.
    + rewrite Hps. unfold args. destruct (hasArg _), pf; cbn; by rewrite ?app_nil_r.
    + rewrite <- app_assoc. cbn. by apply Hnext, resolves_one.
    + intros ns kt ps' all Hr. rewrite <- !app_assoc. cbn. by apply Hnext, resolves_more.
  - split_and!; try done. exists it, ps, d1, m, (d2 ++ [n]), sub.
    split_and!; try done. by rewrite <- app_assoc.
Qed.

Lemma findLoop_inv pf r nodes : ∀ seen s,
  find_inv pf r seen s -> find_inv pf r (seen ++ nodes) (findLoop pf nodes (len seen) s).
Proof.
  induction nodes as [|n nodes IH]; intros seen s Hi; cbn [findLoop]; [by rewrite app_nil_r|].
  replace (len seen + 1) with (len (seen ++ [n])) by (autorewrite with len; lia).
  rewrite cons_middle, app_assoc. by apply IH, findNode_inv.
Qed.

Lemma root_chosen r n : nt (item_node r) = slashType -> nt n = slashType -> chooses [r] n r.
Proof.
  intros Hr Hn. split_and!; [by left| |].
  - unfold accepts, urlMatches. rewrite Hr, Hn. by bdec.
  - intros jt ->%list_elem_of_singleton. lia.
Qed.

Lemma find_inv_start pf r n :
  wf_route r -> nt n = slashType -> find_inv pf r [n] (findNode pf 0 n (findStart r)).
Proof.
  intros [Hw Hr] Hn. pose proof (root_chosen r n Hr Hn) as Hch.
  unfold findNode, findStart. cbn [f_target f_buf]. rewrite firstUrlMatch_eq.
  cbn [list_find]. destruct Hch as (Hin & Ha & Hmin). rewrite decide_True by done. cbn.
  split_and!; cbn.
  { destruct (isMatchAllConstString _); [repeat constructor|by apply wf_children]. }
  { destruct (isMatchAllConstString _); [by repeat constructor|by apply wf_children]. }
  exists r, (args r n), [], n, [], []. split_and!; try done.
  - unfold args. by destruct (hasArg _), pf.
  - by apply resolves_one.
  - intros ns jt ps' all H. by apply resolves_more.
Qed.

(** The node of the match-all text, passed as parameter [*] without its first slash. *)
Definition starParam (all : bytes) : list (bytes * bytes) :=
  match all with [] => [] | _ :: v => [(matchAll, v)] end.

Definition noParams (s : findState) : findState :=
  mkFind (f_target s) (f_matchesItem s) (f_matchedIdx s) (f_buf s) [].

Lemma findLoop_noParams nodes : ∀ idx s,
  findLoop false nodes idx (noParams s) = noParams (findLoop true nodes idx s).
Proof.
  induction nodes as [|n nodes IH]; intros idx s; cbn; [done|]. rewrite <- IH. f_equal.
  unfold findNode, noParams; cbn. destruct (firstUrlMatch _ _ _) as [[it b]|]; cbn; [|done].
  by rewrite andb_false_r.
Qed.

(** The end of [Find] on a state the loop can leave. *)
Lemma findResult_inv r method n seen s :
  find_inv true r seen s -> n = len seen ->
  ∃ res ps, findResult true n method s = Ret (res, ps) /\
    findResult false n method (noParams s) = Ret (res, []) /\
    ∀ id, res = Some id ->
      ∃ d last sub it args all tbl,
        seen = d ++ [last] /\ sub `sublist_of` d /\ resolves [r] (sub ++ [last]) it args all /\
        ps = args ++ starParam all /\ apis it = Some tbl /\
        (tbl !! method = Some id \/ tbl !! method = None /\ tbl !! str "*" = Some id).
Proof.
  intros (_ & _ & it & ps & d1 & m & d2 & sub & Hit & Hidx & -> & Hsub & Hps & Hres & _) ->.
  unfold findResult, noParams. cbn [f_matchesItem f_matchedIdx f_params f_buf].
  rewrite Hit, Hidx, Hps. autorewrite with len. bcase; [|by eexists _, _].
  assert (d2 = []) as -> by (apply len_zero; lia).
  destruct (apis it) as [tbl|] eqn:Hapis; [|by eexists _, _]. cbn [andb].
  assert (Hp : (if 0 <? len (f_buf s)
                then (v ← slice_from (f_buf s) 1; Ret (ps ++ [(matchAll, v)])) else Ret ps)
               = Ret (ps ++ starParam (f_buf s))).
  { destruct (f_buf s) as [|c b]; cbn [starParam]; [by rewrite app_nil_r|].
    rewrite len_cons. bcase; [|pose proof (len_nonneg b); lia].
    by rewrite (slice_from_app [c] b). }
  rewrite Hp. cbn [mbind outcome_mbind].
  destruct (tbl !! method) as [id|] eqn:Hm; eexists _, _; (split_and!; [done|done|]);
    intros id' Hid; eexists d1, m, sub, it, ps, (f_buf s), tbl;
    (split_and!; [done|done|done|done|done|]).
  - left. congruence.
  - right. done.
Qed.

(** C5: [Find] always answers, and is sound.  It reports no API for a path that does not
    parse.  An API it reports is registered, under the request's method or under [*], in
    the method table of an item reached from the root through a subsequence of the path's
    nodes that includes the last one; at each of them the item accepts the node and has the
    least type (number, enum, constant, string) among the candidates that do.  The
    parameters reported are the arguments of those items in path order, then the text
    matched by [*]; with no [paramsFunc] the API is the same and nothing is reported. *)
Theorem Find_sound : ∀ r url method, wf_route r ->
  ∃ res ps, Find r url method true = Ret (res, ps) /\ Find r url method false = Ret (res, []) /\
  ∀ id, res = Some id ->
    ∃ nodes d last sub it args all tbl,
      parseInput url = Ret (inr nodes) /\ removeSlash nodes = d ++ [last] /\
      sub `sublist_of` d /\ resolves [r] (sub ++ [last]) it args all /\
      ps = args ++ starParam all /\ apis it = Some tbl /\
      (tbl !! method = Some id \/ tbl !! method = None /\ tbl !! str "*" = Some id).
Proof.
  intros r url method Hw. unfold Find.
  destruct (parse_returns url) as [[e|nodes] Hp]; rewrite Hp; cbn [mbind outcome_mbind];
    [by eexists _, _|].
  destruct (parse_starts_slash _ _ Hp) as (n & l & -> & Hn). cbn [removeSlash].
  remember (filter (λ n, nt n <> slashType) l) as ns eqn:Hns. cbn [findLoop].
  pose proof (findLoop_inv true r ns [n] _ (find_inv_start true r n Hw Hn)) as Ht.
  destruct (findResult_inv r method (len (n :: ns)) _ _ Ht) as (res & ps & H1 & H2 & H3);
    [done|].
  exists res, ps. split; [exact H1|]. split.
  - rewrite <- H2. f_equal. change (0 + 1) with (len [n]). rewrite <- findLoop_noParams. f_equal.
    unfold noParams, findNode. cbn. destruct (urlMatches r n []) as [[] b]; cbn; [|done].
    by rewrite andb_false_r.
  - intros id Hid. destruct (H3 id Hid) as (d & last & sub & it & ar & all & tbl & Hd & H).
    exists (n :: l), d, last, sub, it, ar, all, tbl. split; [done|].
    split; [|exact H]. cbn [removeSlash]. by rewrite <- Hns.
Qed.

(** *** Tables of constant patterns *)

Definition cnode (v : bytes) : node := node_of constType v.

Definition const_node (n : node) : Prop :=
  nt n = constType /\ hasArg n = false /\ isMatchAllConstString n = false.

(** All items below this one are named constants, none of them [*]. *)
#[warnings="-register-all"]
Inductive const_below : routeItem -> Prop :=
| const_mk n cs m :
    Forall (λ c, const_node (item_node c)) cs -> Forall const_below cs ->
    const_below (RouteItem n cs m).

(** The text of a pattern of constant segments, and the segments that can be in one. *)
Definition const_path (vs : list bytes) : bytes := print (map SConst vs).

Definition wf_path (vs : list bytes) : Prop :=
  vs <> [] /\ Forall (λ v, v <> [] /\ Scanner.plain v /\ v <> str "*") vs.

Fixpoint descend (item : routeItem) (vs : list bytes) : option routeItem :=
  match vs with
  | [] => Some item
  | v :: vs => c ← childOf (children item) (node_key (cnode v)); descend c vs
  end.

Lemma const_node_cnode v : v <> str "*" -> const_node (cnode v).
Proof.
  intros Hv. split_and!; [done|done|]. unfold isMatchAllConstString. cbn.
  destruct v as [|c [|]]; try done. apply Z.eqb_neq. intros ->. by apply Hv.
Qed.

Lemma const_parse vs : wf_path vs ->
  ∃ nodes, parseInput (const_path vs) = Ret (inr nodes) /\
    removeSlash nodes = node_of slashType slashValue :: map cnode vs.
Proof.
  intros [Hne Hvs]. eexists. split.
  - apply parse_printed; [by destruct vs|]. apply Forall_map. eapply Forall_impl; [exact Hvs|].
    intros v (? & ? & ?). done.
  - destruct vs as [|v vs]; [done|]. cbn [map pattern_nodes removeSlash segment_node unnamed].
    rewrite filter_cons_True by done. do 2 f_equal. clear Hne Hvs.
    induction vs as [|w vs IH]; [done|]. cbn [map pattern_nodes segment_node unnamed].
    rewrite filter_cons_False by naive_solver. rewrite filter_cons_True by done. by rewrite IH.
Qed.

Lemma const_children_accept cs v :
  Forall (λ c, const_node (item_node c)) cs ->
  snd <$> list_find (λ c, accepts c (cnode v)) cs = childOf cs (node_key (cnode v)).
Proof.
  intros Hc. unfold childOf. induction Hc as [|c cs (Ht & _ & Hs) Hc IH]; [done|].
  assert (Ha : accepts c (cnode v) <-> item_key c = node_key (cnode v)).
  { unfold accepts, urlMatches, item_key, node_key. rewrite Ht, Hs. bdec. cbn.
    rewrite bytes_eqb_eq. split; congruence. }
  cbn [list_find]. destruct (decide (item_key c = _)) as [E|E].
  - rewrite decide_True by (by apply Ha). done.
  - rewrite decide_False by (by rewrite Ha).
    by destruct (list_find _ cs) as [[]|], (list_find _ cs) as [[]|].
Qed.

(** One constant node of the loop of [Find]: a step to the child, or nothing. *)
Lemma findNode_const pf idx v item it k buf ps :
  const_below item ->
  findNode pf idx (cnode v) (mkFind (children item) it k buf ps) =
    match childOf (children item) (node_key (cnode v)) with
    | Some c => mkFind (children c) (Some c) idx buf ps
    | None => mkFind (children item) it k buf ps
    end.
Proof.
  intros Hc. unfold findNode. cbn [f_target f_buf]. rewrite firstUrlMatch_eq.
  destruct Hc as [n cs m Hcs _]. cbn [children].
  rewrite <- (const_children_accept _ _ Hcs).
  destruct (list_find _ cs) as [[i c]|] eqn:Hf; cbn; [|done].
  apply list_find_Some in Hf as (Hi & _). apply list_elem_of_lookup_2 in Hi.
  rewrite Forall_forall in Hcs. destruct (Hcs c Hi) as (Ht & Ha & Hs).
  unfold rest, star. rewrite Hs, Ha, andb_false_r, app_nil_r. done.
Qed.

Lemma childOf_below item k c : const_below item -> childOf (children item) k = Some c -> const_below c.
Proof.
  intros [n cs m _ Hb] [Hc _]%childOf_Some. rewrite Forall_forall in Hb. by apply Hb.
Qed.

Lemma findLoop_const pf vs : ∀ idx item it it' k buf ps,
  const_below item -> vs <> [] -> descend item vs = Some it' ->
  findLoop pf (map cnode vs) idx (mkFind (children item) it k buf ps) =
    mkFind (children it') (Some it') (idx + len vs - 1) buf ps.
Proof.
  induction vs as [|v vs IH]; intros idx item it it' k buf ps Hc Hne Hd; [done|].
  cbn in Hd. cbn [map findLoop]. rewrite findNode_const by done.
  destruct (childOf _ _) as [c|] eqn:Hch; [|done]. cbn in Hd.
  rewrite len_cons. destruct vs as [|w vs].
  - injection Hd as ->. rewrite len_nil. cbn [map findLoop]. f_equal. lia.
  - rewrite (IH _ c (Some c) it') by (done || by eapply childOf_below). f_equal. lia.
Qed.

Lemma findLoop_app pf l1 l2 : ∀ idx s,
  findLoop pf (l1 ++ l2) idx s = findLoop pf l2 (idx + len l1) (findLoop pf l1 idx s).
Proof.
  induction l1 as [|n l1 IH]; intros idx s; cbn [app findLoop].
  - by rewrite len_nil, Z.add_0_r.
  - rewrite IH, len_cons. f_equal. lia.
Qed.

Lemma findLoop_const0 pf us idx item it' k buf ps :
  const_below item -> descend item us = Some it' -> k = idx - 1 ->
  findLoop pf (map cnode us) idx (mkFind (children item) (Some item) k buf ps) =
    mkFind (children it') (Some it') (idx + len us - 1) buf ps.
Proof.
  intros Hc Hd ->. destruct us as [|u us].
  - injection Hd as ->. rewrite len_nil. cbn [map findLoop]. f_equal. lia.
  - by apply findLoop_const.
Qed.

Lemma descend_app item us vs : descend item (us ++ vs) = descend item us ≫= λ it, descend it vs.
Proof.
  revert item. induction us as [|u us IH]; intros item; cbn; [done|].
  destruct (childOf _ _); cbn; [apply IH|done].
Qed.

Lemma descend_below us : ∀ item it, const_below item -> descend item us = Some it -> const_below it.
Proof.
  induction us as [|u us IH]; intros item it Hc; cbn; [by intros [= <-]|].
  destruct (childOf _ _) as [c|] eqn:E; [|done]. cbn. apply IH. by eapply childOf_below.
Qed.

Lemma tableAt_descend item vs :
  tableAt item (map node_key (map cnode vs)) = default ∅ (descend item vs ≫= apis).
Proof.
  revert item. induction vs as [|v vs IH]; intros item; cbn; [done|].
  destruct (childOf _ _); cbn; [apply IH|done].
Qed.

(** *** Adding constants keeps the table constant *)

Section ConstAdd.
Context {sort : SortSlice}.

Lemma addChildren_const id method nodes : ∀ item,
  Forall const_node nodes -> const_below item -> const_below (addChildren id method nodes item).
Proof.
  induction nodes as [|n nodes IH]; intros item Hn Hc; cbn [addChildren];
    destruct Hc as [nd cs m Hcs Hb]; [by constructor|].
  apply Forall_cons in Hn as [Hn Hns]. cbn [children item_node apis].
  assert (Hp : const_below (addChildren id method nodes (RouteItem n [] None)))
    by (apply IH; [done|by constructor]).
  constructor; rewrite sortChildren_perm, Forall_app; (split; [done|constructor; [|done]]); [|done].
  by destruct nodes.
Qed.

Lemma insertAt_const id method nodes : ∀ item,
  Forall const_node nodes -> const_below item -> const_below (insertAt id method nodes item).
Proof.
  induction nodes as [|n nodes IH]; intros item Hn Hc; cbn [insertAt].
  - destruct Hc. by constructor.
  - pose proof Hn as [Hn1 Hns]%Forall_cons.
    destruct (firstMatch (children item) n) as [[i c]|]; [|by apply addChildren_const].
    destruct Hc as [nd cs m Hcs Hb]. cbn [children item_node apis].
    constructor; apply Forall_alter; try done; intros d Hd ?.
    + by rewrite insertAt_node.
    + by apply IH.
Qed.

End ConstAdd.

(** The route a list of APIs leaves when every [Add] succeeds. *)
Fixpoint addAll {sort : SortSlice} (r : Route) (apis : list API) : outcome (addError + Route) :=
  match apis with
  | [] => Ret (inr r)
  | api :: apis =>
      res ← Add r api;
      match res with inl e => Ret (inl e) | inr r => addAll r apis end
  end.

Definition const_route (r : Route) : Prop :=
  wf_route r /\ const_below r /\ item_node r = node_of slashType [].

Definition lookup_method (m : gmap bytes Z) (method : bytes) : option Z :=
  match m !! method with Some id => Some id | None => m !! str "*" end.

Lemma Find_loop_start r pf url nodes vs :
  const_route r -> parseInput url = Ret (inr nodes) ->
  removeSlash nodes = node_of slashType slashValue :: map cnode vs ->
  ∀ method, Find r url method pf =
    findResult pf (1 + len vs) method
      (findLoop pf (map cnode vs) 1 (mkFind (children r) (Some r) 0 [] [])).
Proof.
  intros (_ & _ & Hr) Hp Hn method. unfold Find. rewrite Hp. cbn [mbind outcome_mbind].
  rewrite Hn, len_cons, len_map. f_equal.
  cbn [findLoop]. f_equal. unfold findNode, findStart. cbn [f_target f_buf firstUrlMatch].
  unfold urlMatches, isMatchAllConstString. rewrite Hr. cbn [nt node_of]. bdec. by rewrite Hr.
Qed.

(** On a table of constants, [Find] reads the method table of a registered path. *)
Lemma Find_const r vs it method pf :
  const_route r -> wf_path vs -> descend r vs = Some it ->
  Find r (const_path vs) method pf = Ret (lookup_method (default ∅ (apis it)) method, []).
Proof.
  intros Hr Hvs Hd. destruct (const_parse vs Hvs) as (nodes & Hp & Hn).
  rewrite (Find_loop_start r pf _ _ vs Hr Hp Hn). destruct Hr as (_ & Hc & _), Hvs as [Hne _].
  rewrite (findLoop_const pf vs 1 r _ it) by done.
  unfold findResult, lookup_method. cbn [f_matchedIdx f_matchesItem f_buf f_params].
  bcase; [|lia]. destruct (apis it) as [m|]; [|done].
  change (0 <? len []) with false. rewrite andb_false_r. cbn. by destruct (m !! method).
Qed.

Lemma conflict_fresh m method : conflict m method = None -> mapGet m method = 0.
Proof.
  unfold conflict. destruct (bytes_eqb _ _ && _); [done|].
  destruct (negb (mapGet m (str "*") =? 0)); [done|].
  destruct (Z.eqb_spec (mapGet m method) 0); done.
Qed.

Section AddFind.
Context {sort : SortSlice}.

Lemma insertAt_const_route id method vs r :
  wf_path vs -> const_route r -> const_route (insertAt id method (map cnode vs) r).
Proof.
  intros [_ Hvs] (Hw & Hc & Hr). split_and!; [by apply insertAt_wf_route| |by rewrite insertAt_node].
  apply insertAt_const; [|done]. apply Forall_map. eapply Forall_impl; [exact Hvs|].
  intros v (_ & _ & Hv). by apply const_node_cnode.
Qed.

(** The bindings of a table of constants. *)
Definition binds (r : Route) (api : API) : Prop :=
  ∃ vs it m, wf_path vs /\ API_URLPattern api = const_path vs /\
    descend r vs = Some it /\ apis it = Some m /\ m !! API_Method api = Some (API_ID api).

Definition const_api (api : API) : Prop :=
  API_ID api <> 0 /\ ∃ vs, wf_path vs /\ API_URLPattern api = const_path vs.

Lemma binds_table r api vs :
  wf_path vs -> API_URLPattern api = const_path vs ->
  tableAt r (map node_key (map cnode vs)) !! API_Method api = Some (API_ID api) -> binds r api.
Proof.
  intros Hvs Hu. rewrite tableAt_descend. destruct (descend r vs) as [it|] eqn:Hd; [|done].
  cbn. destruct (apis it) as [m|] eqn:Hm; [|done]. cbn. intros Hl. by exists vs, it, m.
Qed.

Lemma table_binds r api : binds r api ->
  ∃ vs, wf_path vs /\ API_URLPattern api = const_path vs /\
    tableAt r (map node_key (map cnode vs)) !! API_Method api = Some (API_ID api).
Proof.
  intros (vs & it & m & Hvs & Hu & Hd & Hm & Hl). exists vs. split_and!; [done|done|].
  rewrite tableAt_descend, Hd. cbn. by rewrite Hm.
Qed.

Lemma Add_binds r api r' :
  const_route r -> const_api api -> Add r api = Ret (inr r') ->
  const_route r' /\ binds r' api /\
  ∀ api', API_ID api' <> 0 -> binds r api' -> binds r' api'.
Proof.
  intros Hr (Hid & vs & Hvs & Hu) Ha.
  destruct (const_parse vs Hvs) as (nodes & Hp & Hn). rewrite <- Hu in Hp.
  pose proof Hr as (Hw & _ & _). rewrite (Add_insertAt _ _ _ Hw Hp) in Ha.
  unfold pattern_keys in Ha. rewrite Hn in Ha. cbn [tail] in Ha.
  destruct (conflict _ _) eqn:Hcf; [done|]. injection Ha as <-.
  apply conflict_fresh in Hcf. pose proof Hw as [Hwi _].
  split_and!; [by apply insertAt_const_route| |].
  - apply (binds_table _ _ vs); [done|done|].
    rewrite tableAt_insertAt by done. bdec. apply lookup_insert_eq.
  - intros api' Hid' (vs' & Hvs' & Hu' & Hl)%table_binds. apply (binds_table _ _ vs'); [done|done|].
    rewrite tableAt_insertAt by done. case_bool_decide as E; [|done].
    rewrite <- E in *. destruct (decide (API_Method api' = API_Method api)) as [Em|Em].
    + unfold mapGet in Hcf. rewrite <- Em, Hl in Hcf. done.
    + by rewrite lookup_insert_ne.
Qed.

Lemma addAll_binds l : ∀ r r' old,
  const_route r -> Forall const_api l -> (∀ a, a ∈ old -> API_ID a <> 0 /\ binds r a) ->
  addAll r l = Ret (inr r') ->
  const_route r' /\ ∀ a, a ∈ old ++ l -> binds r' a.
Proof.
  induction l as [|api l IH]; intros r r' old Hr Hl Hold; cbn.
  - intros [= <-]. rewrite app_nil_r. split; [done|]. intros a Ha. by apply Hold.
  - destruct (Add r api) as [[|r1]| |] eqn:Ea; cbn; try done. intros Hall.
    apply Forall_cons in Hl as [Hapi Hl].
    destruct (Add_binds _ _ _ Hr Hapi Ea) as (Hr1 & Hb & Hkeep).
    rewrite cons_middle, app_assoc. apply (IH r1); try done.
    intros a [Ha|Ha%list_elem_of_singleton]%elem_of_app.
    + split; [by apply Hold|]. by apply Hkeep; apply Hold.
    + subst a. by destruct Hapi.
Qed.

(** C1: registering and finding agree.  After any sequence of successful registrations of
    APIs with non-zero ids and constant patterns in an empty table, a request for an API's
    pattern under its method finds that API, with no parameters; later registrations never
    shadow or replace earlier ones. *)
Theorem Add_Find : ∀ apis r, Forall const_api apis -> addAll NewRoute apis = Ret (inr r) ->
  ∀ a pf, a ∈ apis -> Find r (API_URLPattern a) (API_Method a) pf = Ret (Some (API_ID a), []).
Proof.
  intros l r Hl Hall a pf Ha.
  assert (Hnew : const_route NewRoute)
    by (split_and!; [apply NewRoute_wf|by constructor|done]).
  destruct (addAll_binds l _ r [] Hnew Hl) as [Hr Hb]; [|done|].
  { intros b Hb. by apply elem_of_nil in Hb. }
  destruct (Hb a Ha) as (vs & it & m & Hvs & Hu & Hd & Hm & Hlk).
  rewrite Hu, (Find_const r vs it) by done. rewrite Hm. unfold lookup_method. cbn. by rewrite Hlk.
Qed.

End AddFind.

(** [Find] passes over a path segment that no candidate accepts, unless it is the last
    one: on a table of constants, a registered path with a segment inserted that is not
    registered there gives the same answer ("/a/x/b" resolves to "/a/b"). *)
Theorem Find_skips : ∀ r us x vs it method pf,
  const_route r -> vs <> [] -> wf_path (us ++ x :: vs) ->
  descend r us = Some it -> childOf (children it) (node_key (cnode x)) = None ->
  descend it vs <> None ->
  Find r (const_path (us ++ x :: vs)) method pf = Find r (const_path (us ++ vs)) method pf.
Proof.
  intros r us x vs it method pf Hr Hne Hw Hus Hx Hvs.
  destruct (descend it vs) as [it'|] eqn:Hd; [|done]. clear Hvs.
  assert (Hw' : wf_path (us ++ vs)).
  { destruct Hw as [_ Hw]. split; [by destruct us, vs|].
    rewrite Forall_app, Forall_cons in Hw. rewrite Forall_app. tauto. }
  rewrite (Find_const r (us ++ vs) it') by (try done; by rewrite descend_app, Hus).
  destruct (const_parse _ Hw) as (nodes & Hp & Hn).
  rewrite (Find_loop_start r pf _ _ _ Hr Hp Hn). destruct Hr as (_ & Hc & _).
  assert (Hci : const_below it) by (by eapply descend_below).
  rewrite map_app, findLoop_app, (findLoop_const0 pf us 1 r it) by done. cbn [map findLoop].
  rewrite findNode_const, Hx by done.
  rewrite (findLoop_const pf vs _ it _ it') by done.
  unfold findResult, lookup_method. cbn [f_matchedIdx f_matchesItem f_buf f_params].
  autorewrite with len. bcase; [|lia].
  destruct (apis it') as [m|]; [|done].
  change (0 <? len []) with false. rewrite andb_false_r. cbn. by destruct (m !! method).
Qed.

Lemma Find_skips_witness : ∃ r, const_route r /\
  Find r (const_path [str "a"; str "x"; str "b"]) (str "GET") true =
  Find r (const_path [str "a"; str "b"]) (str "GET") true.
Proof.
  set (r := RouteItem (node_of slashType [])
     [RouteItem (cnode (str "a"))
        [RouteItem (cnode (str "b")) [] (Some {[str "GET" := 3]})] None] None).
  assert (Hr : const_route r).
  { split_and!; [split; [|done]|..|done]; repeat first [constructor | set_solver]. }
  exists r. split; [done|].
  refine (Find_skips r [str "a"] (str "x") [str "b"] _ (str "GET") true Hr _ _ eq_refl _ _);
    [done| |reflexivity|done].
  split; [done|]. repeat constructor; done.
Defined.

Lemma Add_Find_witness : ∃ r,
  addAll NewRoute [api_of 1 "/a/b" "GET"; api_of 2 "/a" "*"] = Ret (inr r) /\
  Find r (str "/a/b") (str "GET") true = Ret (Some 1, []).
Proof.
  eexists. split; [vm_compute; reflexivity|].
  refine (Add_Find [api_of 1 "/a/b" "GET"; api_of 2 "/a" "*"] _ _ _ (api_of 1 "/a/b" "GET") true _).
  - assert (H1 : wf_path [str "a"; str "b"]) by (split; [done|repeat constructor; done]).
    assert (H2 : wf_path [str "a"]) by (split; [done|repeat constructor; done]).
    constructor; [split; [done|by exists [str "a"; str "b"]]|].
    constructor; [split; [done|by exists [str "a"]]|constructor].
  - vm_compute. reflexivity.
  - left.
Defined.

Lemma Find_sound_witness : wf_route NewRoute /\
  ∃ res ps, Find NewRoute (str "/a") (str "GET") true = Ret (res, ps).
Proof.
  split; [exact NewRoute_wf|].
  destruct (Find_sound NewRoute (str "/a") (str "GET") NewRoute_wf) as (res & ps & H & _). eauto.
Defined.
