(* ===== verification/JsonScan.v ===== *)
(** Model of the scanning helpers of the JSON reader [src/src/json/parser.go]: white
    space, literal ends, string ends and block ends, with their behaviour on JSON texts. *)
From S2P Require Import Prelude.

(** ** Definitions *)

Definition dquote : Z := 34.
Definition backslash : Z := 92.

(** [case ' ', '\n', '\r', '\t'] *)
Definition is_ws (c : Z) : bool := (c =? 32) || (c =? 10) || (c =? 13) || (c =? 9).

(** The first position, from [i], whose byte satisfies [p]; [range] loops of the source. *)
Fixpoint scanFor (p : Z -> bool) (data : bytes) (i : Z) : option Z :=
  match data with
  | [] => None
  | c :: data => if p c then Some i else scanFor p data (i + 1)
  end.

(** [case ' ', '\n', '\r', '\t', ',', '}', ']'] *)
Definition ends_token (c : Z) : bool :=
  is_ws c || (c =? ch ",") || (c =? ch "}") || (c =? ch "]").

Definition tokenEnd (data : bytes) : Z := default (len data) (scanFor ends_token data 0).

(** The last position whose byte satisfies [p]: loops from [len(data)-1] down to 0. *)
Definition scanBack (p : Z -> bool) (data : bytes) : option Z :=
  (λ i, len data - 1 - i) <$> scanFor p (rev data) 0.

Definition findTokenStart (data : bytes) (token : Z) : Z :=
  match scanBack (λ c, (c =? token) || (c =? ch "[") || (c =? ch "{")) data with
  | Some i => if default 0 (data !! Z.to_nat i) =? token then i else 0
  | None => 0
  end.

Definition tokenStart (data : bytes) : Z :=
  default 0 (scanBack (λ c, (c =? 10) || (c =? 13) || (c =? 9) || (c =? ch ",") ||
                            (c =? ch "{") || (c =? ch "[")) data).

Definition nextToken (data : bytes) : Z := default (-1) (scanFor (λ c, negb (is_ws c)) data 0).

Definition lastToken (data : bytes) : Z := default (-1) (scanBack (λ c, negb (is_ws c)) data).

(** The inner loop of [stringEnd] from [j = n - 1] down: [true] for its [return] (an even
    number of backslashes), [false] for its [break]. *)
Fixpoint evenBackslashes (data : bytes) (n : nat) : bool :=
  match n with
  | O => true
  | S j =>
      if negb (default 0 (data !! j) =? backslash) then true
      else match j with
           | O => false
           | S j' =>
               if negb (default 0 (data !! j') =? backslash) then false
               else evenBackslashes data j'
           end
  end.

(** [stringEnd]: [rest] is [data[i:]]. *)
Fixpoint stringEndFrom (data rest : bytes) (i : nat) (escaped : bool) : Z * bool :=
  match rest with
  | [] => (-1, escaped)
  | c :: rest =>
      if c =? dquote then
        if negb escaped then (Z.of_nat i + 1, false)
        else if evenBackslashes data i then (Z.of_nat i + 1, true)
        else stringEndFrom data rest (S i) escaped
      else stringEndFrom data rest (S i) (if c =? backslash then true else escaped)
  end.

Definition stringEnd (data : bytes) : Z * bool := stringEndFrom data data 0 false.

(** One turn of the loop of [blockEnd], on [(level, i)]. *)
Definition blockEndStep (data : bytes) (openSym closeSym : Z) (s : Z * Z)
    : outcome ((Z * Z) + Z) :=
  let '(level, i) := s in
  if i <? len data then
    c ← byte_at data i;
    if c =? dquote then
      tail ← slice_from data (i + 1);
      let '(se, _) := stringEnd tail in
      if se =? -1 then Ret (inr (-1)) else Ret (inl (level, i + se + 1))
    else if c =? openSym then Ret (inl (level + 1, i + 1))
    else if c =? closeSym then
      let level := level - 1 in
      if level =? 0 then Ret (inr (i + 1)) else Ret (inl (level, i + 1))
    else Ret (inl (level, i + 1))
  else Ret (inr (-1)).

Definition blockEnd (data : bytes) (openSym closeSym : Z) : outcome Z :=
  loop (blockEndStep data openSym closeSym) (S (length data)) (0, 0).
Arguments blockEnd data openSym closeSym : simpl never.

(** ** Ranges of the results *)

Lemma scanFor_Some p data i k :
  scanFor p data i = Some k ->
  i <= k < i + len data /\ ∃ c, data !! Z.to_nat (k - i) = Some c /\ p c = true.
Proof.
  revert i. induction data as [|c data IH]; intros i; cbn; [done|].
  rewrite len_cons. pose proof (len_nonneg data). destruct (p c) eqn:Hc.
  - intros [= <-]. split; [lia|]. exists c. by rewrite Z.sub_diag.
  - intros (Hk & d & Hd & Hp)%IH. split; [lia|]. exists d. split; [|done].
    replace (Z.to_nat (k - i)) with (S (Z.to_nat (k - (i + 1)))) by lia. done.
Qed.

Lemma scanFor_app p w data i :
  Forall (λ c, p c = false) w -> scanFor p (w ++ data) i = scanFor p data (i + len w).
Proof.
  intros Hw. revert i. induction Hw as [|c w Hc Hw IH]; intros i; cbn [app scanFor].
  - by rewrite len_nil, Z.add_0_r.
  - rewrite Hc, IH, len_cons. f_equal. lia.
Qed.

Definition white (w : bytes) : Prop := Forall (λ c, is_ws c = true) w.

Lemma nextToken_range data :
  nextToken data = -1 \/
  0 <= nextToken data < len data /\
    ∃ c, data !! Z.to_nat (nextToken data) = Some c /\ is_ws c = false.
Proof.
  unfold nextToken. destruct (scanFor _ _ _) as [k|] eqn:E; [right|by left]. cbn.
  apply scanFor_Some in E as (Hk & c & Hc & Hw). rewrite Z.sub_0_r in Hc.
  split; [lia|]. exists c. split; [done|]. by apply negb_true_iff.
Qed.

Lemma nextToken_white w c rest : white w -> is_ws c = false -> nextToken (w ++ c :: rest) = len w.
Proof.
  intros Hw Hc. unfold nextToken. rewrite scanFor_app.
  - cbn. by rewrite Hc.
  - eapply Forall_impl; [exact Hw|]. cbn. by intros x ->.
Qed.

Lemma nextToken_all_white w : white w -> nextToken w = -1.
Proof.
  intros Hw. unfold nextToken. rewrite <- (app_nil_r w), scanFor_app; [done|].
  eapply Forall_impl; [exact Hw|]. cbn. by intros x ->.
Qed.

Lemma tokenEnd_range data : 0 <= tokenEnd data <= len data.
Proof.
  unfold tokenEnd. destruct (scanFor _ _ _) as [k|] eqn:E; cbn; [|pose proof (len_nonneg data); lia].
  apply scanFor_Some in E as [? _]. lia.
Qed.

Lemma tokenEnd_app w rest :
  Forall (λ c, ends_token c = false) w ->
  match rest with [] => True | c :: _ => ends_token c = true end ->
  tokenEnd (w ++ rest) = len w.
Proof.
  intros Hw Hr. unfold tokenEnd. rewrite scanFor_app by done.
  destruct rest as [|c rest]; cbn [scanFor].
  - autorewrite with len. cbn. lia.
  - rewrite Hr. cbn. lia.
Qed.

Lemma stringEndFrom_range data rest : ∀ i e k b,
  stringEndFrom data rest i e = (k, b) ->
  k = -1 \/ Z.of_nat i + 1 <= k <= Z.of_nat i + len rest.
Proof.
  induction rest as [|c rest IH]; intros i e k b; cbn [stringEndFrom]; [intros [= <- _]; by left|].
  rewrite len_cons. pose proof (len_nonneg rest).
  repeat case_match; intros Hk; try (injection Hk as <- _; lia);
    apply IH in Hk as [->|?]; [by left|lia..].
Qed.

Lemma stringEnd_range data k b : stringEnd data = (k, b) -> k = -1 \/ 1 <= k <= len data.
Proof. intros [|]%stringEndFrom_range; [by left|lia]. Qed.

(** [blockEnd] answers, with -1 or a position inside the data. *)
Lemma blockEnd_returns data o c :
  ∃ k, blockEnd data o c = Ret k /\ (k = -1 \/ 1 <= k <= len data).
Proof.
  assert (Hstep : ∀ s, 0 <= snd s -> ∃ r, blockEndStep data o c s = Ret r /\
    (∀ s', r = inl s' -> 0 <= snd s' /\
       (Z.to_nat (len data - snd s') < Z.to_nat (len data - snd s))%nat) /\
    (∀ k, r = inr k -> k = -1 \/ 1 <= k <= len data)).
  { intros [level i] Hi. cbn in Hi. unfold blockEndStep.
    destruct (Z.ltb_spec i (len data)).
    2:{ eexists. split; [done|]. split; [done|]. intros k [= <-]. by left. }
    destruct (byte_at_in_range data i) as (x & -> & _); [lia|]. cbn [mbind outcome_mbind].
    assert (Hn : ∀ l, ∃ r, Ret (inl (l, i + 1)) = @Ret (Z * Z + Z) r /\
      (∀ s', r = inl s' -> 0 <= snd s' /\
        (Z.to_nat (len data - snd s') < Z.to_nat (len data - snd (level, i)))%nat) /\
      (∀ k, r = inr k -> k = -1 \/ 1 <= k <= len data)).
    { intros l. eexists. split; [done|]. split; [|done]. intros s' [= <-]. cbn. lia. }
    bcase; [|bcase; [apply Hn|bcase; [bcase|]; try apply Hn]].
    - unfold slice_from. rewrite slice_in_range by lia. cbn [mbind outcome_mbind].
      destruct (stringEnd _) as [se b] eqn:Hse. apply stringEnd_range in Hse.
      bcase; [eexists; split; [done|]; split; [done|]; intros k [= <-]; by left|].
      eexists. split; [done|]. split; [|done]. intros s' [= <-]. cbn. lia.
    - eexists. split; [done|]. split; [done|]. intros k [= <-]. lia. }
  destruct (loop_returns (blockEndStep data o c) (λ s, 0 <= snd s)
    (λ s, Z.to_nat (len data - snd s))) with (fuel := S (length data)) (s := (0, 0)) as [k Hk].
  - intros s Hs. destruct (Hstep s Hs) as (r & Hr & H & _). eauto.
  - done.
  - cbn. unfold len. lia.
  - exists k. split; [exact Hk|].
    apply (loop_post (blockEndStep data o c) (λ s, 0 <= snd s)
      (λ k, k = -1 \/ 1 <= k <= len data)) in Hk; [done| |cbn; lia].
    intros s Hs. destruct (Hstep s Hs) as (r & Hr & H1 & H2). split.
    + intros s' Hs'. rewrite Hr in Hs'. injection Hs' as ->. by apply H1.
    + intros q Hq. rewrite Hr in Hq. injection Hq as ->. by apply H2.
Qed.

(** ** Strings *)

(** The raw text of a JSON string: no quote that is not escaped. *)
Inductive raw : bytes -> Prop :=
| raw_nil : raw []
| raw_char c t : c <> dquote -> c <> backslash -> raw t -> raw (c :: t)
| raw_esc c t : raw t -> raw (backslash :: c :: t).

Definition has_backslash (t : bytes) : bool := existsb (λ c, c =? backslash) t.

Lemma even_other data j c :
  data !! j = Some c -> c <> backslash -> evenBackslashes data (S j) = true.
Proof.
  intros Hj Hc. cbn [evenBackslashes]. rewrite Hj. cbn [default]. unfold id.
  by destruct (Z.eqb_spec c backslash).
Qed.

Lemma even_step data j :
  data !! j = Some backslash -> evenBackslashes data (S j) = negb (evenBackslashes data j).
Proof.
  revert j. apply (well_founded_induction lt_wf (λ j, data !! j = Some backslash ->
    evenBackslashes data (S j) = negb (evenBackslashes data j))).
  intros j IH Hj. cbn [evenBackslashes]. rewrite Hj. change (default 0 (Some backslash)) with backslash.
  change (backslash =? backslash) with true. cbn [negb].
  destruct j as [|j']; [done|]. destruct (lookup_lt_is_Some_2 data j') as [x Hx].
  { apply lookup_lt_Some in Hj. lia. }
  rewrite Hx. change (default 0 (Some x)) with x.
  destruct (Z.eqb_spec x backslash) as [->|Hne]; cbn [negb].
  - rewrite (IH j' ltac:(lia) Hx). by rewrite negb_involutive.
  - by rewrite (even_other _ _ x).
Qed.

Lemma stringEndFrom_raw t : raw t -> ∀ pre rest e,
  evenBackslashes (pre ++ t ++ dquote :: rest) (length pre) = true ->
  stringEndFrom (pre ++ t ++ dquote :: rest) (t ++ dquote :: rest) (length pre) e =
    (len pre + len t + 1, e || has_backslash t).
Proof.
  induction 1 as [|c t Hq Hb Ht IH|c t Ht IH]; intros pre rest e He.
  - cbn [app] in *. cbn. rewrite He. rewrite orb_false_r, len_nil.
    destruct e; cbn; f_equal; unfold len; lia.
  - cbn [app stringEndFrom]. destruct (Z.eqb_spec c dquote); [done|].
    unfold has_backslash. cbn [existsb]. destruct (Z.eqb_spec c backslash); [done|].
    specialize (IH (pre ++ [c]) rest e). rewrite length_app in IH. cbn [length] in IH.
    rewrite <- !app_assoc in IH. cbn [app] in IH. rewrite Nat.add_1_r in IH. rewrite IH.
    + autorewrite with len. f_equal. lia.
    + apply (even_other _ _ c); [|done]. by rewrite lookup_app_r, Nat.sub_diag.
  - specialize (IH (pre ++ [backslash; c]) rest true).
    rewrite length_app in IH. cbn [length] in IH. rewrite <- !app_assoc in IH. cbn [app] in IH.
    replace (length pre + 2)%nat with (S (S (length pre))) in IH by lia.
    assert (H1 : (pre ++ backslash :: c :: t ++ dquote :: rest) !! length pre = Some backslash)
      by (by rewrite lookup_app_r, Nat.sub_diag).
    assert (H2 : (pre ++ backslash :: c :: t ++ dquote :: rest) !! S (length pre) = Some c).
    { rewrite lookup_app_r by lia. by replace (S (length pre) - length pre)%nat with 1%nat by lia. }
    pose proof (even_step _ _ H1) as Hodd. cbn [app] in He. rewrite He in Hodd.
    assert (Heven : evenBackslashes (pre ++ backslash :: c :: t ++ dquote :: rest)
        (S (S (length pre))) = true).
    { destruct (decide (c = backslash)) as [->|Hc];
        [by rewrite (even_step _ _ H2), Hodd|by apply (even_other _ _ c)]. }
    specialize (IH Heven). cbn [app stringEndFrom].
    change (backslash =? dquote) with false. change (backslash =? backslash) with true. cbv iota.
    replace (if c =? backslash then true else true) with true by (by destruct (c =? backslash)).
    rewrite Hodd. cbn [negb]. cbv iota.
    replace (if c =? dquote then _ else _) with
      (stringEndFrom (pre ++ backslash :: c :: t ++ dquote :: rest) (t ++ dquote :: rest)
         (S (S (length pre))) true) by (by destruct (c =? dquote)).
    rewrite IH. autorewrite with len. unfold has_backslash. cbn [existsb Z.eqb].
    change (backslash =? backslash) with true. cbn [orb]. rewrite orb_true_r. f_equal. lia.
Qed.

Lemma stringEnd_raw t rest :
  raw t -> stringEnd (t ++ dquote :: rest) = (len t + 1, has_backslash t).
Proof. intros Ht. by apply (stringEndFrom_raw t Ht [] rest false). Qed.
