(* ===== verification/JsonEscape.v ===== *)
(** Model of the string unescaping of the JSON reader [src/src/json/escape.go], with the
    part of [unicode/utf8] it calls, and of the integer reader [bytes.go]. *)
From S2P Require Import Prelude JsonScan.

(** ** escape.go *)

Definition supplementalPlanesOffset : Z := 65536.
Definition highSurrogateOffset : Z := 55296.
Definition lowSurrogateOffset : Z := 56320.
Definition basicMultilingualPlaneReservedOffset : Z := 57343.
Definition basicMultilingualPlaneOffset : Z := 65535.

(** [utf8.RuneError] *)
Definition RuneError : Z := 65533.

(** [rune] is [int32]. *)
Definition combineUTF16Surrogates (high low : Z) : Z :=
  i32 (supplementalPlanesOffset + Z.shiftl (high - highSurrogateOffset) 10 +
       (low - lowSurrogateOffset)).

Definition badHex : Z := -1.

Definition h2I (c : Z) : Z :=
  if (ch "0" <=? c) && (c <=? ch "9") then c - ch "0"
  else if (ch "A" <=? c) && (c <=? ch "F") then c - ch "A" + 10
  else if (ch "a" <=? c) && (c <=? ch "f") then c - ch "a" + 10
  else badHex.

(** [Some r] is [(r, true)], [None] is [(utf8.RuneError, false)]. *)
Definition decodeSingleUnicodeEscape (inp : bytes) : outcome (option Z) :=
  if len inp <? 6 then Ret None
  else
    c2 ← byte_at inp 2; c3 ← byte_at inp 3; c4 ← byte_at inp 4; c5 ← byte_at inp 5;
    let h1 := h2I c2 in let h2 := h2I c3 in let h3 := h2I c4 in let h4 := h2I c5 in
    if (h1 =? badHex) || (h2 =? badHex) || (h3 =? badHex) || (h4 =? badHex) then Ret None
    else Ret (Some (Z.shiftl h1 12 + Z.shiftl h2 8 + Z.shiftl h3 4 + h4)).

Definition isUTF16EncodedRune (r : Z) : bool :=
  (highSurrogateOffset <=? r) && (r <=? basicMultilingualPlaneReservedOffset).

(** [None] is the [-1] length of an invalid escape. *)
Definition decodeUnicodeEscape (inp : bytes) : outcome (option (Z * Z)) :=
  r ← decodeSingleUnicodeEscape inp;
  match r with
  | None => Ret None
  | Some r =>
      if (r <=? basicMultilingualPlaneOffset) && negb (isUTF16EncodedRune r)
      then Ret (Some (r, 6))
      else
        tail ← slice_from inp 6;
        r2 ← decodeSingleUnicodeEscape tail;
        match r2 with
        | None => Ret None
        | Some r2 =>
            if r2 <? lowSurrogateOffset then Ret None
            else Ret (Some (combineUTF16Surrogates r r2, 12))
        end
  end.

Definition backslashCharEscapeTable (e : Z) : Z :=
  if e =? ch "b" then 8 else if e =? ch "f" then 12 else if e =? ch "n" then 10
  else if e =? ch "r" then 13 else if e =? ch "t" then 9 else e.

(** [utf8.EncodeRune]: the bytes it writes. *)
Definition EncodeRune (r : Z) : bytes :=
  let i := u32 r in
  let r := if (1114111 <? i) || ((55296 <=? i) && (i <=? 57343)) then RuneError else i in
  if r <=? 127 then [r]
  else if r <=? 2047 then [Z.lor 192 (Z.shiftr r 6); Z.lor 128 (Z.land r 63)]
  else if r <=? 65535 then
    [Z.lor 224 (Z.shiftr r 12); Z.lor 128 (Z.land (Z.shiftr r 6) 63); Z.lor 128 (Z.land r 63)]
  else
    [Z.lor 240 (Z.shiftr r 18); Z.lor 128 (Z.land (Z.shiftr r 12) 63);
     Z.lor 128 (Z.land (Z.shiftr r 6) 63); Z.lor 128 (Z.land r 63)].

(** Write [w] at the start of a buffer with [room] bytes left; a write past its end panics. *)
Definition putBytes (room : Z) (w : bytes) : outcome bytes :=
  if len w <=? room then Ret w else Panic.

(** The two-character escapes: quote, backslash, slash and [b f n r t]. *)
Definition isSimpleEscape (e : Z) : bool :=
  (e =? dquote) || (e =? backslash) || (e =? ch "/") || (e =? ch "b") || (e =? ch "f")
  || (e =? ch "n") || (e =? ch "r") || (e =? ch "t").

(** [Some (inLen, w)]: consumed and written; [None] is [(-1, -1)].  [room] is [len(out)]. *)
Definition unescapeToUTF8 (inp : bytes) (room : Z) : outcome (option (Z * bytes)) :=
  if len inp <? 2 then Ret None
  else
    c ← byte_at inp 0;
    if negb (c =? backslash) then Ret None
    else
      e ← byte_at inp 1;
      if isSimpleEscape e then w ← putBytes room [backslashCharEscapeTable e]; Ret (Some (2, w))
      else if e =? ch "u" then
        d ← decodeUnicodeEscape inp;
        match d with
        | None => Ret None
        | Some (r, inLen) => w ← putBytes room (EncodeRune r); Ret (Some (inLen, w))
        end
      else Ret None.

(** [bytes.IndexByte] *)
Definition indexByte (l : bytes) (c : Z) : Z := default (-1) (scanFor (λ x, x =? c) l 0).

(** The loop of [Unescape] on [(in, out[:len(out)-len(buf)])], with [size = len(out)].
    [None] is [MalformedStringEscapeError]. *)
Definition unescapeStep (size : Z) (s : bytes * bytes) : outcome ((bytes * bytes) + option bytes) :=
  let '(inp, w) := s in
  if 0 <? len inp then
    u ← unescapeToUTF8 inp (size - len w);
    match u with
    | None => Ret (inr None)
    | Some (inLen, b) =>
        inp ← slice_from inp inLen;
        let w := w ++ b in
        let nextBackslash := indexByte inp backslash in
        if nextBackslash =? -1 then
          b ← putBytes (size - len w) inp; Ret (inr (Some (w ++ b)))
        else
          pre ← slice inp 0 nextBackslash;
          b ← putBytes (size - len w) pre;
          inp ← slice_from inp nextBackslash;
          Ret (inl (inp, w ++ b))
    end
  else Ret (inr (Some w)).

(** [out] only lends its space: a buffer of [len(in)] bytes is used in every case. *)
Definition Unescape (inp : bytes) : outcome (option bytes) :=
  let firstBackslash := indexByte inp backslash in
  if firstBackslash =? -1 then Ret (Some inp)
  else
    pre ← slice inp 0 firstBackslash;
    rest ← slice_from inp firstBackslash;
    loop (unescapeStep (len inp)) (S (length inp)) (rest, pre).
Arguments Unescape inp : simpl never.

(** ** bytes.go *)

Definition minInt64 : bytes := str "9223372036854775808".

(** The loop of [parseInt] on the digits: [Some (v, b, overflow)] is where it ends, [None]
    the return on a byte that is not a digit. *)
Fixpoint parseIntLoop (digits : bytes) (v b : Z) : option (Z * Z * bool) :=
  match digits with
  | [] => Some (v, b, false)
  | c :: digits =>
      if (ch "0" <=? c) && (c <=? ch "9") then
        let b := i64 (i64 (10 * v) + (c - ch "0")) in
        if b <? v then Some (v, b, true) else parseIntLoop digits b b
      else None
  end.

(** The result [(v, ok, overflow)]. *)
Definition parseInt (bs : bytes) : Z * bool * bool :=
  match bs with
  | [] => (0, false, false)
  | c :: tail =>
      let neg := c =? ch "-" in
      let digits := if neg then tail else bs in
      match parseIntLoop digits 0 0 with
      | None => (0, false, false)
      | Some (v, b, overflow) =>
          if overflow then
            if neg && bytes_eqb digits minInt64 then (b, true, false) else (0, false, true)
          else if neg then (i64 (- v), true, false) else (v, true, false)
      end
  end.

(** ** Unescaping terminates inside its buffer *)

Lemma scanFor_shift p l i : scanFor p l i = (λ k, k + i) <$> scanFor p l 0.
Proof.
  revert i. induction l as [|y l IH]; intros i; cbn [scanFor]; [done|].
  destruct (p y); [done|]. rewrite (IH (0 + 1)), (IH (i + 1)).
  destruct (scanFor _ l 0); cbn; [|done]. f_equal. lia.
Qed.

Lemma indexByte_absent l c : Forall (λ x, x <> c) l -> indexByte l c = -1.
Proof.
  intros Hl. unfold indexByte. rewrite <- (app_nil_r l), scanFor_app; [done|].
  eapply Forall_impl; [exact Hl|]. intros x. apply Z.eqb_neq.
Qed.

Lemma indexByte_first pre c post :
  Forall (λ x, x <> c) pre -> indexByte (pre ++ c :: post) c = len pre.
Proof.
  intros Hl. unfold indexByte. rewrite scanFor_app.
  - cbn. by rewrite Z.eqb_refl.
  - eapply Forall_impl; [exact Hl|]. intros x. apply Z.eqb_neq.
Qed.

Lemma indexByte_spec l c :
  (indexByte l c = -1 /\ Forall (λ x, x <> c) l) \/
  ∃ pre post, l = pre ++ c :: post /\ Forall (λ x, x <> c) pre /\ indexByte l c = len pre.
Proof.
  assert (H : Forall (λ x, x <> c) l \/
    ∃ pre post, l = pre ++ c :: post /\ Forall (λ x, x <> c) pre).
  { induction l as [|x l [IH|(pre & post & -> & IH)]]; [by left|..];
      (destruct (decide (x = c)) as [->|Hx]; [right; by exists [], l || by exists [], (pre ++ c :: post)|]).
    - left. by constructor.
    - right. exists (x :: pre), post. split; [done|by constructor]. }
  destruct H as [H|(pre & post & -> & H)].
  - left. split; [by apply indexByte_absent|done].
  - right. exists pre, post. split_and!; [done|done|by apply indexByte_first].
Qed.

Lemma decodeSingle_returns inp : ∃ o, decodeSingleUnicodeEscape inp = Ret o /\
  (∀ r, o = Some r -> 6 <= len inp).
Proof.
  unfold decodeSingleUnicodeEscape. bcase; [by eexists|].
  destruct (byte_at_in_range inp 2) as (c2 & -> & _); [lia|].
  destruct (byte_at_in_range inp 3) as (c3 & -> & _); [lia|].
  destruct (byte_at_in_range inp 4) as (c4 & -> & _); [lia|].
  destruct (byte_at_in_range inp 5) as (c5 & -> & _); [lia|]. cbn [mbind outcome_mbind].
  destruct (_ || _); eauto.
Qed.

Lemma decodeUnicode_returns inp : ∃ o, decodeUnicodeEscape inp = Ret o /\
  ∀ r n, o = Some (r, n) -> 6 <= n <= len inp.
Proof.
  unfold decodeUnicodeEscape. destruct (decodeSingle_returns inp) as ([r|] & -> & Hr);
    cbn [mbind outcome_mbind]; [|by eexists]. specialize (Hr r eq_refl).
  destruct (_ && _).
  - eexists. split; [done|]. intros ? ? [= <- <-]. lia.
  - unfold slice_from. rewrite slice_in_range by lia. cbn [mbind outcome_mbind].
    destruct (decodeSingle_returns (take (Z.to_nat (len inp - 6)) (drop (Z.to_nat 6) inp)))
      as ([r2|] & -> & Hr2); cbn [mbind outcome_mbind]; [|by eexists].
    specialize (Hr2 r2 eq_refl). autorewrite with len in Hr2.
    bcase; eexists; (split; [done|]); [done|]. intros ? ? [= <- <-]. lia.
Qed.

Lemma EncodeRune_len r : 1 <= len (EncodeRune r) <= 4.
Proof. unfold EncodeRune. repeat case_match; autorewrite with len; lia. Qed.

Lemma unescapeToUTF8_returns inp room : len inp <= room ->
  ∃ o, unescapeToUTF8 inp room = Ret o /\
    ∀ n w, o = Some (n, w) -> 2 <= n <= len inp /\ 1 <= len w <= n.
Proof.
  intros Hroom. unfold unescapeToUTF8. bcase; [by eexists|].
  destruct (byte_at_in_range inp 0) as (c & -> & _); [lia|]. cbn [mbind outcome_mbind].
  destruct (negb _); [by eexists|].
  destruct (byte_at_in_range inp 1) as (e & -> & _); [lia|]. cbn [mbind outcome_mbind].
  destruct (isSimpleEscape e).
  - unfold putBytes. rewrite len_cons, len_nil. bcase; [|lia].
    eexists. split; [done|]. intros ? ? [= <- <-]. autorewrite with len. lia.
  - bcase; [|by eexists].
    destruct (decodeUnicode_returns inp) as ([[r n]|] & -> & Hn); cbn [mbind outcome_mbind];
      [|by eexists]. specialize (Hn r n eq_refl). pose proof (EncodeRune_len r).
    unfold putBytes. bcase; [|lia]. eexists. split; [done|]. intros ? ? [= <- <-]. lia.
Qed.

Definition unescape_inv (size : Z) (s : bytes * bytes) : Prop := len (fst s) + len (snd s) <= size.

Lemma unescapeStep_returns size s : unescape_inv size s ->
  ∃ r, unescapeStep size s = Ret r /\
    (∀ s', r = inl s' -> unescape_inv size s' /\ (length (fst s') < length (fst s))%nat) /\
    (∀ w, r = inr (Some w) -> len w <= size).
Proof.
  destruct s as [inp w]. unfold unescape_inv. cbn [fst snd]. intros Hinv. unfold unescapeStep.
  destruct (Z.ltb_spec 0 (len inp)).
  2:{ eexists. split; [done|]. split; [done|]. intros ? [= <-]. pose proof (len_nonneg inp). lia. }
  destruct (unescapeToUTF8_returns inp (size - len w)) as ([[n b]|] & -> & Hu); [lia| |];
    cbn [mbind outcome_mbind]; [|by eexists].
  specialize (Hu n b eq_refl). rewrite slice_from_in_range by lia. cbn [mbind outcome_mbind].
  set (inp' := drop (Z.to_nat n) inp).
  assert (Hinp' : len inp' = len inp - n) by (unfold inp'; autorewrite with len; lia).
  pose proof (len_nonneg w). autorewrite with len.
  destruct (indexByte_spec inp' backslash) as [[-> _]|(pre & post & E & _ & ->)].
  - cbn [Z.eqb Z.opp]. unfold putBytes. destruct (Z.leb_spec (len inp') (size - (len w + len b))); [|lia].
    eexists. split; [done|]. split; [done|]. intros ? [= <-]. autorewrite with len. lia.
  - pose proof (len_nonneg pre). pose proof (len_nonneg post).
    destruct (Z.eqb_spec (len pre) (-1)); [lia|].
    rewrite E in *. autorewrite with len in Hinp'.
    rewrite slice_prefix by done.
    cbn [mbind outcome_mbind]. unfold putBytes.
    destruct (Z.leb_spec (len pre) (size - (len w + len b))); [|lia]. cbn [mbind outcome_mbind].
    rewrite slice_from_app by done. cbn [mbind outcome_mbind].
    eexists. split; [done|]. split; [|done]. intros s' [= <-]. cbn [fst snd].
    autorewrite with len in *. cbn [length]. unfold len in *. lia.
Qed.

Lemma Unescape_good : ∀ inp, ∃ o, Unescape inp = Ret o /\ ∀ w, o = Some w -> len w <= len inp.
Proof.
  intros inp. unfold Unescape.
  destruct (indexByte_spec inp backslash) as [[-> _]|(pre & post & E & _ & ->)].
  - cbn. eexists. split; [done|]. intros ? [= <-]. lia.
  - pose proof (len_nonneg pre). destruct (Z.eqb_spec (len pre) (-1)); [lia|].
    replace (slice inp 0 (len pre)) with (Ret pre)
      by (rewrite E; by rewrite slice_prefix).
    replace (slice_from inp (len pre)) with (Ret (backslash :: post))
      by (rewrite E; by rewrite slice_from_app).
    cbn [mbind outcome_mbind].
    assert (Hi : unescape_inv (len inp) (backslash :: post, pre))
      by (unfold unescape_inv; rewrite E; cbn [fst snd]; autorewrite with len; lia).
    destruct (loop_returns (unescapeStep (len inp)) (unescape_inv (len inp)) (λ s, length (fst s)))
      with (fuel := S (length inp)) (s := (backslash :: post, pre)) as [o Ho]; [|done| |].
    + intros s Hs. destruct (unescapeStep_returns _ s Hs) as (r & Hr & H1 & _). eauto.
    + rewrite E. rewrite length_app. cbn [fst length]. lia.
    + exists o. split; [exact Ho|].
      refine (loop_post (unescapeStep (len inp)) (unescape_inv (len inp))
        (λ o, ∀ w, o = Some w -> len w <= len inp) _ _ _ _ Hi Ho).
      intros s Hs. destruct (unescapeStep_returns _ s Hs) as (r & Hr & H1 & H2). rewrite Hr.
      split; [intros s' [= ->]; by apply H1|intros q [= ->] w ->; by apply (H2 w)].
Qed.

(** [Unescape] terminates on every input and never writes past its buffer; a result is
    no longer than the input. *)
Theorem Unescape_total : ∀ inp, ∃ o, Unescape inp = Ret o /\ ∀ w, o = Some w -> len w <= len inp.
Proof. exact Unescape_good. Qed.

(** ** Escaped texts

    A JSON string text is a sequence of plain bytes, two-character escapes and [\u] escapes
    (a surrogate pair for a rune past the basic plane, in either letter case). *)
Inductive item := IPlain (c : Z) | ISimple (e : Z) | IUni (upper : bool) (r : Z).

Definition hexDigit (upper : bool) (d : Z) : Z :=
  if d <? 10 then ch "0" + d else (if upper then ch "A" else ch "a") + (d - 10).

Definition hex4 (upper : bool) (x : Z) : bytes :=
  [backslash; ch "u"; hexDigit upper (x / 4096); hexDigit upper (x / 256 mod 16);
   hexDigit upper (x / 16 mod 16); hexDigit upper (x mod 16)].

Definition item_text (it : item) : bytes :=
  match it with
  | IPlain c => [c]
  | ISimple e => [backslash; e]
  | IUni upper r =>
      if r <=? 65535 then hex4 upper r
      else hex4 upper (55296 + (r - 65536) / 1024) ++ hex4 upper (56320 + (r - 65536) mod 1024)
  end.

(** The bytes an item stands for: UTF-8 for a rune. *)
Definition item_value (it : item) : bytes :=
  match it with
  | IPlain c => [c]
  | ISimple e => [backslashCharEscapeTable e]
  | IUni _ r => EncodeRune r
  end.

Definition wf_escape (it : item) : Prop :=
  match it with
  | IPlain _ => False
  | ISimple e => isSimpleEscape e = true
  | IUni _ r => 0 <= r <= 1114111 /\ ~ (55296 <= r <= 57343)
  end.

Definition wf_item (it : item) : Prop :=
  match it with IPlain c => c <> backslash | _ => wf_escape it end.

Definition texts (its : list item) : bytes := mjoin (map item_text its).
Definition values (its : list item) : bytes := mjoin (map item_value its).

Lemma h2I_hexDigit upper d : 0 <= d < 16 -> h2I (hexDigit upper d) = d.
Proof.
  intros Hd. unfold h2I, hexDigit. chars. destruct upper; repeat (bcase; cbn [andb]; try lia).
Qed.

Lemma decodeSingle_hex4 upper x tail :
  0 <= x < 65536 -> decodeSingleUnicodeEscape (hex4 upper x ++ tail) = Ret (Some x).
Proof.
  intros Hx. unfold decodeSingleUnicodeEscape, hex4. cbn [app].
  rewrite !len_cons. pose proof (len_nonneg tail). bcase; [lia|].
  cbn [byte_at Z.ltb Z.compare lookup list_lookup mbind outcome_mbind].
  unfold byte_at. cbn [Z.ltb Z.compare Z.to_nat Pos.to_nat Pos.iter_op].
  change (Z.to_nat 2) with 2%nat. change (Z.to_nat 3) with 3%nat.
  change (Z.to_nat 4) with 4%nat. change (Z.to_nat 5) with 5%nat.
  cbn [lookup list_lookup mbind outcome_mbind].
  rewrite !h2I_hexDigit by (Z.to_euclidean_division_equations; lia).
  unfold badHex. repeat (bcase; [exfalso; Z.to_euclidean_division_equations; lia|]).
  cbn [orb]. rewrite !Z.shiftl_mul_pow2 by lia. do 2 f_equal.
  Z.to_euclidean_division_equations; lia.
Qed.

Lemma len_hex4 upper x : len (hex4 upper x) = 6.
Proof. reflexivity. Qed.

Lemma decodeUnicode_item upper r tail :
  wf_escape (IUni upper r) ->
  decodeUnicodeEscape (item_text (IUni upper r) ++ tail) =
    Ret (Some (r, len (item_text (IUni upper r)))).
Proof.
  intros [Hr Hs]. cbn [item_text]. unfold decodeUnicodeEscape.
  destruct (Z.leb_spec r 65535).
  - rewrite decodeSingle_hex4 by lia. cbn [mbind outcome_mbind].
    unfold isUTF16EncodedRune, basicMultilingualPlaneOffset, highSurrogateOffset,
      basicMultilingualPlaneReservedOffset.
    repeat (bcase; cbn [andb negb]; try lia); done.
  - rewrite <- app_assoc, decodeSingle_hex4 by (Z.to_euclidean_division_equations; lia).
    cbn [mbind outcome_mbind].
    replace (_ && negb _) with false.
    2:{ unfold isUTF16EncodedRune, highSurrogateOffset, basicMultilingualPlaneReservedOffset.
        symmetry. apply andb_false_intro2. apply negb_false_iff, andb_true_intro.
        rewrite !Z.leb_le. Z.to_euclidean_division_equations; lia. }
    rewrite slice_from_app by (by rewrite len_hex4). cbn [mbind outcome_mbind].
    rewrite decodeSingle_hex4 by (Z.to_euclidean_division_equations; lia).
    cbn [mbind outcome_mbind]. unfold lowSurrogateOffset at 1.
    bcase; [exfalso; Z.to_euclidean_division_equations; lia|].
    rewrite len_app, !len_hex4. do 3 f_equal. unfold combineUTF16Surrogates,
      supplementalPlanesOffset, highSurrogateOffset, lowSurrogateOffset, i32.
    rewrite Z.shiftl_mul_pow2, Z.mod_small by (Z.to_euclidean_division_equations; lia).
    Z.to_euclidean_division_equations; lia.
Qed.

Lemma unescape_item it tail room :
  wf_escape it -> len (item_value it) <= room ->
  unescapeToUTF8 (item_text it ++ tail) room = Ret (Some (len (item_text it), item_value it)).
Proof.
  intros Hw Hroom. destruct it as [c|e|upper r]; [done| |].
  - cbn [item_text item_value wf_escape app] in *. unfold unescapeToUTF8.
    rewrite !len_cons. pose proof (len_nonneg tail). bcase; [lia|].
    change (byte_at (backslash :: e :: tail) 0) with (Ret backslash).
    change (byte_at (backslash :: e :: tail) 1) with (Ret e).
    cbn [mbind outcome_mbind]. change (negb (backslash =? backslash)) with false. rewrite Hw.
    unfold putBytes. rewrite (proj2 (Z.leb_le _ _) Hroom). reflexivity.
  - pose proof (decodeUnicode_item upper r tail Hw) as Hd.
    assert (Ht : ∃ t, item_text (IUni upper r) = backslash :: ch "u" :: t)
      by (cbn [item_text]; destruct (r <=? 65535); eexists; reflexivity).
    destruct Ht as [t Ht]. rewrite Ht in *. cbn [app] in *. unfold unescapeToUTF8.
    rewrite !len_cons. pose proof (len_nonneg (t ++ tail)). bcase; [lia|].
    change (byte_at (backslash :: ch "u" :: t ++ tail) 0) with (Ret backslash).
    change (byte_at (backslash :: ch "u" :: t ++ tail) 1) with (Ret (ch "u")).
    cbn [mbind outcome_mbind]. change (negb (backslash =? backslash)) with false.
    change (isSimpleEscape (ch "u")) with false. change (ch "u" =? ch "u") with true.
    cbv iota. rewrite Hd. cbn [mbind outcome_mbind]. unfold putBytes.
    cbn [item_value] in *. rewrite (proj2 (Z.leb_le _ _) Hroom).
    cbn [mbind outcome_mbind]. by rewrite !len_cons.
Qed.

Lemma item_value_len it : wf_escape it -> 1 <= len (item_value it) <= len (item_text it).
Proof.
  destruct it as [c|e|upper r]; cbn [wf_escape item_value item_text]; intros Hw.
  - done.
  - autorewrite with len. lia.
  - pose proof (EncodeRune_len r). destruct (r <=? 65535); rewrite ?len_app, !len_hex4; lia.
Qed.

Lemma texts_cons it its : texts (it :: its) = item_text it ++ texts its.
Proof. reflexivity. Qed.

Lemma values_cons it its : values (it :: its) = item_value it ++ values its.
Proof. reflexivity. Qed.

Lemma values_len its : Forall wf_item its -> len (values its) <= len (texts its).
Proof.
  induction 1 as [|it its Hw Hf IH]; [done|]. rewrite values_cons, texts_cons, !len_app.
  assert (len (item_value it) <= len (item_text it)); [|lia].
  destruct it; [done|by apply item_value_len..].
Qed.

(** A text is a run of plain bytes, then nothing or an escape. *)
Lemma texts_split its : Forall wf_item its ->
  ∃ pre post, texts its = pre ++ texts post /\ values its = pre ++ values post /\
    Forall (λ c, c <> backslash) pre /\ Forall wf_item post /\
    (length post <= length its)%nat /\
    match post with [] => True | it :: _ => wf_escape it end.
Proof.
  induction 1 as [|it its Hw Hf (pre & post & Ht & Hv & Hpre & Hpost & Hlen & Hp)].
  { by exists [], []. }
  destruct it as [c|e|upper r].
  - exists (c :: pre), post. rewrite texts_cons, values_cons, Ht, Hv. cbn [length].
    split_and!; try done; [by constructor|lia].
  - exists [], (ISimple e :: its). split_and!; try done. by constructor.
  - exists [], (IUni upper r :: its). split_and!; try done. by constructor.
Qed.

Lemma escape_text it : wf_escape it -> ∃ t, item_text it = backslash :: t.
Proof.
  destruct it as [c|e|upper r]; cbn; [done|eauto|].
  intros _. destruct (r <=? 65535); eexists; reflexivity.
Qed.

(** From an escape on, the loop of [Unescape] appends the values of the items. *)
Lemma unescape_loop size n : ∀ it its w, (length its <= n)%nat ->
  wf_escape it -> Forall wf_item its -> len w + len (texts (it :: its)) <= size ->
  iterates (unescapeStep size) (texts (it :: its), w) (Some (w ++ values (it :: its))).
Proof.
  induction n as [n IH] using lt_wf_ind. intros it its w Hn Hit Hits Hsize.
  destruct (texts_split its Hits) as (pre & post & Ht & Hv & Hpre & Hpost & Hlen & Hp).
  assert (E : texts (it :: its) = item_text it ++ pre ++ texts post) by (by rewrite <- Ht).
  assert (Ev : values (it :: its) = item_value it ++ pre ++ values post) by (by rewrite <- Hv).
  rewrite E, Ev. rewrite E, !len_app in Hsize.
  pose proof (item_value_len it Hit). pose proof (len_nonneg pre). pose proof (len_nonneg (texts post)).
  assert (Hstep : unescapeStep size (item_text it ++ pre ++ texts post, w) =
    match post with
    | [] => Ret (inr (Some (w ++ item_value it ++ pre)))
    | _ => Ret (inl (texts post, w ++ item_value it ++ pre))
    end).
  { unfold unescapeStep. rewrite !len_app.
    destruct (Z.ltb_spec 0 (len (item_text it) + (len pre + len (texts post)))); [|lia].
    rewrite unescape_item by (done || lia). cbn [mbind outcome_mbind].
    rewrite slice_from_app by done. cbn [mbind outcome_mbind].
    destruct post as [|it' post].
    - change (texts []) with (@nil Z). rewrite app_nil_r, indexByte_absent by done.
      unfold putBytes. rewrite len_app. cbn [Z.eqb Z.opp].
      rewrite (proj2 (Z.leb_le _ _)) by lia. cbn. by rewrite app_assoc.
    - destruct (escape_text it' Hp) as [t Ht']. rewrite (texts_cons it' post), Ht'. cbn [app]. rewrite indexByte_first by done.
      destruct (Z.eqb_spec (len pre) (-1)); [lia|].
      rewrite slice_prefix by done. cbn [mbind outcome_mbind].
      unfold putBytes. rewrite len_app, (proj2 (Z.leb_le _ _)) by lia. cbn [mbind outcome_mbind].
      rewrite slice_from_app by done. cbn [mbind outcome_mbind]. by rewrite app_assoc. }
  destruct post as [|it' post].
  - eapply iterates_done. rewrite Hstep. change (values []) with (@nil Z). by rewrite app_nil_r.
  - eapply iterates_next; [exact Hstep|]. rewrite !app_assoc, <- (app_assoc w).
    apply Forall_cons in Hpost as [_ Hpost]. cbn [length] in Hlen.
    eapply (IH (length post)); [lia|lia|done|done|]. rewrite !len_app. lia.
Qed.

(** Unescaping a text gives the bytes it stands for, for every mix of plain bytes, simple
    escapes and [\u] escapes of any rune: a surrogate pair decodes to the UTF-8 encoding of
    its rune. *)
Theorem Unescape_texts : ∀ its, Forall wf_item its -> Unescape (texts its) = Ret (Some (values its)).
Proof.
  intros its Hits. destruct (texts_split its Hits) as (pre & post & Ht & Hv & Hpre & Hpost & _ & Hp).
  pose proof (values_len its Hits) as Hlen.
  destruct (Unescape_good (texts its)) as (o & Ho & _). rewrite Ho. f_equal.
  unfold Unescape in Ho. rewrite Ht, Hv in *. destruct post as [|it post].
  - change (texts []) with (@nil Z) in *. change (values []) with (@nil Z) in *.
    rewrite app_nil_r in *.
    rewrite indexByte_absent in Ho by done. by injection Ho as <-.
  - destruct (escape_text it Hp) as [t Ht']. apply Forall_cons in Hpost as [_ Hpost].
    assert (E : texts (it :: post) = backslash :: t ++ texts post)
      by (by rewrite texts_cons, Ht').
    rewrite E, indexByte_first in Ho by done. pose proof (len_nonneg pre).
    destruct (Z.eqb_spec (len pre) (-1)); [lia|].
    rewrite slice_prefix, slice_from_app in Ho by done.
    cbn [mbind outcome_mbind] in Ho. rewrite <- E in Ho.
    assert (Hi : iterates (unescapeStep (len (pre ++ texts (it :: post))))
      (texts (it :: post), pre) (Some (pre ++ values (it :: post))))
      by (apply (unescape_loop _ (length post)); [lia|done|done|by rewrite len_app; lia]).
    destruct Hi as [f Hf]. by rewrite (loop_fuel _ _ _ _ _ _ Ho Hf).
Qed.

Lemma Unescape_texts_witness : Unescape (str "\uD83D\uDE00\n") = Ret (Some [240; 159; 152; 128; 10]).
Proof.
  assert (H : Forall wf_item [IUni true 128512; ISimple (ch "n")])
    by (constructor; [cbn; lia|by repeat constructor]).
  exact (Unescape_texts _ H).
Defined.

(** ** Reading integers *)

Definition digit (c : Z) : Prop := ch "0" <= c <= ch "9".

(** The number a string of digits denotes. *)
Definition dec (ds : bytes) : Z := fold_left (λ v c, 10 * v + (c - ch "0")) ds 0.

Lemma parseIntLoop_value ds : ∀ v, 0 <= v ->
  Forall digit ds -> fold_left (λ v c, 10 * v + (c - ch "0")) ds v < 2^63 ->
  parseIntLoop ds v v =
    Some (fold_left (λ v c, 10 * v + (c - ch "0")) ds v,
          fold_left (λ v c, 10 * v + (c - ch "0")) ds v, false).
Proof.
  induction ds as [|c ds IH]; intros v Hv Hds Hlt; cbn [parseIntLoop fold_left] in *; [done|].
  apply Forall_cons in Hds as [Hc Hds]. unfold digit in Hc. chars. cbn in Hc.
  assert (Hmono : ∀ ds x, 0 <= x -> Forall digit ds ->
    x <= fold_left (λ v c, 10 * v + (c - ch "0")) ds x).
  { clear. induction ds as [|c ds IH]; intros x Hx Hds; cbn; [lia|].
    apply Forall_cons in Hds as [Hc Hds]. unfold digit in Hc.
    etrans; [|apply IH; [|done]]; chars; lia. }
  pose proof (Hmono ds (10 * v + (c - ch "0")) ltac:(chars; lia) Hds) as Hm.
  chars. rewrite (proj2 (Z.leb_le 48 c)), (proj2 (Z.leb_le c 57)) by lia. cbn [andb].
  rewrite (i64_small (10 * v)) by (unfold is_i64; lia).
  rewrite i64_small by (unfold is_i64; lia). bcase; [lia|].
  apply IH; [lia|done|done].
Qed.

(** [parseInt] reads every decimal numeral of a 63-bit value exactly, with or without a
    sign and leading zeros, and the least [int64]; but its overflow test compares only
    successive partial values, so it accepts some larger numerals with a wrong value. *)
Theorem parseInt_value :
  (∀ ds, Forall digit ds -> dec ds < 2^63 ->
     (ds <> [] -> parseInt ds = (dec ds, true, false)) /\
     parseInt (ch "-" :: ds) = (- dec ds, true, false)) /\
  parseInt (ch "-" :: minInt64) = (- 2^63, true, false) /\
  parseInt (str "9223372036854775808") = (0, false, true) /\
  parseInt (str "25000000000000000000") = (6553255926290448384, true, false).
Proof.
  split_and!; [|vm_compute; reflexivity..].
  intros ds Hds Hlt. pose proof (parseIntLoop_value ds 0 ltac:(lia) Hds Hlt) as Hl.
  fold (dec ds) in Hl. split.
  - intros Hne. destruct ds as [|c ds]; [done|]. unfold parseInt.
    pose proof Hds as [Hc _]%Forall_cons. unfold digit in Hc. chars.
    bcase; [lia|]. by rewrite Hl.
  - unfold parseInt. rewrite Z.eqb_refl, Hl. do 2 f_equal. apply i64_small. unfold is_i64.
    assert (0 <= dec ds); [|lia]. clear -Hds. unfold dec.
    assert (∀ x, 0 <= x -> 0 <= fold_left (λ v c, 10 * v + (c - ch "0")) ds x); [|auto with lia].
    induction Hds as [|c ds Hc Hds IH]; intros x Hx; cbn; [done|]. apply IH.
    unfold digit in Hc. chars. lia.
Qed.

Lemma parseInt_value_witness : parseInt (str "-042") = (-42, true, false).
Proof.
  assert (H : Forall digit (str "042")) by (repeat constructor; done).
  exact (proj2 (proj1 parseInt_value (str "042") H eq_refl)).
Defined.
