(* ===== verification/JsonGet.v ===== *)
(** Model of the JSON reader [src/src/json/parser.go]: typing a value, searching a key path,
    [Get] and its typed variants, the array and object iterators, and [Set]. *)
From S2P Require Import Prelude JsonScan JsonEscape.

(** ** Types and errors *)

Inductive ValueType := NotExist | String | Number | Object | Array | Boolean | Null | UnknownType.
#[export] Instance ValueType_eq_dec : EqDecision ValueType.
Proof. solve_decision. Defined.

Inductive jsonError :=
| KeyPathNotFoundError | UnknownValueTypeError | MalformedJsonError | MalformedStringError
| MalformedArrayError | MalformedObjectError | MalformedValueError | OverflowIntegerError
| MalformedStringEscapeError
| WrongTypeError (v : bytes).    (* fmt.Errorf("Value is not a ...: %s", v) *)
#[export] Instance jsonError_eq_dec : EqDecision jsonError.
Proof. solve_decision. Defined.

Definition trueLiteral : bytes := str "true".
Definition falseLiteral : bytes := str "false".
Definition nullLiteral : bytes := str "null".

(** ** Values *)

(** The literal arm of [getType]: the type of a number, boolean or null text. *)
Definition literalType (c : Z) (value : bytes) : option ValueType :=
  if (c =? ch "t") || (c =? ch "f") then
    if bytes_eqb value trueLiteral || bytes_eqb value falseLiteral then Some Boolean else None
  else if (c =? ch "u") || (c =? ch "n") then
    if bytes_eqb value nullLiteral then Some Null else None
  else if ((ch "0" <=? c) && (c <=? ch "9")) || (c =? ch "-") then Some Number
  else None.

(** The results [(value, dataType, endOffset, err)]. *)
Definition getType (data : bytes) (offset : Z)
    : outcome (bytes * ValueType * Z * option jsonError) :=
  c ← byte_at data offset;
  tail ← slice_from data offset;
  if c =? dquote then
    rest ← slice_from data (offset + 1);
    let '(idx, _) := stringEnd rest in
    if negb (idx =? -1) then
      v ← slice data offset (offset + idx + 1); Ret (v, String, offset + idx + 1, None)
    else Ret ([], String, offset, Some MalformedStringError)
  else if c =? ch "[" then
    e ← blockEnd tail (ch "[") (ch "]");
    if e =? -1 then Ret ([], Array, offset, Some MalformedArrayError)
    else v ← slice data offset (e + offset); Ret (v, Array, e + offset, None)
  else if c =? ch "{" then
    e ← blockEnd tail (ch "{") (ch "}");
    if e =? -1 then Ret ([], Object, offset, Some MalformedObjectError)
    else v ← slice data offset (e + offset); Ret (v, Object, e + offset, None)
  else
    let e := tokenEnd tail in
    value ← slice data offset (offset + e);
    match literalType c value with
    | Some t => Ret (value, t, offset + e, None)
    | None => Ret ([], UnknownType, offset, Some UnknownValueTypeError)
    end.

Record getResult := mkGet {
  g_value : bytes;
  g_type : ValueType;
  g_offset : Z;
  g_end : Z;
  g_err : option jsonError
}.

(** [internalGet] from the point where [offset] is known: go to the closest value. *)
Definition internalGetAt (data : bytes) (offset : Z) : outcome getResult :=
  tail ← slice_from data offset;
  let nO := nextToken tail in
  if nO =? -1 then Ret (mkGet [] NotExist offset (-1) (Some MalformedJsonError))
  else
    let offset := offset + nO in
    '(value, dataType, endOffset, err) ← getType data offset;
    match err with
    | Some e => Ret (mkGet value dataType offset endOffset (Some e))
    | None =>
        value ← (if bool_decide (dataType = String) then slice value 1 (len value - 1)
                 else Ret value);
        Ret (mkGet value dataType offset endOffset None)
    end.

(** ** Arrays without a key path *)

(** One call of the callback: value, type and offset. *)
Abbreviation call := (bytes * ValueType * Z)%type.

Definition arrayStep (data : bytes) (s : Z * list call)
    : outcome ((Z * list call) + (Z * option jsonError * list call)) :=
  let '(offset, calls) := s in
  rest ← slice_from data offset;
  g ← internalGetAt rest 0;
  match g_err g with
  | Some e => Ret (inr (offset, Some e, calls))
  | None =>
      let o := g_end g in
      if o =? 0 then Ret (inr (offset, None, calls))
      else
        let calls :=
          if bool_decide (g_type g = NotExist) then calls
          else calls ++ [(g_value g, g_type g, offset + o - len (g_value g))] in
        let offset := offset + o in
        rest ← slice_from data offset;
        let skipToToken := nextToken rest in
        if skipToToken =? -1 then Ret (inr (offset, Some MalformedArrayError, calls))
        else
          let offset := offset + skipToToken in
          c ← byte_at data offset;
          if c =? ch "]" then Ret (inr (offset, None, calls))
          else if negb (c =? ch ",") then Ret (inr (offset, Some MalformedArrayError, calls))
          else Ret (inl (offset + 1, calls))
  end.

(** [ArrayEach] after its opening bracket: [(offset, err)] and the calls made. *)
Definition arrayElems (data : bytes) (offset : Z) : outcome (Z * option jsonError * list call) :=
  rest ← slice_from data offset;
  let nO := nextToken rest in
  if nO =? -1 then Ret (offset, Some MalformedJsonError, [])
  else
    let offset := offset + nO in
    c ← byte_at data offset;
    if c =? ch "]" then Ret (offset, None, [])
    else loop (arrayStep data) (S (length data)) (offset, []).

Definition arrayEach0 (data : bytes) : outcome (Z * option jsonError * list call) :=
  if len data =? 0 then Ret (-1, Some MalformedObjectError, [])
  else
    let nT := nextToken data in
    if nT =? -1 then Ret (-1, Some MalformedJsonError, [])
    else arrayElems data (nT + 1).

(** ** Searching a key path *)

(** [strconv.Atoi]: an optional sign, decimal digits, in range. *)
Definition Atoi (s : bytes) : option Z :=
  let '(neg, ds) :=
    match s with
    | c :: t => if c =? ch "-" then (true, t) else if c =? ch "+" then (false, t) else (false, s)
    | [] => (false, s)
    end in
  if negb (bool_decide (ds = [])) && forallb (λ c, (ch "0" <=? c) && (c <=? ch "9")) ds then
    let v := if neg then - dec ds else dec ds in
    if (- 2^63 <=? v) && (v <? 2^63) then Some v else None
  else None.

Record searchState := mkSearch {
  s_keyLevel : Z;
  s_level : Z;
  s_i : Z;
  s_lastMatched : bool
}.

(** [keys[k]], with Go's bounds check. *)
Definition key_at (keys : list bytes) (k : Z) : outcome bytes :=
  if k <? 0 then Panic
  else match keys !! Z.to_nat k with Some key => Ret key | None => Panic end.

(** The arm of a quote: a string, perhaps a key. *)
Definition searchString (data : bytes) (keys : list bytes) (s : searchState)
    : outcome (searchState + Z) :=
  let '(mkSearch keyLevel level i lastMatched) := s in
  let keyBegin := i + 1 in
  tail ← slice_from data keyBegin;
  let '(strEnd, keyEscaped) := stringEnd tail in
  if strEnd =? -1 then Ret (inr (-1))
  else
    let i := keyBegin + strEnd in
    let keyEnd := i - 1 in
    tail ← slice_from data i;
    let valueOffset := nextToken tail in
    if valueOffset =? -1 then Ret (inr (-1))
    else
      let i := i + valueOffset in
      c ← byte_at data i;
      if c =? ch ":" then
        if level <? 1 then Ret (inr (-1))
        else
          key ← slice data keyBegin keyEnd;
          keyUnesc ← (if negb keyEscaped then Ret (Some key) else Unescape key);
          match keyUnesc with
          | None => Ret (inr (-1))
          | Some keyUnesc =>
              if level <=? len keys then
                k ← key_at keys (level - 1);
                if bytes_eqb keyUnesc k then
                  if keyLevel =? level - 1 then
                    if keyLevel + 1 =? len keys then Ret (inr (i + 1))
                    else Ret (inl (mkSearch (keyLevel + 1) level (i + 1) true))
                  else Ret (inl (mkSearch keyLevel level (i + 1) true))
                else Ret (inl (mkSearch keyLevel level (i + 1) false))
              else Ret (inr (-1))
          end
      else Ret (inl (mkSearch keyLevel level i lastMatched)).

(** The array element an index key selects: its text and its offset in [data[i:]]. *)
Definition elementAt (data : bytes) (i aIdx : Z) (calls : list call)
    : outcome (option (bytes * Z)) :=
  if aIdx <? 0 then Ret None
  else match calls !! Z.to_nat aIdx with
       | None => Ret None
       | Some (value, dataType, offset) =>
           if bool_decide (dataType = String) then
             let valueOffset := offset - 2 in
             v ← slice data (i + valueOffset) (i + valueOffset + len value + 2);
             Ret (Some (v, valueOffset))
           else Ret (Some (value, offset))
       end.

(** [keyLevel == level && keys[level][0] == '[']: the index key, if the test holds. *)
Definition indexKey (keys : list bytes) (keyLevel level : Z) : outcome (option bytes) :=
  if keyLevel =? level then
    key ← key_at keys level; c ← byte_at key 0; Ret (if c =? ch "[" then Some key else None)
  else Ret None.

(** The arm of an opening bracket; [rec] is the recursive call of [searchKeys]. *)
Definition searchArray (rec : bytes -> list bytes -> outcome Z) (data : bytes)
    (keys : list bytes) (s : searchState) : outcome (searchState + Z) :=
  let '(mkSearch keyLevel level i lastMatched) := s in
  tail ← slice_from data i;
  index ← indexKey keys keyLevel level;
  match index with
  | Some key =>
      let keyLen := len key in
      if keyLen <? 3 then Ret (inr (-1))
      else
        c ← byte_at key (keyLen - 1);
        if negb (c =? ch "]") then Ret (inr (-1))
        else
          digits ← slice key 1 (keyLen - 1);
          match Atoi digits with
          | None => Ret (inr (-1))
          | Some aIdx =>
              '(_, _, calls) ← arrayEach0 tail;
              found ← elementAt data i aIdx calls;
              match found with
              | None => Ret (inr (-1))
              | Some (valueFound, valueOffset) =>
                  subKeys ← slice_from keys (level + 1);
                  subIndex ← rec valueFound subKeys;
                  if subIndex <? 0 then Ret (inr (-1))
                  else Ret (inr (i + valueOffset + subIndex))
              end
          end
  | None =>
      arraySkip ← blockEnd tail (ch "[") (ch "]");
      if arraySkip =? -1 then Ret (inr (-1))
      else Ret (inl (mkSearch keyLevel level (i + arraySkip) lastMatched))
  end.

(** One turn of the loop of [searchKeys]. *)
Definition searchStep (rec : bytes -> list bytes -> outcome Z) (data : bytes)
    (keys : list bytes) (s : searchState) : outcome (searchState + Z) :=
  let '(mkSearch keyLevel level i lastMatched) := s in
  if i <? len data then
    c ← byte_at data i;
    if c =? dquote then searchString data keys s
    else if c =? ch "{" then
      if negb lastMatched then
        tail ← slice_from data i;
        e ← blockEnd tail (ch "{") (ch "}");
        if e =? -1 then Ret (inr (-1)) else Ret (inl (mkSearch keyLevel level (i + e) lastMatched))
      else Ret (inl (mkSearch keyLevel (level + 1) (i + 1) lastMatched))
    else if c =? ch "}" then
      let level := level - 1 in
      Ret (inl (mkSearch (if level =? keyLevel then keyLevel - 1 else keyLevel) level (i + 1)
                  lastMatched))
    else if c =? ch "[" then searchArray rec data keys s
    else if c =? ch ":" then Ret (inr (-1))
    else Ret (inl (mkSearch keyLevel level (i + 1) lastMatched))
  else Ret (inr (-1)).

(** The recursion is on a suffix of the key path: its length is fuel enough. *)
Fixpoint searchKeysFuel (fuel : nat) (data : bytes) (keys : list bytes) : outcome Z :=
  match fuel with
  | O => Hang
  | S fuel =>
      if bool_decide (keys = []) then Ret 0
      else loop (searchStep (searchKeysFuel fuel) data keys) (S (length data))
             (mkSearch 0 0 0 true)
  end.

Definition searchKeys (data : bytes) (keys : list bytes) : outcome Z :=
  searchKeysFuel (S (length keys)) data keys.
Arguments searchKeys data keys : simpl never.

(** ** Get *)

Definition internalGet (data : bytes) (keys : list bytes) : outcome getResult :=
  if bool_decide (keys = []) then internalGetAt data 0
  else
    offset ← searchKeys data keys;
    if offset =? -1 then Ret (mkGet [] NotExist (-1) (-1) (Some KeyPathNotFoundError))
    else internalGetAt data offset.

(** The results [(value, dataType, offset, err)]. *)
Definition Get (data : bytes) (keys : list bytes)
    : outcome (bytes * ValueType * Z * option jsonError) :=
  g ← internalGet data keys; Ret (g_value g, g_type g, g_end g, g_err g).

(** ** The iterators *)

(** [ArrayEach] with a key path; its result and the calls it made. *)
Definition ArrayEach (data : bytes) (keys : list bytes)
    : outcome (Z * option jsonError * list call) :=
  if len data =? 0 then Ret (-1, Some MalformedObjectError, [])
  else
    let nT := nextToken data in
    if nT =? -1 then Ret (-1, Some MalformedJsonError, [])
    else if bool_decide (keys = []) then arrayElems data (nT + 1)
    else
      offset ← searchKeys data keys;
      if offset =? -1 then Ret (offset, Some KeyPathNotFoundError, [])
      else
        tail ← slice_from data offset;
        let nO := nextToken tail in
        if nO =? -1 then Ret (offset, Some MalformedJsonError, [])
        else
          let offset := offset + nO in
          c ← byte_at data offset;
          if negb (c =? ch "[") then Ret (offset, Some MalformedArrayError, [])
          else arrayElems data (offset + 1).

(** One call of the callback of [ObjectEach]: key, value, type and offset. *)
Abbreviation entry := (bytes * bytes * ValueType * Z)%type.

(** [data[offset:]], its next token, and the byte there. *)
Definition tokenAt (data : bytes) (offset : Z) : outcome (option (Z * Z)) :=
  tail ← slice_from data offset;
  let off := nextToken tail in
  if off =? -1 then Ret None
  else c ← byte_at data (offset + off); Ret (Some (offset + off, c)).

(** One turn of the loop of [ObjectEach]; the callback is taken to return no error. *)
Definition objectStep (data : bytes) (s : Z * list entry)
    : outcome ((Z * list entry) + (option jsonError * list entry)) :=
  let '(offset, calls) := s in
  if offset <? len data then
    c ← byte_at data offset;
    if c =? ch "}" then Ret (inr (None, calls))
    else if negb (c =? dquote) then Ret (inr (Some MalformedObjectError, calls))
    else
      let offset := offset + 1 in
      rest ← slice_from data offset;
      let '(off, keyEscaped) := stringEnd rest in
      if off =? -1 then Ret (inr (Some MalformedJsonError, calls))
      else
        key ← slice data offset (offset + off - 1);
        key ← (if keyEscaped then Unescape key else Ret (Some key));
        match key with
        | None => Ret (inr (Some MalformedStringEscapeError, calls))
        | Some key =>
            t ← tokenAt data (offset + off);
            match t with
            | None => Ret (inr (Some MalformedJsonError, calls))
            | Some (offset, c) =>
                if negb (c =? ch ":") then Ret (inr (Some MalformedJsonError, calls))
                else
                  let offset := offset + 1 in
                  rest ← slice_from data offset;
                  '(value, valueType, off, err) ← Get rest [];
                  match err with
                  | Some e => Ret (inr (Some e, calls))
                  | None =>
                      let calls := calls ++ [(key, value, valueType, offset + off)] in
                      t ← tokenAt data (offset + off);
                      match t with
                      | None => Ret (inr (Some MalformedArrayError, calls))
                      | Some (offset, c) =>
                          if c =? ch "}" then Ret (inr (None, calls))
                          else if negb (c =? ch ",") then
                            Ret (inr (Some MalformedObjectError, calls))
                          else
                            t ← tokenAt data (offset + 1);
                            match t with
                            | None => Ret (inr (Some MalformedArrayError, calls))
                            | Some (offset, _) => Ret (inl (offset, calls))
                            end
                      end
                  end
            end
        end
  else Ret (inr (Some MalformedObjectError, calls)).

Definition ObjectEach (data : bytes) (keys : list bytes)
    : outcome (option jsonError * list entry) :=
  offset ← (if bool_decide (keys = []) then Ret 0 else searchKeys data keys);
  if offset =? -1 then Ret (Some KeyPathNotFoundError, [])
  else
    t ← tokenAt data offset;
    match t with
    | None => Ret (Some MalformedObjectError, [])
    | Some (offset, c) =>
        if negb (c =? ch "{") then Ret (Some MalformedObjectError, [])
        else
          t ← tokenAt data (offset + 1);
          match t with
          | None => Ret (Some MalformedJsonError, [])
          | Some (offset, c) =>
              if c =? ch "}" then Ret (None, [])
              else loop (objectStep data) (S (length data)) (offset, [])
          end
    end.

(** ** Typed access *)

Definition ParseString (b : bytes) : outcome (bytes * option jsonError) :=
  u ← Unescape b;
  Ret (match u with Some s => (s, None) | None => ([], Some MalformedValueError) end).

Definition ParseInt (b : bytes) : Z * option jsonError :=
  let '(v, ok, overflow) := parseInt b in
  if negb ok then (0, Some (if (overflow : bool) then OverflowIntegerError else MalformedValueError))
  else (v, None).

Definition ParseBoolean (b : bytes) : bool * option jsonError :=
  if bytes_eqb b trueLiteral then (true, None)
  else if bytes_eqb b falseLiteral then (false, None)
  else (false, Some MalformedValueError).

Definition GetUnsafeString (data : bytes) (keys : list bytes) : outcome (bytes * option jsonError) :=
  '(v, _, _, e) ← Get data keys;
  Ret (match e with Some e => ([], Some e) | None => (v, None) end).

Definition GetString (data : bytes) (keys : list bytes) : outcome (bytes * option jsonError) :=
  '(v, t, _, e) ← Get data keys;
  match e with
  | Some e => Ret ([], Some e)
  | None =>
      if negb (bool_decide (t = String)) then Ret ([], Some (WrongTypeError v))
      else if indexByte v backslash =? -1 then Ret (v, None)
      else ParseString v
  end.

Definition GetInt (data : bytes) (keys : list bytes) : outcome (Z * option jsonError) :=
  '(v, t, _, e) ← Get data keys;
  match e with
  | Some e => Ret (0, Some e)
  | None =>
      if negb (bool_decide (t = Number)) then Ret (0, Some (WrongTypeError v))
      else Ret (ParseInt v)
  end.

Definition GetBoolean (data : bytes) (keys : list bytes) : outcome (bool * option jsonError) :=
  '(v, t, _, e) ← Get data keys;
  match e with
  | Some e => Ret (false, Some e)
  | None =>
      if negb (bool_decide (t = Boolean)) then Ret (false, Some (WrongTypeError v))
      else Ret (ParseBoolean v)
  end.

(** ** Set *)

(** [string(key[0]) == "["], which panics on an empty key. *)
Definition isIndexKey (key : bytes) : outcome bool := c ← byte_at key 0; Ret (c =? ch "[").

(** The loop of [calcAllocateSpace] over [keys[1:]]. *)
Fixpoint nestedSpace (keys : list bytes) : outcome Z :=
  match keys with
  | [] => Ret 0
  | key :: keys =>
      idx ← isIndexKey key; rest ← nestedSpace keys;
      Ret ((if (idx : bool) then 2 else len key + 5) + rest)
  end.

Definition calcAllocateSpace (keys : list bytes) (setValue : bytes) (comma object : bool)
    : outcome Z :=
  key0 ← key_at keys 0;
  isIndex ← isIndexKey key0;
  nested ← nestedSpace (tail keys);
  Ret ((if comma then 1 else 0) +
       (if isIndex && negb comma then 2
        else (if object then 1 else 0) + (if negb isIndex then len key0 + 3 else 0)) +
       len setValue + nested + (if object && negb isIndex then 1 else 0)).

(** [offset += WriteToBuffer(buffer[offset:], str)]: [copy] stops at the end of the buffer,
    the offset does not. *)
Definition WriteToBuffer (s : bytes) (b : bytes * Z) : outcome (bytes * Z) :=
  let '(buffer, offset) := b in
  room ← slice_from buffer offset;
  Ret (take (Z.to_nat offset) buffer ++ take (length room) s ++ drop (length s) room,
       offset + len s).

(** Writing a list of strings one after the other. *)
Fixpoint writeAll (ss : list bytes) (b : bytes * Z) : outcome (bytes * Z) :=
  match ss with [] => Ret b | s :: ss => b ← WriteToBuffer s b; writeAll ss b end.

(** The strings the loops of [createInsertComponent] over [keys[1:]] write: openings in
    order, closings in reverse order. *)
Fixpoint nestedStrings (keys : list bytes) : outcome (list bytes * list bytes) :=
  match keys with
  | [] => Ret ([], [])
  | key :: keys =>
      idx ← isIndexKey key; '(opens, closes) ← nestedStrings keys;
      Ret (if (idx : bool) then (str "[" :: opens, closes ++ [str "]"])
           else ([ch "{"; dquote] :: key :: [dquote; ch ":"] :: opens, closes ++ [str "}"]))
  end.

Definition createInsertComponent (keys : list bytes) (setValue : bytes) (comma object : bool)
    : outcome bytes :=
  key0 ← key_at keys 0;
  isIndex ← isIndexKey key0;
  lk ← calcAllocateSpace keys setValue comma object;
  b ← writeAll (if comma then [str ","] else []) (replicate (Z.to_nat lk) 0, 0);
  b ← writeAll (if isIndex && negb comma then [str "["]
                else (if object then [str "{"] else []) ++
                     (if negb isIndex then [[dquote]; key0; [dquote; ch ":"]] else [])) b;
  '(opens, closes) ← nestedStrings (tail keys);
  b ← writeAll opens b;
  b ← writeAll [setValue] b;
  b ← writeAll closes b;
  b ← writeAll (if isIndex && negb comma then [str "]"] else []) b;
  '(buffer, _) ← writeAll (if object && negb isIndex then [str "}"] else []) b;
  Ret buffer.

(** [data[pos+1+nextToken(data[pos+1:])]] *)
Definition byteAfter (data : bytes) (pos : Z) : outcome Z :=
  tail ← slice_from data (pos + 1); byte_at data (pos + 1 + nextToken tail).

(** The loop of [Set] over the prefixes of the path that exist:
    [(startOffset, endOffset, depth)]. *)
Fixpoint subPaths (data : bytes) (keys : list bytes) (n : nat) (s : Z * Z * Z)
    : outcome (Z * Z * Z) :=
  match n with
  | O => Ret s
  | S n =>
      let '(_, _, depth) := s in
      g ← internalGet data (take (Z.to_nat depth + 1) keys);
      match g_err g with
      | Some _ => Ret s
      | None => subPaths data keys n (g_offset g, g_end g, depth + 1)
      end
  end.

(** [Set] where the full path does not exist. *)
Definition setInsert (data setValue : bytes) (keys : list bytes)
    : outcome (bytes * option jsonError) :=
  '(startOffset, endOffset, depth) ← subPaths data keys (length keys) (-1, -1, 0);
  top ← (if endOffset =? -1 then
           let firstToken := nextToken data in
           if firstToken <? 0 then Ret None
           else
             c ← byte_at data firstToken;
             if negb (c =? ch "{") then Ret None
             else c2 ← byteAfter data firstToken;
                  Ret (Some (negb (c2 =? ch "}"), lastToken data))
         else Ret (Some (true, endOffset)));
  match top with
  | None => Ret ([], Some KeyPathNotFoundError)
  | Some (comma, endOffset) =>
      '(startOffset, depthOffset, comma, object) ←
        (if negb (depth =? 0) then
           c ← byte_at data startOffset;
           c2 ← byteAfter data startOffset;
           key ← key_at keys depth;
           grow ← (if (c =? ch "{") && negb (c2 =? ch "}") then Ret true
                   else if (c =? ch "[") && (c2 =? ch "{") then isIndexKey key
                   else Ret false);
           Ret (if (grow : bool) then (endOffset - 1, endOffset - 1, comma, false)
                else (startOffset, endOffset, false, true))
         else Ret (endOffset, endOffset, comma, false));
      pre ← slice data 0 startOffset;
      subKeys ← slice_from keys depth;
      comp ← createInsertComponent subKeys setValue comma object;
      post ← slice_from data depthOffset;
      Ret (pre ++ comp ++ post, None)
  end.

(** [Set]: the value; the in-place writes of its [append] into spare capacity of [data] are
    not part of it. *)
Definition Set_ (data setValue : bytes) (keys : list bytes) : outcome (bytes * option jsonError) :=
  if bool_decide (keys = []) then Ret ([], Some KeyPathNotFoundError)
  else
    g ← internalGet data keys;
    match g_err g with
    | Some KeyPathNotFoundError => setInsert data setValue keys
    | Some e => Ret ([], Some e)
    | None =>
        pre ← slice data 0 (g_offset g);
        post ← slice_from data (g_end g);
        Ret (pre ++ setValue ++ post, None)
    end.
