(* ===== verification/JsonTotal.v ===== *)
(** The JSON reader answers on every input: no index or slice of [Get], [ArrayEach] and
    [searchKeys] is out of range, and their loops end. *)
From S2P Require Import Prelude JsonScan JsonEscape JsonGet.

(** A part [lo..hi] of the data, as [data[lo:hi]]. *)
Definition part (data : bytes) (lo hi : Z) : bytes :=
  take (Z.to_nat (hi - lo)) (drop (Z.to_nat lo) data).

Lemma slice_part data lo hi : 0 <= lo <= hi -> hi <= len data -> slice data lo hi = Ret (part data lo hi).
Proof. apply slice_in_range. Qed.

Lemma len_part data lo hi : 0 <= lo <= hi -> hi <= len data -> len (part data lo hi) = hi - lo.
Proof. intros. unfold part. autorewrite with len. lia. Qed.

Lemma part_part data lo hi a b :
  0 <= lo -> 0 <= a <= b -> b <= hi - lo -> part (part data lo hi) a b = part data (lo + a) (lo + b).
Proof.
  intros. unfold part. rewrite take_drop_commute, take_take.
  replace (Init.Nat.min _ _) with (Z.to_nat a + Z.to_nat (b - a))%nat by lia.
  rewrite <- take_drop_commute, drop_drop. f_equal; [lia|f_equal; lia].
Qed.

Lemma literal_not_end c v t : literalType c v = Some t -> ends_token c = false /\ t <> String /\ t <> NotExist.
Proof.
  unfold literalType, ends_token, is_ws. chars.
  repeat (bcase; cbn [orb andb]; try lia); repeat case_match; intros [= <-]; done.
Qed.

Lemma getType_returns data offset : 0 <= offset < len data ->
  ∃ v t e err, getType data offset = Ret (v, t, e, err) /\
    (err = None -> offset < e <= len data /\ v = part data offset e /\ t <> NotExist /\
       (t = String -> offset + 2 <= e)).
Proof.
  intros Ho. unfold getType. destruct (byte_at_in_range data offset Ho) as (c & -> & Hc).
  cbn [mbind outcome_mbind]. rewrite (slice_from_in_range data offset) by lia. cbn [mbind outcome_mbind].
  set (tl := drop (Z.to_nat offset) data).
  assert (Htl : len tl = len data - offset) by (unfold tl; autorewrite with len; lia).
  destruct (Z.eqb_spec c dquote).
  { rewrite slice_from_in_range by lia. cbn [mbind outcome_mbind].
    destruct (stringEnd _) as [idx b] eqn:E. apply stringEnd_range in E.
    autorewrite with len in E. destruct (Z.eqb_spec idx (-1)); cbn [negb];
      [by do 4 eexists|]. rewrite slice_part by lia. cbn. do 4 eexists. split; [done|].
    intros _. split_and!; done || lia. }
  destruct (c =? ch "[").
  { destruct (blockEnd_returns tl (ch "[") (ch "]")) as (e & -> & He). cbn [mbind outcome_mbind].
    destruct (Z.eqb_spec e (-1)); [by do 4 eexists|]. rewrite slice_part by lia. cbn.
    do 4 eexists. split; [done|]. intros _. split_and!; done || lia. }
  destruct (c =? ch "{").
  { destruct (blockEnd_returns tl (ch "{") (ch "}")) as (e & -> & He). cbn [mbind outcome_mbind].
    destruct (Z.eqb_spec e (-1)); [by do 4 eexists|]. rewrite slice_part by lia. cbn.
    do 4 eexists. split; [done|]. intros _. split_and!; done || lia. }
  pose proof (tokenEnd_range tl) as Hte. rewrite slice_part by lia. cbn [mbind outcome_mbind].
  destruct (literalType _ _) as [t|] eqn:Hl; [|by do 4 eexists].
  apply literal_not_end in Hl as (Hne & Hs & Hn). do 4 eexists. split; [done|]. intros _.
  assert (0 < tokenEnd tl); [|split_and!; done || lia].
  assert (Ht : tl = c :: drop (Z.to_nat (offset + 1)) data).
  { unfold tl. apply drop_S in Hc. rewrite Hc. do 2 f_equal. lia. }
  rewrite Ht. unfold tokenEnd. cbn [scanFor]. rewrite Hne.
  destruct (scanFor _ _ (0 + 1)) as [k|] eqn:E; cbn.
  - apply scanFor_Some in E. lia.
  - rewrite len_cons. pose proof (len_nonneg (drop (Z.to_nat (offset + 1)) data)). lia.
Qed.

(** What a successful [internalGetAt] returns. *)
Definition good_get (data : bytes) (offset : Z) (g : getResult) : Prop :=
  g_err g = None ->
    offset <= g_offset g < g_end g /\ g_end g <= len data /\ g_type g <> NotExist /\
    if bool_decide (g_type g = String)
    then g_offset g + 2 <= g_end g /\ g_value g = part data (g_offset g + 1) (g_end g - 1)
    else g_value g = part data (g_offset g) (g_end g).

Lemma internalGetAt_returns data offset : 0 <= offset <= len data ->
  ∃ g, internalGetAt data offset = Ret g /\ good_get data offset g.
Proof.
  intros Ho. unfold internalGetAt. rewrite slice_from_in_range by lia. cbn [mbind outcome_mbind].
  destruct (nextToken_range (drop (Z.to_nat offset) data)) as [->|[Hn _]].
  { eexists. split; [done|]. done. }
  set (n := nextToken _) in *. autorewrite with len in Hn.
  destruct (Z.eqb_spec n (-1)); [lia|].
  destruct (getType_returns data (offset + n)) as (v & t & e & err & -> & Hg); [lia|].
  cbn [mbind outcome_mbind]. destruct err as [err|]; [by eexists|].
  destruct (Hg eq_refl) as (He & -> & Ht & Hs).
  case_bool_decide as E.
  - specialize (Hs E). rewrite slice_part by (rewrite len_part by lia; lia). cbn [mbind outcome_mbind].
    eexists. split; [done|]. intros _. cbn. rewrite (bool_decide_true (t = String)) by done.
    rewrite len_part by lia. split_and!; try done; try lia.
    rewrite part_part by lia. f_equal; lia.
  - cbn [mbind outcome_mbind]. eexists. split; [done|]. intros _. cbn.
    rewrite (bool_decide_false (t = String)) by done. split_and!; try done; lia.
Qed.

(** ** Arrays *)

(** A call of the callback: its value lies in the data, a string between two bytes. *)
Definition call_ok (data : bytes) (c : call) : Prop :=
  let '(v, t, off) := c in
  0 <= off /\ off + len v <= len data /\ (t = String -> 2 <= off).

Lemma drop_part data offset lo hi :
  0 <= offset -> 0 <= lo <= hi -> hi <= len data - offset ->
  part (drop (Z.to_nat offset) data) lo hi = part data (offset + lo) (offset + hi).
Proof.
  intros. unfold part. rewrite drop_drop. f_equal; [lia|f_equal; lia].
Qed.

Definition array_inv (data : bytes) (s : Z * list call) : Prop :=
  0 <= fst s <= len data /\ Forall (call_ok data) (snd s).

Lemma arrayStep_returns data s : array_inv data s ->
  ∃ r, arrayStep data s = Ret r /\
    (∀ s', r = inl s' -> array_inv data s' /\
       (Z.to_nat (len data - fst s') < Z.to_nat (len data - fst s))%nat) /\
    (∀ o e calls, r = inr (o, e, calls) -> Forall (call_ok data) calls).
Proof.
  destruct s as [offset calls]. intros [Ho Hc]. cbn [fst snd] in *. unfold arrayStep.
  rewrite slice_from_in_range by lia. cbn [mbind outcome_mbind].
  set (rest := drop (Z.to_nat offset) data).
  assert (Hrest : len rest = len data - offset) by (unfold rest; autorewrite with len; lia).
  destruct (internalGetAt_returns rest 0) as (g & -> & Hg); [lia|]. cbn [mbind outcome_mbind].
  unfold good_get in Hg. destruct (g_err g) as [e|].
  { eexists. split; [done|]. split; [done|]. by intros ? ? ? [= <- <- <-]. }
  destruct (Hg eq_refl) as (Hlo & Hhi & Ht & Hv). clear Hg.
  destruct (Z.eqb_spec (g_end g) 0); [lia|]. rewrite (bool_decide_false (g_type g = NotExist)) by done.
  assert (Hnew : Forall (call_ok data)
    (calls ++ [(g_value g, g_type g, offset + g_end g - len (g_value g))])).
  { apply Forall_app; split; [done|]. constructor; [|done]. unfold call_ok.
    case_bool_decide as E; [destruct Hv as [? ->]|rewrite Hv]; rewrite len_part by lia;
      (split_and!; [lia..|intros ?; try lia; done]). }
  rewrite slice_from_in_range by lia. cbn [mbind outcome_mbind].
  destruct (nextToken_range (drop (Z.to_nat (offset + g_end g)) data)) as [->|[Hn _]].
  { eexists. split; [done|]. split; [done|]. by intros ? ? ? [= <- <- <-]. }
  set (k := nextToken _) in *. autorewrite with len in Hn.
  destruct (Z.eqb_spec k (-1)); [lia|].
  destruct (byte_at_in_range data (offset + g_end g + k)) as (c & -> & _); [lia|].
  cbn [mbind outcome_mbind]. repeat case_match; (eexists; split; [done|]; split; [|try done]);
    try (by intros ? ? ? [= <- <- <-]); intros s' [= <-]; unfold array_inv; cbn [fst snd];
    (split; [split; [lia|done]|lia]).
Qed.

Lemma arrayLoop_returns data offset : 0 <= offset <= len data ->
  ∃ r, loop (arrayStep data) (S (length data)) (offset, []) = Ret r /\
    Forall (call_ok data) (snd r).
Proof.
  intros Ho. assert (Hi : array_inv data (offset, [])) by (split; [cbn; lia|constructor]).
  destruct (loop_returns (arrayStep data) (array_inv data) (λ s, Z.to_nat (len data - fst s)))
    with (fuel := S (length data)) (s := (offset, @nil call)) as [r Hr]; [|done| |].
  - intros s Hs. destruct (arrayStep_returns data s Hs) as (r & Hr & H1 & _). eauto.
  - cbn. unfold len. lia.
  - exists r. split; [done|].
    refine (loop_post (arrayStep data) (array_inv data) (λ r, Forall (call_ok data) (snd r))
      _ _ _ _ Hi Hr).
    intros s Hs. destruct (arrayStep_returns data s Hs) as (q & -> & H1 & H2).
    split; [intros s' [= ->]; by apply H1|intros [[]] [= ->]; by eapply H2].
Qed.

Lemma arrayElems_returns data offset : 0 <= offset <= len data ->
  ∃ o e calls, arrayElems data offset = Ret (o, e, calls) /\ Forall (call_ok data) calls.
Proof.
  intros Ho. unfold arrayElems. rewrite slice_from_in_range by lia. cbn [mbind outcome_mbind].
  destruct (nextToken_range (drop (Z.to_nat offset) data)) as [->|[Hn _]]; [by do 3 eexists|].
  set (n := nextToken _) in *. autorewrite with len in Hn.
  destruct (Z.eqb_spec n (-1)); [lia|].
  destruct (byte_at_in_range data (offset + n)) as (c & -> & _); [lia|].
  cbn [mbind outcome_mbind]. destruct (c =? ch "]"); [by do 3 eexists|].
  destruct (arrayLoop_returns data (offset + n)) as ([[o e] calls] & -> & Hc); [lia|eauto].
Qed.

Lemma arrayEach0_returns data :
  ∃ o e calls, arrayEach0 data = Ret (o, e, calls) /\ Forall (call_ok data) calls.
Proof.
  unfold arrayEach0. destruct (_ =? 0); [by do 3 eexists|].
  destruct (nextToken_range data) as [->|[Hn _]]; [by do 3 eexists|].
  destruct (Z.eqb_spec (nextToken data) (-1)); [lia|]. apply arrayElems_returns. lia.
Qed.

(** ** Key paths *)

Definition keys_ok (keys : list bytes) : Prop := Forall (λ k, k <> []) keys.

(** Result of a search: -1, or a position. *)
Definition in_data (data : bytes) (r : Z) : Prop := r = -1 \/ 0 <= r <= len data.

Definition search_inv (data : bytes) (keys : list bytes) (s : searchState) : Prop :=
  0 <= s_i s <= len data /\ s_keyLevel s < len keys /\
  (0 <= s_keyLevel s \/ s_keyLevel s < s_level s).

(** A turn that returns: a smaller state satisfying the invariant, or a result in range. *)
Definition good_turn (data : bytes) (keys : list bytes) (s : searchState)
    (m : outcome (searchState + Z)) : Prop :=
  ∃ r, m = Ret r /\
    (∀ s', r = inl s' -> search_inv data keys s' /\ s_i s < s_i s') /\
    (∀ k, r = inr k -> in_data data k).

Lemma good_stop data keys s k : in_data data k -> good_turn data keys s (Ret (inr k)).
Proof. intros Hk. eexists. split; [done|]. split; [done|]. by intros ? [= <-]. Qed.

Lemma good_fail data keys s : good_turn data keys s (Ret (inr (-1))).
Proof. apply good_stop. by left. Qed.

Lemma good_next data keys s kl l i b :
  0 <= s_i s -> s_i s < i <= len data -> kl < len keys -> (0 <= kl \/ kl < l) ->
  good_turn data keys s (Ret (inl (mkSearch kl l i b))).
Proof.
  intros. eexists. split; [done|]. split; [|done]. intros ? [= <-].
  unfold search_inv; cbn. split; [split; [lia|done]|lia].
Qed.

#[local] Hint Resolve good_fail : core.

Lemma key_at_in_range keys k : 0 <= k < len keys -> keys_ok keys ->
  ∃ key, key_at keys k = Ret key /\ key <> [].
Proof.
  intros Hk Hok. unfold key_at. destruct (Z.ltb_spec k 0); [lia|].
  destruct (lookup_lt_is_Some_2 keys (Z.to_nat k)) as [key Hkey]; [unfold len in *; lia|].
  rewrite Hkey. exists key. split; [done|]. by eapply (Forall_lookup_1 _ _ _ _ Hok).
Qed.

Lemma searchString_good data keys kl l i b :
  keys_ok keys -> search_inv data keys (mkSearch kl l i b) -> i < len data ->
  good_turn data keys (mkSearch kl l i b) (searchString data keys (mkSearch kl l i b)).
Proof.
  intros Hok (Hi & Hkl & Hlev) Hlt. cbn in *. unfold searchString.
  rewrite slice_from_in_range by lia. cbn [mbind outcome_mbind].
  destruct (stringEnd _) as [strEnd esc] eqn:E. apply stringEnd_range in E.
  autorewrite with len in E. destruct (Z.eqb_spec strEnd (-1)); [done|].
  rewrite slice_from_in_range by lia. cbn [mbind outcome_mbind].
  destruct (nextToken_range (drop (Z.to_nat (i + 1 + strEnd)) data)) as [->|[Hn _]]; [done|].
  set (k := nextToken _) in *. autorewrite with len in Hn.
  destruct (Z.eqb_spec k (-1)); [lia|].
  destruct (byte_at_in_range data (i + 1 + strEnd + k)) as (c & -> & _); [lia|].
  cbn [mbind outcome_mbind]. destruct (c =? ch ":"); [|apply good_next; cbn; lia].
  destruct (Z.ltb_spec l 1); [done|]. rewrite slice_part by lia. cbn [mbind outcome_mbind].
  assert (Hu : ∃ o, (if negb esc then Ret (Some (part data (i + 1) (i + 1 + strEnd - 1)))
                     else Unescape (part data (i + 1) (i + 1 + strEnd - 1))) = Ret o).
  { destruct esc; cbn; [|by eexists]. destruct (Unescape_good (part data (i + 1) (i + 1 + strEnd - 1)))
      as (o & Ho & _). by exists o. }
  destruct Hu as [[ku|] ->]; cbn [mbind outcome_mbind]; [|done].
  destruct (Z.leb_spec l (len keys)); [|done].
  destruct (key_at_in_range keys (l - 1)) as (key & -> & _); [lia|done|]. cbn [mbind outcome_mbind].
  destruct (bytes_eqb _ _); [|apply good_next; cbn; lia].
  destruct (Z.eqb_spec kl (l - 1)); [|apply good_next; cbn; lia].
  destruct (Z.eqb_spec (kl + 1) (len keys)); [apply good_stop; right; lia|].
  apply good_next; cbn; lia.
Qed.

(** What the recursive call of [searchKeys] promises. *)
Definition good_rec (rec : bytes -> list bytes -> outcome Z) (n : nat) : Prop :=
  ∀ data keys, keys_ok keys -> (length keys < n)%nat ->
    ∃ r, rec data keys = Ret r /\ in_data data r.

Lemma elementAt_returns data i aIdx calls :
  0 <= i <= len data -> Forall (call_ok (drop (Z.to_nat i) data)) calls ->
  ∃ r, elementAt data i aIdx calls = Ret r /\
    ∀ v off, r = Some (v, off) -> 0 <= off /\ i + off + len v <= len data.
Proof.
  intros Hi Hc. unfold elementAt. destruct (aIdx <? 0); [by eexists|].
  destruct (calls !! Z.to_nat aIdx) as [[[v t] off]|] eqn:Hl; [|by eexists].
  pose proof (Forall_lookup_1 _ _ _ _ Hc Hl) as (H1 & H2 & H3). autorewrite with len in H2.
  pose proof (len_nonneg v).
  case_bool_decide as E.
  - specialize (H3 E). rewrite slice_part by lia. cbn. eexists. split; [done|].
    intros ? ? [= <- <-]. rewrite len_part by lia. lia.
  - eexists. split; [done|]. intros ? ? [= <- <-]. lia.
Qed.

Lemma searchArray_good rec data keys kl l i b :
  good_rec rec (length keys) ->
  keys_ok keys -> search_inv data keys (mkSearch kl l i b) -> i < len data ->
  good_turn data keys (mkSearch kl l i b) (searchArray rec data keys (mkSearch kl l i b)).
Proof.
  intros Hrec Hok (Hi & Hkl & Hlev) Hlt. cbn in *. unfold searchArray.
  rewrite (slice_from_in_range data i) by lia. cbn [mbind outcome_mbind].
  assert (Hidx : ∃ o, indexKey keys kl l = Ret o /\
                 ∀ key, o = Some key -> 0 <= l < len keys).
  { unfold indexKey. destruct (Z.eqb_spec kl l) as [->|]; [|by eexists].
    destruct (key_at_in_range keys l) as (key & -> & Hne); [lia|done|]. cbn [mbind outcome_mbind].
    destruct key as [|c key]; [done|]. change (byte_at (c :: key) 0) with (Ret c). cbn.
    eexists. split; [done|]. intros; lia. }
  destruct Hidx as ([key|] & -> & Hl); cbn [mbind outcome_mbind].
  - specialize (Hl key eq_refl). destruct (Z.ltb_spec (len key) 3); [done|].
    destruct (byte_at_in_range key (len key - 1)) as (c & -> & _); [lia|]. cbn [mbind outcome_mbind].
    destruct (negb _); [done|]. rewrite slice_part by lia. cbn [mbind outcome_mbind].
    destruct (Atoi _) as [aIdx|]; [|done].
    destruct (arrayEach0_returns (drop (Z.to_nat i) data)) as (o & e & calls & -> & Hcalls).
    cbn [mbind outcome_mbind].
    destruct (elementAt_returns data i aIdx calls Hi Hcalls) as ([[v off]|] & -> & Hv);
      cbn [mbind outcome_mbind]; [|done]. destruct (Hv v off eq_refl).
    rewrite slice_from_in_range by lia. cbn [mbind outcome_mbind].
    destruct (Hrec v (drop (Z.to_nat (l + 1)) keys)) as (r & -> & Hr).
    { by apply Forall_drop. }
    { rewrite length_drop. unfold len in *. lia. }
    cbn [mbind outcome_mbind]. destruct (Z.ltb_spec r 0); [done|]. apply good_stop. right.
    destruct Hr; lia.
  - destruct (blockEnd_returns (drop (Z.to_nat i) data) (ch "[") (ch "]")) as (e & -> & He).
    cbn [mbind outcome_mbind]. autorewrite with len in He.
    destruct (Z.eqb_spec e (-1)); [done|]. apply good_next; cbn; lia.
Qed.

Lemma searchStep_good rec data keys s :
  good_rec rec (length keys) -> keys_ok keys -> search_inv data keys s ->
  good_turn data keys s (searchStep rec data keys s).
Proof.
  destruct s as [kl l i b]. intros Hrec Hok Hinv. unfold searchStep.
  destruct (Z.ltb_spec i (len data)); [|done].
  pose proof Hinv as (Hi & Hkl & Hlev). cbn in Hi, Hkl, Hlev.
  destruct (byte_at_in_range data i) as (c & -> & _); [lia|]. cbn [mbind outcome_mbind].
  destruct (c =? dquote); [by apply searchString_good|].
  destruct (c =? ch "{").
  { destruct b; cbn [negb]; [apply good_next; cbn; lia|].
    rewrite slice_from_in_range by lia. cbn [mbind outcome_mbind].
    destruct (blockEnd_returns (drop (Z.to_nat i) data) (ch "{") (ch "}")) as (e & -> & He).
    cbn [mbind outcome_mbind]. autorewrite with len in He.
    destruct (Z.eqb_spec e (-1)); [done|]. apply good_next; cbn; lia. }
  destruct (c =? ch "}").
  { apply good_next; cbn; try lia; destruct (Z.eqb_spec (l - 1) kl); lia. }
  destruct (c =? ch "["); [by apply searchArray_good|].
  destruct (c =? ch ":"); [done|]. apply good_next; cbn; lia.
Qed.

Lemma searchKeysFuel_good n : good_rec (searchKeysFuel n) n.
Proof.
  induction n as [|n IH]; intros data keys Hok Hlen; [lia|]. cbn [searchKeysFuel].
  case_bool_decide; [eexists; split; [done|]; right; pose proof (len_nonneg data); lia|].
  assert (Hrec : good_rec (searchKeysFuel n) (length keys)).
  { intros d ks Hks Hl. apply IH; [done|lia]. }
  assert (Hi : search_inv data keys (mkSearch 0 0 0 true)).
  { pose proof (len_nonneg data). split_and!; cbn; try lia.
    destruct keys; [done|]. rewrite len_cons. pose proof (len_nonneg keys). lia. }
  destruct (loop_returns (searchStep (searchKeysFuel n) data keys) (search_inv data keys)
    (λ s, Z.to_nat (len data - s_i s))) with (fuel := S (length data)) (s := mkSearch 0 0 0 true)
    as [r Hr]; [|done| |].
  - intros s Hs. destruct (searchStep_good _ data keys s Hrec Hok Hs) as (r & Hr & H1 & _).
    exists r. split; [done|]. intros s' Hs'. destruct (H1 s' Hs'). split; [done|].
    destruct Hs as [? _], (H1 s' Hs') as [[? _] _]. lia.
  - cbn. unfold len. lia.
  - exists r. split; [done|].
    refine (loop_post (searchStep (searchKeysFuel n) data keys) (search_inv data keys)
      (in_data data) _ _ _ _ Hi Hr).
    intros s Hs. destruct (searchStep_good _ data keys s Hrec Hok Hs) as (q & -> & H1 & H2).
    split; [intros s' [= ->]; by apply H1|intros k [= ->]; by apply H2].
Qed.

Lemma searchKeys_returns data keys : keys_ok keys ->
  ∃ r, searchKeys data keys = Ret r /\ in_data data r.
Proof. intros Hok. apply searchKeysFuel_good; [done|lia]. Qed.

Lemma internalGet_returns data keys : keys_ok keys ->
  ∃ g, internalGet data keys = Ret g /\ good_get data 0 g.
Proof.
  intros Hok. unfold internalGet. pose proof (len_nonneg data). case_bool_decide.
  - apply internalGetAt_returns. lia.
  - destruct (searchKeys_returns data keys Hok) as (r & -> & Hr). cbn [mbind outcome_mbind].
    destruct (Z.eqb_spec r (-1)); [by eexists|]. destruct Hr; [done|].
    destruct (internalGetAt_returns data r) as (g & -> & Hg); [lia|].
    exists g. split; [done|]. intros He. destruct (Hg He) as (? & ? & ? & ?).
    split_and!; done || lia.
Qed.

Lemma Get_good :
  (∀ data keys, keys_ok keys ->
     ∃ v t e err, Get data keys = Ret (v, t, e, err) /\
       (err = None -> t <> NotExist /\ e <= len data /\
          ∃ lo, 0 <= lo < e /\
            v = if bool_decide (t = String) then part data (lo + 1) (e - 1) else part data lo e)) /\
  Get (str "[1]") [[]] = Panic.
Proof.
  split; [|reflexivity]. intros data keys Hok. unfold Get.
  destruct (internalGet_returns data keys Hok) as (g & -> & Hg). cbn [mbind outcome_mbind].
  do 4 eexists. split; [done|]. intros He. destruct (Hg He) as (Hlo & Hhi & Ht & Hv).
  split_and!; [done|done|]. exists (g_offset g). split; [lia|].
  destruct (bool_decide _); [by destruct Hv|done].
Qed.

(** C32: [Get] answers on every document, well formed or not, and every path of non-empty
    keys: no index is out of range and no loop runs for ever.  A value it reports is a
    part of the document that ends at the reported offset, inside the quotes for a
    string.  An empty key is outside the contract: on an array it panics. *)
Theorem Get_total :
  (∀ data keys, keys_ok keys ->
     ∃ v t e err, Get data keys = Ret (v, t, e, err) /\
       (err = None -> t <> NotExist /\ e <= len data /\
          ∃ lo, 0 <= lo < e /\
            v = if bool_decide (t = String) then part data (lo + 1) (e - 1) else part data lo e)) /\
  Get (str "[1]") [[]] = Panic.
Proof. exact Get_good. Qed.

Lemma Get_total_witness : ∃ v t e err, Get (str "[1,") [str "[0]"] = Ret (v, t, e, err).
Proof.
  assert (Hok : keys_ok [str "[0]"]) by (repeat constructor; done).
  destruct (proj1 Get_total (str "[1,") [str "[0]"] Hok) as (v & t & e & err & H & _). eauto.
Defined.
