(* ===== verification/JsonText.v ===== *)
(** JSON texts and what the reader makes of them: a concrete syntax with arbitrary white
    space and escapes, and the theorems that [blockEnd], [Get], [ArrayEach] and the typed
    accessors agree with it. *)
From S2P Require Import Prelude JsonScan JsonEscape JsonGet JsonTotal.

(** ** Concrete syntax *)

(** Literals carry their text and type, strings and keys their raw text, and the white space
    of the document is kept, so that [print] yields every text of a value. *)
Inductive cst :=
| CLit (t : bytes) (ty : ValueType)
| CStr (t : bytes)
| CArr (w : bytes) (es : elems)
| CObj (w : bytes) (ms : members)
with elems :=
| ENil
| ECons (w1 : bytes) (v : cst) (w2 : bytes) (es : elems)
with members :=
| MNil
| MCons (w1 key w2 w3 : bytes) (v : cst) (w4 : bytes) (ms : members).

Scheme cst_ind' := Induction for cst Sort Prop
with elems_ind' := Induction for elems Sort Prop
with members_ind' := Induction for members Sort Prop.
Combined Scheme cst_mut from cst_ind', elems_ind', members_ind'.

Definition quoted (t : bytes) : bytes := dquote :: t ++ [dquote].

Definition sep_e (es : elems) : bytes := match es with ENil => [] | _ => [ch ","] end.
Definition sep_m (ms : members) : bytes := match ms with MNil => [] | _ => [ch ","] end.

Fixpoint print (v : cst) : bytes :=
  match v with
  | CLit t _ => t
  | CStr t => quoted t
  | CArr w es => ch "[" :: w ++ print_elems es ++ [ch "]"]
  | CObj w ms => ch "{" :: w ++ print_members ms ++ [ch "}"]
  end
with print_elems (es : elems) : bytes :=
  match es with
  | ENil => []
  | ECons w1 v w2 es => w1 ++ print v ++ w2 ++ sep_e es ++ print_elems es
  end
with print_members (ms : members) : bytes :=
  match ms with
  | MNil => []
  | MCons w1 key w2 w3 v w4 ms =>
      w1 ++ quoted key ++ w2 ++ ch ":" :: w3 ++ print v ++ w4 ++ sep_m ms ++ print_members ms
  end.

(** The bytes of literals. *)
Definition lit_char (c : Z) : Prop :=
  ends_token c = false /\ c <> dquote /\ c <> ch "[" /\ c <> ch "{" /\ c <> ch ":".

Definition wf_key (key : bytes) : Prop := raw key /\ ∃ u, Unescape key = Ret (Some u).

Definition key_value (key : bytes) : bytes :=
  match Unescape key with Ret (Some u) => u | _ => [] end.

Fixpoint wf (v : cst) : Prop :=
  match v with
  | CLit t ty =>
      match t with [] => False | c :: _ => literalType c t = Some ty end /\ Forall lit_char t
  | CStr t => raw t
  | CArr w es => white w /\ wf_elems es
  | CObj w ms => white w /\ wf_members ms
  end
with wf_elems (es : elems) : Prop :=
  match es with
  | ENil => True
  | ECons w1 v w2 es => white w1 /\ white w2 /\ wf v /\ wf_elems es
  end
with wf_members (ms : members) : Prop :=
  match ms with
  | MNil => True
  | MCons w1 key w2 w3 v w4 ms =>
      white w1 /\ white w2 /\ white w3 /\ white w4 /\ wf_key key /\ wf v /\ wf_members ms
  end.

Definition type_of (v : cst) : ValueType :=
  match v with CLit _ ty => ty | CStr _ => String | CArr _ _ => Array | CObj _ _ => Object end.

(** The value [Get] reports: the text, without the quotes of a string. *)
Definition inner (v : cst) : bytes := match v with CStr t => t | _ => print v end.

(** What may follow a literal. *)
Definition closed (rest : bytes) : Prop :=
  match rest with [] => True | c :: _ => ends_token c = true end.

(** ** Lookup: the reference meaning of a key path *)

Fixpoint member (k : bytes) (ms : members) : option cst :=
  match ms with
  | MNil => None
  | MCons _ key _ _ v _ ms => if bytes_eqb (key_value key) k then Some v else member k ms
  end.

Fixpoint nth_elem (n : nat) (es : elems) : option cst :=
  match es with
  | ENil => None
  | ECons _ v _ es => match n with O => Some v | S n => nth_elem n es end
  end.

(** The index a key [\[n\]] denotes. *)
Definition index_of (k : bytes) : option nat :=
  match k with
  | c :: t =>
      if (c =? ch "[") && (3 <=? len k) && bool_decide (last t = Some (ch "]")) then
        match Atoi (part k 1 (len k - 1)) with
        | Some n => if n <? 0 then None else Some (Z.to_nat n)
        | None => None
        end
      else None
  | [] => None
  end.

Fixpoint lookup_path (v : cst) (ks : list bytes) : option cst :=
  match ks with
  | [] => Some v
  | k :: ks =>
      match v with
      | CObj _ ms => match member k ms with Some v => lookup_path v ks | None => None end
      | CArr _ es =>
          match index_of k with
          | Some n => match nth_elem n es with Some v => lookup_path v ks | None => None end
          | None => None
          end
      | _ => None
      end
  end.

(** ** Block ends *)

Section Block.
Context (data : bytes) (o c : Z).

(** The text at [i] leaves the level of [blockEnd] as it is, from any level inside a block. *)
Definition passes (txt : bytes) : Prop :=
  ∀ i rest level r, 0 <= i -> drop (Z.to_nat i) data = txt ++ rest -> 1 <= level ->
    iterates (blockEndStep data o c) (level, i + len txt) r ->
    iterates (blockEndStep data o c) (level, i) r.

Lemma passes_nil : passes [].
Proof. intros i rest level r _ _ _. by rewrite len_nil, Z.add_0_r. Qed.

Lemma drop_len (i : Z) (txt rest : bytes) :
  0 <= i -> drop (Z.to_nat i) data = txt ++ rest -> txt ++ rest <> [] ->
  i + len txt + len rest = len data.
Proof.
  intros Hi Hd Hne. pose proof (f_equal len Hd) as Hl. autorewrite with len in Hl.
  assert (0 < len (txt ++ rest)).
  { destruct (txt ++ rest) as [|x l]; [done|]. rewrite len_cons. pose proof (len_nonneg l). lia. }
  autorewrite with len in *. lia.
Qed.

Lemma drop_shift (i : Z) (txt rest : bytes) :
  0 <= i -> drop (Z.to_nat i) data = txt ++ rest -> drop (Z.to_nat (i + len txt)) data = rest.
Proof.
  intros Hi Hd. replace (Z.to_nat (i + len txt)) with (Z.to_nat i + length txt)%nat
    by (unfold len; lia).
  by rewrite <- drop_drop, Hd, drop_app_length.
Qed.

Lemma drop_byte (i : Z) x (rest : bytes) :
  0 <= i -> drop (Z.to_nat i) data = x :: rest -> byte_at data i = Ret x /\ i < len data.
Proof.
  intros Hi Hd. pose proof (lookup_drop data (Z.to_nat i) 0) as Hl.
  rewrite Hd, Nat.add_0_r in Hl. cbn in Hl. symmetry in Hl. split.
  - unfold byte_at. destruct (Z.ltb_spec i 0); [lia|]. by rewrite Hl.
  - apply lookup_lt_Some in Hl. unfold len. lia.
Qed.

Lemma passes_app t1 t2 : passes t1 -> passes t2 -> passes (t1 ++ t2).
Proof.
  intros H1 H2 i rest level r Hi Hd Hl Hr. rewrite <- app_assoc in Hd.
  apply (H1 i (t2 ++ rest)); [done|done|done|].
  apply (H2 _ rest); [pose proof (len_nonneg t1); lia|by eapply drop_shift|done|].
  rewrite len_app in Hr. by rewrite <- Z.add_assoc.
Qed.

Lemma passes_char x : x <> dquote -> x <> o -> x <> c -> passes [x].
Proof.
  intros Hq Ho Hc i rest level r Hi Hd Hl Hr. cbn in Hd.
  destruct (drop_byte i x rest Hi Hd) as [Hb Hlt].
  eapply iterates_next; [|exact Hr]. unfold blockEndStep.
  destruct (Z.ltb_spec i (len data)); [|lia]. rewrite Hb. cbn [mbind outcome_mbind].
  destruct (Z.eqb_spec x dquote); [done|]. destruct (Z.eqb_spec x o); [done|].
  destruct (Z.eqb_spec x c); [done|]. done.
Qed.

Lemma passes_chars t : Forall (λ x, x <> dquote /\ x <> o /\ x <> c) t -> passes t.
Proof.
  induction 1 as [|x t (Hq & Ho & Hc) Ht IH]; [apply passes_nil|].
  apply (passes_app [x] t); [by apply passes_char|done].
Qed.

Lemma passes_quoted t : raw t -> passes (quoted t).
Proof.
  intros Ht i rest level r Hi Hd Hl Hr. unfold quoted in *. cbn [app] in Hd.
  destruct (drop_byte i dquote _ Hi Hd) as [Hb Hlt].
  eapply iterates_next; [|exact Hr]. unfold blockEndStep.
  destruct (Z.ltb_spec i (len data)); [|lia]. rewrite Hb. cbn [mbind outcome_mbind].
  rewrite Z.eqb_refl, slice_from_in_range by lia. cbn [mbind outcome_mbind].
  pose proof (drop_shift i [dquote] _ Hi Hd) as Hd1. change (i + len [dquote]) with (i + 1) in Hd1.
  rewrite Hd1.
  rewrite <- app_assoc. cbn [app]. rewrite stringEnd_raw by done.
  pose proof (len_nonneg t). destruct (Z.eqb_spec (len t + 1) (-1)); [lia|].
  autorewrite with len. do 3 f_equal. lia.
Qed.

(** A nested block of the same kind: in, its body, out. *)
Lemma passes_nested body : o <> dquote -> c <> dquote -> o <> c ->
  passes body -> passes (o :: body ++ [c]).
Proof.
  intros Ho Hc Hoc Hb i rest level r Hi Hd Hl Hr. cbn [app] in Hd. rewrite <- app_assoc in Hd.
  destruct (drop_byte i o _ Hi Hd) as [Hbo Hlt].
  eapply iterates_next.
  { unfold blockEndStep. destruct (Z.ltb_spec i (len data)); [|lia]. rewrite Hbo.
    cbn [mbind outcome_mbind]. destruct (Z.eqb_spec o dquote); [done|]. by rewrite Z.eqb_refl. }
  pose proof (drop_shift i [o] _ Hi Hd) as Hd1. change (i + len [o]) with (i + 1) in Hd1.
  eapply Hb; [lia|exact Hd1|lia|].
  pose proof (drop_shift (i + 1) body _ ltac:(lia) Hd1) as Hd2.
  pose proof (len_nonneg body).
  destruct (drop_byte (i + 1 + len body) c rest ltac:(lia) Hd2) as [Hbc Hlt2].
  eapply iterates_next.
  { unfold blockEndStep. destruct (Z.ltb_spec (i + 1 + len body) (len data)); [|lia]. rewrite Hbc.
    cbn [mbind outcome_mbind]. destruct (Z.eqb_spec c dquote); [done|].
    destruct (Z.eqb_spec c o); [congruence|]. rewrite Z.eqb_refl.
    destruct (Z.eqb_spec (level + 1 - 1) 0); [lia|]. reflexivity. }
  replace (level + 1 - 1) with level by lia.
  autorewrite with len in Hr. replace (i + 1 + len body + 1) with (i + (1 + (len body + (1 + 0)))) by lia.
  exact Hr.
Qed.

End Block.

(** The two bracket pairs. *)
Definition pair (o c : Z) : Prop := (o = ch "[" /\ c = ch "]") \/ (o = ch "{" /\ c = ch "}").

Lemma white_passes data o c w : pair o c -> white w -> passes data o c w.
Proof.
  intros Hp Hw. apply passes_chars. eapply Forall_impl; [exact Hw|]. cbn. intros x Hx.
  unfold is_ws, dquote in *. unfold pair in Hp. chars.
  split_and!; intros ->; destruct Hp as [[-> ->]|[-> ->]]; done.
Qed.

Lemma lit_passes data o c t : pair o c -> Forall lit_char t -> passes data o c t.
Proof.
  intros Hp Ht. apply passes_chars. eapply Forall_impl; [exact Ht|].
  intros x (He & Hq & Hb & Hc & _). unfold ends_token in He. unfold pair in Hp.
  split; [done|]. destruct Hp as [[-> ->]|[-> ->]]; (split; [done|]); intros ->; done.
Qed.

(** Any other single byte of the grammar. *)
Lemma byte_passes data o c x : pair o c -> x ∈ [ch ","; ch ":"] -> passes data o c [x].
Proof.
  intros Hp Hx. unfold pair in Hp.
  rewrite !elem_of_cons in Hx. destruct Hx as [->|[->|Hx]]; [..|by apply elem_of_nil in Hx];
    apply passes_char; destruct Hp as [[-> ->]|[-> ->]]; done.
Qed.

(** Brackets of the other kind are plain bytes. *)
Lemma bracket_passes data o c x y body :
  pair o c -> pair x y -> passes data o c body -> passes data o c (x :: body ++ [y]).
Proof.
  intros Hp Hx Hb. destruct (decide (o = x)) as [<-|Hne].
  - assert (y = c) as -> by (destruct Hp as [[-> ->]|[-> ->]], Hx as [[? ->]|[? ->]]; done).
    apply passes_nested; [..|done]; destruct Hp as [[-> ->]|[-> ->]]; done.
  - apply (passes_app _ _ _ [x]).
    + apply passes_char; destruct Hp as [[-> ->]|[-> ->]], Hx as [[-> ->]|[-> ->]]; done.
    + apply passes_app; [done|].
      apply passes_char; destruct Hp as [[-> ->]|[-> ->]], Hx as [[-> ->]|[-> ->]]; done.
Qed.

Lemma passes_all data o c : pair o c ->
  (∀ v, wf v -> passes data o c (print v)) /\
  (∀ es, wf_elems es -> passes data o c (print_elems es)) /\
  (∀ ms, wf_members ms -> passes data o c (print_members ms)).
Proof.
  intros Hp. apply cst_mut; cbn [wf wf_elems wf_members print print_elems print_members].
  - intros t ty [_ Ht]. by apply lit_passes.
  - intros t Ht. by apply passes_quoted.
  - intros w es IH [Hw Hes]. rewrite app_assoc. apply bracket_passes; [done|by left|].
    apply passes_app; [by apply white_passes|auto].
  - intros w ms IH [Hw Hms]. rewrite app_assoc. apply bracket_passes; [done|by right|].
    apply passes_app; [by apply white_passes|auto].
  - intros _. apply passes_nil.
  - intros w1 v IHv w2 es IHes (Hw1 & Hw2 & Hv & Hes).
    repeat apply passes_app; try (by apply white_passes); auto.
    destruct es; [apply passes_nil|apply byte_passes; [done|left]].
  - intros _. apply passes_nil.
  - intros w1 key w2 w3 v IHv w4 ms IHms (Hw1 & Hw2 & Hw3 & Hw4 & [Hk _] & Hv & Hms).
    change (ch ":" :: w3 ++ print v ++ w4 ++ sep_m ms ++ print_members ms)
      with ([ch ":"] ++ w3 ++ print v ++ w4 ++ sep_m ms ++ print_members ms).
    repeat apply passes_app; try (by apply white_passes); auto.
    + by apply passes_quoted.
    + apply byte_passes; [done|right; left].
    + destruct ms; [apply passes_nil|apply byte_passes; [done|left]].
Qed.

(** [blockEnd] finds the end of a block. *)
Lemma blockEnd_block data o c body rest :
  pair o c -> passes data o c body -> data = o :: body ++ c :: rest ->
  blockEnd data o c = Ret (len body + 2).
Proof.
  intros Hp Hb Hd. destruct (blockEnd_returns data o c) as (k & Hk & _). rewrite Hk. f_equal.
  assert (Hi : iterates (blockEndStep data o c) (0, 0) (len body + 2)).
  { assert (Hpc : o <> dquote /\ c <> dquote /\ o <> c)
      by (destruct Hp as [[-> ->]|[-> ->]]; done). destruct Hpc as (Ho & Hc & Hoc).
    destruct (drop_byte data 0 o (body ++ c :: rest) ltac:(lia) Hd) as [Hbo Hlt].
    eapply iterates_next.
    { unfold blockEndStep. destruct (Z.ltb_spec 0 (len data)); [|lia]. rewrite Hbo.
      cbn [mbind outcome_mbind]. destruct (Z.eqb_spec o dquote); [done|]. by rewrite Z.eqb_refl. }
    assert (Hd1 : drop (Z.to_nat (0 + 1)) data = body ++ c :: rest) by (by rewrite Hd).
    eapply Hb; [|exact Hd1|lia|]; [lia|].
    pose proof (drop_shift data (0 + 1) body _ ltac:(lia) Hd1) as Hd2. pose proof (len_nonneg body).
    destruct (drop_byte data (0 + 1 + len body) c rest ltac:(lia) Hd2) as [Hbc Hlt2].
    eapply iterates_done. unfold blockEndStep.
    destruct (Z.ltb_spec (0 + 1 + len body) (len data)); [|lia]. rewrite Hbc.
    cbn [mbind outcome_mbind]. destruct (Z.eqb_spec c dquote); [done|].
    destruct (Z.eqb_spec c o); [congruence|]. rewrite Z.eqb_refl.
    cbn. do 2 f_equal. lia. }
  destruct Hi as [f Hf]. by eapply loop_fuel.
Qed.

Lemma blockEnd_arr w es rest : wf (CArr w es) ->
  blockEnd (print (CArr w es) ++ rest) (ch "[") (ch "]") = Ret (len (print (CArr w es))).
Proof.
  intros [Hw Hes]. rewrite (blockEnd_block _ _ _ (w ++ print_elems es) rest).
  - cbn [print]. rewrite app_assoc. autorewrite with len. f_equal. lia.
  - by left.
  - apply passes_app; [apply white_passes; [by left|done]|apply passes_all; [by left|done]].
  - cbn [print]. cbn [app]. by rewrite <- !app_assoc.
Qed.

Lemma blockEnd_obj w ms rest : wf (CObj w ms) ->
  blockEnd (print (CObj w ms) ++ rest) (ch "{") (ch "}") = Ret (len (print (CObj w ms))).
Proof.
  intros [Hw Hms]. rewrite (blockEnd_block _ _ _ (w ++ print_members ms) rest).
  - cbn [print]. rewrite app_assoc. autorewrite with len. f_equal. lia.
  - by right.
  - apply passes_app; [apply white_passes; [by right|done]|apply passes_all; [by right|done]].
  - cbn [print]. cbn [app]. by rewrite <- !app_assoc.
Qed.

(** ** Values *)

Lemma print_head v : wf v -> ∃ c t, print v = c :: t /\ is_ws c = false /\ c <> ch ":" /\ ends_token c = false.
Proof.
  destruct v as [t ty|t|w es|w ms]; cbn [wf print].
  - intros [Hl Ht]. destruct t as [|c t]; [done|]. exists c, t.
    apply Forall_cons in Ht as [(He & _ & _ & _ & Hc) _]. split_and!; [done| |done|done].
    unfold ends_token in He. by destruct (is_ws c).
  - intros _. by exists dquote, (t ++ [dquote]).
  - intros _. by eexists _, _.
  - intros _. by eexists _, _.
Qed.

Lemma print_len v : wf v -> 0 < len (print v).
Proof.
  intros Hv. destruct (print_head v Hv) as (c & t & -> & _). rewrite len_cons.
  pose proof (len_nonneg t). lia.
Qed.

Lemma slice_at (data : bytes) i txt rest hi :
  0 <= i -> drop (Z.to_nat i) data = txt ++ rest -> i <= len data -> hi = i + len txt ->
  slice data i hi = Ret txt.
Proof.
  intros Hi Hd Hlen ->. rewrite <- (take_drop (Z.to_nat i) data), Hd.
  apply slice_middle; autorewrite with len; lia.
Qed.

Lemma literal_head c t ty : literalType c t = Some ty -> c <> dquote /\ c <> ch "[" /\ c <> ch "{".
Proof.
  unfold literalType, dquote. chars. intros H. split_and!; intros ->; discriminate H.
Qed.

Lemma getType_text data i v rest :
  wf v -> 0 <= i -> drop (Z.to_nat i) data = print v ++ rest -> closed rest ->
  getType data i = Ret (print v, type_of v, i + len (print v), None).
Proof.
  intros Hv Hi Hd Hrest. pose proof (print_len v Hv) as Hpos.
  destruct (print_head v Hv) as (c & t & Hp & _).
  assert (Hd' := Hd). rewrite Hp in Hd'. cbn [app] in Hd'.
  destruct (drop_byte data i c _ Hi Hd') as [Hb Hlt].
  assert (Hlen : i + len (print v) <= len data).
  { pose proof (drop_len data i (print v) rest Hi Hd) as Hl. rewrite Hp in Hl at 1.
    specialize (Hl ltac:(done)). pose proof (len_nonneg rest). lia. }
  pose proof (slice_at data i (print v) rest _ Hi Hd ltac:(lia) eq_refl) as Hs.
  unfold getType. rewrite Hb, (slice_from_in_range data i) by lia. cbn [mbind outcome_mbind].
  rewrite Hd. clear Hd'. destruct v as [t' ty|t'|w es|w ms].
  - cbn [wf print type_of] in *. destruct Hv as [Hl Ht']. subst t'.
    destruct (literal_head _ _ _ Hl) as (Hq & Hbr & Hcu).
    destruct (Z.eqb_spec c dquote); [done|]. destruct (Z.eqb_spec c (ch "[")); [done|].
    destruct (Z.eqb_spec c (ch "{")); [done|].
    rewrite tokenEnd_app; [|eapply Forall_impl; [exact Ht'|by intros x []]|done].
    rewrite Hs. cbn [mbind outcome_mbind]. by rewrite Hl.
  - cbn [wf print type_of] in *. unfold quoted in *. injection Hp as <- _. rewrite Z.eqb_refl.
    pose proof (drop_shift data i [dquote] ((t' ++ [dquote]) ++ rest) Hi Hd) as Hd1.
    change (i + len [dquote]) with (i + 1) in Hd1.
    rewrite slice_from_in_range, Hd1 by lia. cbn [mbind outcome_mbind].
    rewrite <- app_assoc. cbn [app]. rewrite stringEnd_raw by done.
    pose proof (len_nonneg t'). destruct (Z.eqb_spec (len t' + 1) (-1)); [lia|]. cbn [negb].
    replace (i + (len t' + 1) + 1) with (i + len (dquote :: t' ++ [dquote]))
      by (autorewrite with len; lia).
    rewrite Hs. done.
  - injection Hp as <- _. change (ch "[" =? dquote) with false. rewrite Z.eqb_refl.
    rewrite blockEnd_arr by done. cbn [mbind outcome_mbind].
    destruct (Z.eqb_spec (len (print (CArr w es))) (-1)); [lia|].
    rewrite (Z.add_comm _ i), Hs. done.
  - injection Hp as <- _. change (ch "{" =? dquote) with false.
    change (ch "{" =? ch "[") with false. rewrite Z.eqb_refl.
    rewrite blockEnd_obj by done. cbn [mbind outcome_mbind].
    destruct (Z.eqb_spec (len (print (CObj w ms))) (-1)); [lia|].
    rewrite (Z.add_comm _ i), Hs. done.
Qed.

Lemma wf_type v : wf v -> type_of v = String <-> ∃ t, v = CStr t.
Proof.
  intros Hv. split; [|by intros [t ->]].
  destruct v as [t ty|t|w es|w ms]; cbn; try done; [|eauto]. intros ->.
  destruct Hv as [Hl _]. destruct t as [|c t]; [done|]. by apply literal_not_end in Hl as (_ & ? & _).
Qed.

Lemma wf_type_exists v : wf v -> type_of v <> NotExist.
Proof.
  destruct v as [t ty|t|w es|w ms]; cbn; try done. intros [Hl _] ->.
  destruct t as [|c t]; [done|]. by apply literal_not_end in Hl as (_ & _ & ?).
Qed.

(** Reading the value at a position, after white space. *)
Lemma internalGetAt_text data i w v rest :
  wf v -> white w -> 0 <= i <= len data -> drop (Z.to_nat i) data = w ++ print v ++ rest -> closed rest ->
  internalGetAt data i =
    Ret (mkGet (inner v) (type_of v) (i + len w) (i + len w + len (print v)) None).
Proof.
  intros Hv Hw Hi Hd Hrest. unfold internalGetAt.
  rewrite slice_from_in_range by lia. cbn [mbind outcome_mbind].
  destruct (print_head v Hv) as (c & t & Hp & Hc & _ & _).
  replace (nextToken (drop (Z.to_nat i) data)) with (len w)
    by (rewrite Hd, Hp; cbn [app]; by rewrite nextToken_white). pose proof (len_nonneg w).
  destruct (Z.eqb_spec (len w) (-1)); [lia|].
  rewrite (getType_text data (i + len w) v rest Hv); [|lia|exact (drop_shift data i w _ ltac:(lia) Hd)|done].
  cbn [mbind outcome_mbind]. case_bool_decide as E.
  - apply wf_type in E as [t' ->]; [|done]. cbn [print inner type_of]. unfold quoted.
    rewrite (slice_middle [dquote] t' [dquote]) by (autorewrite with len; lia). done.
  - cbn [mbind outcome_mbind]. do 2 f_equal. destruct v; done.
Qed.

(** ** Array elements *)

Lemma closed_app w x rest : white w -> ends_token x = true -> closed (w ++ x :: rest).
Proof.
  intros Hw Hx. destruct Hw as [|y w Hy Hw]; [done|]. cbn. unfold ends_token. by rewrite Hy.
Qed.

(** The byte after an element and its white space: a comma, or the end of the array. *)
Definition after_e (es : elems) (rest : bytes) : bytes :=
  match es with ENil => ch "]" :: rest | _ => ch "," :: print_elems es ++ ch "]" :: rest end.

Lemma print_elems_after w1 v w2 es rest :
  print_elems (ECons w1 v w2 es) ++ ch "]" :: rest = w1 ++ print v ++ w2 ++ after_e es rest.
Proof. cbn [print_elems]. rewrite <- !app_assoc. by destruct es. Qed.

Lemma closed_after w2 es rest : white w2 -> closed (w2 ++ after_e es rest).
Proof. intros Hw. destruct es; by apply closed_app. Qed.

(** The calls [ArrayEach] makes for elements printed from position [i]. *)
Fixpoint elem_calls (i : Z) (es : elems) : list call :=
  match es with
  | ENil => []
  | ECons w1 v w2 es =>
      (inner v, type_of v, i + len w1 + len (print v) - len (inner v)) ::
        elem_calls (i + len w1 + len (print v) + len w2 + 1) es
  end.

Lemma drop_bound {A} (data : list A) i x rest :
  0 <= i -> drop (Z.to_nat i) data = x :: rest -> i < len data.
Proof.
  intros Hi Hd. pose proof (f_equal length Hd) as Hl. rewrite length_drop in Hl. cbn in Hl.
  unfold len. lia.
Qed.

Lemma arrayStep_text data i w1 v w2 es rest calls :
  wf_elems (ECons w1 v w2 es) -> 0 <= i ->
  drop (Z.to_nat i) data = print_elems (ECons w1 v w2 es) ++ ch "]" :: rest ->
  let e := i + len w1 + len (print v) + len w2 in
  let calls' := calls ++ [(inner v, type_of v, i + len w1 + len (print v) - len (inner v))] in
  arrayStep data (i, calls) =
    Ret (match es with ENil => inr (e, None, calls') | _ => inl (e + 1, calls') end) /\
  drop (Z.to_nat e) data = after_e es rest.
Proof.
  intros (Hw1 & Hw2 & Hv & Hes) Hi Hd. cbn zeta. rewrite print_elems_after in Hd.
  pose proof (print_len v Hv) as Hpos. pose proof (len_nonneg w1). pose proof (len_nonneg w2).
  assert (Hd1 : drop (Z.to_nat (i + len w1 + len (print v))) data = w2 ++ after_e es rest).
  { apply (drop_shift data (i + len w1) (print v)); [lia|].
    apply (drop_shift data i w1); [lia|exact Hd]. }
  assert (Hd2 : drop (Z.to_nat (i + len w1 + len (print v) + len w2)) data = after_e es rest)
    by (apply (drop_shift data _ w2); [lia|exact Hd1]).
  assert (Ha : ∃ x r, after_e es rest = x :: r /\ is_ws x = false /\
    x = match es with ENil => ch "]" | _ => ch "," end) by (destruct es; by eexists _, _).
  destruct Ha as (x & r & Ha & Hx & Hxe). rewrite Ha in Hd2.
  destruct (drop_byte data (i + len w1 + len (print v) + len w2) x r ltac:(lia) Hd2) as [Hb Hlt].
  split; [|by rewrite Hd2].
  unfold arrayStep. rewrite (slice_from_in_range data i) by lia. cbn [mbind outcome_mbind].
  rewrite (internalGetAt_text (drop (Z.to_nat i) data) 0 w1 v (w2 ++ after_e es rest) Hv Hw1);
    [|autorewrite with len; lia|exact Hd|by apply closed_after].
  cbn [mbind outcome_mbind g_err g_end g_type g_value].
  destruct (Z.eqb_spec (0 + len w1 + len (print v)) 0); [lia|].
  rewrite (bool_decide_false (type_of v = NotExist)) by (by apply wf_type_exists).
  replace (i + (0 + len w1 + len (print v))) with (i + len w1 + len (print v)) by lia.
  rewrite slice_from_in_range by lia. cbn [mbind outcome_mbind].
  replace (nextToken (drop (Z.to_nat (i + len w1 + len (print v))) data)) with (len w2)
    by (rewrite Hd1, Ha; by rewrite nextToken_white).
  destruct (Z.eqb_spec (len w2) (-1)); [lia|]. rewrite Hb. cbn [mbind outcome_mbind].
  subst x. by destruct es.
Qed.

Lemma arrayLoop_text data rest es : ∀ w1 v w2 i calls,
  wf_elems (ECons w1 v w2 es) -> 0 <= i ->
  drop (Z.to_nat i) data = print_elems (ECons w1 v w2 es) ++ ch "]" :: rest ->
  ∃ e, iterates (arrayStep data) (i, calls) (e, None, calls ++ elem_calls i (ECons w1 v w2 es)) /\
    0 <= e /\ drop (Z.to_nat e) data = ch "]" :: rest.
Proof.
  induction es as [|u1 v' u2 es IH]; intros w1 v w2 i calls Hwf Hi Hd;
    destruct (arrayStep_text data i w1 v w2 _ rest calls Hwf Hi Hd) as [Hs Hd'];
    pose proof Hwf as (_ & _ & Hv & Hes); pose proof (print_len v Hv);
    pose proof (len_nonneg w1); pose proof (len_nonneg w2).
  - eexists. split; [by eapply iterates_done|]. split; [lia|exact Hd'].
  - unfold after_e in Hd'.
    pose proof (drop_shift data (i + len w1 + len (print v) + len w2) [ch ","] _ ltac:(lia) Hd') as Hd2.
    change (len [ch ","]) with 1 in Hd2.
    destruct (IH u1 v' u2 (i + len w1 + len (print v) + len w2 + 1) (calls ++ [(inner v, type_of v,
      i + len w1 + len (print v) - len (inner v))]) Hes ltac:(lia) Hd2) as (e & Hit & He & Hde).
    exists e. split; [|done]. eapply iterates_next; [exact Hs|].
    rewrite <- app_assoc in Hit. exact Hit.
Qed.

(** [ArrayEach] past the opening bracket reports the elements in order. *)
Lemma arrayElems_text data i w es rest :
  white w -> wf_elems es -> 0 <= i ->
  drop (Z.to_nat i) data = w ++ print_elems es ++ ch "]" :: rest ->
  ∃ e, arrayElems data i = Ret (e, None, elem_calls (i + len w) es) /\
    0 <= e /\ drop (Z.to_nat e) data = ch "]" :: rest.
Proof.
  intros Hw Hes Hi Hd. pose proof (len_nonneg w).
  assert (Hlt : i <= len data).
  { destruct w as [|x w'], (print_elems es) as [|y p]; cbn [app] in Hd;
      apply drop_bound in Hd; lia. }
  unfold arrayElems. rewrite slice_from_in_range by lia. cbn [mbind outcome_mbind].
  pose proof (drop_shift data i w _ Hi Hd) as Hd0.
  destruct es as [|w1 v w2 es].
  - cbn [print_elems app] in *. rewrite Hd, nextToken_white by done.
    destruct (Z.eqb_spec (len w) (-1)); [lia|].
    destruct (drop_byte data (i + len w) (ch "]") rest ltac:(lia) Hd0) as [-> _].
    cbn. eexists. split; [done|]. split; [lia|exact Hd0].
  - pose proof Hes as (Hw1 & Hw2 & Hv & Hes'). pose proof (len_nonneg w1).
    assert (Hd1 : drop (Z.to_nat (i + len w + len w1)) data =
        print_elems (ECons [] v w2 es) ++ ch "]" :: rest).
    { apply (drop_shift data (i + len w) w1); [lia|]. rewrite Hd0, !print_elems_after. done. }
    destruct (print_head v Hv) as (c & t & Hp & Hc & _ & He).
    assert (Hn : nextToken (drop (Z.to_nat i) data) = len w + len w1).
    { rewrite Hd, print_elems_after, Hp. cbn [app]. rewrite app_assoc, nextToken_white; [|by apply Forall_app|done].
      by rewrite len_app. }
    rewrite Hn. destruct (Z.eqb_spec (len w + len w1) (-1)); [lia|].
    rewrite Z.add_assoc. pose proof Hd1 as Hd1'. rewrite print_elems_after, Hp in Hd1'. cbn [app] in Hd1'.
    destruct (drop_byte data (i + len w + len w1) c _ ltac:(lia) Hd1') as [-> _]. cbn [mbind outcome_mbind].
    destruct (Z.eqb_spec c (ch "]")) as [->|_]; [done|].
    destruct (arrayLoop_text data rest es [] v w2 (i + len w + len w1) []) as (e & [f Hit] & Hrest);
      [split_and!; [constructor|done..]|lia|exact Hd1|].
    exists e. split; [|done].
    destruct (arrayLoop_returns data (i + len w + len w1)) as (r & Hr & _).
    { apply drop_bound in Hd1'; lia. }
    rewrite Hr. f_equal. rewrite (loop_fuel _ _ _ _ _ _ Hr Hit). cbn [app elem_calls].
    rewrite len_nil, Z.add_0_r. done.
Qed.

(** The call of element [n], and where its text is. *)
Lemma elem_call_at data rest es : ∀ i n v,
  wf_elems es -> 0 <= i -> drop (Z.to_nat i) data = print_elems es ++ ch "]" :: rest ->
  nth_elem n es = Some v ->
  ∃ pos rest', 0 <= pos /\ wf v /\ closed rest' /\
    elem_calls i es !! n = Some (inner v, type_of v, pos + len (print v) - len (inner v)) /\
    drop (Z.to_nat pos) data = print v ++ rest'.
Proof.
  induction es as [|w1 u w2 es IH]; intros i n v Hes Hi Hd Hn; [by destruct n|].
  pose proof Hes as (Hw1 & Hw2 & Hu & Hes'). rewrite print_elems_after in Hd.
  pose proof (drop_shift data i w1 _ Hi Hd) as Hd1. pose proof (len_nonneg w1).
  pose proof (print_len u Hu). pose proof (len_nonneg w2). destruct n as [|n]; cbn [nth_elem] in Hn.
  - injection Hn as <-. exists (i + len w1), (w2 ++ after_e es rest).
    split_and!; [lia|done|by apply closed_after|done|exact Hd1].
  - destruct es as [|u1 v' u2 es]; [by destruct n|]. unfold after_e in Hd1.
    pose proof (drop_shift data (i + len w1) (print u) _ ltac:(lia) Hd1) as Hd2.
    pose proof (drop_shift data (i + len w1 + len (print u)) w2 _ ltac:(lia) Hd2) as Hd3.
    pose proof (drop_shift data (i + len w1 + len (print u) + len w2) [ch ","] _ ltac:(lia) Hd3) as Hd4.
    apply (IH (i + len w1 + len (print u) + len w2 + 1) n v Hes' ltac:(lia) Hd4 Hn).
Qed.

Lemma elementAt_text data i calls n v pos rest' :
  wf v -> 0 <= i -> 0 <= pos ->
  calls !! Z.to_nat n = Some (inner v, type_of v, pos + len (print v) - len (inner v)) -> 0 <= n ->
  drop (Z.to_nat pos) (drop (Z.to_nat i) data) = print v ++ rest' ->
  elementAt data i n calls = Ret (Some (print v, pos)).
Proof.
  intros Hv Hi Hpos Hc Hn Hd. unfold elementAt. destruct (Z.ltb_spec n 0); [lia|]. rewrite Hc.
  rewrite drop_drop in Hd. replace (Z.to_nat i + Z.to_nat pos)%nat with (Z.to_nat (i + pos)) in Hd by lia.
  pose proof (print_len v Hv).
  assert (Hlt : i + pos <= len data).
  { destruct (print v) as [|x p]; [done|]. apply drop_bound in Hd; lia. }
  case_bool_decide as E.
  - apply wf_type in E as [t ->]; [|done]. cbn [inner print] in *.
    replace (pos + len (quoted t) - len t - 2) with pos by (unfold quoted; autorewrite with len; lia).
    rewrite (slice_at data (i + pos) (quoted t) rest') by
      (try done; try lia; unfold quoted; autorewrite with len; lia).
    done.
  - assert (Ei : inner v = print v) by (by destruct v). rewrite Ei. do 3 f_equal. lia.
Qed.

(** ** Searching *)

Definition plain_search (x : Z) : Prop :=
  x <> dquote /\ x <> ch "{" /\ x <> ch "}" /\ x <> ch "[" /\ x <> ch ":".

Lemma plain_white w : white w -> Forall plain_search w.
Proof.
  intros Hw. eapply Forall_impl; [exact Hw|]. cbn. intros x Hx. unfold plain_search.
  split_and!; intros ->; done.
Qed.

Lemma plain_lit t : Forall lit_char t -> Forall plain_search t.
Proof.
  intros Ht. eapply Forall_impl; [exact Ht|]. intros x (He & Hq & Hb & Hc & Hcol).
  unfold plain_search. split_and!; try done. by intros ->.
Qed.

Section Search.
Context (rec : bytes -> list bytes -> outcome Z) (data : bytes) (keys : list bytes).

Abbreviation step := (searchStep rec data keys).

Lemma search_plain t : ∀ i rest kl l b r,
  Forall plain_search t -> 0 <= i -> drop (Z.to_nat i) data = t ++ rest ->
  iterates step (mkSearch kl l (i + len t) b) r -> iterates step (mkSearch kl l i b) r.
Proof.
  induction t as [|x t IH]; intros i rest kl l b r Ht Hi Hd Hr.
  - by rewrite len_nil, Z.add_0_r in Hr.
  - apply Forall_cons in Ht as [(Hq & Ho & Hc & Hb & Hcol) Ht]. cbn [app] in Hd.
    destruct (drop_byte data i x _ Hi Hd) as [Hx Hlt].
    apply (iterates_next step _ (mkSearch kl l (i + 1) b)).
    { unfold searchStep. destruct (Z.ltb_spec i (len data)); [|lia]. rewrite Hx.
      cbn [mbind outcome_mbind].
      destruct (Z.eqb_spec x dquote); [done|]. destruct (Z.eqb_spec x (ch "{")); [done|].
      destruct (Z.eqb_spec x (ch "}")); [done|]. destruct (Z.eqb_spec x (ch "[")); [done|].
      by destruct (Z.eqb_spec x (ch ":")). }
    eapply (IH (i + 1)); [done|lia|exact (drop_shift data i [x] _ Hi Hd)|].
    by rewrite len_cons, Z.add_assoc in Hr.
Qed.

(** A string up to the token after it: a key when that is a colon. *)
Lemma searchString_text i t w x rest kl l b :
  raw t -> white w -> is_ws x = false -> 0 <= i ->
  drop (Z.to_nat i) data = quoted t ++ w ++ x :: rest ->
  searchStep rec data keys (mkSearch kl l i b) =
    let p := i + len (quoted t) + len w in
    if x =? ch ":" then
      if l <? 1 then Ret (inr (-1))
      else
        keyUnesc ← (if negb (has_backslash t) then Ret (Some t) else Unescape t);
        match keyUnesc with
        | None => Ret (inr (-1))
        | Some keyUnesc =>
            if l <=? len keys then
              k ← key_at keys (l - 1);
              if bytes_eqb keyUnesc k then
                if kl =? l - 1 then
                  if kl + 1 =? len keys then Ret (inr (p + 1))
                  else Ret (inl (mkSearch (kl + 1) l (p + 1) true))
                else Ret (inl (mkSearch kl l (p + 1) true))
              else Ret (inl (mkSearch kl l (p + 1) false))
            else Ret (inr (-1))
        end
    else Ret (inl (mkSearch kl l p b)).
Proof.
  intros Ht Hw Hx Hi Hd. pose proof (len_nonneg t). pose proof (len_nonneg w).
  assert (Hq : len (quoted t) = len t + 2) by (unfold quoted; autorewrite with len; lia).
  pose proof (drop_shift data i (quoted t) _ Hi Hd) as Hd2.
  pose proof (drop_shift data (i + len (quoted t)) w _ ltac:(lia) Hd2) as Hd3.
  destruct (drop_byte data (i + len (quoted t) + len w) x rest ltac:(lia) Hd3) as [Hbx Hltx].
  unfold quoted in Hd. cbn [app] in Hd. rewrite <- app_assoc in Hd. cbn [app] in Hd.
  destruct (drop_byte data i dquote _ Hi Hd) as [Hb Hlt].
  pose proof (drop_shift data i [dquote] _ Hi Hd) as Hd1. change (i + len [dquote]) with (i + 1) in Hd1.
  unfold searchStep. destruct (Z.ltb_spec i (len data)); [|lia]. rewrite Hb.
  cbn [mbind outcome_mbind]. rewrite Z.eqb_refl. unfold searchString.
  rewrite (slice_from_in_range data (i + 1)), Hd1 by lia. cbn [mbind outcome_mbind].
  rewrite stringEnd_raw by done. destruct (Z.eqb_spec (len t + 1) (-1)); [lia|].
  replace (i + 1 + (len t + 1)) with (i + len (quoted t)) by lia.
  rewrite (slice_from_in_range data (i + len (quoted t))), Hd2 by lia. cbn [mbind outcome_mbind].
  rewrite nextToken_white by done. destruct (Z.eqb_spec (len w) (-1)); [lia|].
  rewrite Hbx. cbn [mbind outcome_mbind].
  rewrite (slice_at data (i + 1) t (dquote :: w ++ x :: rest)) by (exact Hd1 || lia).
  reflexivity.
Qed.

(** A value that is passed over: no key of the path is being followed into it. *)
Lemma search_value v i w x rest kl l r :
  wf v -> white w -> is_ws x = false -> x <> ch ":" -> kl <> l -> 0 <= i ->
  drop (Z.to_nat i) data = print v ++ w ++ x :: rest ->
  iterates step (mkSearch kl l (i + len (print v) + len w) false) r ->
  iterates step (mkSearch kl l i false) r.
Proof.
  intros Hv Hw Hx Hcol Hkl Hi Hd Hr. pose proof (print_len v Hv).
  pose proof (drop_shift data i (print v) _ Hi Hd) as Hd1.
  assert (Hskip : iterates step (mkSearch kl l (i + len (print v)) false) r)
    by (eapply search_plain; [by apply plain_white|lia|exact Hd1|exact Hr]).
  destruct v as [t ty|t|w0 es|w0 ms].
  - cbn [print wf] in *. eapply search_plain; [by apply plain_lit; destruct Hv|done|exact Hd|done].
  - cbn [print wf] in *. eapply iterates_next; [|exact Hr].
    rewrite (searchString_text i t w x rest kl l false) by done.
    cbn zeta. by destruct (Z.eqb_spec x (ch ":")).
  - pose proof Hd as Hd'. cbn [print] in Hd'. cbn [app] in Hd'.
    destruct (drop_byte data i (ch "[") _ Hi Hd') as [Hb Hlt].
    eapply iterates_next; [|exact Hskip]. unfold searchStep.
    destruct (Z.ltb_spec i (len data)); [|lia]. rewrite Hb. cbn [mbind outcome_mbind].
    change (ch "[" =? dquote) with false. change (ch "[" =? ch "{") with false.
    change (ch "[" =? ch "}") with false. rewrite Z.eqb_refl. cbv iota. unfold searchArray.
    rewrite (slice_from_in_range data i), Hd by lia. cbn [mbind outcome_mbind].
    unfold indexKey. destruct (Z.eqb_spec kl l); [done|]. cbn [mbind outcome_mbind].
    rewrite blockEnd_arr by done. cbn [mbind outcome_mbind].
    by destruct (Z.eqb_spec (len (print (CArr w0 es))) (-1)); [lia|].
  - pose proof Hd as Hd'. cbn [print] in Hd'. cbn [app] in Hd'.
    destruct (drop_byte data i (ch "{") _ Hi Hd') as [Hb Hlt].
    eapply iterates_next; [|exact Hskip]. unfold searchStep.
    destruct (Z.ltb_spec i (len data)); [|lia]. rewrite Hb. cbn [mbind outcome_mbind].
    change (ch "{" =? dquote) with false. rewrite Z.eqb_refl. cbv iota. cbn [negb].
    rewrite (slice_from_in_range data i), Hd by lia. cbn [mbind outcome_mbind].
    rewrite blockEnd_obj by done. cbn [mbind outcome_mbind].
    by destruct (Z.eqb_spec (len (print (CObj w0 ms))) (-1)); [lia|].
Qed.

End Search.

(** ** Members *)

(** The byte after a member and its white space. *)
Definition after_m (ms : members) (rest : bytes) : bytes :=
  match ms with MNil => ch "}" :: rest | _ => ch "," :: print_members ms ++ ch "}" :: rest end.

Lemma print_members_after w1 key w2 w3 v w4 ms rest :
  print_members (MCons w1 key w2 w3 v w4 ms) ++ ch "}" :: rest =
    w1 ++ quoted key ++ w2 ++ ch ":" :: w3 ++ print v ++ w4 ++ after_m ms rest.
Proof.
  cbn [print_members]. rewrite <- !app_assoc. cbn [app]. rewrite <- !app_assoc.
  do 4 f_equal. do 3 f_equal. by destruct ms.
Qed.

Lemma closed_after_m w ms rest : white w -> closed (w ++ after_m ms rest).
Proof. intros Hw. destruct ms; by apply closed_app. Qed.

Lemma has_backslash_false t : has_backslash t = false -> Forall (λ x, x <> backslash) t.
Proof.
  induction t as [|c t IH]; [constructor|]. unfold has_backslash in *. cbn [existsb].
  intros [Hc Ht]%orb_false_iff. constructor; [by apply Z.eqb_neq|auto].
Qed.

Lemma key_unescaped key : wf_key key ->
  (if negb (has_backslash key) then Ret (Some key) else Unescape key) = Ret (Some (key_value key)).
Proof.
  intros [Hr [u Hu]]. unfold key_value. rewrite Hu. destruct (has_backslash key) eqn:E; [done|].
  cbn. unfold Unescape in Hu. rewrite indexByte_absent in Hu by (by apply has_backslash_false).
  by injection Hu as <-.
Qed.

Section Members.
Context (rec : bytes -> list bytes -> outcome Z) (data : bytes) (keys : list bytes).

Abbreviation step := (searchStep rec data keys).

(** Inside an object whose key is the next of the path, the search reaches the value of the
    first member with that key. *)
Lemma search_members kl k rest ms : ∀ i b v,
  wf_members ms -> 0 <= i -> drop (Z.to_nat i) data = print_members ms ++ ch "}" :: rest ->
  0 <= kl -> key_at keys kl = Ret k -> kl < len keys -> member k ms = Some v ->
  ∃ pos w rest', 0 <= pos /\ wf v /\ white w /\ closed rest' /\
    drop (Z.to_nat pos) data = w ++ print v ++ rest' /\
    ∀ r, (if kl + 1 =? len keys then r = pos
          else iterates step (mkSearch (kl + 1) (kl + 1) pos true) r) ->
         iterates step (mkSearch kl (kl + 1) i b) r.
Proof.
  induction ms as [|w1 key w2 w3 u w4 ms IH]; intros i b v Hms Hi Hd Hkl Hk Hlt Hm; [done|].
  pose proof Hms as (Hw1 & Hw2 & Hw3 & Hw4 & Hkey & Hu & Hms').
  rewrite print_members_after in Hd.
  pose proof (len_nonneg w1). pose proof (len_nonneg (quoted key)). pose proof (len_nonneg w2).
  pose proof (len_nonneg w3). pose proof (len_nonneg w4). pose proof (print_len u Hu).
  pose proof (drop_shift data i w1 _ Hi Hd) as Hd1.
  pose proof (drop_shift data (i + len w1) (quoted key) _ ltac:(lia) Hd1) as Hd2.
  pose proof (drop_shift data (i + len w1 + len (quoted key)) w2 _ ltac:(lia) Hd2) as Hd3.
  pose proof (drop_shift data (i + len w1 + len (quoted key) + len w2) [ch ":"] _ ltac:(lia) Hd3) as Hd4.
  change (len [ch ":"]) with 1 in Hd4.
  set (pos := i + len w1 + len (quoted key) + len w2 + 1) in *.
  assert (Hstep : ∀ s, searchStep rec data keys (mkSearch kl (kl + 1) (i + len w1) b) = s ->
    s = if bytes_eqb (key_value key) k then
          if kl + 1 =? len keys then Ret (inr pos)
          else Ret (inl (mkSearch (kl + 1) (kl + 1) pos true))
        else Ret (inl (mkSearch kl (kl + 1) pos false))).
  { intros s <-. pose proof Hkey as [Hraw _].
    rewrite (searchString_text rec data keys (i + len w1) key w2 (ch ":") _ kl (kl + 1) b Hraw Hw2
      ltac:(reflexivity) ltac:(lia) Hd1).
    cbn zeta. rewrite Z.eqb_refl. destruct (Z.ltb_spec (kl + 1) 1); [lia|].
    rewrite key_unescaped by done. cbn [mbind outcome_mbind].
    destruct (Z.leb_spec (kl + 1) (len keys)); [|lia].
    replace (kl + 1 - 1) with kl by lia. rewrite Hk. cbn [mbind outcome_mbind].
    rewrite Z.eqb_refl. done. }
  specialize (Hstep _ eq_refl). cbn [member] in Hm.
  destruct (bytes_eqb (key_value key) k) eqn:Ek.
  - injection Hm as ->. exists pos, w3, (w4 ++ after_m ms rest).
    split_and!; [lia|done|done|by apply closed_after_m|exact Hd4|]. intros r Hr.
    eapply (search_plain _ _ _ w1); [by apply plain_white|done|exact Hd|].
    destruct (kl + 1 =? len keys); [subst r; by eapply iterates_done|by eapply iterates_next].
  - destruct ms as [|v1 key' v2 v3 u' v4 ms]; [done|].
    pose proof (drop_shift data pos w3 _ ltac:(lia) Hd4) as Hd5.
    pose proof (drop_shift data (pos + len w3) (print u) _ ltac:(lia) Hd5) as Hd6.
    pose proof (drop_shift data (pos + len w3 + len (print u)) w4 _ ltac:(lia) Hd6) as Hd7.
    pose proof (drop_shift data (pos + len w3 + len (print u) + len w4) [ch ","] _ ltac:(lia) Hd7) as Hd8.
    destruct (IH (pos + len w3 + len (print u) + len w4 + 1) false v Hms' ltac:(lia) Hd8 Hkl Hk Hlt Hm)
      as (p & w & rest' & Hp & Hv & Hw & Hc & Hdp & Hit).
    exists p, w, rest'. split_and!; try done. intros r Hr.
    eapply (search_plain _ _ _ w1); [by apply plain_white|done|exact Hd|].
    eapply iterates_next; [exact Hstep|].
    eapply (search_plain _ _ _ w3); [by apply plain_white|lia|exact Hd4|].
    eapply (search_value _ _ _ u _ w4); [done|exact Hw4| | | |lia|exact Hd5|]; [done|done|lia|].
    eapply (search_plain _ _ _ [ch ","]); [by repeat constructor|lia|exact Hd7|].
    apply Hit, Hr.
Qed.

End Members.

(** ** The search follows the path *)

Lemma index_key k n : index_of k = Some n ->
  ∃ aIdx, byte_at k 0 = Ret (ch "[") /\ 3 <= len k /\ byte_at k (len k - 1) = Ret (ch "]") /\
    Atoi (part k 1 (len k - 1)) = Some aIdx /\ 0 <= aIdx /\ n = Z.to_nat aIdx.
Proof.
  unfold index_of. destruct k as [|c t] eqn:Ek; [done|]. rewrite <- Ek.
  destruct (Z.eqb_spec c (ch "[")) as [->|]; [|done].
  destruct (Z.leb_spec 3 (len k)) as [H3|]; [|done]. cbn [andb].
  case_bool_decide as El; [|done]. destruct (Atoi _) as [a|] eqn:Ea; [|done].
  destruct (Z.ltb_spec a 0); [done|]. intros [= <-]. exists a.
  split_and!; try done; [by rewrite Ek|].
  rewrite last_lookup in El. rewrite Ek. unfold byte_at. rewrite len_cons.
  pose proof (len_nonneg t). destruct (Z.ltb_spec (1 + len t - 1) 0); [lia|].
  replace (Z.to_nat (1 + len t - 1)) with (length t) by (unfold len; lia).
  destruct t as [|d t]; [rewrite Ek in H3; done|]. cbn in El.
  change (match (d :: t) !! length t with Some c => Ret c | None => Panic end = Ret (ch "]")).
  by rewrite El.
Qed.

(** From the position of a value with a part [done] of the path behind it, the search
    reaches the value the rest of the path leads to. *)
Definition follows (n : nat) (rem : list bytes) : Prop :=
  ∀ v sub data done_ i w rest b,
    wf v -> white w -> 0 <= i -> drop (Z.to_nat i) data = w ++ print v ++ rest -> closed rest ->
    rem <> [] -> lookup_path v rem = Some sub -> keys_ok (done_ ++ rem) -> b = true ->
    ∃ pos w' rest', 0 <= pos /\ wf sub /\ white w' /\ closed rest' /\
      drop (Z.to_nat pos) data = w' ++ print sub ++ rest' /\
      iterates (searchStep (searchKeysFuel n) data (done_ ++ rem))
        (mkSearch (len done_) (len done_) i b) pos.

Lemma key_at_middle done_ k rem : key_at (done_ ++ k :: rem) (len done_) = Ret k.
Proof.
  unfold key_at. pose proof (len_nonneg done_). destruct (Z.ltb_spec (len done_) 0); [lia|].
  by rewrite len_to_nat, list_lookup_middle.
Qed.

Lemma searchKeysFuel_follows n rem v sub :
  follows n rem -> wf v -> lookup_path v rem = Some sub -> keys_ok rem -> (length rem <= n)%nat ->
  ∃ pos w' rest', 0 <= pos /\ wf sub /\ white w' /\ closed rest' /\
    drop (Z.to_nat pos) (print v) = w' ++ print sub ++ rest' /\
    searchKeysFuel (S n) (print v) rem = Ret pos.
Proof.
  intros Hf Hv Hl Hok Hn. destruct (decide (rem = [])) as [->|Hne].
  - injection Hl as <-. exists 0, [], []. rewrite !app_nil_r.
    split_and!; [lia|done|constructor|done|done|done].
  - destruct (Hf v sub (print v) [] 0 [] [] true) as (pos & w' & rest' & Hpos & Hs & Hw & Hc & Hd & Hit);
      try done; [constructor|by rewrite app_nil_r|].
    exists pos, w', rest'. split_and!; try done.
    destruct (searchKeysFuel_good (S n) (print v) rem Hok ltac:(lia)) as (r & Hr & _).
    rewrite Hr. f_equal. cbn [searchKeysFuel] in Hr. rewrite bool_decide_false in Hr by done.
    destruct Hit as [f Hf']. cbn [app] in Hf'. change (len []) with 0 in Hf'. by eapply loop_fuel.
Qed.

Lemma path_arr n k rem w0 es v sub data done_ i w rest :
  follows n rem -> (length rem <= n)%nat ->
  wf (CArr w0 es) -> white w -> 0 <= i ->
  drop (Z.to_nat i) data = w ++ print (CArr w0 es) ++ rest ->
  keys_ok (done_ ++ k :: rem) ->
  (∃ m, index_of k = Some m /\ nth_elem m es = Some v) -> lookup_path v rem = Some sub ->
  ∃ pos w' rest', 0 <= pos /\ wf sub /\ white w' /\ closed rest' /\
    drop (Z.to_nat pos) data = w' ++ print sub ++ rest' /\
    iterates (searchStep (searchKeysFuel (S n)) data (done_ ++ k :: rem))
      (mkSearch (len done_) (len done_) i true) pos.
Proof.
  intros Hf Hn Hv Hw Hi Hd Hok (m & Hidx & Hm) Hl. pose proof (len_nonneg w).
  pose proof (drop_shift data i w _ Hi Hd) as Hd1. set (i1 := i + len w) in *.
  pose proof Hd1 as Hd1'. cbn [print app] in Hd1'.
  destruct (drop_byte data i1 (ch "[") _ ltac:(lia) Hd1') as [Hb Hlt].
  destruct (index_key k m Hidx) as (aIdx & Hk0 & Hk3 & Hkl & Ha & Hapos & ->).
  pose proof Hv as [Hw0 Hes].
  assert (Hcalls : ∃ e, arrayEach0 (drop (Z.to_nat i1) data) =
      Ret (e, None, elem_calls (1 + len w0) es)).
  { unfold arrayEach0. autorewrite with len.
    destruct (Z.eqb_spec (0 `max` (len data - Z.of_nat (Z.to_nat i1))) 0); [lia|].
    assert (Hnt : nextToken (drop (Z.to_nat i1) data) = 0)
      by (rewrite Hd1'; apply (nextToken_white [] (ch "[")); [constructor|done]).
    rewrite Hnt. change (0 =? -1) with false. change (0 + 1) with 1. cbv iota.
    destruct (arrayElems_text (drop (Z.to_nat i1) data) 1 w0 es rest Hw0 Hes) as (e & -> & _);
      [lia| |by eexists]. rewrite Hd1'. change (Z.to_nat 1) with 1%nat. cbn [drop].
    by rewrite <- !app_assoc. }
  destruct Hcalls as [e Hcalls].
  destruct (elem_call_at (drop (Z.to_nat i1) data) rest es (1 + len w0) (Z.to_nat aIdx) v Hes)
    as (pos & rest' & Hpos & Hvv & Hc & Hcall & Hdp); [pose proof (len_nonneg w0); lia| |done|].
  { rewrite drop_drop. replace (Z.to_nat i1 + Z.to_nat (1 + len w0))%nat
      with (Z.to_nat (i1 + len [ch "["] + len w0))
      by (pose proof (len_nonneg w0); change (len [ch "["]) with 1; lia).
    apply (drop_shift data (i1 + len [ch "["]) w0); [change (len [ch "["]) with 1; lia|].
    rewrite (drop_shift data i1 [ch "["] _ ltac:(lia) Hd1'). by rewrite <- !app_assoc. }
  pose proof (elementAt_text data i1 _ aIdx v pos rest' Hvv ltac:(lia) Hpos Hcall Hapos Hdp) as Hel.
  assert (Hokr : keys_ok rem) by (unfold keys_ok in Hok; rewrite Forall_app, Forall_cons in Hok; tauto).
  destruct (searchKeysFuel_follows n rem v sub Hf Hvv Hl Hokr Hn)
    as (sp & w' & rest2 & Hsp & Hsub & Hw' & Hc2 & Hds & Hsk).
  exists (i1 + pos + sp), w', (rest2 ++ rest').
  assert (Hclosed : closed (rest2 ++ rest')) by (destruct rest2; done).
  split_and!; [lia|done|done|exact Hclosed| |].
  - rewrite drop_drop in Hdp.
    replace (Z.to_nat (i1 + pos + sp)) with (Z.to_nat i1 + Z.to_nat pos + Z.to_nat sp)%nat by lia.
    assert (Hlen : (Z.to_nat sp <= length (print v))%nat).
    { pose proof (print_len sub Hsub). pose proof (f_equal len Hds) as Hls.
      pose proof (len_nonneg w'). pose proof (len_nonneg rest2).
      autorewrite with len in Hls. unfold len in Hls at 1 2. lia. }
    rewrite <- drop_drop, Hdp, drop_app_le, Hds by exact Hlen. by rewrite <- !app_assoc.
  - eapply (search_plain _ _ _ w); [by apply plain_white|done|exact Hd|]. fold i1.
    eapply iterates_done. unfold searchStep.
    destruct (Z.ltb_spec i1 (len data)); [|lia]. rewrite Hb. cbn [mbind outcome_mbind].
    change (ch "[" =? dquote) with false. change (ch "[" =? ch "{") with false.
    change (ch "[" =? ch "}") with false. rewrite Z.eqb_refl. cbv iota. unfold searchArray.
    rewrite (slice_from_in_range data i1) by lia. cbn [mbind outcome_mbind].
    unfold indexKey. rewrite Z.eqb_refl, key_at_middle. cbn [mbind outcome_mbind].
    rewrite Hk0. cbn [mbind outcome_mbind]. rewrite Z.eqb_refl.
    destruct (Z.ltb_spec (len k) 3); [lia|]. rewrite Hkl. cbn [mbind outcome_mbind].
    rewrite Z.eqb_refl. cbn [negb]. rewrite slice_part by lia. cbn [mbind outcome_mbind].
    rewrite Ha, Hcalls. cbn [mbind outcome_mbind]. rewrite Hel. cbn [mbind outcome_mbind].
    rewrite (cons_middle k done_), app_assoc, slice_from_app by (autorewrite with len; lia).
    cbn [mbind outcome_mbind]. rewrite Hsk. cbn [mbind outcome_mbind].
    destruct (Z.ltb_spec sp 0); [lia|]. done.
Qed.

Lemma path_follows rem : ∀ n, (length rem <= n)%nat -> follows n rem.
Proof.
  induction rem as [|k rem IH]; intros n Hn; [by intros ? ? ? ? ? ? ? ? ? ? ? ? ? []|].
  intros v sub data done_ i w rest b Hv Hw Hi Hd Hc _ Hl Hok ->.
  cbn [length] in Hn. destruct n as [|n]; [lia|]. cbn [lookup_path] in Hl.
  destruct v as [t ty|t|w0 es|w0 ms]; [done|done| |].
  - destruct (index_of k) as [m|] eqn:Hidx; [|done].
    destruct (nth_elem m es) as [v|] eqn:Hm; [|done].
    eapply path_arr; [apply IH; lia|lia|exact Hv|exact Hw|done|exact Hd|done|eauto|exact Hl].
  - destruct (member k ms) as [v|] eqn:Hm; [|done].
    pose proof (drop_shift data i w _ Hi Hd) as Hd1. pose proof (len_nonneg w).
    set (i1 := i + len w) in *. pose proof Hd1 as Hd1'. cbn [print app] in Hd1'.
    destruct (drop_byte data i1 (ch "{") _ ltac:(lia) Hd1') as [Hb Hlt].
    pose proof Hv as [Hw0 Hms].
    pose proof (drop_shift data i1 [ch "{"] _ ltac:(lia) Hd1') as Hd2.
    change (len [ch "{"]) with 1 in Hd2. rewrite <- !app_assoc in Hd2. cbn [app] in Hd2.
    pose proof (drop_shift data (i1 + 1) w0 _ ltac:(lia) Hd2) as Hd3. pose proof (len_nonneg w0).
    pose proof (len_nonneg done_). pose proof (len_nonneg rem).
    destruct (search_members (searchKeysFuel (S n)) data (done_ ++ k :: rem) (len done_) k rest ms
      (i1 + 1 + len w0) true v Hms ltac:(lia) Hd3 ltac:(lia) (key_at_middle done_ k rem)) as
      (pos & w' & rest' & Hpos & Hvv & Hw' & Hc' & Hdp & Hit); [autorewrite with len; lia|done|].
    assert (Hstart : ∀ r, iterates (searchStep (searchKeysFuel (S n)) data (done_ ++ k :: rem))
        (mkSearch (len done_) (len done_ + 1) (i1 + 1 + len w0) true) r ->
      iterates (searchStep (searchKeysFuel (S n)) data (done_ ++ k :: rem))
        (mkSearch (len done_) (len done_) i true) r).
    { intros r Hr. eapply (search_plain _ _ _ w); [by apply plain_white|done|exact Hd|]. fold i1.
      eapply iterates_next.
      - unfold searchStep. destruct (Z.ltb_spec i1 (len data)); [|lia]. rewrite Hb.
        cbn [mbind outcome_mbind]. change (ch "{" =? dquote) with false. rewrite Z.eqb_refl.
        reflexivity.
      - eapply (search_plain _ _ _ w0); [by apply plain_white|lia|exact Hd2|exact Hr]. }
    destruct (decide (rem = [])) as [->|Hne].
    + cbn in Hl. injection Hl as <-. exists pos, w', rest'. split_and!; try done.
      apply Hstart, Hit. rewrite len_app, len_cons, len_nil.
      destruct (Z.eqb_spec (len done_ + 1) (len done_ + (1 + 0))); [done|lia].
    + destruct (IH (S n) ltac:(lia) v sub data (done_ ++ [k]) pos w' rest' true) as
        (p & w2 & rest2 & Hp & Hsub & Hw2 & Hc2 & Hdp2 & Hit2); try done.
      { by rewrite <- app_assoc. }
      exists p, w2, rest2. split_and!; try done. apply Hstart, Hit.
      rewrite !len_app, !len_cons, len_nil in *. rewrite <- app_assoc in Hit2. cbn [app] in Hit2.
      destruct rem as [|k2 rem]; [done|]. rewrite len_cons. pose proof (len_nonneg rem).
      destruct (Z.eqb_spec (len done_ + 1) (len done_ + (1 + (1 + len rem)))); [lia|].
      by replace (len done_ + (1 + 0)) with (len done_ + 1) in Hit2 by lia.
Qed.

(** ** Get *)

(** Where a path leads: the search finds the position of the value's text. *)
Lemma internalGet_text pre v post ks sub :
  wf v -> white pre -> closed post -> keys_ok ks -> lookup_path v ks = Some sub ->
  ∃ l r, pre ++ print v ++ post = l ++ print sub ++ r /\ wf sub /\
    internalGet (pre ++ print v ++ post) ks =
      Ret (mkGet (inner sub) (type_of sub) (len l) (len l + len (print sub)) None).
Proof.
  intros Hv Hpre Hpost Hok Hl. set (data := pre ++ print v ++ post).
  assert (Hfin : ∀ pos w rest, 0 <= pos -> wf sub -> white w -> closed rest ->
    drop (Z.to_nat pos) data = w ++ print sub ++ rest ->
    ∃ l r, data = l ++ print sub ++ r /\ wf sub /\
      internalGetAt data pos =
        Ret (mkGet (inner sub) (type_of sub) (len l) (len l + len (print sub)) None)).
  { intros pos w rest Hpos Hs Hw Hr Hd. pose proof (print_len sub Hs).
    assert (Hlt : pos + len w <= len data).
    { pose proof (f_equal len Hd) as Hls. pose proof (len_nonneg w). pose proof (len_nonneg rest).
      autorewrite with len in Hls. lia. }
    pose proof (len_nonneg w).
    exists (take (Z.to_nat pos) data ++ w), rest. split_and!; [|done|].
    - rewrite <- app_assoc, <- Hd. by rewrite take_drop.
    - rewrite (internalGetAt_text data pos w sub rest) by (done || lia).
      autorewrite with len. do 2 f_equal; lia. }
  unfold internalGet. case_bool_decide as E.
  - subst ks. injection Hl as <-. apply (Hfin 0 pre post); done || lia.
  - destruct (path_follows ks (length ks) ltac:(lia) v sub data [] 0 pre post true)
      as (pos & w & rest & Hpos & Hs & Hw & Hc & Hd & [f Hit]); try done.
    destruct (searchKeys_returns data ks Hok) as (r & Hr & _).
    assert (r = pos) as ->.
    { unfold searchKeys in Hr. cbn [searchKeysFuel] in Hr. rewrite bool_decide_false in Hr by done.
      change (len []) with 0 in Hit. by eapply loop_fuel. }
    rewrite Hr. cbn [mbind outcome_mbind]. destruct (Z.eqb_spec pos (-1)); [lia|].
    by apply (Hfin pos w rest).
Qed.

(** C7: [Get] implements lookup of a key path.  On every text of a JSON value, with any white
    space around and inside it and any escapes in its keys, when the path leads through
    objects (the first member whose unescaped key is equal) and arrays (by [\[n\]]) to a value,
    [Get] returns that value's text, without the quotes of a string, its type, and the
    offset where it ends. *)
Theorem Get_lookup : ∀ pre v post ks sub,
  wf v -> white pre -> closed post -> keys_ok ks -> lookup_path v ks = Some sub ->
  ∃ l r, pre ++ print v ++ post = l ++ print sub ++ r /\
    Get (pre ++ print v ++ post) ks =
      Ret (inner sub, type_of sub, len l + len (print sub), None).
Proof.
  intros pre v post ks sub Hv Hpre Hpost Hok Hl.
  destruct (internalGet_text pre v post ks sub Hv Hpre Hpost Hok Hl) as (l & r & Hlr & _ & Hg).
  exists l, r. split; [done|]. unfold Get. by rewrite Hg.
Qed.

(** A document of the examples: [ {"a" : [1, {"\u0062": "x"}]} ]. *)
Definition sample : cst :=
  CObj [] (MCons [] (str "a") [32] [32]
    (CArr [] (ECons [] (CLit (str "1") Number) []
      (ECons [32] (CObj [] (MCons [] (str "\u0062") [] [32] (CStr (str "x")) [] MNil)) [] ENil)))
    [] MNil).

Lemma raw_plain t : Forall (λ c, c <> dquote /\ c <> backslash) t -> raw t.
Proof. induction 1 as [|c t [Hq Hb] Ht IH]; by constructor. Qed.

Lemma sample_wf : wf sample.
Proof.
  assert (H1 : white [32]) by (repeat constructor).
  assert (H0 : white []) by constructor.
  assert (Ka : wf_key (str "a")).
  { split; [apply raw_plain; repeat constructor; done|]. exists (str "a"). reflexivity. }
  assert (Kb : wf_key (str "\u0062")).
  { split; [apply raw_esc, raw_plain; repeat constructor; done|]. exists (str "b"). reflexivity. }
  cbn. split_and!; try done; try (repeat constructor; done).
Qed.

Lemma Get_lookup_witness : wf sample /\
  ∃ l r, [] ++ print sample ++ [] = l ++ print (CStr (str "x")) ++ r /\
    Get ([] ++ print sample ++ []) [str "a"; str "[1]"; str "b"] =
      Ret (str "x", String, len l + 3, None).
Proof.
  assert (Hok : keys_ok [str "a"; str "[1]"; str "b"]) by (repeat constructor; done).
  split; [exact sample_wf|].
  exact (Get_lookup [] sample [] [str "a"; str "[1]"; str "b"] (CStr (str "x")) sample_wf
    ltac:(constructor) I Hok eq_refl).
Defined.
