(* ===== verification/JsonSet.v ===== *)
(** [Set] of the JSON library: the inserted component fills its buffer exactly, an existing
    value is replaced in place, and a new key of an object is appended and then found. *)
From S2P Require Import Prelude JsonScan JsonEscape JsonGet JsonTotal JsonText.

(** ** The inserted component *)

Definition is_index (k : bytes) : bool := match k with c :: _ => c =? ch "[" | [] => false end.

(** The text of a value nested under keys. *)
Fixpoint nested_text (ks : list bytes) (v : bytes) : bytes :=
  match ks with
  | [] => v
  | k :: ks =>
      if is_index k then ch "[" :: nested_text ks v ++ [ch "]"]
      else [ch "{"; dquote] ++ k ++ [dquote; ch ":"] ++ nested_text ks v ++ [ch "}"]
  end.

Definition component_text (k : bytes) (ks : list bytes) (v : bytes) (comma object : bool) : bytes :=
  (if comma then [ch ","] else []) ++
  (if is_index k && negb comma then ch "[" :: nested_text ks v ++ [ch "]"]
   else (if object then [ch "{"] else []) ++
        (if is_index k then [] else [dquote] ++ k ++ [dquote; ch ":"]) ++
        nested_text ks v ++ (if object && negb (is_index k) then [ch "}"] else [])).

Lemma WriteToBuffer_text w s n :
  (length s <= n)%nat ->
  WriteToBuffer s (w ++ replicate n 0, len w) =
    Ret ((w ++ s) ++ replicate (n - length s) 0, len (w ++ s)).
Proof.
  intros Hn. unfold WriteToBuffer. rewrite slice_from_app by done. cbn [mbind outcome_mbind].
  rewrite len_to_nat, take_app_length, length_replicate, take_ge, drop_replicate by done.
  by rewrite <- app_assoc, len_app.
Qed.

Lemma writeAll_text ss : ∀ w n,
  (length (mjoin ss) <= n)%nat ->
  writeAll ss (w ++ replicate n 0, len w) =
    Ret ((w ++ mjoin ss) ++ replicate (n - length (mjoin ss)) 0, len (w ++ mjoin ss)).
Proof.
  induction ss as [|s ss IH]; intros w n Hn.
  - cbn [writeAll mjoin list_join]. change (mjoin []) with (@nil Z). by rewrite app_nil_r, Nat.sub_0_r.
  - change (mjoin (s :: ss)) with (s ++ mjoin ss) in *. rewrite length_app in *.
    cbn [writeAll]. rewrite WriteToBuffer_text by lia. cbn [mbind outcome_mbind].
    rewrite IH by lia. rewrite Nat.sub_add_distr. by rewrite <- !app_assoc.
Qed.

Lemma writeAll_app a b s : writeAll (a ++ b) s = writeAll a s ≫= writeAll b.
Proof.
  revert s. induction a as [|x a IH]; intros s; cbn [app writeAll]; [done|].
  destruct (WriteToBuffer x s) as [s'| |]; cbn; [apply IH|done|done].
Qed.

Lemma mjoin_app (a b : list bytes) : mjoin (a ++ b) = mjoin a ++ mjoin b.
Proof.
  induction a as [|x a IH]; [done|]. change (mjoin (x :: a)) with (x ++ mjoin a).
  change (mjoin ((x :: a) ++ b)) with (x ++ mjoin (a ++ b)). by rewrite IH, app_assoc.
Qed.

Lemma mjoin_one (x : bytes) : mjoin [x] = x.
Proof. apply app_nil_r. Qed.

Lemma isIndexKey_ok k : k <> [] -> isIndexKey k = Ret (is_index k).
Proof. destruct k as [|c k]; [done|]. reflexivity. Qed.

Lemma nested_ok ks : keys_ok ks ->
  ∃ opens closes,
    nestedStrings ks = Ret (opens, closes) /\
    (∀ v, mjoin opens ++ v ++ mjoin closes = nested_text ks v) /\
    nestedSpace ks = Ret (len (mjoin opens) + len (mjoin closes)).
Proof.
  induction 1 as [|k ks Hk Hks (opens & closes & Hs & Ht & Hn)].
  - exists [], []. split_and!; [done| |done]. intros v. change (mjoin []) with (@nil Z).
    by rewrite app_nil_r.
  - cbn [nestedStrings nestedSpace nested_text]. rewrite isIndexKey_ok, Hs, Hn by done.
    cbn [mbind outcome_mbind].
    destruct (is_index k); eexists _, _; (split_and!; [done| |]).
    + intros v. rewrite mjoin_app, mjoin_one. change (mjoin (str "[" :: opens)) with (ch "[" :: mjoin opens).
      cbn [app]. by rewrite <- Ht, <- !app_assoc.
    + rewrite mjoin_app, mjoin_one. change (mjoin (str "[" :: opens)) with (ch "[" :: mjoin opens).
      change (str "]") with [ch "]"]. autorewrite with len. f_equal. lia.
    + intros v. rewrite mjoin_app, mjoin_one.
      change (mjoin ([ch "{"; dquote] :: k :: [dquote; ch ":"] :: opens))
        with ([ch "{"; dquote] ++ k ++ [dquote; ch ":"] ++ mjoin opens).
      rewrite <- Ht. by rewrite <- !app_assoc.
    + rewrite mjoin_app, mjoin_one.
      change (mjoin ([ch "{"; dquote] :: k :: [dquote; ch ":"] :: opens))
        with ([ch "{"; dquote] ++ k ++ [dquote; ch ":"] ++ mjoin opens).
      change (str "}") with [ch "}"]. autorewrite with len. f_equal. lia.
Qed.

Lemma createInsertComponent_prints : ∀ k ks v comma object, keys_ok (k :: ks) ->
  createInsertComponent (k :: ks) v comma object = Ret (component_text k ks v comma object).
Proof.
  intros k ks v comma object [Hk Hks]%Forall_cons.
  destruct (nested_ok ks Hks) as (opens & closes & Hs & Ht & Hn).
  unfold createInsertComponent, calcAllocateSpace. cbn [tail].
  change (key_at (k :: ks) 0) with (Ret k). cbn [mbind outcome_mbind].
  rewrite isIndexKey_ok, Hn by done. cbn [mbind outcome_mbind]. rewrite Hs.
  set (head := if is_index k && negb comma then [str "["] else _).
  set (tl1 := if is_index k && negb comma then [str "]"] else []).
  set (tl2 := if object && negb (is_index k) then [str "}"] else []).
  set (hd := if comma then [str ","] else []). set (lk := Z.to_nat _).
  pose (all := hd ++ head ++ opens ++ [v] ++ closes ++ tl1 ++ tl2).
  assert (Hall : mjoin all = component_text k ks v comma object).
  { unfold all, component_text. rewrite !mjoin_app, mjoin_one, <- Ht.
    unfold hd, head, tl1, tl2.
    destruct comma, object, (is_index k); cbn [andb negb app];
      change (mjoin []) with (@nil Z);
      change (mjoin [[dquote]; k; [dquote; ch ":"]]) with ([dquote] ++ k ++ [dquote; ch ":"] ++ []);
      change (mjoin [str "{"; [dquote]; k; [dquote; ch ":"]])
        with ([ch "{"] ++ [dquote] ++ k ++ [dquote; ch ":"] ++ []);
      rewrite ?mjoin_one; cbn [app]; rewrite <- ?app_assoc, ?app_nil_r; reflexivity. }
  assert (Hlk : lk = length (mjoin all)).
  { unfold lk. rewrite Hall. unfold component_text. rewrite <- Ht.
    destruct comma, object, (is_index k); cbn [andb negb app];
      rewrite <- len_to_nat; autorewrite with len; f_equal; lia. }
  pose proof (writeAll_text all [] lk ltac:(lia)) as Hw. cbn [app] in Hw.
  rewrite Hlk, Nat.sub_diag in Hw. cbn [replicate] in Hw. rewrite app_nil_r, Hall in Hw.
  change (len []) with 0 in Hw. rewrite Hlk, Hall.
  clear Hall Hlk lk. unfold all in Hw. cbn [mbind outcome_mbind] in *.
  do 6 (rewrite writeAll_app in Hw;
    match type of Hw with
    | writeAll ?l ?s ≫= _ = _ => destruct (writeAll l s) as [?| |]; cbn [mbind outcome_mbind] in Hw |- *
    end; [|done..]).
  by rewrite Hw.
Qed.

(** The buffer [createInsertComponent] allocates is filled exactly: the component is
    the text of the value nested under its keys, with nothing cut off or left over. *)
Theorem createInsertComponent_text : ∀ k ks v comma object, keys_ok (k :: ks) ->
  createInsertComponent (k :: ks) v comma object = Ret (component_text k ks v comma object).
Proof. exact createInsertComponent_prints. Qed.

Lemma createInsertComponent_text_witness :
  createInsertComponent [str "a"; str "[0]"] (str "1") true false =
    Ret (component_text (str "a") [str "[0]"] (str "1") true false).
Proof.
  assert (H : keys_ok [str "a"; str "[0]"]) by (repeat constructor; done).
  exact (createInsertComponent_text (str "a") [str "[0]"] (str "1") true false H).
Defined.

(** ** An existing path *)

(** Setting an existing path replaces exactly the text of the value the path leads to,
    quotes included, and leaves every other byte of the document as it is. *)
Theorem Set_replaces : ∀ pre v post ks sub new,
  wf v -> white pre -> closed post -> keys_ok ks -> ks <> [] -> lookup_path v ks = Some sub ->
  ∃ l r, pre ++ print v ++ post = l ++ print sub ++ r /\
    Set_ (pre ++ print v ++ post) new ks = Ret (l ++ new ++ r, None).
Proof.
  intros pre v post ks sub new Hv Hpre Hpost Hok Hne Hl.
  destruct (internalGet_text pre v post ks sub Hv Hpre Hpost Hok Hl) as (l & r & Hlr & _ & Hg).
  exists l, r. split; [done|]. unfold Set_. rewrite bool_decide_false, Hg by done.
  cbn [mbind outcome_mbind g_err g_offset g_end]. rewrite Hlr, slice_prefix by done.
  cbn [mbind outcome_mbind]. rewrite app_assoc, slice_from_app by (by rewrite len_app). done.
Qed.

Lemma Set_replaces_witness : ∃ l r,
  [] ++ print sample ++ [] = l ++ print (CStr (str "x")) ++ r /\
    Set_ ([] ++ print sample ++ []) (str "7") [str "a"; str "[1]"; str "b"] = Ret (l ++ str "7" ++ r, None).
Proof.
  assert (Hok : keys_ok [str "a"; str "[1]"; str "b"]) by (repeat constructor; done).
  assert (Hne : [str "a"; str "[1]"; str "b"] <> []) by done.
  exact (Set_replaces [] sample [] [str "a"; str "[1]"; str "b"] (CStr (str "x")) (str "7") sample_wf
    ltac:(constructor) I Hok Hne eq_refl).
Defined.

(** ** A new key of an object *)

(** A key that needs no escaping and is not an index. *)
Definition plain_key (k : bytes) : Prop :=
  k <> [] /\ is_index k = false /\ Forall (λ c, c <> dquote /\ c <> backslash) k.

Fixpoint snoc (ms : members) (k : bytes) (v : cst) : members :=
  match ms with
  | MNil => MCons [] k [] [] v [] MNil
  | MCons w1 key w2 w3 u w4 ms => MCons w1 key w2 w3 u w4 (snoc ms k v)
  end.

Lemma plain_key_wf k : plain_key k -> wf_key k /\ key_value k = k.
Proof.
  intros (_ & _ & Hk).
  assert (Hu : Unescape k = Ret (Some k)).
  { unfold Unescape. rewrite indexByte_absent; [done|]. eapply Forall_impl; [exact Hk|]. by intros x []. }
  split.
  - split; [by apply raw_plain|eauto].
  - unfold key_value. by rewrite Hu.
Qed.

Lemma wf_snoc ms k v : wf_members ms -> plain_key k -> wf v -> wf_members (snoc ms k v).
Proof.
  intros Hms Hk Hv. destruct (plain_key_wf k Hk) as [Hwk _].
  induction ms as [|w1 key w2 w3 u w4 ms IH]; cbn [snoc wf_members] in *.
  - split_and!; try done; constructor.
  - destruct Hms as (? & ? & ? & ? & ? & ? & ?). split_and!; auto.
Qed.

Lemma member_snoc ms k v : plain_key k -> member k ms = None -> member k (snoc ms k v) = Some v.
Proof.
  intros Hk. destruct (plain_key_wf k Hk) as [_ Hkv].
  induction ms as [|w1 key w2 w3 u w4 ms IH]; cbn [snoc member].
  - intros _. by rewrite Hkv, bytes_eqb_refl.
  - destruct (bytes_eqb _ _); [done|exact IH].
Qed.

Lemma print_snoc ms k v :
  print_members (snoc ms k v) =
    print_members ms ++ sep_m ms ++ quoted k ++ ch ":" :: print v.
Proof.
  induction ms as [|w1 key w2 w3 u w4 ms IH]; cbn [snoc print_members].
  - cbn [sep_m app]. by rewrite !app_nil_r.
  - rewrite IH. destruct ms; cbn [sep_m snoc app]; repeat (rewrite <- !app_assoc; cbn [app]); done.
Qed.

(** The search passes over all members of an object that has no member with the key. *)
Lemma search_absent rec data keys kl k rest ms : ∀ i b,
  wf_members ms -> 0 <= i -> drop (Z.to_nat i) data = print_members ms ++ ch "}" :: rest ->
  0 <= kl -> key_at keys kl = Ret k -> kl < len keys -> member k ms = None ->
  ∃ j b', 0 <= j /\ drop (Z.to_nat j) data = ch "}" :: rest /\
    ∀ r, iterates (searchStep rec data keys) (mkSearch kl (kl + 1) j b') r ->
         iterates (searchStep rec data keys) (mkSearch kl (kl + 1) i b) r.
Proof.
  induction ms as [|w1 key w2 w3 u w4 ms IH]; intros i b Hms Hi Hd Hkl Hk Hlt Hm.
  { exists i, b. split_and!; try done. }
  pose proof Hms as (Hw1 & Hw2 & Hw3 & Hw4 & Hkey & Hu & Hms').
  rewrite print_members_after in Hd.
  pose proof (len_nonneg w1). pose proof (len_nonneg (quoted key)). pose proof (len_nonneg w2).
  pose proof (len_nonneg w3). pose proof (len_nonneg w4). pose proof (print_len u Hu).
  pose proof (drop_shift data i w1 _ Hi Hd) as Hd1.
  pose proof (drop_shift data (i + len w1) (quoted key) _ ltac:(lia) Hd1) as Hd2.
  pose proof (drop_shift data (i + len w1 + len (quoted key)) w2 _ ltac:(lia) Hd2) as Hd3.
  pose proof (drop_shift data (i + len w1 + len (quoted key) + len w2) [ch ":"] _ ltac:(lia) Hd3) as Hd4.
  change (len [ch ":"]) with 1 in Hd4.
  set (pos := i + len w1 + len (quoted key) + len w2 + 1) in *.
  cbn [member] in Hm. destruct (bytes_eqb (key_value key) k) eqn:Ek; [done|].
  assert (Hstep : searchStep rec data keys (mkSearch kl (kl + 1) (i + len w1) b) =
    Ret (inl (mkSearch kl (kl + 1) pos false))).
  { pose proof Hkey as [Hraw _].
    rewrite (searchString_text rec data keys (i + len w1) key w2 (ch ":") _ kl (kl + 1) b Hraw Hw2
      ltac:(reflexivity) ltac:(lia) Hd1).
    cbn zeta. rewrite Z.eqb_refl. destruct (Z.ltb_spec (kl + 1) 1); [lia|].
    rewrite key_unescaped by done. cbn [mbind outcome_mbind].
    destruct (Z.leb_spec (kl + 1) (len keys)); [|lia].
    replace (kl + 1 - 1) with kl by lia. rewrite Hk. cbn [mbind outcome_mbind]. by rewrite Ek. }
  pose proof (drop_shift data pos w3 _ ltac:(lia) Hd4) as Hd5.
  pose proof (drop_shift data (pos + len w3) (print u) _ ltac:(lia) Hd5) as Hd6.
  pose proof (drop_shift data (pos + len w3 + len (print u)) w4 _ ltac:(lia) Hd6) as Hd7.
  assert (Hpass : ∀ r,
    iterates (searchStep rec data keys)
      (mkSearch kl (kl + 1) (pos + len w3 + len (print u) + len w4) false) r ->
    iterates (searchStep rec data keys) (mkSearch kl (kl + 1) i b) r).
  { intros r Hr. eapply (search_plain _ _ _ w1); [by apply plain_white|done|exact Hd|].
    eapply iterates_next; [exact Hstep|].
    eapply (search_plain _ _ _ w3); [by apply plain_white|lia|exact Hd4|].
    assert (Hx : ∃ x t, after_m ms rest = x :: t /\ is_ws x = false /\ x <> ch ":")
      by (destruct ms; by eexists _, _).
    destruct Hx as (x & t & Ex & Hx & Hc). rewrite Ex in Hd5.
    eapply (search_value _ _ _ u _ w4); [done|exact Hw4|exact Hx|done|lia|lia|exact Hd5|exact Hr]. }
  destruct ms as [|v1 key' v2 v3 u' v4 ms].
  - exists (pos + len w3 + len (print u) + len w4), false. split_and!; [lia|exact Hd7|exact Hpass].
  - pose proof (drop_shift data (pos + len w3 + len (print u) + len w4) [ch ","] _ ltac:(lia) Hd7) as Hd8.
    destruct (IH (pos + len w3 + len (print u) + len w4 + 1) false Hms' ltac:(lia) Hd8 Hkl Hk Hlt Hm)
      as (j & b' & Hj & Hdj & Hit).
    exists j, b'. split_and!; try done. intros r Hr. apply Hpass.
    eapply (search_plain _ _ _ [ch ","]); [by repeat constructor|lia|exact Hd7|]. by apply Hit.
Qed.

Lemma internalGet_absent w ms k :
  wf (CObj w ms) -> k <> [] -> member k ms = None ->
  internalGet (print (CObj w ms)) [k] = Ret (mkGet [] NotExist (-1) (-1) (Some KeyPathNotFoundError)).
Proof.
  intros Hv Hk Hm. pose proof Hv as [Hw Hms]. set (data := print (CObj w ms)).
  assert (Hok : keys_ok [k]) by (by repeat constructor).
  unfold internalGet. rewrite bool_decide_false by done.
  destruct (searchKeys_returns data [k] Hok) as (r & Hr & _). rewrite Hr.
  assert (r = -1) as ->; [|done].
  unfold searchKeys in Hr. cbn [searchKeysFuel length] in Hr. rewrite bool_decide_false in Hr by done.
  assert (Hd : drop (Z.to_nat 0) data = ch "{" :: w ++ print_members ms ++ [ch "}"]) by done.
  destruct (drop_byte data 0 (ch "{") _ ltac:(lia) Hd) as [Hb Hlt].
  assert (Hd1 : drop (Z.to_nat 1) data = w ++ print_members ms ++ [ch "}"]) by done.
  pose proof (drop_shift data 1 w _ ltac:(lia) Hd1) as Hd2. pose proof (len_nonneg w).
  set (step := searchStep _ data [k]) in *.
  destruct (search_absent (searchKeysFuel 1) data [k] 0 k [] ms (1 + len w) true Hms ltac:(lia) Hd2
    ltac:(lia) eq_refl ltac:(done) Hm) as (j & b' & Hj & Hdj & Hit).
  assert (Hi : iterates step (mkSearch 0 0 0 true) (-1)).
  { eapply iterates_next.
    { unfold step, searchStep. destruct (Z.ltb_spec 0 (len data)); [|lia]. rewrite Hb.
      cbn [mbind outcome_mbind]. change (ch "{" =? dquote) with false. rewrite Z.eqb_refl. reflexivity. }
    change (0 + 1) with 1.
    eapply (search_plain _ _ _ w); [by apply plain_white|lia|exact Hd1|]. apply Hit.
    destruct (drop_byte data j (ch "}") [] Hj Hdj) as [Hbj Hltj].
    pose proof (f_equal len Hdj) as Hlj. autorewrite with len in Hlj.
    eapply iterates_next.
    { unfold searchStep. destruct (Z.ltb_spec j (len data)); [|lia]. rewrite Hbj. reflexivity. }
    eapply iterates_done. unfold searchStep. destruct (Z.ltb_spec (j + 1) (len data)); [lia|]. done. }
  destruct Hi as [f Hf]. by eapply loop_fuel.
Qed.

Lemma lastToken_end t c : is_ws c = false -> lastToken (t ++ [c]) = len t.
Proof.
  intros Hc. unfold lastToken, scanBack. rewrite rev_app_distr. cbn [rev app scanFor].
  rewrite Hc. cbn. autorewrite with len. lia.
Qed.

(** The byte after the opening brace and the white space there. *)
Lemma byteAfter_open w ms : wf (CObj w ms) ->
  byteAfter (print (CObj w ms)) 0 = Ret (match ms with MNil => ch "}" | _ => dquote end).
Proof.
  intros [Hw Hms]. set (data := print (CObj w ms)).
  unfold byteAfter. pose proof (len_nonneg w).
  assert (Hlen : 1 <= len data)
    by (unfold data; cbn [print]; rewrite len_cons; pose proof (len_nonneg (w ++ print_members ms ++ [ch "}"])); lia).
  rewrite slice_from_in_range by lia. cbn [mbind outcome_mbind].
  assert (Hd1 : drop (Z.to_nat (0 + 1)) data = w ++ print_members ms ++ [ch "}"]) by done.
  rewrite Hd1. destruct ms as [|w1 key w2 w3 u w4 ms].
  - cbn [print_members app] in *. rewrite nextToken_white by done.
    pose proof (drop_shift data (0 + 1) w _ ltac:(lia) Hd1) as Hd2.
    by destruct (drop_byte data (0 + 1 + len w) (ch "}") [] ltac:(lia) Hd2) as [-> _].
  - destruct Hms as (Hw1 & _). rewrite print_members_after in *. unfold quoted in *.
    rewrite app_assoc in *. cbn [app] in *.
    rewrite nextToken_white by (done || by apply Forall_app).
    pose proof (drop_shift data (0 + 1) (w ++ w1) _ ltac:(lia) Hd1) as Hd2.
    pose proof (len_nonneg (w ++ w1)).
    by destruct (drop_byte data (0 + 1 + len (w ++ w1)) dquote _ ltac:(lia) Hd2) as [-> _].
Qed.

Lemma Set_new_key : ∀ w ms k new,
  wf (CObj w ms) -> wf new -> plain_key k -> member k ms = None ->
  Set_ (print (CObj w ms)) (print new) [k] = Ret (print (CObj w (snoc ms k new)), None) /\
  ∃ e, Get (print (CObj w (snoc ms k new))) [k] = Ret (inner new, type_of new, e, None).
Proof.
  intros w ms k new Hv Hnew Hk Hm. pose proof Hv as [Hw Hms]. pose proof Hk as (Hne & Hidx & _).
  assert (Hok : keys_ok [k]) by (by repeat constructor). split.
  - unfold Set_. rewrite bool_decide_false by done.
    rewrite (internalGet_absent w ms k Hv Hne Hm). cbn [mbind outcome_mbind g_err].
    unfold setInsert. cbn [length subPaths].
    change (take (Z.to_nat 0 + 1) [k]) with [k]. rewrite (internalGet_absent w ms k Hv Hne Hm).
    cbn [mbind outcome_mbind g_err]. change (-1 =? -1) with true. change (0 =? 0) with true. cbv iota.
    set (data := print (CObj w ms)).
    assert (Hnt : nextToken data = 0)
      by (apply (nextToken_white [] (ch "{")); [constructor|done]).
    rewrite Hnt. change (0 <? 0) with false. cbv iota.
    change (byte_at data 0) with (Ret (ch "{")). cbn [mbind outcome_mbind].
    rewrite Z.eqb_refl. cbn [negb].
    pose proof (byteAfter_open w ms Hv) as Hba. fold data in Hba.
    rewrite Hba. cbn [mbind outcome_mbind].
    set (comma := negb _).
    assert (Hcomma : (if comma then [ch ","] else []) = sep_m ms) by (by destruct ms).
    assert (Hdata : data = (ch "{" :: w ++ print_members ms) ++ [ch "}"])
      by (unfold data; cbn [print app]; by rewrite <- app_assoc).
    assert (Hlt : lastToken data = len (ch "{" :: w ++ print_members ms))
      by (rewrite Hdata; by apply lastToken_end).
    rewrite Hlt, Hdata, slice_prefix by done. cbn [mbind outcome_mbind].
    change (slice_from [k] 0) with (Ret [k]). cbn [mbind outcome_mbind].
    rewrite createInsertComponent_prints by done. cbn [mbind outcome_mbind].
    rewrite slice_from_app by done. cbn [mbind outcome_mbind]. do 2 f_equal.
    unfold component_text. rewrite Hidx, Hcomma. cbn [andb nested_text app negb].
    cbn [print]. rewrite print_snoc. unfold quoted.
    repeat (rewrite <- !app_assoc; cbn [app]). rewrite ?app_nil_r. done.
  - assert (Hv' : wf (CObj w (snoc ms k new))) by (split; [done|by apply wf_snoc]).
    assert (Hl : lookup_path (CObj w (snoc ms k new)) [k] = Some new)
      by (cbn [lookup_path]; by rewrite member_snoc).
    destruct (internalGet_text [] _ [] [k] new Hv' ltac:(constructor) I Hok Hl) as (l & r & _ & _ & Hg).
    cbn [app] in Hg. rewrite app_nil_r in Hg. unfold Get. rewrite Hg. by eexists.
Qed.

(** C35: setting a key that an object does not have appends a member to its text, and [Get]
    then returns the value set; the other members' text does not change. *)
Theorem Set_appends : ∀ w ms k new,
  wf (CObj w ms) -> wf new -> plain_key k -> member k ms = None ->
  Set_ (print (CObj w ms)) (print new) [k] = Ret (print (CObj w (snoc ms k new)), None) /\
  ∃ e, Get (print (CObj w (snoc ms k new))) [k] = Ret (inner new, type_of new, e, None).
Proof. exact Set_new_key. Qed.

Lemma Set_appends_witness :
  Set_ (print (CObj [] MNil)) (print (CLit (str "1") Number)) [str "a"] =
    Ret (print (CObj [] (snoc MNil (str "a") (CLit (str "1") Number))), None).
Proof.
  assert (H1 : wf (CObj [] MNil)) by (split; [constructor|done]).
  assert (H2 : wf (CLit (str "1") Number)) by (split; [done|by repeat constructor]).
  assert (H3 : plain_key (str "a")) by (split_and!; [done|done|by repeat constructor]).
  exact (proj1 (Set_appends [] MNil (str "a") (CLit (str "1") Number) H1 H2 H3 eq_refl)).
Defined.
