(* ===== verification/Lbs.v ===== *)
(** Model of the load balancers [src/src/lbs/*.go], with the random generator
    [src/src/utils/fastrand/fastrand.go] and the traffic barrier
    [src/src/utils/barrier.go] they and the dispatcher use. *)
From S2P Require Import Prelude Meta.

(** ** fastrand *)
Module Fastrand.

(** [getRandomUint32] from the clock's [UnixNano]. *)
Definition getRandomUint32 (nano : Z) : Z := u32 (Z.lxor (Z.shiftr nano 32) nano).

(** The seeding loop of [RNG.Uint32]: it reads the clock until the seed is not zero. *)
Fixpoint seed (x : Z) (nanos : list Z) : outcome Z :=
  if x =? 0 then
    match nanos with [] => Hang | nano :: nanos => seed (getRandomUint32 nano) nanos end
  else Ret x.

(** One turn of the xorshift generator on 32-bit states. *)
Definition xorshift (x : Z) : Z :=
  let x := Z.lxor x (u32 (Z.shiftl x 13)) in
  let x := Z.lxor x (Z.shiftr x 17) in
  Z.lxor x (u32 (Z.shiftl x 5)).

Definition RNG_Uint32 (x : Z) (nanos : list Z) : outcome Z := x ← seed x nanos; Ret (xorshift x).

(** [uint32((uint64(x) * uint64(maxN)) >> 32)]: the result and the new state. *)
Definition scale (x maxN : Z) : Z := u32 (Z.shiftr (u64 (x * maxN)) 32).

Definition RNG_Uint32n (x : Z) (nanos : list Z) (maxN : Z) : outcome (Z * Z) :=
  x ← RNG_Uint32 x nanos; Ret (scale x maxN, x).

End Fastrand.

(** ** The balancers *)

(** What a balancer reads of a request and its surroundings: the client address, the
    generator the pool hands out and the clock readings it would seed it from. *)
Record RequestCtx := mkRequestCtx {
  ctx_clientIP : bytes;
  ctx_rng : Z;
  ctx_nanos : list Z
}.

(** [servers[i]], with Go's bounds check. *)
Definition server_at (servers : list Server) (i : Z) : outcome Server :=
  if i <? 0 then Panic
  else match servers !! Z.to_nat i with Some s => Ret s | None => Panic end.

(** Round robin: the state is [ops]. *)
Definition RoundRobin_Select (ops : Z) (servers : list Server) : outcome (Z * Z) :=
  let l := len servers in
  if l <=? 0 then Ret (0, ops)
  else
    let ops := u64 (ops + 1) in
    target ← server_at servers (i64 (ops mod l));
    Ret (Server_ID target, ops).

(** FNV-1a, 32 bits. *)
Definition fnv32a (key : bytes) : Z :=
  fold_left (λ h b, u32 (Z.lxor h b * 16777619)) key 2166136261.

Definition HashIP_Select (key : bytes) (servers : list Server) : outcome Z :=
  let l := len servers in
  if l <=? 0 then Ret 0
  else serve ← server_at servers (fnv32a key mod u32 l); Ret (Server_ID serve).

Definition Rand_Select (rng : Z) (nanos : list Z) (servers : list Server) : outcome Z :=
  let l := len servers in
  if l <=? 0 then Ret 0
  else
    '(k, _) ← Fastrand.RNG_Uint32n rng nanos (u32 l);
    server ← server_at servers k; Ret (Server_ID server).

Module Weight.

Record weightRobin := mkWeight { effectiveWeight : Z; currentWeight : Z }.

Abbreviation opts_t := (gmap Z weightRobin).

(** One turn of the loop of [Select] for a server: the state is [(opts, total, best)]. *)
Definition visit (svr : Server) (s : opts_t * Z * Z) : opts_t * Z * Z :=
  let '(opts, total, best) := s in
  let id := Server_ID svr in
  let wt := default (mkWeight (Server_Weight svr) 0) (opts !! id) in
  let cur := i64 (currentWeight wt + effectiveWeight wt) in
  let total := i64 (total + effectiveWeight wt) in
  let eff := if effectiveWeight wt <? Server_Weight svr then i64 (effectiveWeight wt + 1)
             else effectiveWeight wt in
  let opts := <[id := mkWeight eff cur]> opts in
  let best :=
    if best =? 0 then id
    else match opts !! best with
         | None => id
         | Some b => if currentWeight b <? cur then id else best
         end in
  (opts, total, best).

(** The loop runs from the last server to the first: [fold_right]. *)
Definition Select (opts : opts_t) (servers : list Server) : outcome (Z * opts_t) :=
  if len servers <=? 0 then Ret (0, opts)
  else
    let '(opts, total, best) := fold_right visit (opts, 0, 0) servers in
    if best =? 0 then Ret (0, opts)
    else match opts !! best with
         | None => Panic
         | Some b =>
             Ret (best, <[best := mkWeight (effectiveWeight b) (i64 (currentWeight b - total))]> opts)
         end.

End Weight.

(** The state of a balancer behind the interface [LoadBalance]. *)
Inductive lb :=
| LRoundRobin (ops : Z)
| LWeightRobin (opts : gmap Z Weight.weightRobin)
| LHashIP
| LRand.

Definition NewLoadBalance (name : LoadBalance) : lb :=
  match name with
  | RoundRobin => LRoundRobin 0
  | WightRobin => LWeightRobin ∅
  | IPHash => LHashIP
  | Rand => LRand
  | LoadBalance_other _ => LRoundRobin 0
  end.

Definition lb_Select (b : lb) (ctx : RequestCtx) (servers : list Server) : outcome (Z * lb) :=
  match b with
  | LRoundRobin ops => '(id, ops) ← RoundRobin_Select ops servers; Ret (id, LRoundRobin ops)
  | LWeightRobin opts => '(id, opts) ← Weight.Select opts servers; Ret (id, LWeightRobin opts)
  | LHashIP => id ← HashIP_Select (ctx_clientIP ctx) servers; Ret (id, LHashIP)
  | LRand => id ← Rand_Select (ctx_rng ctx) (ctx_nanos ctx) servers; Ret (id, LRand)
  end.

(** The contract a client of the interface relies on: the answer is the id of a candidate,
    or 0 when there is none. *)
Class Balancer (S : Type) := {
  balance : S -> RequestCtx -> list Server -> outcome (Z * S);
  balance_ok : S -> Prop;
  balance_member s ctx servers id s' :
    balance_ok s -> balance s ctx servers = Ret (id, s') ->
    balance_ok s' /\ (servers = [] -> id = 0) /\ (servers <> [] -> id ∈ map Server_ID servers)
}.

(** ** barrier.go *)
Module Barrier.

(** [source] is the shuffled list [createRandSourceByBase] makes for a base: some
    permutation of [0 .. base-1]. *)
Record RateBarrier := mkBarrier { source : list Z; op : Z; rate : Z; base : Z }.

Definition NewRateBarrierBase (source : list Z) (rate base : Z) : RateBarrier :=
  mkBarrier source 0 rate base.

(** [b.source[int(atomic.AddUint64(&b.op, 1))%b.base] < b.rate] *)
Definition Allow (b : RateBarrier) : outcome (bool * RateBarrier) :=
  let op := u64 (op b + 1) in
  if base b =? 0 then Panic
  else
    let k := Z.rem (i64 op) (base b) in
    if k <? 0 then Panic
    else match source b !! Z.to_nat k with
         | None => Panic
         | Some v => Ret (v <? rate b, mkBarrier (source b) op (rate b) (base b))
         end.

End Barrier.

(** ** Members and totality *)

Lemma server_at_member servers i s : server_at servers i = Ret s -> s ∈ servers.
Proof.
  unfold server_at. destruct (i <? 0); [done|].
  destruct (servers !! _) as [x|] eqn:E; [|done]. intros [= <-].
  by apply list_elem_of_lookup_2 in E.
Qed.

Lemma server_at_in_range servers i : 0 <= i < len servers ->
  ∃ s, server_at servers i = Ret s /\ servers !! Z.to_nat i = Some s.
Proof.
  intros Hi. unfold server_at. destruct (Z.ltb_spec i 0); [lia|].
  destruct (lookup_lt_is_Some_2 servers (Z.to_nat i)) as [s Hs]; [unfold len in *; lia|].
  rewrite Hs. eauto.
Qed.

Lemma len_positive {A} (l : list A) : l <> [] -> 0 < len l.
Proof. destruct l as [|x l]; [done|]. rewrite len_cons. pose proof (len_nonneg l). lia. Qed.

Module WeightProofs.
Import Weight.

Lemma visit_best servers opts : servers <> [] ->
  let '(opts', _, best) := fold_right visit (opts, 0, 0) servers in
  best ∈ map Server_ID servers /\ is_Some (opts' !! best).
Proof.
  induction servers as [|s l IH]; intros Hne; [done|]. cbn [fold_right map].
  destruct l as [|s' l].
  - cbn [fold_right]. unfold visit. cbn. rewrite lookup_insert_eq. split; [left|done].
  - specialize (IH ltac:(done)).
    destruct (fold_right visit (opts, 0, 0) (s' :: l)) as [[o t] b]. cbn [visit].
    destruct IH as [Hb [wb Hwb]].
    set (wt := default _ _). set (w' := mkWeight _ _).
    assert (Hself : is_Some (<[Server_ID s := w']> o !! Server_ID s)) by (rewrite lookup_insert_eq; eauto).
    assert (Hold : is_Some (<[Server_ID s := w']> o !! b)).
    { destruct (decide (Server_ID s = b)) as [<-|]; [done|]. rewrite lookup_insert_ne by done. eauto. }
    destruct (b =? 0); [split; [left|eauto]|].
    destruct (<[Server_ID s := w']> o !! b) as [q|] eqn:Eq; [|split; [left|done]].
    match goal with |- context [if ?c then Server_ID s else b] => destruct c end;
      (split; [|first [exact Hself | by rewrite Eq]]); [left|by right].
Qed.

Lemma Select_member opts servers id opts' :
  Select opts servers = Ret (id, opts') ->
  (servers = [] -> id = 0) /\ (servers <> [] -> id ∈ map Server_ID servers).
Proof.
  unfold Select. destruct servers as [|s l]; [intros [= <- _]; done|].
  destruct (Z.leb_spec (len (s :: l)) 0) as [H|_].
  { rewrite len_cons in H. pose proof (len_nonneg l). lia. }
  pose proof (visit_best (s :: l) opts ltac:(done)) as Hb.
  destruct (fold_right visit (opts, 0, 0) (s :: l)) as [[o t] b]. destruct Hb as [Hb [wb Hwb]].
  intros H. split; [done|]. intros _.
  destruct (Z.eqb_spec b 0) as [->|]; [by injection H as <- _|].
  rewrite Hwb in H. by injection H as <- _.
Qed.

Lemma Select_returns opts servers : returns (Select opts servers).
Proof.
  unfold Select. destruct servers as [|s l]; [by eexists|].
  destruct (len (s :: l) <=? 0); [by eexists|].
  pose proof (visit_best (s :: l) opts ltac:(done)) as Hb.
  destruct (fold_right visit (opts, 0, 0) (s :: l)) as [[o t] b]. destruct Hb as [_ [wb Hwb]].
  rewrite Hwb. destruct (b =? 0); by eexists.
Qed.

End WeightProofs.

Lemma pick_member {S} servers id (m : outcome Server) (k : Server -> outcome (Z * S)) s' :
  (∀ s, m = Ret s -> s ∈ servers) -> (∀ s, ∃ st, k s = Ret (Server_ID s, st)) ->
  (m ≫= k) = Ret (id, s') -> id ∈ map Server_ID servers.
Proof.
  intros Hm Hk. destruct m as [s| |]; cbn; [|done|done].
  destruct (Hk s) as [st ->]. intros [= <- _]. apply list_elem_of_fmap_2. auto.
Qed.

(** Every balancer keeps the contract of the interface. *)
#[export] Program Instance lb_balancer : Balancer lb :=
  {| balance := lb_Select; balance_ok := λ _, True |}.
Next Obligation.
  intros b ctx servers id b' _ H. split; [done|].
  destruct (decide (servers = [])) as [->|Hne].
  { split; [|done]. intros _. destruct b; cbn in H; by injection H as <- _. }
  split; [done|]. intros _. pose proof (len_positive servers Hne) as Hl.
  assert (Hle : (len servers <=? 0) = false) by (apply Z.leb_gt; lia).
  destruct b; cbn [lb_Select] in H.
  - unfold RoundRobin_Select in H. rewrite Hle in H.
    destruct (server_at _ _) as [s| |] eqn:E; cbn in H; [|done|done].
    injection H as <- _. apply list_elem_of_fmap_2. by apply server_at_member in E.
  - destruct (Weight.Select opts servers) as [[i o]| |] eqn:E; cbn in H; [|done|done].
    injection H as <- _. by apply WeightProofs.Select_member in E as [_ E]; apply E.
  - unfold HashIP_Select in H. rewrite Hle in H.
    destruct (server_at _ _) as [s| |] eqn:E; cbn in H; [|done|done].
    injection H as <- _. apply list_elem_of_fmap_2. by apply server_at_member in E.
  - unfold Rand_Select in H. rewrite Hle in H.
    destruct (Fastrand.RNG_Uint32n _ _ _) as [[k x]| |]; cbn in H; [|done|done].
    destruct (server_at _ _) as [s| |] eqn:E; cbn in H; [|done|done].
    injection H as <- _. apply list_elem_of_fmap_2. by apply server_at_member in E.
Qed.

(** ** The random generator *)

Definition is_u32 (x : Z) : Prop := 0 <= x < 2^32.

Lemma u32_range x : is_u32 (u32 x).
Proof. apply Z.mod_pos_bound. lia. Qed.

Lemma testbit_high x n : is_u32 x -> 32 <= n -> Z.testbit x n = false.
Proof.
  intros Hx Hn. destruct (decide (x = 0)) as [->|]; [apply Z.testbit_0_l|].
  apply Z.bits_above_log2; [unfold is_u32 in Hx; lia|].
  assert (Z.log2 x < 32); [|lia]. apply Z.log2_lt_pow2; unfold is_u32 in Hx; lia.
Qed.

Lemma u32_testbit x n : 0 <= n -> Z.testbit (u32 x) n = (n <? 32) && Z.testbit x n.
Proof. intros Hn. unfold u32. rewrite Z.testbit_mod_pow2 by lia. done. Qed.

Lemma lxor_u32 x y : is_u32 x -> is_u32 y -> is_u32 (Z.lxor x y).
Proof.
  intros Hx Hy. assert (E : Z.lxor x y = u32 (Z.lxor x y)).
  { apply Z.bits_inj'. intros n Hn. rewrite u32_testbit by done.
    destruct (Z.ltb_spec n 32); [done|]. cbn. rewrite Z.lxor_spec.
    by rewrite !testbit_high. }
  rewrite E. apply u32_range.
Qed.

(** A left shift by [k] xored in loses nothing: only 0 gives 0. *)
Lemma xorshift_left x k : is_u32 x -> 0 < k -> Z.lxor x (u32 (Z.shiftl x k)) = 0 -> x = 0.
Proof.
  intros Hx Hk E. apply Z.lxor_eq in E.
  assert (H : ∀ n, 0 <= n -> Z.testbit x n = false).
  { apply (Zlt_0_ind (λ n, Z.testbit x n = false)). intros n IH Hn. rewrite E, u32_testbit, Z.shiftl_spec by done.
    destruct (n <? 32); [|done]. cbn.
    destruct (decide (n - k < 0)); [by rewrite Z.testbit_neg_r|].
    apply IH; lia. }
  apply Z.bits_inj'. intros n Hn. by rewrite H, Z.testbit_0_l.
Qed.

Lemma xorshift_right x k : is_u32 x -> 0 < k -> Z.lxor x (Z.shiftr x k) = 0 -> x = 0.
Proof.
  intros Hx Hk E. apply Z.lxor_eq in E.
  destruct (decide (x = 0)); [done|].
  assert (x < x); [|lia]. rewrite E at 1. rewrite Z.shiftr_div_pow2 by lia.
  apply Z.div_lt; [unfold is_u32 in Hx; lia|]. apply Z.pow_gt_1; lia.
Qed.

Lemma shiftr_u32 x k : is_u32 x -> 0 <= k -> is_u32 (Z.shiftr x k).
Proof.
  unfold is_u32. intros Hx Hk. rewrite Z.shiftr_div_pow2 by lia. split.
  - apply Z.div_pos; [lia|]. apply Z.pow_pos_nonneg; lia.
  - apply Z.le_lt_trans with x; [|lia]. apply Z.div_le_upper_bound; [apply Z.pow_pos_nonneg; lia|].
    assert (1 <= 2^k) by (pose proof (Z.pow_pos_nonneg 2 k); lia). nia.
Qed.

(** The generator keeps its 32-bit state away from zero, where it would stay for ever,
    and scales a draw into the range asked for, so the server it indexes exists. *)
Theorem Uint32n_range : ∀ x nanos maxN k x',
  is_u32 x -> 0 < maxN < 2^32 -> Fastrand.RNG_Uint32n x nanos maxN = Ret (k, x') ->
  0 <= k < maxN /\ is_u32 x' /\ x' <> 0.
Proof.
  intros x nanos maxN k x' Hx HN H. unfold Fastrand.RNG_Uint32n, Fastrand.RNG_Uint32 in H.
  assert (Hseed : ∀ nanos x y, is_u32 x -> Fastrand.seed x nanos = Ret y -> is_u32 y /\ y <> 0).
  { clear. induction nanos as [|n nanos IH]; intros x y Hx; cbn [Fastrand.seed];
      destruct (Z.eqb_spec x 0); try done; try (by intros [= <-]).
    apply IH, u32_range. }
  destruct (Fastrand.seed x nanos) as [y| |] eqn:E; cbn in H; [|done|done].
  destruct (Hseed _ _ _ Hx E) as [Hy Hy0]. injection H as <- <-.
  unfold Fastrand.xorshift.
  set (y1 := Z.lxor y (u32 (Z.shiftl y 13))).
  assert (H1 : is_u32 y1) by (apply lxor_u32; [done|apply u32_range]).
  assert (N1 : y1 <> 0) by (intros E0; by apply xorshift_left in E0).
  set (y2 := Z.lxor y1 (Z.shiftr y1 17)).
  assert (H2 : is_u32 y2) by (apply lxor_u32; [done|by apply shiftr_u32]).
  assert (N2 : y2 <> 0) by (intros E0; by apply xorshift_right in E0).
  set (y3 := Z.lxor y2 (u32 (Z.shiftl y2 5))).
  assert (H3 : is_u32 y3) by (apply lxor_u32; [done|apply u32_range]).
  split_and!; [| |done|intros E0; by apply xorshift_left in E0].
  - apply u32_range.
  - unfold Fastrand.scale. rewrite u64_small by (unfold is_u64, is_u32 in *; nia).
    rewrite Z.shiftr_div_pow2 by lia. unfold u32. unfold is_u32 in H3.
    rewrite Z.mod_small; [apply Z.div_lt_upper_bound; nia|]. split; [apply Z.div_pos; nia|].
    apply Z.div_lt_upper_bound; nia.
Qed.

Lemma Uint32n_range_witness : ∃ k x', Fastrand.RNG_Uint32n 1 [] 3 = Ret (k, x') /\ 0 <= k < 3.
Proof.
  eexists _, _. split; [vm_compute; reflexivity|].
  apply (Uint32n_range 1 [] 3 _ 270369); [done|done|vm_compute; reflexivity].
Defined.

(** ** Round robin is fair *)

(** Reading a list through the residues of a window visits every element once. *)
Lemma window_permutation {A B} (f : A -> B) (d : B) (l : list A) a :
  l <> [] ->
  map (λ k, default d (f <$> l !! Z.to_nat (k mod len l))) (seqZ a (len l)) ≡ₚ map f l.
Proof.
  intros Hne. pose proof (len_positive l Hne).
  rewrite <- (map_map (λ k, k mod len l) (λ k, default d (f <$> l !! Z.to_nat k))).
  rewrite (Permutation_map _ (mod_window a (len l) ltac:(lia))).
  apply reflexive_eq, list_eq. intros i. rewrite !list_lookup_fmap.
  destruct (decide (i < length l)%nat) as [Hi|Hi].
  - rewrite lookup_seqZ_lt by (unfold len; lia). cbn.
    destruct (lookup_lt_is_Some_2 l i Hi) as [s Hs].
    replace (Z.to_nat (0 + Z.of_nat i)) with i by lia. by rewrite Hs.
  - rewrite lookup_seqZ_ge by (unfold len; lia). rewrite lookup_ge_None_2 by lia. done.
Qed.

Lemma RoundRobin_step servers ops :
  servers <> [] -> len servers < 2^63 -> 0 <= ops < 2^64 - 1 ->
  RoundRobin_Select ops servers =
    Ret (default 0 (Server_ID <$> servers !! Z.to_nat ((ops + 1) mod len servers)), ops + 1).
Proof.
  intros Hne Hlen Hops. pose proof (len_positive servers Hne). unfold RoundRobin_Select.
  destruct (Z.leb_spec (len servers) 0); [lia|].
  rewrite u64_small by (unfold is_u64; lia).
  pose proof (Z.mod_pos_bound (ops + 1) (len servers) ltac:(lia)).
  rewrite i64_small by (unfold is_i64; lia).
  destruct (server_at_in_range servers ((ops + 1) mod len servers)) as (s & -> & Hs); [lia|].
  by rewrite Hs.
Qed.

(** Calls of a function that counts up and answers from the counter. *)
Lemma times_counter {A S} (f : S -> outcome (A * S)) (st : Z -> S) (g : Z -> A) n : ∀ k,
  (∀ j, k <= j < k + Z.of_nat n -> f (st j) = Ret (g (j + 1), st (j + 1))) ->
  times f n (st k) = Ret (map g (seqZ (k + 1) (Z.of_nat n)), st (k + Z.of_nat n)).
Proof.
  induction n as [|n IH]; intros k Hf.
  - cbn [times]. by rewrite Z.add_0_r.
  - cbn [times]. rewrite (Hf k) by lia. cbn [mbind outcome_mbind].
    rewrite (IH (k + 1)) by (intros j Hj; apply Hf; lia). cbn [mbind outcome_mbind].
    rewrite (seqZ_cons (k + 1)) by lia. cbn [map]. f_equal. f_equal; [|f_equal; lia].
    do 2 f_equal. f_equal; lia.
Qed.

(** As long as the counter does not wrap, any [len servers] consecutive calls of the
    round-robin balancer on an unchanged list choose every server exactly once, from
    whatever state they start. *)
Theorem RoundRobin_fair : ∀ servers ops,
  servers <> [] -> len servers < 2^63 -> 0 <= ops -> ops + len servers < 2^64 ->
  ∃ l ops', times (λ ops, RoundRobin_Select ops servers) (length servers) ops = Ret (l, ops') /\
    l ≡ₚ map Server_ID servers.
Proof.
  intros servers ops Hne Hlen Hops Hlt. fold (len servers) in *.
  eexists _, _. split.
  - apply (times_counter (λ ops, RoundRobin_Select ops servers) (λ o, o)
      (λ k, default 0 (Server_ID <$> servers !! Z.to_nat (k mod len servers)))).
    intros j Hj. apply RoundRobin_step; [done|done|unfold len in *; lia].
  - by apply window_permutation.
Qed.

Definition server_of (id weight : Z) : Server :=
  mkServer id [] 0 None None weight Wait HTTP.

Lemma RoundRobin_fair_witness : ∃ l ops',
  times (λ ops, RoundRobin_Select ops [server_of 4 1; server_of 9 1]) 2 7 = Ret (l, ops') /\
    l ≡ₚ [4; 9].
Proof. apply (RoundRobin_fair [server_of 4 1; server_of 9 1] 7); vm_compute; congruence. Defined.

(** ** The barrier lets through its rate *)
Module BarrierProofs.
Import Barrier.

Lemma Allow_step src o r bs :
  src ≡ₚ seqZ 0 bs -> 0 < bs -> 0 <= o < 2^63 - 1 ->
  Allow (mkBarrier src o r bs) =
    Ret (default false ((λ v, v <? r) <$> src !! Z.to_nat ((o + 1) mod len src)),
         mkBarrier src (o + 1) r bs).
Proof.
  intros Hsrc Hbase Hop. unfold Allow. cbn [source op rate base].
  assert (Hl : len src = bs) by (unfold len; rewrite Hsrc, length_seqZ; lia).
  rewrite u64_small by (unfold is_u64; lia). destruct (Z.eqb_spec bs 0); [lia|].
  rewrite i64_small by (unfold is_i64; lia). rewrite Z.rem_mod_nonneg by lia. rewrite Hl.
  pose proof (Z.mod_pos_bound (o + 1) bs ltac:(lia)).
  destruct (Z.ltb_spec ((o + 1) mod bs) 0); [lia|].
  destruct (lookup_lt_is_Some_2 src (Z.to_nat ((o + 1) mod bs))) as [v ->]; [unfold len in *; lia|].
  done.
Qed.

Lemma occurs_perm `{EqDecision A} (x : A) l k : l ≡ₚ k -> occurs x l = occurs x k.
Proof. intros Hp. unfold occurs, len. by rewrite Hp. Qed.

Lemma occurs_below r n : 0 <= r -> ∀ a, 0 <= n ->
  occurs true (map (λ v, v <? r) (seqZ a n)) = Z.max 0 (Z.min n (r - a)).
Proof.
  intros Hr a Hn. revert a. pattern n. apply natlike_ind; [| |done]; clear n Hn.
  - intros a. rewrite seqZ_nil by lia. cbn [map]. rewrite occurs_nil. lia.
  - intros m Hm IH a. rewrite seqZ_cons by lia. cbn [map].
    rewrite occurs_cons. replace (Z.pred (Z.succ m)) with m by lia. rewrite IH.
    destruct (Z.ltb_spec a r); destruct (decide _); try done; lia.
Qed.

(** Out of any [base] consecutive calls, the barrier allows exactly [rate], whatever the
    shuffle and the state it starts from, for the first [2^63] calls. *)
Theorem Allow_exact : ∀ b,
  source b ≡ₚ seqZ 0 (base b) -> 0 < base b -> 0 <= rate b <= base b ->
  0 <= op b -> op b + base b < 2^63 ->
  ∃ l b', times Allow (Z.to_nat (base b)) b = Ret (l, b') /\ occurs true l = rate b.
Proof.
  intros [src o r bs] Hsrc Hbase Hrate Hop Hlt. cbn [source op rate base] in *.
  eexists _, _. split.
  - apply (times_counter Allow (λ o, mkBarrier src o r bs)
      (λ k, default false ((λ v, v <? r) <$> src !! Z.to_nat (k mod len src)))).
    intros j Hj. apply Allow_step; [done|done|lia].
  - rewrite Z2Nat.id by lia.
    assert (Hl : len src = bs) by (unfold len; rewrite Hsrc, length_seqZ; lia).
    rewrite <- Hl. rewrite (occurs_perm true _ (map (λ v, v <? r) src)).
    + rewrite (occurs_perm true _ _ (Permutation_map (λ v, v <? r) Hsrc)).
      rewrite occurs_below by lia. lia.
    + apply window_permutation. intros ->. rewrite len_nil in Hl. lia.
Qed.

Lemma Allow_exact_witness : ∃ l b',
  times Allow 100 (NewRateBarrierBase (seqZ 0 100) 30 100) = Ret (l, b') /\ occurs true l = 30.
Proof.
  apply (Allow_exact (NewRateBarrierBase (seqZ 0 100) 30 100)); cbn; [done|lia..].
Defined.

End BarrierProofs.

(** ** Weighted round robin is fair *)
Module WeightFair.
Import Weight.

Section Fair.
Context (servers : list Server).

Definition W : Z := sumZ Server_Weight servers.

(** Distinct non-zero ids, weights that are not negative and not all zero, and sums within
    [int64]. *)
Definition wf_servers : Prop :=
  NoDup (map Server_ID servers) /\ Forall (λ s, Server_ID s <> 0 /\ 0 <= Server_Weight s) servers /\
  0 < W /\ (len servers + 1) * W < 2^62.

(** The current weight of a server after [t] selections, [n] of them of this server. *)
Definition cur (t : Z) (n : Z -> Z) (s : Server) : Z := t * Server_Weight s - W * n (Server_ID s).

Definition st_ok (opts : opts_t) (t : Z) (n : Z -> Z) : Prop :=
  (∀ s, s ∈ servers ->
     opts !! Server_ID s = Some (mkWeight (Server_Weight s) (cur t n s)) \/
     opts !! Server_ID s = None /\ cur t n s = 0) /\
  (∀ s, s ∈ servers -> - W < cur t n s) /\
  sumZ (λ s, n (Server_ID s)) servers = t.

Lemma sumZ_bound {A} (f : A -> Z) c l x : 0 <= c ->
  (∀ y, y ∈ l -> - c <= f y) -> x ∈ l -> f x <= sumZ f l + c * (len l - 1).
Proof.
  intros Hc. induction l as [|y l IH]; intros Hf Hx; [by apply elem_of_nil in Hx|].
  cbn [sumZ]. rewrite len_cons.
  assert (Hl : - (c * len l) <= sumZ f l).
  { assert (Hk0 : ∀ k, (∀ y, y ∈ k -> - c <= f y) -> - (c * len k) <= sumZ f k).
    { induction k as [|z k IHk]; intros Hk; [cbn; rewrite len_nil; lia|].
      cbn [sumZ]. rewrite len_cons. assert (- c <= f z) by (apply Hk; left).
      assert (- (c * len k) <= sumZ f k) by (apply IHk; intros; apply Hk; by right). lia. }
    apply Hk0. intros; apply Hf; by right. }
  apply elem_of_cons in Hx as [->|Hx]; [lia|].
  assert (- c <= f y) by (apply Hf; left).
  assert (f x <= sumZ f l + c * (len l - 1)) by (apply IH; [intros; apply Hf; by right|done]). lia.
Qed.

Lemma sum_cur opts t n : st_ok opts t n -> sumZ (cur t n) servers = 0.
Proof.
  intros (_ & _ & Hn).
  rewrite (sumZ_ext _ (λ s, t * Server_Weight s + (- W) * n (Server_ID s))) by (intros; unfold cur; lia).
  rewrite sumZ_add, sumZ_scale, (sumZ_scale (- W) (λ s, n (Server_ID s))), Hn. unfold W. lia.
Qed.

Lemma cur_bounds opts t n s : wf_servers -> st_ok opts t n -> s ∈ servers ->
  - W < cur t n s <= len servers * W.
Proof.
  intros (_ & _ & HW & _) Hst Hs. pose proof (sum_cur _ _ _ Hst) as H0.
  destruct Hst as (_ & Hlow & _). split; [auto|].
  pose proof (sumZ_bound (cur t n) W servers s ltac:(lia)) as Hb. rewrite H0 in Hb.
  assert (cur t n s <= 0 + W * (len servers - 1)); [|lia].
  apply Hb; [|done]. intros y Hy. specialize (Hlow y Hy). lia.
Qed.

Lemma weight_le s : wf_servers -> s ∈ servers -> 0 <= Server_Weight s <= W.
Proof.
  intros (_ & Hw & _ & _) Hs. rewrite Forall_forall in Hw. split; [by apply Hw|].
  pose proof (sumZ_bound Server_Weight 0 servers s ltac:(lia)) as Hb.
  unfold W. assert (Server_Weight s <= sumZ Server_Weight servers + 0 * (len servers - 1)); [|lia].
  apply Hb; [|done]. intros y Hy. cbn. by apply Hw.
Qed.

Lemma same_id s b : wf_servers -> s ∈ servers -> b ∈ servers -> Server_ID s = Server_ID b -> s = b.
Proof.
  intros (Hnd & _) [i Hi]%list_elem_of_lookup [j Hj]%list_elem_of_lookup E.
  assert (i = j) as ->; [|congruence].
  eapply (NoDup_lookup (map Server_ID servers)); [done| |]; rewrite list_lookup_fmap;
    [rewrite Hi; cbn; by rewrite E|by rewrite Hj].
Qed.

Lemma visit_all opts t n l :
  wf_servers -> st_ok opts t n -> l `suffix_of` servers ->
  let '(opts', total, best) := fold_right visit (opts, 0, 0) l in
  total = sumZ Server_Weight l /\ 0 <= total <= W /\
  (∀ s, s ∈ l -> opts' !! Server_ID s = Some (mkWeight (Server_Weight s) (cur t n s + Server_Weight s))) /\
  (∀ id, id ∉ map Server_ID l -> opts' !! id = opts !! id) /\
  match l with
  | [] => best = 0
  | _ => ∃ b, b ∈ l /\ best = Server_ID b /\
           ∀ s, s ∈ l -> cur t n s + Server_Weight s <= cur t n b + Server_Weight b
  end.
Proof.
  intros Hwf Hst. induction l as [|s l IH]; intros Hsuf.
  { cbn. destruct Hwf as (_ & _ & HW & _). split_and!; try done; try lia; intros s Hs; by apply elem_of_nil in Hs. }
  assert (Hsuf' : l `suffix_of` servers) by (by apply suffix_cons_l in Hsuf).
  specialize (IH Hsuf'). cbn [fold_right].
  destruct (fold_right visit (opts, 0, 0) l) as [[o total] best].
  destruct IH as (Htot & Hbd & Hin & Hout & Hbest).
  destruct Hsuf as [k Hk].
  assert (Hsub : ∀ x, x ∈ s :: l -> x ∈ servers) by (intros x Hx; rewrite Hk, elem_of_app; by right).
  assert (Hsin : s ∈ servers) by (apply Hsub; left).
  pose proof Hwf as (Hnd & Hpos & HW & Hbig).
  assert (Hnl : Server_ID s ∉ map Server_ID l).
  { rewrite Hk, fmap_app in Hnd. apply NoDup_app in Hnd as (_ & _ & Hnd).
    by apply NoDup_cons in Hnd as [? _]. }
  pose proof (cur_bounds _ _ _ s Hwf Hst Hsin) as Hc. pose proof (weight_le s Hwf Hsin) as Hw.
  assert (Hsum : sumZ Server_Weight l + Server_Weight s <= W).
  { unfold W. rewrite Hk. rewrite Hk in Hpos.
    assert (Hk0 : ∀ k l, Forall (λ s, Server_ID s <> 0 /\ 0 <= Server_Weight s) k ->
      sumZ Server_Weight l <= sumZ Server_Weight (k ++ l)).
    { clear. induction k as [|x k IH]; intros l Hk; cbn; [lia|].
      apply Forall_cons in Hk as [[_ Hx] Hk]. specialize (IH l Hk). lia. }
    apply Forall_app in Hpos as [Hpos _]. specialize (Hk0 k (s :: l) Hpos). cbn [sumZ] in Hk0. lia. }
  cbn [visit]. rewrite (Hout (Server_ID s) Hnl).
  set (wt := default _ _).
  assert (Hwt : wt = mkWeight (Server_Weight s) (cur t n s)).
  { destruct Hst as (Hst & _ & _). unfold wt. destruct (Hst s Hsin) as [->|[-> ->]]; done. }
  rewrite Hwt. cbn [effectiveWeight currentWeight]. rewrite Z.ltb_irrefl.
  assert (0 <= len servers * W) by (pose proof (len_nonneg servers); nia).
  rewrite (i64_small (cur t n s + Server_Weight s)) by (unfold is_i64; lia).
  rewrite (i64_small (total + Server_Weight s)) by (unfold is_i64; lia).
  split_and!.
  - cbn [sumZ]. lia.
  - lia.
  - lia.
  - intros x [->|Hx]%elem_of_cons; [by rewrite lookup_insert_eq|].
    rewrite lookup_insert_ne; [by apply Hin|]. intros E. apply Hnl. rewrite E.
    by apply list_elem_of_fmap_2.
  - intros id Hid. cbn in Hid. rewrite not_elem_of_cons in Hid. destruct Hid.
    rewrite lookup_insert_ne by done. by apply Hout.
  - destruct l as [|s' l].
    + subst best. cbn. exists s. split_and!; [left|done|]. intros x ->%list_elem_of_singleton. done.
    + destruct Hbest as (b & Hb & -> & Hmax).
      assert (Hb0 : Server_ID b <> 0) by (rewrite Forall_forall in Hpos; by apply Hpos, Hsub; right).
      destruct (Z.eqb_spec (Server_ID b) 0); [done|].
      assert (Hne : Server_ID s <> Server_ID b)
        by (intros E; apply Hnl; rewrite E; by apply list_elem_of_fmap_2).
      rewrite lookup_insert_ne by done. rewrite (Hin b Hb). cbn [currentWeight].
      destruct (Z.ltb_spec (cur t n b + Server_Weight b) (cur t n s + Server_Weight s)).
      * exists s. split_and!; [left|done|]. intros x [->|Hx]%elem_of_cons; [lia|].
        specialize (Hmax x Hx). lia.
      * exists b. split_and!; [by right|done|]. intros x [->|Hx]%elem_of_cons; [lia|auto].
Qed.

(** One selection: some server gets a turn, and the weights follow. *)
Lemma Select_step opts t n : wf_servers -> st_ok opts t n ->
  ∃ b opts', b ∈ servers /\ Select opts servers = Ret (Server_ID b, opts') /\
    st_ok opts' (t + 1) (λ id, n id + if decide (Server_ID b = id) then 1 else 0).
Proof.
  intros Hwf Hst. pose proof Hwf as (Hnd & Hpos & HW & Hbig).
  assert (Hne : servers <> []) by (intros E; unfold W in HW; rewrite E in HW; cbn in HW; lia).
  pose proof (visit_all opts t n servers Hwf Hst (ex_intro _ [] eq_refl)) as Hv.
  unfold Select. pose proof (len_positive servers Hne). destruct (Z.leb_spec (len servers) 0); [lia|].
  destruct (fold_right visit (opts, 0, 0) servers) as [[o total] best].
  destruct Hv as (Htot & Hbd & Hin & Hout & Hbest).
  assert (Hb : ∃ b, b ∈ servers /\ best = Server_ID b /\
    ∀ s, s ∈ servers -> cur t n s + Server_Weight s <= cur t n b + Server_Weight b)
    by (destruct servers; done). clear Hbest.
  destruct Hb as (b & Hb & -> & Hmax).
  assert (Hb0 : Server_ID b <> 0) by (rewrite Forall_forall in Hpos; by apply Hpos).
  destruct (Z.eqb_spec (Server_ID b) 0); [done|]. rewrite (Hin b Hb). cbn [effectiveWeight currentWeight].
  fold W in Htot. subst total.
  pose proof (cur_bounds _ _ _ b Hwf Hst Hb) as Hc. pose proof (weight_le b Hwf Hb) as Hw.
  assert (0 <= len servers * W) by (pose proof (len_nonneg servers); nia).
  rewrite i64_small by (unfold is_i64; lia).
  eexists b, _. split; [done|]. split; [done|].
  assert (Hcur : ∀ s, s ∈ servers ->
    cur (t + 1) (λ id, n id + if decide (Server_ID b = id) then 1 else 0) s =
      cur t n s + Server_Weight s - if decide (Server_ID b = Server_ID s) then W else 0)
    by (intros s _; unfold cur; destruct (decide _); lia).
  (* the largest of the raised weights, which add up to W, is positive *)
  assert (Hbpos : 0 < cur t n b + Server_Weight b).
  { pose proof (sum_cur _ _ _ Hst) as Hz.
    assert (Hs : sumZ (λ s, cur t n s + Server_Weight s) servers = W)
      by (rewrite sumZ_add, Hz; unfold W; lia).
    destruct (decide (0 < cur t n b + Server_Weight b)); [done|].
    assert (sumZ (λ s, cur t n s + Server_Weight s) servers <= sumZ (λ _, 0) servers)
      by (apply sumZ_le; intros s Hs'; specialize (Hmax s Hs'); lia).
    assert (sumZ (λ _ : Server, 0) servers = 0) by (clear; induction servers; cbn; lia). lia. }
  split_and!.
  - intros s Hs. left. rewrite (Hcur s Hs).
    destruct (decide (Server_ID b = Server_ID s)) as [E|E].
    + rewrite <- E, lookup_insert_eq. f_equal.
      by rewrite (same_id b s).
    + rewrite lookup_insert_ne by done. rewrite (Hin s Hs). do 2 f_equal. lia.
  - intros s Hs. rewrite (Hcur s Hs). pose proof (cur_bounds _ _ _ s Hwf Hst Hs).
    pose proof (weight_le s Hwf Hs).
    destruct (decide (Server_ID b = Server_ID s)) as [E|E]; [|lia].
    rewrite (same_id s b) by done. lia.
  - destruct Hst as (_ & _ & Hn). rewrite sumZ_add, Hn. f_equal.
    clear -Hnd Hb. induction servers as [|x l IH]; [by apply elem_of_nil in Hb|].
    cbn [map] in Hnd. apply NoDup_cons in Hnd as [Hx Hnd]. cbn [sumZ].
    apply elem_of_cons in Hb as [->|Hb].
    + rewrite decide_True by done.
      assert (sumZ (λ s, if decide (Server_ID x = Server_ID s) then 1 else 0) l = 0); [|lia].
      clear -Hx. induction l as [|y l IH]; cbn; [done|].
      cbn in Hx. rewrite not_elem_of_cons in Hx. destruct Hx. rewrite decide_False by done.
      by rewrite IH.
    + rewrite decide_False; [by rewrite IH|]. intros E. apply Hx. rewrite <- E.
      by apply list_elem_of_fmap_2.
Qed.

Lemma Select_times k : ∀ opts t n, wf_servers -> st_ok opts t n ->
  ∃ l opts', times (λ o, Select o servers) k opts = Ret (l, opts') /\
    st_ok opts' (t + Z.of_nat k) (λ id, n id + occurs id l).
Proof.
  induction k as [|k IH]; intros opts t n Hwf Hst.
  - exists [], opts. split; [done|]. rewrite Z.add_0_r.
    assert (E : ∀ s, cur t (λ id, n id + occurs id []) s = cur t n s)
      by (intros s; unfold cur; rewrite occurs_nil; f_equal; lia).
    destruct Hst as (H1 & H2 & H3). split_and!.
    + intros s Hs. rewrite E. auto.
    + intros s Hs. rewrite E. auto.
    + rewrite <- H3. apply sumZ_ext. intros s _. rewrite occurs_nil. lia.
  - destruct (Select_step opts t n Hwf Hst) as (b & o1 & Hb & Hs & Hst1).
    destruct (IH o1 _ _ Hwf Hst1) as (l & o2 & Hl & Hst2).
    exists (Server_ID b :: l), o2. cbn [times]. rewrite Hs. cbn [mbind outcome_mbind]. rewrite Hl.
    cbn [mbind outcome_mbind]. split; [done|].
    replace (t + Z.of_nat (S k)) with (t + 1 + Z.of_nat k) by lia.
    assert (E : ∀ s, cur (t + 1 + Z.of_nat k) (λ id, n id + occurs id (Server_ID b :: l)) s =
      cur (t + 1 + Z.of_nat k)
        (λ id, n id + (if decide (Server_ID b = id) then 1 else 0) + occurs id l) s)
      by (intros s; unfold cur; rewrite occurs_cons; do 2 f_equal; lia).
    destruct Hst2 as (H1 & H2 & H3). split_and!.
    + intros s Hs'. rewrite E. auto.
    + intros s Hs'. rewrite E. auto.
    + rewrite <- H3. apply sumZ_ext. intros s _. rewrite occurs_cons. lia.
Qed.

End Fair.

(** C23: weighted round robin is exact: from a fresh balancer, out of as many selections as
    the weights add up to, each server is selected as many times as its weight says. *)
Theorem WeightRobin_fair : ∀ servers, wf_servers servers ->
  ∃ l opts', times (λ o, Select o servers) (Z.to_nat (W servers)) ∅ = Ret (l, opts') /\
    ∀ s, s ∈ servers -> occurs (Server_ID s) l = Server_Weight s.
Proof.
  intros servers Hwf. pose proof Hwf as (_ & _ & HW & _).
  assert (Hst : st_ok servers ∅ 0 (λ _, 0)).
  { split_and!.
    - intros s _. right. split; [apply lookup_empty|]. unfold cur. lia.
    - intros s _. unfold cur. lia.
    - clear. induction servers; cbn; lia. }
  destruct (Select_times servers (Z.to_nat (W servers)) ∅ 0 _ Hwf Hst) as (l & o & Hl & H1 & Hlow & Hsum).
  exists l, o. split; [done|]. rewrite Z2Nat.id, Z.add_0_l in * by lia.
  apply (sumZ_eq_le (λ s, occurs (Server_ID s) l) Server_Weight).
  - intros s Hs. specialize (Hlow s Hs). unfold cur in Hlow. nia.
  - fold (W servers). rewrite <- Hsum. apply sumZ_ext. intros. lia.
Qed.

Lemma WeightRobin_fair_witness : ∃ l opts',
  times (λ o, Select o [server_of 1 5; server_of 2 1; server_of 3 1]) 7 ∅ = Ret (l, opts') /\
    occurs 1 l = 5.
Proof.
  assert (H : wf_servers [server_of 1 5; server_of 2 1; server_of 3 1]).
  { split_and!; [|repeat constructor; cbn; lia|vm_compute; reflexivity..].
    repeat constructor; rewrite ?elem_of_cons, ?elem_of_nil; cbn; lia. }
  destruct (WeightRobin_fair _ H) as (l & o & Hl & Ho). exists l, o.
  split; [exact Hl|]. apply (Ho (server_of 1 5)). left.
Defined.

End WeightFair.
