(* ===== verification/Format.v ===== *)
(** Model of [src/src/utils/format] and of the address format of [src/src/utils/ip.go]: big
    endian integers, decimal numerals, and the zero-padded texts the keys of the store are
    made of.  Floating-point texts are left out. *)
From S2P Require Import Prelude JsonEscape.

(** ** Bytes: [bytes.go] *)

(** [binary.BigEndian] on [n] bytes. *)
Fixpoint PutUint (n : nat) (v : Z) : bytes :=
  match n with
  | O => []
  | S n => u8 (Z.shiftr v (8 * Z.of_nat n)) :: PutUint n v
  end.
Definition Uint (b : bytes) : Z := fold_left (λ v c, Z.lor (Z.shiftl v 8) c) b 0.

Definition Uint16ToBytes (v : Z) : bytes := PutUint 2 v.
Definition Uint32ToBytes (v : Z) : bytes := PutUint 4 v.
Definition Uint64ToBytes (v : Z) : bytes := PutUint 8 v.

(** [None] is the error; [Must] ends the process there. *)
Definition BytesToUint16 (b : bytes) : option Z := if negb (len b =? 2) then None else Some (Uint b).
Definition BytesToUint32 (b : bytes) : option Z := if negb (len b =? 4) then None else Some (Uint b).
Definition BytesToUint64 (b : bytes) : option Z := if negb (len b =? 8) then None else Some (Uint b).

Definition must {A} (x : option A) : outcome A := match x with Some v => Ret v | None => Panic end.
Definition MustBytesToUint16 (b : bytes) : outcome Z := must (BytesToUint16 b).
Definition MustBytesToUint32 (b : bytes) : outcome Z := must (BytesToUint32 b).
Definition MustBytesToUint64 (b : bytes) : outcome Z := must (BytesToUint64 b).

(** ** Numerals: [string.go] *)

Definition isDigit (c : Z) : bool := (ch "0" <=? c) && (c <=? ch "9").

(** [strconv.ParseUint] and [strconv.ParseInt] in base 10; [None] is a syntax or range error. *)
Definition ParseUint (bits : Z) (s : bytes) : option Z :=
  if bool_decide (s = []) then None
  else if forallb isDigit s then if dec s <? 2^bits then Some (dec s) else None
  else None.
Definition ParseInt10 (bits : Z) (s : bytes) : option Z :=
  let '(neg, ds) :=
    match s with
    | c :: t => if c =? ch "-" then (true, t) else if c =? ch "+" then (false, t) else (false, s)
    | [] => (false, s)
    end in
  if bool_decide (ds = []) then None
  else if forallb isDigit ds then
    let v := if neg then - dec ds else dec ds in
    if (- 2^(bits - 1) <=? v) && (v <? 2^(bits - 1)) then Some v else None
  else None.

Definition ParseStrUInt64 (data : bytes) : option Z := ParseUint 64 data.
Definition ParseStrUInt32 (data : bytes) : option Z := u32 <$> ParseUint 32 data.
Definition ParseStrInt (data : bytes) : option Z := ParseInt10 32 data.
Definition ParseStrInt64 (data : bytes) : option Z := ParseInt10 64 data.
Definition MustParseStrUInt64 (data : bytes) : outcome Z := must (ParseStrUInt64 data).
Definition MustParseStrUInt32 (data : bytes) : outcome Z := must (ParseStrUInt32 data).
Definition MustParseStrInt (data : bytes) : outcome Z := must (ParseStrInt data).
Definition MustParseStrInt64 (data : bytes) : outcome Z := must (ParseStrInt64 data).

Fixpoint ParseStrIntSlice (data : list bytes) : option (list Z) :=
  match data with
  | [] => Some []
  | s :: data => id ← ParseStrInt s; target ← ParseStrIntSlice data; Some (id :: target)
  end.
Fixpoint ParseStrInt64Slice (data : list bytes) : option (list Z) :=
  match data with
  | [] => Some []
  | s :: data => id ← ParseStrInt64 s; target ← ParseStrInt64Slice data; Some (id :: target)
  end.
Fixpoint ParseStrUInt64Slice (data : list bytes) : option (list Z) :=
  match data with
  | [] => Some []
  | s :: data => id ← ParseStrUInt64 s; target ← ParseStrUInt64Slice data; Some (id :: target)
  end.

(** [strconv.AppendUint] in base 10: 20 digits hold every [uint64]. *)
Fixpoint numeral_of (fuel : nat) (v : Z) : bytes :=
  match fuel with
  | O => []
  | S fuel => if v <? 10 then [ch "0" + v] else numeral_of fuel (v / 10) ++ [ch "0" + v mod 10]
  end.
Definition UInt64ToString (v : Z) : bytes := numeral_of 20 v.
Definition Int64ToString (v : Z) : bytes := if v <? 0 then ch "-" :: numeral_of 20 (- v) else numeral_of 20 v.

(** [fmt.Sprintf("%0<n>d", v)] and [("%0<n>s", s)]. *)
Definition padded (n : nat) (s : bytes) : bytes := replicate (n - length s) (ch "0") ++ s.

(** ** Addresses: [ip.go] *)

Definition MinAddrFormat : bytes := str "000000000000000000000".
Definition MaxAddrFormat : bytes := str "255.255.255.255:99999".

(** The last byte plus one, which ["%c"] writes as one byte below 128. *)
Definition GetAddrNextFormat (addr : bytes) : outcome bytes :=
  front ← slice addr 0 (len addr - 1); c ← byte_at addr (len addr - 1);
  let c := u8 (c + 1) in
  Ret (front ++ (if c <? 128 then [c] else [192 + Z.shiftr c 6; 128 + Z.land c 63])).

(** ** Big endian *)

Lemma Uint_snoc b c : Uint (b ++ [c]) = Z.lor (Z.shiftl (Uint b) 8) c.
Proof. unfold Uint. by rewrite fold_left_app. Qed.

Lemma PutUint_snoc n : ∀ v, PutUint (S n) v = PutUint n (Z.shiftr v 8) ++ [u8 v].
Proof.
  induction n as [|n IH]; intros v; [done|]. change (PutUint (S (S n)) v) with (u8 (Z.shiftr v (8 * Z.of_nat (S n))) :: PutUint (S n) v).
  rewrite IH. cbn [PutUint app]. rewrite Z.shiftr_shiftr by lia. do 3 f_equal. lia.
Qed.

Lemma byte_join a c : 0 <= c < 2^8 -> Z.lor (Z.shiftl a 8) c = a * 2^8 + c.
Proof.
  intros Hc. assert (Hd : Z.land (Z.shiftl a 8) c = 0).
  { apply Z.bits_inj'. intros n Hn. rewrite Z.land_spec, Z.bits_0. destruct (Z.lt_ge_cases n 8).
    - by rewrite Z.shiftl_spec_low.
    - rewrite (Z.bits_above_log2 c n), andb_false_r; [done|lia|]. destruct (decide (c = 0)) as [->|]; [cbn; lia|].
      apply Z.log2_lt_pow2; [lia|]. apply (Z.lt_le_trans _ (2^8)); [lia|apply Z.pow_le_mono_r; lia]. }
  rewrite <- Z.lxor_lor, <- Z.add_nocarry_lxor by done. by rewrite Z.shiftl_mul_pow2.
Qed.

Lemma Uint_PutUint n : ∀ v, 0 <= v < 2^(8 * Z.of_nat n) -> Uint (PutUint n v) = v.
Proof.
  induction n as [|n IH]; intros v Hv; [cbn in *; lia|].
  rewrite PutUint_snoc, Uint_snoc, IH, byte_join.
  - rewrite Z.shiftr_div_pow2 by lia. unfold u8. pose proof (Z.div_mod v (2^8) ltac:(lia)). lia.
  - apply Z.mod_pos_bound. lia.
  - rewrite Z.shiftr_div_pow2 by lia. split; [apply Z.div_pos; lia|]. apply Z.div_lt_upper_bound; [lia|].
    rewrite <- Z.pow_add_r by lia. replace (8 + 8 * Z.of_nat n) with (8 * Z.of_nat (S n)) by lia. lia.
Qed.

Lemma length_PutUint n v : length (PutUint n v) = n.
Proof. induction n as [|n IH]; cbn; [done|by rewrite IH]. Qed.

Lemma BytesToUint64_ToBytes v : is_u64 v -> BytesToUint64 (Uint64ToBytes v) = Some v.
Proof.
  intros Hv. unfold BytesToUint64, Uint64ToBytes, len. rewrite length_PutUint. cbn [negb Z.eqb Z.of_nat].
  change (negb _) with false. cbn iota. by rewrite Uint_PutUint.
Qed.

(** ** Padded numerals *)

(** The [n] last digits. *)
Fixpoint digits (n : nat) (v : Z) : bytes :=
  match n with O => [] | S n => digits n (v / 10) ++ [ch "0" + v mod 10] end.

Lemma length_digits n : ∀ v, length (digits n v) = n.
Proof. induction n as [|n IH]; intros v; cbn; [done|]. rewrite length_app, IH. cbn. lia. Qed.

Lemma digits_zero n : digits n 0 = replicate n (ch "0").
Proof. induction n as [|n IH]; [done|]. cbn [digits]. rewrite Z.div_0_l, IH by lia. by rewrite replicate_S_end. Qed.

Lemma length_numeral n : ∀ v, (length (numeral_of n v) <= n)%nat.
Proof.
  induction n as [|n IH]; intros v; cbn; [lia|]. destruct (v <? 10); cbn; [lia|].
  rewrite length_app. specialize (IH (v / 10)). cbn. lia.
Qed.

Lemma padded_numeral n : ∀ v, 0 <= v < 10^Z.of_nat (S n) -> padded (S n) (numeral_of (S n) v) = digits (S n) v.
Proof.
  induction n as [|n IH]; intros v Hv.
  - cbn in Hv. cbn. rewrite (proj2 (Z.ltb_lt v 10)) by lia. cbn. by rewrite Z.mod_small by lia.
  - change (numeral_of (S (S n)) v) with (if v <? 10 then [ch "0" + v] else numeral_of (S n) (v / 10) ++ [ch "0" + v mod 10]).
    change (digits (S (S n)) v) with (digits (S n) (v / 10) ++ [ch "0" + v mod 10]).
    destruct (Z.ltb_spec v 10).
    + rewrite Z.div_small, digits_zero, Z.mod_small by lia. unfold padded. done.
    + rewrite <- IH.
      * unfold padded. rewrite length_app, app_assoc. cbn [length]. do 3 f_equal. lia.
      * split; [apply Z.div_pos; lia|]. apply Z.div_lt_upper_bound; [lia|].
        replace (Z.of_nat (S (S n))) with (Z.succ (Z.of_nat (S n))) in Hv by lia. rewrite Z.pow_succ_r in Hv by lia. lia.
Qed.

Lemma digits_digit n : ∀ v, Forall digit (digits n v).
Proof.
  induction n as [|n IH]; intros v; cbn; [done|]. apply Forall_app. split; [done|]. constructor; [|done].
  unfold digit. pose proof (Z.mod_pos_bound v 10). chars. lia.
Qed.

Lemma dec_snoc ds c : dec (ds ++ [c]) = 10 * dec ds + (c - ch "0").
Proof. unfold dec. by rewrite fold_left_app. Qed.

Lemma dec_digits n : ∀ v, 0 <= v < 10^Z.of_nat n -> dec (digits n v) = v.
Proof.
  induction n as [|n IH]; intros v Hv; [cbn in Hv; cbn; lia|]. cbn [digits].
  rewrite dec_snoc, IH; [pose proof (Z.div_mod v 10 ltac:(lia)); lia|].
  split; [apply Z.div_pos; lia|]. apply Z.div_lt_upper_bound; [lia|].
  replace (Z.of_nat (S n)) with (Z.succ (Z.of_nat n)) in Hv by lia. rewrite Z.pow_succ_r in Hv by lia. lia.
Qed.

Lemma isDigit_forallb ds : Forall digit ds -> forallb isDigit ds = true.
Proof.
  intros H. apply forallb_forall. intros c Hc%list_elem_of_In. rewrite Forall_forall in H. specialize (H c Hc).
  unfold digit in H. unfold isDigit. apply andb_true_iff. lia.
Qed.

Lemma ParseUint_digits n v : 0 <= v < 10^Z.of_nat (S n) -> v < 2^64 -> ParseStrUInt64 (digits (S n) v) = Some v.
Proof.
  intros Hv Hlt. unfold ParseStrUInt64, ParseUint. rewrite bool_decide_false.
  2: { intros E. by apply (f_equal length) in E; rewrite length_digits in E. }
  rewrite isDigit_forallb by apply digits_digit. rewrite dec_digits by done. by rewrite (proj2 (Z.ltb_lt v _)).
Qed.
