(* ===== verification/RateLimit.v ===== *)
(** Model of the token bucket [src/src/utils/ratelimit/ratelimit.go] and of the gateway's
    limiter [src/src/proxy/rate_limit.go].  Moments are nanoseconds, the clock is an
    argument, durations and token counts are 64-bit. *)
From S2P Require Import Prelude Meta.

(** [now.Sub(t)] saturates at the ends of [time.Duration]. *)
Definition time_Sub (now t : Z) : Z := Z.max (- 2^63) (Z.min (2^63 - 1) (now - t)).

(** Go's [/] on [int64]: it truncates, and panics on zero. *)
Definition div64 (a b : Z) : outcome Z := if b =? 0 then Panic else Ret (i64 (Z.quot a b)).

Record Bucket := mkBucket {
  startTime : Z;
  capacity : Z;
  quantum : Z;
  fillInterval : Z;
  availableTokens : Z;
  latestTick : Z
}.

Definition set_tokens (tb : Bucket) (avail tick : Z) : Bucket :=
  mkBucket (startTime tb) (capacity tb) (quantum tb) (fillInterval tb) avail tick.

Definition NewBucketWithQuantumAndClock (fill cap q now : Z) : outcome Bucket :=
  if fill <=? 0 then Panic
  else if cap <=? 0 then Panic
  else if q <=? 0 then Panic
  else Ret (mkBucket now cap q fill cap 0).

Definition NewBucketWithClock (fill cap now : Z) : outcome Bucket :=
  NewBucketWithQuantumAndClock fill cap 1 now.

Definition NewBucket (fill cap now : Z) : outcome Bucket := NewBucketWithClock fill cap now.

Definition currentTick (tb : Bucket) (now : Z) : outcome Z :=
  div64 (time_Sub now (startTime tb)) (fillInterval tb).

Definition adjustavailableTokens (tb : Bucket) (tick : Z) : Bucket :=
  if capacity tb <=? availableTokens tb then set_tokens tb (availableTokens tb) tick
  else
    let avail := i64 (availableTokens tb + i64 (i64 (tick - latestTick tb) * quantum tb)) in
    set_tokens tb (if capacity tb <? avail then capacity tb else avail) tick.

(** [takeAvailable]: the tokens taken, and the bucket. *)
Definition takeAvailable (tb : Bucket) (now count : Z) : outcome (Z * Bucket) :=
  if count <=? 0 then Ret (0, tb)
  else
    tick ← currentTick tb now;
    let tb := adjustavailableTokens tb tick in
    if availableTokens tb <=? 0 then Ret (0, tb)
    else
      let count := if availableTokens tb <? count then availableTokens tb else count in
      Ret (count, set_tokens tb (i64 (availableTokens tb - count)) (latestTick tb)).

Definition available (tb : Bucket) (now : Z) : outcome (Z * Bucket) :=
  tick ← currentTick tb now;
  let tb := adjustavailableTokens tb tick in
  Ret (availableTokens tb, tb).

Definition infinityDuration : Z := 2^63 - 1.

(** The moment the missing tokens of a bucket [avail] short will be there. *)
Definition endTime (tb : Bucket) (tick avail : Z) : outcome Z :=
  n ← div64 (i64 (i64 (i64 (- avail) + quantum tb) - 1)) (quantum tb);
  let endTick := i64 (tick + n) in
  Ret (startTime tb + i64 (endTick * fillInterval tb)).

(** [take]: the time to wait, whether the tokens were taken, and the bucket. *)
Definition take (tb : Bucket) (now count maxWait : Z) : outcome (Z * bool * Bucket) :=
  if count <=? 0 then Ret (0, true, tb)
  else
    tick ← currentTick tb now;
    let tb := adjustavailableTokens tb tick in
    let avail := i64 (availableTokens tb - count) in
    if 0 <=? avail then Ret (0, true, set_tokens tb avail (latestTick tb))
    else
      e ← endTime tb tick avail;
      let waitTime := time_Sub e now in
      if maxWait <? waitTime then Ret (0, false, tb)
      else Ret (waitTime, true, set_tokens tb avail (latestTick tb)).

Definition Take (tb : Bucket) (now count : Z) : outcome (Z * Bucket) :=
  '(d, _, tb) ← take tb now count infinityDuration; Ret (d, tb).

Definition TakeMaxDuration (tb : Bucket) (now count maxWait : Z) : outcome (Z * bool * Bucket) :=
  take tb now count maxWait.

(** [Wait]: the moment it returns at, and the bucket. *)
Definition Wait_ (tb : Bucket) (now count : Z) : outcome (Z * Bucket) :=
  '(d, tb) ← Take tb now count; Ret (if 0 <? d then now + d else now, tb).

Definition WaitMaxDuration (tb : Bucket) (now count maxWait : Z) : outcome (Z * bool * Bucket) :=
  '(d, ok, tb) ← TakeMaxDuration tb now count maxWait;
  Ret (if 0 <? d then now + d else now, ok, tb).

Definition nextQuantum (q : Z) : Z :=
  let q1 := i64 (Z.quot (i64 (q * 11)) 10) in if q1 =? q then i64 (q1 + 1) else q1.

(** ** rate_limit.go *)
Record rateLimiter := mkLimiter { limiter : Bucket; option_ : RateLimitOption }.

Definition newRateLimiter (max : Z) (option : RateLimitOption) (now : Z) : outcome rateLimiter :=
  fill ← div64 1000000000 max;
  b ← NewBucket fill max now;
  Ret (mkLimiter b option).

(** [do]: whether the call is let through, the moment it returns at, and the limiter. *)
Definition do_ (l : rateLimiter) (now count : Z) : outcome (bool * Z * rateLimiter) :=
  match option_ l with
  | Wait =>
      '(at_, b) ← Wait_ (limiter l) now count; Ret (true, at_, mkLimiter b (option_ l))
  | Reject =>
      '(n, b) ← takeAvailable (limiter l) now count;
      Ret (0 <? n, now, mkLimiter b (option_ l))
  end.

(** ** The bucket as a level that rises with time *)

Section Level.
Context (tb : Bucket).

Definition tick_at (now : Z) : Z := (now - startTime tb) / fillInterval tb.

(** The tokens there are at a moment if nothing is taken meanwhile. *)
Definition level (now : Z) : Z :=
  Z.min (capacity tb) (availableTokens tb + (tick_at now - latestTick tb) * quantum tb).

(** A bucket whose last use was not later than [now], far from the ends of [int64]. *)
Definition wf (now : Z) : Prop :=
  0 < capacity tb < 2^60 /\ 0 < quantum tb /\ 0 < fillInterval tb < 2^62 /\
  - 2^60 < availableTokens tb <= capacity tb /\
  0 <= latestTick tb <= tick_at now /\ 0 <= now - startTime tb < 2^62 /\
  tick_at now * quantum tb < 2^60.

Lemma tick_bounds now : wf now -> 0 <= tick_at now < 2^60.
Proof. intros (_ & Hq & _ & _ & Hl & _ & Ht). nia. Qed.

Lemma currentTick_val now : wf now -> currentTick tb now = Ret (tick_at now).
Proof.
  intros H. pose proof (tick_bounds now H). destruct H as (_ & _ & Hf & _ & _ & Hn & _).
  unfold currentTick, div64, time_Sub. destruct (Z.eqb_spec (fillInterval tb) 0); [lia|].
  rewrite Z.min_r, Z.max_r by lia. rewrite Z.quot_div_nonneg by lia. fold (tick_at now).
  rewrite i64_small by (unfold is_i64; lia). done.
Qed.

Lemma tick_mono a b : 0 < fillInterval tb -> a <= b -> tick_at a <= tick_at b.
Proof. intros Hf Hab. apply Z.div_le_mono; lia. Qed.

Lemma wf_later a b : wf a -> a <= b -> b - startTime tb < 2^62 ->
  tick_at b * quantum tb < 2^60 -> wf b.
Proof.
  intros (Hc & Hq & Hf & Ha & Hl & Hn & Ht) Hab Hb Hqb.
  pose proof (tick_mono a b ltac:(lia) Hab). unfold wf. split_and!; try lia.
Qed.

Lemma adjust_val now : wf now ->
  adjustavailableTokens tb (tick_at now) = set_tokens tb (level now) (tick_at now).
Proof.
  intros H. pose proof (tick_bounds now H). destruct H as (Hc & Hq & Hf & Ha & Hl & Hn & Ht).
  unfold adjustavailableTokens, level.
  assert (0 <= (tick_at now - latestTick tb) * quantum tb <= tick_at now * quantum tb) by nia.
  destruct (Z.leb_spec (capacity tb) (availableTokens tb)).
  { f_equal. lia. }
  rewrite (i64_small (tick_at now - latestTick tb)) by (unfold is_i64; lia).
  rewrite (i64_small (_ * _)) by (unfold is_i64; lia).
  rewrite (i64_small (_ + _)) by (unfold is_i64; lia).
  destruct (Z.ltb_spec (capacity tb) (availableTokens tb + (tick_at now - latestTick tb) * quantum tb));
    f_equal; lia.
Qed.

Lemma level_mono a b : wf a -> a <= b -> level a <= level b <= level a + (tick_at b - tick_at a) * quantum tb.
Proof.
  intros (Hc & Hq & Hf & Ha & Hl & Hn & Ht) Hab. pose proof (tick_mono a b ltac:(lia) Hab).
  unfold level. nia.
Qed.

Lemma level_low now : wf now -> availableTokens tb <= level now.
Proof. intros (Hc & Hq & Hf & Ha & Hl & Hn & Ht). unfold level. nia. Qed.

End Level.

(** Taking [n] tokens at [now]. *)
Definition taken (tb : Bucket) (now n : Z) : Bucket :=
  set_tokens tb (level tb now - n) (tick_at tb now).

Lemma taken_wf tb now n : wf tb now -> 0 <= n -> - 2^60 < level tb now - n -> wf (taken tb now n) now.
Proof.
  intros H Hn Hb. pose proof (tick_bounds tb now H). destruct H as (Hc & Hq & Hf & Ha & Hl & Hn' & Ht).
  assert (level tb now <= capacity tb) by (unfold level; lia).
  unfold wf, taken, tick_at in *; cbn in *. split_and!; try lia.
Qed.

Lemma takeAvailable_val tb now count : wf tb now -> 0 < count ->
  let n := Z.max 0 (Z.min count (level tb now)) in
  takeAvailable tb now count = Ret (n, taken tb now n) /\ wf (taken tb now n) now.
Proof.
  intros H Hc n. pose proof (level_low tb now H) as Hlow.
  assert (Hav : - 2^60 < availableTokens tb) by apply H.
  assert (Hcap : level tb now <= capacity tb < 2^60) by (split; [unfold level; lia|apply H]).
  split; [|apply taken_wf; [done|lia..]].
  unfold takeAvailable. destruct (Z.leb_spec count 0); [lia|].
  rewrite (currentTick_val tb now H). cbn [mbind outcome_mbind]. rewrite (adjust_val tb now H).
  unfold taken, set_tokens; cbn.
  destruct (Z.leb_spec (level tb now) 0).
  { replace n with 0 by lia. by rewrite Z.sub_0_r. }
  rewrite i64_small by (unfold is_i64; destruct (Z.ltb_spec (level tb now) count); lia).
  destruct (Z.ltb_spec (level tb now) count); [replace n with (level tb now) by lia|replace n with count by lia]; done.
Qed.

(** Requests at moments that do not go back. *)
Fixpoint takes (tb : Bucket) (reqs : list (Z * Z)) : outcome (list Z * Bucket) :=
  match reqs with
  | [] => Ret ([], tb)
  | (now, count) :: reqs =>
      '(n, tb) ← takeAvailable tb now count; '(ns, tb) ← takes tb reqs; Ret (n :: ns, tb)
  end.

Fixpoint ordered (t0 : Z) (reqs : list (Z * Z)) (t1 : Z) : Prop :=
  match reqs with
  | [] => t0 <= t1
  | (now, count) :: reqs => t0 <= now /\ 0 < count /\ ordered now reqs t1
  end.

Lemma ordered_le reqs : ∀ t0 t1, ordered t0 reqs t1 -> t0 <= t1.
Proof.
  induction reqs as [|[now c] reqs IH]; cbn; intros t0 t1 H; [done|].
  destruct H as (H0 & _ & H). specialize (IH _ _ H). lia.
Qed.


(** A moment the arithmetic still reaches. *)
Definition in_reach (tb : Bucket) (t : Z) : Prop :=
  t - startTime tb < 2^62 /\ tick_at tb t * quantum tb < 2^60.

Lemma in_reach_wf tb a b : wf tb a -> a <= b -> in_reach tb b -> wf tb b.
Proof. intros H Hab [H1 H2]. by apply (wf_later tb a b). Qed.

(** Two states of one bucket. *)
Definition same_bucket (tb tb' : Bucket) : Prop :=
  startTime tb' = startTime tb /\ fillInterval tb' = fillInterval tb /\
  quantum tb' = quantum tb /\ capacity tb' = capacity tb.

Lemma same_tick tb tb' t : same_bucket tb tb' -> tick_at tb' t = tick_at tb t.
Proof. intros (Hs & Hf & _). unfold tick_at. by rewrite Hs, Hf. Qed.

Lemma takes_bound reqs : ∀ tb t0 t1,
  wf tb t0 -> ordered t0 reqs t1 -> in_reach tb t1 ->
  ∃ ns tb', takes tb reqs = Ret (ns, tb') /\ wf tb' t1 /\ same_bucket tb tb' /\
    sumZ (λ n, n) ns <= Z.max 0 (level tb t0) + (tick_at tb t1 - tick_at tb t0) * quantum tb.
Proof.
  induction reqs as [|[now c] reqs IH]; intros tb t0 t1 H Ho Hr; cbn in Ho.
  - exists [], tb. split_and!; [done|by apply (in_reach_wf tb t0)|done..|]. cbn.
    pose proof (tick_mono tb t0 t1). destruct H as (Hc & Hq & Hf & _). nia.
  - destruct Ho as (H0 & Hc & Ho). pose proof (ordered_le _ _ _ Ho) as Hle.
    assert (Hnow : wf tb now).
    { apply (wf_later tb t0 now H H0).
      - destruct Hr as [Hr _]. lia.
      - destruct H as (? & ? & ? & _). pose proof (tick_mono tb now t1 ltac:(lia) Hle). destruct Hr as [_ Hr]. nia. }
    destruct (takeAvailable_val tb now c Hnow Hc) as [Ht Hw].
    set (n := Z.max 0 (Z.min c (level tb now))) in *.
    destruct (IH (taken tb now n) now t1 Hw Ho Hr) as (ns & tb' & Hns & Hwf & Hsame & Hsum).
    exists (n :: ns), tb'. cbn [takes]. rewrite Ht. cbn [mbind outcome_mbind]. rewrite Hns.
    split_and!; [done|done|done..|]. cbn [sumZ].
    pose proof (level_mono tb t0 now H H0) as [_ Hlev].
    assert (Hlv : level (taken tb now n) now = level tb now - n).
    { unfold level at 1, taken, tick_at; cbn. fold (tick_at tb now).
      assert (level tb now <= capacity tb) by (unfold level; lia). unfold tick_at. lia. }
    rewrite Hlv in Hsum. change (tick_at (taken tb now n)) with (tick_at tb) in Hsum.
    change (quantum (taken tb now n)) with (quantum tb) in Hsum.
    pose proof (tick_mono tb t0 now). pose proof (tick_mono tb now t1).
    destruct H as (? & ? & ? & _). nia.
Qed.

(** ** The limiter *)

Lemma newRateLimiter_val max option now : 0 < max <= 1000000000 ->
  newRateLimiter max option now =
    Ret (mkLimiter (mkBucket now max 1 (1000000000 / max) max 0) option).
Proof.
  intros Hm. unfold newRateLimiter, div64. destruct (Z.eqb_spec max 0); [lia|].
  rewrite Z.quot_div_nonneg by lia.
  assert (1 <= 1000000000 / max) by (apply Z.div_le_lower_bound; lia).
  assert (1000000000 / max <= 1000000000) by (apply Z.div_le_upper_bound; nia).
  rewrite i64_small by (unfold is_i64; lia). cbn [mbind outcome_mbind].
  unfold NewBucket, NewBucketWithClock, NewBucketWithQuantumAndClock.
  destruct (Z.leb_spec (1000000000 / max) 0); [lia|].
  destruct (Z.leb_spec max 0); [lia|]. done.
Qed.

(** One call of [do(1)] per moment. *)
Fixpoint admits (l : rateLimiter) (times : list Z) : outcome (list bool * rateLimiter) :=
  match times with
  | [] => Ret ([], l)
  | now :: times =>
      '(b, _, l) ← do_ l now 1; '(bs, l) ← admits l times; Ret (b :: bs, l)
  end.

(** The moments of a list do not go back and lie between two others. *)
Definition window (a : Z) (times : list Z) (b : Z) : Prop := ordered a (map (λ t, (t, 1)) times) b.

Lemma admits_takes times : ∀ tb ns tb',
  takes tb (map (λ t, (t, 1)) times) = Ret (ns, tb') ->
  ∃ bs, admits (mkLimiter tb Reject) times = Ret (bs, mkLimiter tb' Reject) /\
    bs = map (λ n, 0 <? n) ns.
Proof.
  induction times as [|t times IH]; intros tb ns tb'; cbn [takes map admits].
  - intros [= <- <-]. by exists [].
  - intros H. bind_inv H. destruct a as [n tb1]. bind_inv H. destruct a as [ns1 tb2].
    injection H as <- <-. destruct (IH _ _ _ E0) as (bs & Hbs & ->).
    exists ((0 <? n) :: map (λ n, 0 <? n) ns1). split; [|done].
    cbn [do_ option_ limiter]. rewrite E. cbn [mbind outcome_mbind]. by rewrite Hbs.
Qed.

Lemma takes_nonneg reqs : ∀ tb ns tb', takes tb reqs = Ret (ns, tb') -> Forall (λ n, 0 <= n) ns.
Proof.
  induction reqs as [|[now c] reqs IH]; intros tb ns tb'; cbn [takes].
  - intros [= <- _]. done.
  - intros H. bind_inv H. destruct a as [n tb1]. bind_inv H. destruct a as [ns1 tb2].
    injection H as <- _. constructor; [|by eapply IH].
    unfold takeAvailable in E. destruct (Z.leb_spec c 0); [by injection E as <- _|].
    bind_inv E. destruct (Z.leb_spec (availableTokens (adjustavailableTokens tb a)) 0);
      [by injection E as <- _|].
    injection E as <- _. destruct (_ <? _); lia.
Qed.

Lemma occurs_true_sum ns : Forall (λ n, 0 <= n) ns ->
  occurs true (map (λ n, 0 <? n) ns) <= sumZ (λ n, n) ns.
Proof.
  induction 1 as [|n ns Hn _ IH]; [done|]. cbn [map sumZ]. rewrite occurs_cons.
  destruct (Z.ltb_spec 0 n); [rewrite decide_True by done|rewrite decide_False by done]; lia.
Qed.

(** C17: whatever traffic came before, a limiter for [max] requests a second that rejects
    admits in any window at most [max] requests at once and one more per fill interval
    that ends in the window. *)
Theorem limiter_rate : ∀ max t0 l before a after b,
  0 < max <= 1000000000 -> newRateLimiter max Reject t0 = Ret l ->
  window t0 before a -> window a after b -> b - t0 < 2^59 ->
  ∃ bs1 l1 bs2 l2, admits l before = Ret (bs1, l1) /\ admits l1 after = Ret (bs2, l2) /\
    occurs true bs2 <= max + ((b - t0) / (1000000000 / max) - (a - t0) / (1000000000 / max)).
Proof.
  intros max t0 l before a after b Hm Hl Hbef Haft Hb.
  rewrite (newRateLimiter_val max Reject t0 Hm) in Hl. injection Hl as <-.
  set (tb := mkBucket t0 max 1 (1000000000 / max) max 0).
  pose proof (ordered_le _ _ _ Hbef) as H0a. pose proof (ordered_le _ _ _ Haft) as Hab.
  assert (Hf : 1 <= 1000000000 / max <= 1000000000)
    by (split; [apply Z.div_le_lower_bound|apply Z.div_le_upper_bound]; nia).
  assert (Hreach : ∀ t, t0 <= t <= b -> in_reach tb t /\ 0 <= tick_at tb t).
  { intros t Ht. unfold in_reach, tick_at; cbn.
    assert ((t - t0) / (1000000000 / max) <= t - t0) by (apply Z.div_le_upper_bound; nia).
    assert (0 <= (t - t0) / (1000000000 / max)) by (apply Z.div_pos; lia). lia. }
  assert (Hwf : wf tb t0).
  { destruct (Hreach t0 ltac:(lia)) as [[_ H2] H1]. unfold wf. cbn in *. lia. }
  destruct (takes_bound _ tb t0 a Hwf Hbef (proj1 (Hreach a ltac:(lia)))) as (ns1 & tb1 & Ht1 & Hw1 & Hsame & _).
  assert (Hr1 : in_reach tb1 b).
  { destruct (proj1 (Hreach b ltac:(lia))) as [H1 H2]. pose proof Hsame as (Hs & _ & Hq & _).
    unfold in_reach. rewrite (same_tick tb tb1 b Hsame), Hs, Hq. done. }
  destruct (takes_bound _ tb1 a b Hw1 Haft Hr1) as (ns2 & tb2 & Ht2 & _ & _ & Hsum).
  destruct (admits_takes _ _ _ _ Ht1) as (bs1 & Hb1 & _).
  destruct (admits_takes _ _ _ _ Ht2) as (bs2 & Hb2 & ->).
  exists bs1, (mkLimiter tb1 Reject), (map (λ n, 0 <? n) ns2), (mkLimiter tb2 Reject).
  split_and!; [exact Hb1|exact Hb2|].
  pose proof (occurs_true_sum ns2 (takes_nonneg _ _ _ _ Ht2)) as Hocc.
  assert (Hlev : level tb1 a <= max).
  { destruct Hsame as (_ & _ & _ & Hc). unfold level. rewrite Hc. cbn. lia. }
  rewrite !(same_tick tb tb1 _ Hsame) in Hsum. pose proof Hsame as (_ & _ & Hq & _).
  rewrite Hq in Hsum. unfold tick_at in Hsum; cbn in Hsum. lia.
Qed.

Lemma limiter_rate_witness : ∃ l bs1 l1 bs2 l2, newRateLimiter 2 Reject 0 = Ret l /\
  admits l [10] = Ret (bs1, l1) /\ admits l1 [700000000; 700000001; 700000002] = Ret (bs2, l2) /\
  occurs true bs2 <= 3.
Proof.
  destruct (limiter_rate 2 0 _ [10] 20 [700000000; 700000001; 700000002] 900000000
    ltac:(lia) eq_refl) as (bs1 & l1 & bs2 & l2 & H1 & H2 & H3);
    [cbn; lia|cbn; lia|lia|].
  eexists _, bs1, l1, bs2, l2. split; [reflexivity|]. split; [exact H1|]. split; [exact H2|].
  eapply Z.le_trans; [exact H3|]. apply Z.leb_le. reflexivity.
Defined.

(** A limiter can be made for 1 to 1e9 requests a second; for any other number the
    constructor panics. *)
Theorem newRateLimiter_range : ∀ max option now, is_i64 max ->
  (returns (newRateLimiter max option now) <-> 0 < max <= 1000000000) /\
  (¬ 0 < max <= 1000000000 -> newRateLimiter max option now = Panic).
Proof.
  intros max option now Hmax.
  assert (Hp : ¬ 0 < max <= 1000000000 -> newRateLimiter max option now = Panic).
  { intros Hm. unfold newRateLimiter, div64. destruct (Z.eqb_spec max 0); [done|].
    assert (Hq : Z.quot 1000000000 max <= 0).
    { destruct (decide (0 < max)).
      - rewrite Z.quot_small by lia. lia.
      - rewrite <- (Z.opp_involutive max), Z.quot_opp_r by lia.
        pose proof (Z.quot_pos 1000000000 (- max)). lia. }
    assert (Hl : - 1000000000 <= Z.quot 1000000000 max).
    { destruct (decide (0 < max)).
      - pose proof (Z.quot_pos 1000000000 max). lia.
      - rewrite <- (Z.opp_involutive max), Z.quot_opp_r by lia.
        pose proof (Z.quot_le_upper_bound 1000000000 (- max) 1000000000). lia. }
    rewrite i64_small by (unfold is_i64; lia). cbn [mbind outcome_mbind].
    unfold NewBucket, NewBucketWithClock, NewBucketWithQuantumAndClock.
    destruct (Z.leb_spec (Z.quot 1000000000 max) 0); [done|lia]. }
  split; [|exact Hp]. split.
  - intros [l Hl]. destruct (decide (0 < max <= 1000000000)) as [|Hn]; [done|].
    by rewrite (Hp Hn) in Hl.
  - intros Hm. rewrite (newRateLimiter_val max option now Hm). eauto.
Qed.

Lemma newRateLimiter_range_witness : newRateLimiter 2000000000 Wait 0 = Panic.
Proof. apply (newRateLimiter_range 2000000000 Wait 0); [vm_compute; split; congruence|lia]. Defined.

(** ** Waiting for tokens *)

Lemma ceil_div k q : 0 < q -> (k + q - 1) / q * q >= k /\ ((k + q - 1) / q - 1) * q < k.
Proof.
  intros Hq. pose proof (Z.div_mod (k + q - 1) q ltac:(lia)). pose proof (Z.mod_pos_bound (k + q - 1) q Hq). nia.
Qed.

Lemma Take_short tb now count : wf tb now -> 0 < count -> quantum tb < 2^60 ->
  count - availableTokens tb < 2^60 ->
  (tick_at tb now + Z.max 0 (count - availableTokens tb)) * fillInterval tb < 2^62 ->
  level tb now < count ->
  let e := startTime tb + (tick_at tb now + (count - level tb now + quantum tb - 1) / quantum tb) * fillInterval tb in
  now < e /\ Take tb now count = Ret (e - now, taken tb now count).
Proof.
  intros H Hc Hq Hdebt Hreach Hshort e. pose proof (tick_bounds tb now H) as Htick.
  pose proof (level_low tb now H) as Hlow.
  assert (Hcap : level tb now <= capacity tb) by (unfold level; lia).
  pose proof H as (Hcap' & Hq' & Hf & Ha & Hl & Hn & Ht).
  set (n := (count - level tb now + quantum tb - 1) / quantum tb) in *.
  assert (Hn1 : 1 <= n) by (apply Z.div_le_lower_bound; lia).
  assert (Hn2 : n <= count - availableTokens tb) by (apply Z.div_le_upper_bound; nia).
  assert (Hend : (tick_at tb now + n) * fillInterval tb < 2^62) by nia.
  assert (Hmod : now - startTime tb < (tick_at tb now + 1) * fillInterval tb).
  { unfold tick_at. pose proof (Z.mul_succ_div_gt (now - startTime tb) (fillInterval tb)). lia. }
  assert (Hpos : now < e) by (unfold e; nia).
  split; [done|]. unfold Take, take. destruct (Z.leb_spec count 0); [lia|].
  rewrite (currentTick_val tb now H). cbn [mbind outcome_mbind]. rewrite (adjust_val tb now H).
  cbn [availableTokens set_tokens]. rewrite (i64_small (level tb now - count)) by (unfold is_i64; lia).
  destruct (Z.leb_spec 0 (level tb now - count)); [lia|].
  unfold endTime. cbn [set_tokens quantum fillInterval startTime]. unfold div64.
  destruct (Z.eqb_spec (quantum tb) 0); [lia|].
  rewrite (i64_small (- _)) by (unfold is_i64; lia).
  rewrite (i64_small (_ + quantum tb)) by (unfold is_i64; lia).
  rewrite (i64_small (_ - 1)) by (unfold is_i64; lia).
  rewrite Z.quot_div_nonneg by lia.
  replace (- (level tb now - count) + quantum tb - 1) with (count - level tb now + quantum tb - 1) by lia.
  fold n. rewrite (i64_small n) by (unfold is_i64; lia). cbn [mbind outcome_mbind].
  rewrite (i64_small (tick_at tb now + n)) by (unfold is_i64; nia).
  rewrite (i64_small (_ * _)) by (unfold is_i64; nia). fold e.
  unfold time_Sub, infinityDuration. rewrite Z.min_r, Z.max_r by (unfold e in *; nia).
  destruct (Z.ltb_spec (2^63 - 1) (e - now)); [unfold e in *; nia|]. done.
Qed.

(** [Take] answers with the exact wait: when the tokens it took are missing, the
    bucket is back at zero after the wait it returns, and not a nanosecond before. *)
Theorem Take_exact : ∀ tb now count,
  wf tb now -> 0 < count -> quantum tb < 2^60 -> count - availableTokens tb < 2^60 ->
  (tick_at tb now + Z.max 0 (count - availableTokens tb)) * fillInterval tb < 2^62 ->
  ∃ d tb', Take tb now count = Ret (d, tb') /\ 0 <= d /\
    level tb' now = level tb now - count /\ 0 <= level tb' (now + d) /\
    ∀ t, now <= t < now + d -> level tb' t < 0.
Proof.
  intros tb now count H Hc Hq Hdebt Hreach. pose proof H as (Hcap' & Hq' & Hf & Ha & Hl & Hn & Ht).
  pose proof (level_low tb now H) as Hlow.
  assert (Hcap : level tb now <= capacity tb) by (unfold level; lia).
  assert (Hlev : ∀ t, level (taken tb now count) t =
    Z.min (capacity tb) (level tb now - count + (tick_at tb t - tick_at tb now) * quantum tb)) by done.
  assert (Hfirst : level (taken tb now count) now = level tb now - count)
    by (rewrite Hlev, Z.sub_diag; lia).
  destruct (Z.lt_ge_cases (level tb now) count) as [Hshort|Henough].
  - destruct (Take_short tb now count H Hc Hq Hdebt Hreach Hshort) as [Hpos Htake].
    set (n := (count - level tb now + quantum tb - 1) / quantum tb) in *.
    pose proof (ceil_div (count - level tb now) (quantum tb) ltac:(lia)) as [Hc1 Hc2]. fold n in Hc1, Hc2.
    eexists _, _. split; [exact Htake|]. split_and!; [lia|done| |].
    + rewrite Hlev. unfold tick_at at 1.
      match goal with |- context [(?x - startTime tb) / _] =>
        replace (x - startTime tb) with ((tick_at tb now + n) * fillInterval tb) by lia end.
      rewrite Z.div_mul by lia. nia.
    + intros t Ht'. rewrite Hlev.
      assert (tick_at tb t < tick_at tb now + n) by (apply Z.div_lt_upper_bound; lia). nia.
  - exists 0, (taken tb now count). rewrite Z.add_0_r. split_and!; try lia.
    unfold Take, take. destruct (Z.leb_spec count 0); [lia|].
    rewrite (currentTick_val tb now H). cbn [mbind outcome_mbind]. rewrite (adjust_val tb now H).
    cbn [availableTokens set_tokens]. rewrite (i64_small (level tb now - count)) by (unfold is_i64; lia).
    destruct (Z.leb_spec 0 (level tb now - count)); [|lia]. done.
Qed.

Lemma Take_exact_witness : ∃ tb d tb', NewBucket 100 2 0 = Ret tb /\
  Take tb 50 5 = Ret (d, tb') /\ 0 <= level tb' (50 + d) /\ ∀ t, 50 <= t < 50 + d -> level tb' t < 0.
Proof.
  destruct (Take_exact (mkBucket 0 2 1 100 2 0) 50 5) as (d & tb' & H1 & _ & _ & H2 & H3).
  - unfold wf, tick_at; cbn [startTime fillInterval capacity quantum availableTokens latestTick]. change ((50 - 0) / 100) with 0. lia.
  - lia.
  - cbn. lia.
  - cbn. lia.
  - by apply Z.ltb_lt.
  - eexists _, d, tb'. split; [reflexivity|]. split; [exact H1|]. split; [exact H2|exact H3].
Defined.
