(* ===== verification/Matching.v ===== *)
(** Model of the request matching of [src/src/proxy/dispatcher_runtime.go]: parameter
    values, the comparisons of routing conditions, address patterns and validation rules.
    The functions of Go's standard library they use come first. *)
From S2P Require Import Prelude Meta JsonScan JsonEscape JsonGet.

(** ** The standard library *)

(** [strings.Split(s, sep)] for a separator of one byte. *)
Fixpoint Split (s : bytes) (sep : Z) : list bytes :=
  match s with
  | [] => [[]]
  | c :: s =>
      if c =? sep then [] :: Split s sep
      else match Split s sep with [] => [[c]] | w :: ws => (c :: w) :: ws end
  end.

Fixpoint HasPrefix (s prefix : bytes) : bool :=
  match prefix, s with
  | [], _ => true
  | p :: prefix, c :: s => (c =? p) && HasPrefix s prefix
  | _ :: _, [] => false
  end.

(** [strings.Index] *)
Fixpoint Index (s substr : bytes) : Z :=
  if HasPrefix s substr then 0
  else match s with
       | [] => -1
       | _ :: s => let i := Index s substr in if i =? -1 then -1 else i + 1
       end.

(** [strings.ToUpper] on ASCII. *)
Definition ToUpper (s : bytes) : bytes :=
  map (λ c, if (ch "a" <=? c) && (c <=? ch "z") then c - 32 else c) s.

(** [strconv.Atoi]: [None] is a syntax or a range error. *)
Definition Atoi (s : bytes) : option Z :=
  let '(neg, ds) :=
    match s with
    | c :: ds => if c =? ch "-" then (true, ds) else if c =? ch "+" then (false, ds) else (false, s)
    | [] => (false, s)
    end in
  if bool_decide (ds = []) then None
  else if forallb (λ c, (ch "0" <=? c) && (c <=? ch "9")) ds then
    let v := fold_left (λ v c, 10 * v + (c - ch "0")) ds 0 in
    if neg then (if v <=? 2^63 then Some (- v) else None)
    else (if v <? 2^63 then Some v else None)
  else None.

Definition unhex (c : Z) : option Z :=
  if (ch "0" <=? c) && (c <=? ch "9") then Some (c - ch "0")
  else if (ch "a" <=? c) && (c <=? ch "f") then Some (c - ch "a" + 10)
  else if (ch "A" <=? c) && (c <=? ch "F") then Some (c - ch "A" + 10)
  else None.

(** [url.QueryUnescape]: [None] is an error. *)
Fixpoint QueryUnescape (s : bytes) : option bytes :=
  match s with
  | [] => Some []
  | c :: s =>
      if c =? ch "%" then
        match s with
        | h :: l :: s =>
            match unhex h, unhex l, QueryUnescape s with
            | Some h, Some l, Some t => Some (16 * h + l :: t)
            | _, _, _ => None
            end
        | _ => None
        end
      else match QueryUnescape s with
           | Some t => Some ((if c =? ch "+" then 32 else c) :: t)
           | None => None
           end
  end.

(** ** Requests

    What the gateway reads of a request through fasthttp's accessors. *)
Record Request := mkRequest {
  Req_Method : bytes;
  Req_Host : bytes;
  Req_Path : bytes;
  Req_QueryString : bytes;
  Req_Body : bytes;
  Req_Header : bytes -> bytes;
  Req_Cookie : bytes -> bytes;
  Req_QueryArg : bytes -> bytes;
  Req_PostArg : bytes -> bytes
}.

(** ** Parameter values *)

Definition getCookieValue (name : bytes) (req : Request) : bytes := Req_Cookie req name.
Definition getHeaderValue (name : bytes) (req : Request) : bytes := Req_Header req name.
Definition getQueryValue (name : bytes) (req : Request) : bytes :=
  default [] (QueryUnescape (Req_QueryArg req name)).
Definition getFormValue (name : bytes) (req : Request) : bytes := Req_PostArg req name.

Definition getPathValue (idx : Z) (req : Request) : outcome bytes :=
  path ← slice_from (Req_Path req) 1;
  let values := Split path (ch "/") in
  if len values <=? idx then Ret []
  else if idx <? 0 then Panic
  else match values !! Z.to_nat idx with Some v => Ret v | None => Panic end.

Definition paramValue (param : Param) (req : Request) : outcome bytes :=
  match Param_Source param with
  | QueryString => Ret (getQueryValue (Param_Name param) req)
  | FormData => Ret (getFormValue (Param_Name param) req)
  | JSONBody =>
      '(value, _, _, err) ← Get (Req_Body req) [Param_Name param];
      match err with Some _ => Ret [] | None => Ret value end
  | Header => Ret (getHeaderValue (Param_Name param) req)
  | Cookie => Ret (getCookieValue (Param_Name param) req)
  | PathValue => getPathValue (Param_Index param) req
  | Source_other _ => Ret []
  end.

(** ** Comparisons *)

Definition eq_ (attrValue expect : bytes) : bool := bytes_eqb attrValue expect.

Definition lt_ (attrValue expect : bytes) : bool :=
  match Atoi attrValue with
  | None => false
  | Some s => match Atoi expect with None => false | Some t => s <? t end
  end.

Definition le_ (attrValue expect : bytes) : bool :=
  match Atoi attrValue with
  | None => false
  | Some s => match Atoi expect with None => false | Some t => s <=? t end
  end.

Definition gt_ (attrValue expect : bytes) : bool :=
  match Atoi attrValue with
  | None => false
  | Some s => match Atoi expect with None => false | Some t => t <? s end
  end.

Definition ge_ (attrValue expect : bytes) : bool :=
  match Atoi attrValue with
  | None => false
  | Some s => match Atoi expect with None => false | Some t => t <=? s end
  end.

Definition in_ (attrValue expect : bytes) : bool := negb (Index expect attrValue =? -1).

(** ** Regular expressions

    [regexp] is an argument: [MatchString pattern s] is [None] for a pattern that does not
    compile. *)
Section Regexp.
Context (MatchString : bytes -> bytes -> option bool).

Definition reg (attrValue expect : bytes) : bool :=
  match MatchString expect attrValue with Some matches => matches | None => false end.

Definition conditionsMatches (cond : Condition) (req : Request) : outcome bool :=
  attrValue ← paramValue (Condition_Param cond) req;
  if bytes_eqb attrValue [] then Ret false
  else
    let expect := Condition_Expect cond in
    Ret match Condition_Cmp cond with
        | CMPEQ => eq_ attrValue expect
        | CMPLT => lt_ attrValue expect
        | CMPLE => le_ attrValue expect
        | CMPGT => gt_ attrValue expect
        | CMPGE => ge_ attrValue expect
        | CMPIn => in_ attrValue expect
        | CMPMatch => reg attrValue expect
        | CMP_other _ => false
        end.

End Regexp.

(** ** Address patterns *)

(** [parseFrom]: the segments of the pattern. *)
Definition parseFrom (value : bytes) : list bytes := Split value (ch ".").

(** The loop of [ipSegment.matches]: [tmp[index]] is read only when the segment of the
    pattern is not a star. *)
Fixpoint ipSegmentLoop (pattern tmp : list bytes) : outcome bool :=
  match pattern with
  | [] => Ret true
  | v :: pattern =>
      if bytes_eqb v (str "*") then ipSegmentLoop pattern (tail tmp)
      else match tmp with
           | [] => Panic
           | t :: tmp => if bytes_eqb v t then ipSegmentLoop pattern tmp else Ret false
           end
  end.

Definition ipSegment_matches (pattern : list bytes) (value : bytes) : outcome bool :=
  ipSegmentLoop pattern (Split value (ch ".")).

(** ** Numerals *)

(** The text [s] denotes the 64-bit integer [x]. *)
Inductive numeral : bytes -> Z -> Prop :=
| numeral_plain ds : ds <> [] -> Forall digit ds -> dec ds < 2^63 -> numeral ds (dec ds)
| numeral_plus ds : ds <> [] -> Forall digit ds -> dec ds < 2^63 -> numeral (ch "+" :: ds) (dec ds)
| numeral_minus ds : ds <> [] -> Forall digit ds -> dec ds <= 2^63 -> numeral (ch "-" :: ds) (- dec ds).

Lemma forallb_digit ds :
  forallb (λ c, (ch "0" <=? c) && (c <=? ch "9")) ds = true <-> Forall digit ds.
Proof.
  rewrite forallb_forall, Forall_forall. unfold digit.
  split; intros H c Hc; specialize (H c).
  - rewrite <- list_elem_of_In in H. specialize (H Hc). apply andb_true_iff in H. lia.
  - apply list_elem_of_In in Hc. specialize (H Hc). apply andb_true_iff. lia.
Qed.

(** The unsigned part of [Atoi]. *)
Definition Atoi_digits (neg : bool) (ds : bytes) : option Z :=
  if bool_decide (ds = []) then None
  else if forallb (λ c, (ch "0" <=? c) && (c <=? ch "9")) ds then
    if neg then (if dec ds <=? 2^63 then Some (- dec ds) else None)
    else (if dec ds <? 2^63 then Some (dec ds) else None)
  else None.

Lemma Atoi_digits_spec neg ds x : Atoi_digits neg ds = Some x <->
  ds <> [] /\ Forall digit ds /\
  if neg then dec ds <= 2^63 /\ x = - dec ds else dec ds < 2^63 /\ x = dec ds.
Proof.
  unfold Atoi_digits. rewrite <- (forallb_digit ds).
  destruct (decide (ds = [])) as [->|Hne].
  { rewrite bool_decide_true by done. split; [done|by intros [? _]]. }
  rewrite bool_decide_false by done. destruct (forallb _ _); [|by split; [|intros (_ & ? & _)]].
  destruct neg; [destruct (Z.leb_spec (dec ds) (2^63))|destruct (Z.ltb_spec (dec ds) (2^63))];
    (split; [intros Hx; by simplify_eq|intros (_ & _ & Hr & ->); done || lia]).
Qed.

Lemma Atoi_cases s : Atoi s =
  match s with
  | c :: ds => if c =? ch "-" then Atoi_digits true ds
               else if c =? ch "+" then Atoi_digits false ds else Atoi_digits false s
  | [] => None
  end.
Proof. destruct s as [|c ds]; [done|]. unfold Atoi. by destruct (c =? ch "-"), (c =? ch "+"). Qed.

Lemma Atoi_numeral s x : Atoi s = Some x <-> numeral s x.
Proof.
  rewrite Atoi_cases. split.
  - destruct s as [|c ds]; [done|].
    destruct (Z.eqb_spec c (ch "-")) as [->|]; [|destruct (Z.eqb_spec c (ch "+")) as [->|]];
      intros (Hne & Hd & Hr & ->)%Atoi_digits_spec; by constructor.
  - intros H. destruct H as [ds Hne Hd Hr|ds Hne Hd Hr|ds Hne Hd Hr].
    + destruct ds as [|c ds]; [done|]. pose proof Hd as Hd'. apply Forall_cons in Hd' as [Hc _].
      unfold digit in Hc. revert Hc. chars. intros Hc.
      destruct (Z.eqb_spec c 45); [lia|]. destruct (Z.eqb_spec c 43); [lia|].
      by apply Atoi_digits_spec.
    + by apply (Atoi_digits_spec false).
    + by apply (Atoi_digits_spec true).
Qed.

(** The ordering conditions compare the numbers that the two texts denote, with either
    sign and to the ends of [int64], and all fail when a text denotes none. *)
Theorem conditions_compare :
  (∀ s x t y, numeral s x -> numeral t y ->
    lt_ s t = (x <? y) /\ le_ s t = (x <=? y) /\ gt_ s t = (y <? x) /\ ge_ s t = (y <=? x)) /\
  (∀ s t, (∀ x, ¬ numeral s x) \/ (∀ y, ¬ numeral t y) ->
    lt_ s t = false /\ le_ s t = false /\ gt_ s t = false /\ ge_ s t = false).
Proof.
  split.
  - intros s x t y Hs%Atoi_numeral Ht%Atoi_numeral. unfold lt_, le_, gt_, ge_. by rewrite Hs, Ht.
  - intros s t H.
    assert (Hn : Atoi s = None \/ Atoi t = None).
    { destruct H as [H|H]; [left|right]; (destruct (Atoi _) as [x|] eqn:E; [|done]);
        apply Atoi_numeral in E; by apply H in E. }
    unfold lt_, le_, gt_, ge_. destruct Hn as [-> | ->]; [done|]. by destruct (Atoi s).
Qed.

Lemma conditions_compare_witness :
  lt_ (str "-9223372036854775808") (str "+07") = true /\ ge_ (str "1e3") (str "5") = false.
Proof.
  split.
  - assert (H : lt_ (str "-9223372036854775808") (str "+07") = (- 2^63 <? 7)); [|exact H].
    apply (proj1 conditions_compare); apply Atoi_numeral; reflexivity.
  - apply (proj2 conditions_compare). left. intros x Hx. apply Atoi_numeral in Hx. discriminate Hx.
Defined.

(** ** Substrings *)

Lemma HasPrefix_spec s p : HasPrefix s p = true <-> ∃ q, s = p ++ q.
Proof.
  revert s. induction p as [|c p IH]; intros s; cbn [app].
  - destruct s; split; eauto.
  - destruct s as [|d s]; [split; [done|intros [q ?]; done]|].
    cbn [HasPrefix]. rewrite andb_true_iff, IH, Z.eqb_eq. split.
    + intros [-> [q ->]]. by exists q.
    + intros [q [= -> ->]]. eauto.
Qed.

Lemma Index_range s p : -1 <= Index s p.
Proof.
  induction s as [|c s IH]; cbn [Index].
  - destruct (HasPrefix [] p); lia.
  - destruct (HasPrefix (c :: s) p); [lia|]. destruct (Z.eqb_spec (Index s p) (-1)); lia.
Qed.

Lemma Index_found s p : Index s p <> -1 <-> ∃ a b, s = a ++ p ++ b.
Proof.
  induction s as [|c s IH]; cbn [Index].
  - destruct (HasPrefix [] p) eqn:E.
    + split; [|done]. intros _. apply HasPrefix_spec in E as [q ->]. by exists [], q.
    + split; [done|]. intros (a & b & H). symmetry in H. apply app_eq_nil in H as [-> H].
      apply app_eq_nil in H as [-> ->]. done.
  - destruct (HasPrefix (c :: s) p) eqn:E.
    + split; [|done]. intros _. apply HasPrefix_spec in E as [q ->]. by exists [], q.
    + assert (Hn : Index s p <> -1 <-> (if Index s p =? -1 then -1 else Index s p + 1) <> -1).
      { pose proof (Index_range s p). destruct (Z.eqb_spec (Index s p) (-1)); lia. }
      rewrite <- Hn, IH. split.
      * intros (a & b & ->). by exists (c :: a), b.
      * intros (a & b & H). destruct a as [|d a]; [|injection H as _ ->; eauto].
        exfalso. assert (HasPrefix (c :: s) p = true) by (apply HasPrefix_spec; eauto). congruence.
Qed.

Lemma in_spec attrValue expect : in_ attrValue expect = true <-> ∃ a b, expect = a ++ attrValue ++ b.
Proof. unfold in_. rewrite <- Index_found, negb_true_iff, Z.eqb_neq. done. Qed.

(** ** Address patterns *)

(** The segment of the pattern at [i] accepts the address. *)
Definition seg_ok (pattern segs : list bytes) (i : nat) : Prop :=
  pattern !! i = Some (str "*") \/ pattern !! i = segs !! i.

Lemma seg_ok_0 v pattern segs : seg_ok (v :: pattern) segs 0 <-> v = str "*" \/ head segs = Some v.
Proof. unfold seg_ok. destruct segs; cbn; split; intros [H|H]; simplify_eq; auto. Qed.

Lemma seg_ok_S v pattern segs i : seg_ok (v :: pattern) segs (S i) <-> seg_ok pattern (tail segs) i.
Proof. unfold seg_ok. cbn. by destruct segs. Qed.

Lemma ipSegmentLoop_spec pattern : ∀ segs,
  match ipSegmentLoop pattern segs with
  | Ret true => ∀ i, (i < length pattern)%nat -> seg_ok pattern segs i
  | Ret false => ∃ i, (i < length pattern)%nat /\ (i < length segs)%nat /\ ¬ seg_ok pattern segs i /\
                   ∀ j, (j < i)%nat -> seg_ok pattern segs j
  | Panic => ∃ i, (i < length pattern)%nat /\ (length segs <= i)%nat /\ ¬ seg_ok pattern segs i /\
                  ∀ j, (j < i)%nat -> seg_ok pattern segs j
  | Hang => False
  end.
Proof.
  induction pattern as [|v pattern IH]; intros segs; cbn [ipSegmentLoop]; [cbn; lia|].
  destruct (bytes_eqb v (str "*")) eqn:Ev.
  - apply bytes_eqb_eq in Ev. specialize (IH (tail segs)).
    assert (H0 : seg_ok (v :: pattern) segs 0) by (apply seg_ok_0; by left).
    destruct (ipSegmentLoop pattern (tail segs)) as [[|]| |]; [| | |done].
    + intros [|i] Hi; [done|]. apply seg_ok_S, IH. cbn in Hi. lia.
    + destruct IH as (i & Hi & Hs & Hn & Hj). exists (S i). cbn. split_and!; [lia| | |].
      * destruct segs; cbn in *; lia.
      * by rewrite seg_ok_S.
      * intros [|j] Hlt; [done|]. apply seg_ok_S, Hj. lia.
    + destruct IH as (i & Hi & Hs & Hn & Hj). exists (S i). cbn. split_and!; [lia| | |].
      * destruct segs; cbn in *; lia.
      * by rewrite seg_ok_S.
      * intros [|j] Hlt; [done|]. apply seg_ok_S, Hj. lia.
  - apply bytes_eqb_neq in Ev. destruct segs as [|t segs].
    { exists 0%nat. cbn. split_and!; [lia|lia| |lia]. rewrite seg_ok_0. cbn. intros [?|?]; simplify_eq. }
    destruct (bytes_eqb v t) eqn:Et.
    + apply bytes_eqb_eq in Et as ->. specialize (IH segs).
      assert (H0 : seg_ok (t :: pattern) (t :: segs) 0) by (apply seg_ok_0; by right).
      destruct (ipSegmentLoop pattern segs) as [[|]| |]; [| | |done].
      * intros [|i] Hi; [done|]. apply seg_ok_S, IH. cbn in Hi. lia.
      * destruct IH as (i & Hi & Hs & Hn & Hj). exists (S i). cbn. split_and!; [lia|lia|by rewrite seg_ok_S|].
        intros [|j] Hlt; [done|]. apply seg_ok_S, Hj. lia.
      * destruct IH as (i & Hi & Hs & Hn & Hj). exists (S i). cbn. split_and!; [lia|lia|by rewrite seg_ok_S|].
        intros [|j] Hlt; [done|]. apply seg_ok_S, Hj. lia.
    + apply bytes_eqb_neq in Et. exists 0%nat. cbn. split_and!; [lia|lia| |lia].
      rewrite seg_ok_0. cbn. intros [?|?]; simplify_eq.
Qed.

(** An address pattern accepts an address when each of its segments is a star or equal
    to the address's segment at the same place (what follows is free); matching panics
    exactly when the segments of the address run out before a plain segment of the pattern
    that nothing before it ruled out. *)
Theorem ipSegment_matches_spec : ∀ pattern value,
  let segs := Split value (ch ".") in
  (ipSegment_matches pattern value = Ret true <->
    ∀ i, (i < length pattern)%nat -> seg_ok pattern segs i) /\
  (ipSegment_matches pattern value = Panic <->
    ∃ i, (length segs <= i < length pattern)%nat /\ ¬ seg_ok pattern segs i /\
      ∀ j, (j < i)%nat -> seg_ok pattern segs j) /\
  ipSegment_matches pattern value <> Hang.
Proof.
  intros pattern value segs. unfold ipSegment_matches. fold segs.
  pose proof (ipSegmentLoop_spec pattern segs) as H.
  destruct (ipSegmentLoop pattern segs) as [[|]| |]; [| | |done].
  - split_and!; [done| |done]. split; [done|]. intros (i & Hi & Hn & _). exfalso. apply Hn, H; lia.
  - destruct H as (i & Hi & Hs & Hn & Hj). split_and!; [split; [done|]| |done].
    + intros H. exfalso. by apply Hn, H.
    + split; [done|]. intros (k & Hk & Hnk & Hjk). exfalso.
      destruct (Nat.lt_ge_cases i k); [by apply Hn, Hjk|lia].
  - destruct H as (i & Hi & Hs & Hn & Hj). split_and!; [split; [done|]| |done].
    + intros H. exfalso. by apply Hn, H.
    + split; [|done]. intros _. exists i. split_and!; [lia|lia|done..].
Qed.

(** An IPv6 address, or any one-segment text, against a plain IPv4 pattern. *)
Example ipSegment_panics :
  ipSegment_matches (parseFrom (str "*.0.0.1")) (str "::1") = Panic /\
  ipSegment_matches (parseFrom (str "10.0.0.1")) (str "10") = Panic /\
  ipSegment_matches (parseFrom (str "192.168.*")) (str "192.168.1.7") = Ret true.
Proof. by vm_compute. Qed.
