(* ===== verification/Etcd.v ===== *)
(** What the store relies on: etcd, a map from keys to values in the order of the keys that
    changes by transactions and tells watchers every change, and the generated encoding of
    the messages.  Both are interfaces: the definitions here say what a transaction means on
    a finite map, the classes that an implementation behaves so, and the instance at the end
    is one that does. *)
From stdpp Require Import sorting.
From S2P Require Import Prelude Matching.

(** ** Keys in lexicographic order *)
Fixpoint key_lt (a b : bytes) : bool :=
  match a, b with
  | _, [] => false
  | [], _ :: _ => true
  | x :: a, y :: b => (x <? y) || ((x =? y) && key_lt a b)
  end.
Definition key_le (a b : bytes) : bool := negb (key_lt b a).

Inductive keyset := KOne (k : bytes) | KPrefix (p : bytes) | KRange (a b : bytes).

Definition in_keys (ks : keyset) (k : bytes) : bool :=
  match ks with
  | KOne k' => bytes_eqb k k'
  | KPrefix p => HasPrefix k p
  | KRange a b => key_le a k && key_lt k b
  end.

(** ** Transactions *)

Abbreviation kv := (gmap bytes bytes).

(** [Compare(CreateRevision(key), "=", 0)] and [Compare(Value(key), "=", v)]. *)
Inductive Cmp := CmpAbsent (k : bytes) | CmpValue (k v : bytes).
Inductive Op := OpPut (k v : bytes) (lease : option Z) | OpDelete (ks : keyset).

(** A change a watcher is told; [create] tells a new key from a changed one. *)
Inductive event := PUT (k v : bytes) (create : bool) | DELETE (k : bytes).

Definition holds (m : kv) (c : Cmp) : bool :=
  match c with CmpAbsent k => bool_decide (m !! k = None) | CmpValue k v => bool_decide (m !! k = Some v) end.

Definition key_sorted (x y : bytes * bytes) : Prop := key_le x.1 y.1 = true.
#[export] Instance key_sorted_dec x y : Decision (key_sorted x y).
Proof. unfold key_sorted. apply _. Defined.

(** The keys of a set with their values, in order. *)
Definition entries (ks : keyset) (m : kv) : list (bytes * bytes) :=
  filter (λ e, in_keys ks e.1 = true) (merge_sort key_sorted (map_to_list m)).

(** At most [limit], unless it is not positive. *)
Definition page (ks : keyset) (limit : Z) (m : kv) : list (bytes * bytes) :=
  if limit <=? 0 then entries ks m else take (Z.to_nat limit) (entries ks m).

Definition apply_op (op : Op) (m : kv) : kv * list event :=
  match op with
  | OpPut k v _ => (<[k := v]> m, [PUT k v (bool_decide (m !! k = None))])
  | OpDelete ks => (filter (λ e, in_keys ks e.1 = false) m, map (λ e, DELETE e.1) (entries ks m))
  end.

Fixpoint apply_ops (ops : list Op) (m : kv) : kv * list event :=
  match ops with
  | [] => (m, [])
  | op :: ops => let '(m, es) := apply_op op m in let '(m, es') := apply_ops ops m in (m, es ++ es')
  end.

(** ** The client

    [Commit] is [Txn(ctx).If(cmps).Then(ops).Commit()]: whether the comparisons held, or an
    error.  [Get] answers with the page of a set of keys, or an error. *)
Class Etcd := {
  etcd : Type;
  kvs : etcd -> kv;
  history : etcd -> list event;
  Commit : list Cmp -> list Op -> etcd -> option bool * etcd;
  Get : keyset -> Z -> etcd -> option (list (bytes * bytes));
  Grant : Z -> etcd -> option Z * etcd;
  KeepAlive : Z -> etcd -> bool * etcd
}.

(** A transaction that answers was applied as a whole or not at all as its comparisons say;
    one that fails may or may not have been. *)
Class EtcdLaws `{Etcd} := {
  Commit_ok cmps ops s b s' : Commit cmps ops s = (Some b, s') ->
    b = forallb (holds (kvs s)) cmps /\
    (kvs s', history s') =
      (if b then let '(m, es) := apply_ops ops (kvs s) in (m, history s ++ es) else (kvs s, history s));
  Commit_failed cmps ops s s' : Commit cmps ops s = (None, s') ->
    (kvs s', history s') = (kvs s, history s) \/
    (forallb (holds (kvs s)) cmps = true /\
     (kvs s', history s') = let '(m, es) := apply_ops ops (kvs s) in (m, history s ++ es));
  Get_ok ks limit s l : Get ks limit s = Some l -> l = page ks limit (kvs s);
  Grant_same ttl s : kvs (Grant ttl s).2 = kvs s /\ history (Grant ttl s).2 = history s;
  KeepAlive_same l s : kvs (KeepAlive l s).2 = kvs s /\ history (KeepAlive l s).2 = history s
}.

(** ** Messages *)

(** The generated methods of a message: [Marshal], [Unmarshal]. *)
Class Message (A : Type) := {
  Marshal : A -> option bytes;
  Unmarshal : bytes -> option A;
  Unmarshal_Marshal v : ∃ data, Marshal v = Some data /\ Unmarshal data = Some v
}.
Arguments Unmarshal A {_} _.

(** The id of a message, and the closure that sets it. *)
Class Ident (A : Type) := {
  GetID : A -> Z;
  SetID : Z -> A -> A;
  GetID_SetID id v : GetID (SetID id v) = id
}.

(** The interface [pb] of the store: no text of a message with an id is empty. *)
Class Pb (A : Type) `{Ident A} := {
  pb_message :: Message A;
  Marshal_nonempty v : GetID v <> 0 -> Marshal v <> Some []
}.

(** ** The order *)

Lemma key_lt_irrefl a : key_lt a a = false.
Proof. induction a as [|x a IH]; [done|]. cbn. by rewrite Z.ltb_irrefl, Z.eqb_refl, IH. Qed.

Lemma key_lt_trans a : ∀ b c, key_lt a b = true -> key_lt b c = true -> key_lt a c = true.
Proof.
  induction a as [|x a IH]; intros [|y b] [|z c]; cbn; try done.
  rewrite !orb_true_iff, !andb_true_iff, !Z.ltb_lt, !Z.eqb_eq.
  intros [?|[-> ?]] [?|[-> ?]]; [left; lia|by left|by left|right]. split; [done|by apply IH with b].
Qed.

Lemma key_lt_trichotomy a : ∀ b, key_lt a b = true \/ a = b \/ key_lt b a = true.
Proof.
  induction a as [|x a IH]; intros [|y b]; cbn; auto.
  destruct (Z.lt_trichotomy x y) as [H|[->|H]].
  - left. by rewrite (proj2 (Z.ltb_lt _ _) H).
  - rewrite Z.ltb_irrefl, Z.eqb_refl. cbn. destruct (IH b) as [?|[->|?]]; auto.
  - right; right. by rewrite (proj2 (Z.ltb_lt _ _) H).
Qed.

Lemma key_lt_asym a b : key_lt a b = true -> key_lt b a = false.
Proof. intros H. apply not_true_iff_false. intros H2. pose proof (key_lt_trans _ _ _ H H2). by rewrite key_lt_irrefl in *. Qed.

Lemma key_le_lt a b : key_le a b = true <-> a = b \/ key_lt a b = true.
Proof.
  unfold key_le. rewrite negb_true_iff. split.
  - destruct (key_lt_trichotomy a b) as [?|[?|?]]; auto. congruence.
  - intros [->|?]; [apply key_lt_irrefl|by apply key_lt_asym].
Qed.

Lemma key_lt_le_trans a b c : key_lt a b = true -> key_le b c = true -> key_lt a c = true.
Proof. intros H [->|H2]%key_le_lt; [done|by apply key_lt_trans with b]. Qed.

Lemma key_le_lt_trans a b c : key_le a b = true -> key_lt b c = true -> key_lt a c = true.
Proof. intros [->|H2]%key_le_lt H; [done|by apply key_lt_trans with b]. Qed.

#[export] Instance key_sorted_trans : Transitive key_sorted.
Proof.
  intros x y z Hxy Hyz. apply key_le_lt in Hxy as [E|Hxy]; unfold key_sorted in *; [by rewrite E|].
  apply key_le_lt. right. by apply key_lt_le_trans with y.1.
Qed.

#[export] Instance key_sorted_total : Total key_sorted.
Proof.
  intros x y. unfold key_sorted. rewrite !key_le_lt. destruct (key_lt_trichotomy x.1 y.1) as [?|[?|?]]; auto.
Qed.

Lemma key_lt_app p a b : key_lt (p ++ a) (p ++ b) = key_lt a b.
Proof. induction p as [|x p IH]; [done|]. cbn. by rewrite Z.ltb_irrefl, Z.eqb_refl, IH. Qed.

Lemma key_lt_snoc a : ∀ b x y, length a = length b -> key_lt (a ++ [x]) (b ++ [y]) = key_lt a b || (bool_decide (a = b) && (x <? y)).
Proof.
  induction a as [|c a IH]; intros [|d b] x y Hl; try done.
  - cbn. by rewrite andb_false_r, orb_false_r.
  - cbn. rewrite IH by (cbn in Hl; lia). destruct (Z.eqb_spec c d) as [->|Hne]; cbn.
    + rewrite Z.ltb_irrefl. cbn. do 2 f_equal. apply bool_decide_ext. split; [by intros ->|by intros [=]].
    + rewrite !orb_false_r. rewrite (bool_decide_false (c :: a = d :: b)) by congruence. by rewrite orb_false_r.
Qed.

(** ** Pages *)

Lemma elem_of_entries ks m k v : (k, v) ∈ entries ks m <-> in_keys ks k = true /\ m !! k = Some v.
Proof.
  unfold entries. rewrite list_elem_of_filter, merge_sort_Permutation, elem_of_map_to_list. done.
Qed.

Lemma map_to_list_NoDup_sort m : NoDup (merge_sort key_sorted (map_to_list m)).*1.
Proof. rewrite (merge_sort_Permutation key_sorted (map_to_list m)). apply NoDup_fst_map_to_list. Qed.

(** Strictly sorted by their keys. *)
Definition ascending (l : list (bytes * bytes)) : Prop := StronglySorted (λ x y, key_lt x.1 y.1 = true) l.

Lemma sorted_ascending l : StronglySorted key_sorted l -> NoDup l.*1 -> ascending l.
Proof.
  induction 1 as [|x l Hs IH Hx]; intros Hnd; [constructor|]. cbn in Hnd. apply NoDup_cons in Hnd as [Hnx Hnd].
  constructor; [by apply IH|]. rewrite Forall_forall in *. intros y Hy. specialize (Hx y Hy).
  apply key_le_lt in Hx as [E|]; [|done]. destruct Hnx. rewrite E. by apply list_elem_of_fmap_2.
Qed.

Lemma ascending_filter (P : bytes * bytes -> Prop) `{!∀ x, Decision (P x)} l : ascending l -> ascending (filter P l).
Proof.
  induction 1 as [|x l Hs IH Hx]; [constructor|]. rewrite filter_cons. destruct (decide (P x)); [|done].
  constructor; [done|]. rewrite Forall_forall in *. intros y [_ Hy]%list_elem_of_filter. by apply Hx.
Qed.

Lemma ascending_entries ks m : ascending (entries ks m).
Proof.
  apply ascending_filter, sorted_ascending; [|apply map_to_list_NoDup_sort]. apply StronglySorted_merge_sort; apply _.
Qed.

(** Two ascending lists with the same elements are equal. *)
Lemma ascending_ext l : ∀ l', ascending l -> ascending l' -> (∀ e, e ∈ l <-> e ∈ l') -> l = l'.
Proof.
  assert (Hin : ∀ (x : bytes * bytes) l, Forall (λ y, key_lt x.1 y.1 = true) l -> x ∉ l).
  { intros x l0 H Hx. rewrite Forall_forall in H. specialize (H x Hx). cbn in H. by rewrite key_lt_irrefl in H. }
  induction l as [|x l IH]; intros [|y l'] Hl Hl' He; [done| | |].
  - exfalso. apply (elem_of_nil y), He. by left.
  - exfalso. apply (elem_of_nil x), He. by left.
  - apply StronglySorted_inv in Hl as [Hl Hx]. apply StronglySorted_inv in Hl' as [Hl' Hy].
    assert (x = y) as ->.
    { pose proof (proj1 (He x) ltac:(by left)) as [->|Hx']%elem_of_cons; [done|].
      pose proof (proj2 (He y) ltac:(by left)) as [->|Hy']%elem_of_cons; [done|].
      rewrite Forall_forall in Hx, Hy. pose proof (Hx y Hy') as H1. pose proof (Hy x Hx') as H2. cbn in H1, H2.
      rewrite key_lt_asym in H1; [done|exact H2]. }
    f_equal. apply IH; [done..|]. intros e. specialize (He e). rewrite !elem_of_cons in He.
    pose proof (Hin y l Hx). pose proof (Hin y l' Hy). split; intros H1.
    + destruct (proj1 He ltac:(by right)) as [->|]; done.
    + destruct (proj2 He ltac:(by right)) as [->|]; done.
Qed.

(** What a deletion leaves. *)
Lemma lookup_deleted ks m k : (apply_op (OpDelete ks) m).1 !! k = if in_keys ks k then None else m !! k.
Proof.
  cbn. apply option_eq. intros v. rewrite map_lookup_filter_Some. destruct (in_keys ks k) eqn:E; cbn; [|by rewrite E; intuition].
  split; [intros [_ ?]; congruence|done].
Qed.

(** ** An etcd: a map and its history; every request succeeds. *)
Module MapEtcd.

Definition commit (cmps : list Cmp) (ops : list Op) (s : kv * list event) : option bool * (kv * list event) :=
  if forallb (holds s.1) cmps then
    let '(m, es) := apply_ops ops s.1 in (Some true, (m, s.2 ++ es))
  else (Some false, s).

Definition client : Etcd := {|
  etcd := kv * list event;
  kvs := fst;
  history := snd;
  Commit := commit;
  Get := λ ks limit s, Some (page ks limit s.1);
  Grant := λ ttl s, (Some ttl, s);
  KeepAlive := λ l s, (true, s)
|}.

Lemma laws : @EtcdLaws client.
Proof.
  split; try done.
  - intros cmps ops [m h] b s'. cbn. unfold commit. cbn. destruct (forallb _ _).
    + destruct (apply_ops ops m) as [m' es]. by intros [= <- <-].
    + by intros [= <- <-].
  - intros cmps ops [m h] s'. cbn. unfold commit. cbn. by destruct (forallb _ _), (apply_ops ops m).
  - by intros ks limit s l [= <-].
Qed.

End MapEtcd.
