(* ===== verification/Expr.v ===== *)
(** Model of the URL rewrite expressions [src/src/utils/expr/expr.go]: the scanner, the
    parser and the evaluation against a request. *)
From S2P Require Import Prelude Meta JsonScan JsonGet JsonTotal Matching.

(** ** Scanner *)

Definition eoi : Z := 26.
Definition dollar : Z := ch "$".
Definition lParen : Z := ch "(".
Definition rParen : Z := ch ")".

Inductive token := tokenEOF | tokenUnknown | tokenDollar | tokenLParen | tokenRParen.

Record scanner := mkScan {
  s_input : bytes;
  s_token : token;
  s_bp : Z;
  s_sp : Z;
  s_ch : Z
}.

Definition Next (scan : scanner) : scanner :=
  let bp := s_bp scan + 1 in
  mkScan (s_input scan) (s_token scan) bp (s_sp scan)
    (if bp <? len (s_input scan) then default 0 (s_input scan !! Z.to_nat bp) else eoi).

Definition newScanner (input : bytes) : scanner := Next (mkScan input tokenEOF (-1) 0 0).

(** The token a byte starts. *)
Definition classify (c : Z) : option token :=
  if c =? dollar then Some tokenDollar
  else if c =? lParen then Some tokenLParen
  else if c =? rParen then Some tokenRParen
  else if c =? eoi then Some tokenEOF
  else None.

Definition NextToken_step (scan : scanner) : outcome (scanner + scanner) :=
  match classify (s_ch scan) with
  | Some t => Ret (inr (Next (mkScan (s_input scan) t (s_bp scan) (s_sp scan) (s_ch scan))))
  | None => Ret (inl (Next scan))
  end.

Definition NextToken (scan : scanner) : outcome scanner :=
  loop NextToken_step (S (S (length (s_input scan)))) scan.

Definition ScanString (scan : scanner) : outcome (bytes * scanner) :=
  value ← slice (s_input scan) (s_sp scan) (s_bp scan - 1);
  Ret (value, mkScan (s_input scan) (s_token scan) (s_bp scan) (s_bp scan) (s_ch scan)).

(** ** Expressions *)
Inductive expr :=
| constExpr (value : bytes)
| originQueryExpr
| originQueryParamExpr (param : bytes)
| originPathExpr
| originCookieParamExpr (param : bytes)
| originHeaderParamExpr (param : bytes)
| originBodyParamExpr (param : list bytes)
| dependParamExpr (param : list bytes)
| pathParamExpr (param : bytes).

Inductive exprError :=
| expectDollarOrRParen | missingDollar | missingLParen | maybeExpectRParen
| dependError | paramError | notSupportSource (s : bytes)
| originError | originQueryError | originPathError | originCookieError | originHeaderError
| originBodyError | notSupportOrigin (s : bytes).

Definition newOriginExpr (values : list bytes) : exprError + expr :=
  let n := len values in
  match values !! 1%nat with
  | None => inl originError
  | Some v1 =>
      let v2 := default [] (values !! 2%nat) in
      if bytes_eqb v1 (str "query") then
        if 3 <? n then inl originQueryError
        else if n =? 2 then inr originQueryExpr
        else inr (originQueryParamExpr v2)
      else if bytes_eqb v1 (str "path") then
        if negb (n =? 2) then inl originPathError else inr originPathExpr
      else if bytes_eqb v1 (str "cookie") then
        if negb (n =? 3) then inl originCookieError else inr (originCookieParamExpr v2)
      else if bytes_eqb v1 (str "header") then
        if negb (n =? 3) then inl originHeaderError else inr (originHeaderParamExpr v2)
      else if bytes_eqb v1 (str "body") then
        if n <? 3 then inl originBodyError else inr (originBodyParamExpr (drop 2 values))
      else inl (notSupportOrigin v1)
  end.

Definition newExpr (value : bytes) : exprError + expr :=
  let values := Split value (ch ".") in
  let v0 := default [] (values !! 0%nat) in
  if bytes_eqb v0 (str "origin") then newOriginExpr values
  else if bytes_eqb v0 (str "depend") then
    if len values <? 2 then inl dependError else inr (dependParamExpr (drop 2 values))
  else if bytes_eqb v0 (str "param") then
    if negb (len values =? 2) then inl paramError
    else inr (pathParamExpr (default [] (values !! 1%nat)))
  else inl (notSupportSource v0).

(** ** Parse *)

Definition add_const (exprs : list expr) (value : bytes) : list expr :=
  if 0 <? len value then exprs ++ [constExpr value] else exprs.

(** One turn of the loop of [Parse]: the state is [(lexer, prev, exprs)]. *)
Definition Parse_step (s : scanner * token * list expr)
    : outcome ((scanner * token * list expr) + (exprError + list expr)) :=
  let '(lexer, prev, exprs) := s in
  lexer ← NextToken lexer;
  let token := s_token lexer in
  match token with
  | tokenDollar =>
      match prev with
      | tokenUnknown | tokenRParen =>
          '(value, lexer) ← ScanString lexer;
          Ret (inl (lexer, token, add_const exprs value))
      | _ => Ret (inr (inl expectDollarOrRParen))
      end
  | tokenLParen =>
      match prev with
      | tokenDollar => '(_, lexer) ← ScanString lexer; Ret (inl (lexer, token, exprs))
      | _ => Ret (inr (inl missingDollar))
      end
  | tokenRParen =>
      match prev with
      | tokenLParen =>
          '(value, lexer) ← ScanString lexer;
          match newExpr value with
          | inl err => Ret (inr (inl err))
          | inr exp => Ret (inl (lexer, token, exprs ++ [exp]))
          end
      | _ => Ret (inr (inl missingLParen))
      end
  | tokenEOF =>
      match prev with
      | tokenUnknown | tokenRParen =>
          '(value, lexer) ← ScanString lexer; Ret (inr (inr (add_const exprs value)))
      | _ => Ret (inr (inl maybeExpectRParen))
      end
  | tokenUnknown => Ret (inl (lexer, token, exprs))
  end.

Definition Parse (value : bytes) : outcome (exprError + list expr) :=
  loop Parse_step (S (S (length value))) (newScanner value, tokenUnknown, []).

(** ** Exec *)

Record Ctx := mkCtx {
  Origin : Request;
  Depend : option bytes;
  Params : option (gmap bytes bytes)
}.

Definition AddParam (c : Ctx) (name value : bytes) : outcome Ctx :=
  match Params c with
  | Some m => Ret (mkCtx (Origin c) (Depend c) (Some (<[name := value]> m)))
  | None => Panic
  end.

Definition CopyParams (c : Ctx) : gmap bytes bytes := default ∅ (Params c).

(** What an expression writes to the buffer. *)
Definition expr_Exec (e : expr) (ctx : Ctx) : outcome bytes :=
  match e with
  | constExpr value => Ret value
  | originQueryExpr =>
      let value := Req_QueryString (Origin ctx) in
      Ret (if 0 <? len value then ch "?" :: value else [])
  | originQueryParamExpr param => Ret (Req_QueryArg (Origin ctx) param)
  | originPathExpr => Ret (Req_Path (Origin ctx))
  | originCookieParamExpr param => Ret (Req_Cookie (Origin ctx) param)
  | originHeaderParamExpr param => Ret (Req_Header (Origin ctx) param)
  | originBodyParamExpr param =>
      '(value, _, _, err) ← Get (Req_Body (Origin ctx)) param;
      match err with Some _ => Ret [] | None => Ret value end
  | dependParamExpr param =>
      match Depend ctx with
      | Some data =>
          '(value, _, _, err) ← Get data param;
          match err with Some _ => Ret [] | None => Ret value end
      | None => Ret []
      end
  | pathParamExpr param =>
      match Params ctx with Some m => Ret (default [] (m !! param)) | None => Ret [] end
  end.

Fixpoint Exec (ctx : Ctx) (exprs : list expr) : outcome bytes :=
  match exprs with
  | [] => Ret []
  | e :: exprs => w ← expr_Exec e ctx; rest ← Exec ctx exprs; Ret (w ++ rest)
  end.

(** ** Scanner lemmas *)

(** The scanner after [pre] (scanned up to there) and [mid] (passed over), before [rest]. *)
Definition scan_at (pre mid rest : bytes) (t : token) : scanner :=
  mkScan (pre ++ mid ++ rest) t (len pre + len mid) (len pre) (hd eoi rest).

Definition plain (c : Z) : Prop := classify c = None.

Lemma Next_at pre mid c rest t t' :
  Next (mkScan (pre ++ mid ++ c :: rest) t' (len pre + len mid) (len pre) t) =
    scan_at pre (mid ++ [c]) rest t'.
Proof.
  unfold Next, scan_at; cbn [s_bp s_input s_token s_sp]. rewrite <- app_assoc. cbn [app].
  f_equal; [autorewrite with len; lia|].
  pose proof (len_nonneg pre). pose proof (len_nonneg mid). pose proof (len_nonneg rest).
  rewrite !len_app, len_cons. destruct rest as [|d rest].
  - rewrite len_nil. bcase; [lia|done].
  - rewrite len_cons in *. pose proof (len_nonneg rest). bcase; [|lia].
    replace (pre ++ mid ++ c :: d :: rest) with ((pre ++ mid ++ [c]) ++ d :: rest)
      by (by rewrite <- !app_assoc).
    replace (Z.to_nat (len pre + len mid + 1)) with (length (pre ++ mid ++ [c]))
      by (rewrite !length_app; unfold len; cbn [length]; lia).
    by rewrite list_lookup_middle.
Qed.

Lemma NextToken_loop w : ∀ pre mid c rest t t' fuel,
  Forall plain w -> classify c = Some t' -> (length w < fuel)%nat ->
  loop NextToken_step fuel (scan_at pre mid (w ++ c :: rest) t) =
    Ret (scan_at pre (mid ++ w ++ [c]) rest t').
Proof.
  induction w as [|x w IH]; intros pre mid c rest t t' fuel Hw Hc Hf;
    (destruct fuel as [|fuel]; [cbn in Hf; lia|]); cbn [loop app].
  - unfold NextToken_step, scan_at at 1. cbn [s_ch hd]. rewrite Hc. cbn [s_input s_bp s_sp].
    f_equal. apply Next_at.
  - apply Forall_cons in Hw as [Hx Hw]. unfold NextToken_step at 1, scan_at at 1. cbn [s_ch hd]. rewrite Hx.
    unfold scan_at at 1. cbn [hd]. rewrite Next_at.
    rewrite (IH pre (mid ++ [x]) c rest t t' fuel Hw Hc) by (cbn in Hf; lia).
    by rewrite <- (app_assoc mid [x]).
Qed.

(** The end of the input reads as [eoi]. *)
Lemma scan_eof w : ∀ pre mid t fuel,
  Forall plain w -> (length w < fuel)%nat ->
  loop NextToken_step fuel (scan_at pre mid w t) =
    Ret (mkScan (pre ++ mid ++ w) tokenEOF (len pre + len mid + len w + 1) (len pre) eoi).
Proof.
  induction w as [|x w IH]; intros pre mid t fuel Hw Hf;
    (destruct fuel as [|fuel]; [cbn in Hf; lia|]); cbn [loop].
  - unfold NextToken_step, scan_at. cbn [s_ch hd s_input s_bp s_sp]. unfold classify. cbn.
    unfold Next. cbn [s_bp s_input s_token s_sp]. autorewrite with len.
    destruct (Z.ltb_spec (len pre + len mid + 1) (len pre + (len mid + 0))); [lia|].
    do 2 f_equal. lia.
  - apply Forall_cons in Hw as [Hx Hw]. unfold NextToken_step at 1, scan_at at 1. cbn [s_ch hd]. rewrite Hx.
    unfold scan_at at 1. cbn [hd]. rewrite Next_at, IH by (done || (cbn in Hf; lia)).
    rewrite <- (app_assoc mid [x]). cbn [app]. f_equal. f_equal. autorewrite with len. lia.
Qed.

Lemma NextToken_at pre w c rest t t' :
  Forall plain w -> classify c = Some t' ->
  NextToken (scan_at pre [] (w ++ c :: rest) t) = Ret (scan_at pre (w ++ [c]) rest t').
Proof.
  intros Hw Hc. unfold NextToken.
  apply (NextToken_loop w pre [] c rest t t' _ Hw Hc). cbn [scan_at s_input app].
  rewrite !length_app. cbn. lia.
Qed.

Lemma ScanString_at pre w c rest t :
  ScanString (scan_at pre (w ++ [c]) rest t) = Ret (w, scan_at (pre ++ w ++ [c]) [] rest t).
Proof.
  unfold ScanString, scan_at. cbn [s_input s_sp s_bp s_token s_ch].
  rewrite <- !app_assoc. rewrite (slice_middle pre w); [|done|autorewrite with len; lia].
  cbn [mbind outcome_mbind app]. do 3 f_equal; [|]; autorewrite with len; lia.
Qed.

(** ** Templates

    A template as it is written: text and expressions between [$(] and [)]. *)
Inductive chunk :=
| CConst (v : bytes)
| CQuery
| CQueryParam (name : bytes)
| CPath
| CCookie (name : bytes)
| CHeader (name : bytes)
| CBody (key : bytes) (keys : list bytes)
| CDepend (key : bytes) (keys : list bytes)
| CParam (name : bytes).

Fixpoint dotted (keys : list bytes) : bytes :=
  match keys with [] => [] | k :: keys => ch "." :: k ++ dotted keys end.

(** The segments between the parentheses. *)
Definition segments (c : chunk) : bytes * list bytes :=
  match c with
  | CConst v => (v, [])
  | CQuery => (str "origin", [str "query"])
  | CQueryParam n => (str "origin", [str "query"; n])
  | CPath => (str "origin", [str "path"])
  | CCookie n => (str "origin", [str "cookie"; n])
  | CHeader n => (str "origin", [str "header"; n])
  | CBody k ks => (str "origin", str "body" :: k :: ks)
  | CDepend k ks => (str "depend", k :: ks)
  | CParam n => (str "param", [n])
  end.

Definition print_chunk (c : chunk) : bytes :=
  match c with
  | CConst v => v
  | _ => [dollar; lParen] ++ fst (segments c) ++ dotted (snd (segments c)) ++ [rParen]
  end.

Definition print (cs : list chunk) : bytes := concat (map print_chunk cs).

(** The expression of a chunk.  The first key of a [depend] is lost. *)
Definition expr_of (c : chunk) : expr :=
  match c with
  | CConst v => constExpr v
  | CQuery => originQueryExpr
  | CQueryParam n => originQueryParamExpr n
  | CPath => originPathExpr
  | CCookie n => originCookieParamExpr n
  | CHeader n => originHeaderParamExpr n
  | CBody k ks => originBodyParamExpr (k :: ks)
  | CDepend k ks => dependParamExpr ks
  | CParam n => pathParamExpr n
  end.

Definition name_ok (n : bytes) : Prop := Forall (λ c, plain c /\ c <> ch ".") n.

Definition chunk_ok (c : chunk) : Prop :=
  match c with
  | CConst v => v <> [] /\ Forall plain v
  | CQueryParam n | CCookie n | CHeader n | CParam n => name_ok n
  | CBody k ks | CDepend k ks => Forall name_ok (k :: ks)
  | _ => True
  end.

Definition is_const (c : chunk) : bool := match c with CConst _ => true | _ => false end.

(** Well-formed chunks, no two texts in a row. *)
Fixpoint template_ok (cs : list chunk) : Prop :=
  match cs with
  | [] => True
  | c :: cs => chunk_ok c /\ template_ok cs /\
      match cs with c' :: _ => is_const c && is_const c' = false | [] => True end
  end.

(** *** [newExpr] reads the segments *)

Lemma Split_dotted k ks sep : sep = ch "." -> Forall (λ n, Forall (λ c, c <> sep) n) (k :: ks) ->
  Split (k ++ dotted ks) sep = k :: ks.
Proof.
  intros ->. revert k. induction ks as [|k' ks IH]; intros k Hk; apply Forall_cons in Hk as [Hk Hks].
  - cbn [dotted]. rewrite app_nil_r. clear Hks. induction Hk as [|c k Hc Hk IHk]; [done|]. cbn [Split].
    destruct (Z.eqb_spec c (ch ".")); [done|]. by rewrite IHk.
  - cbn [dotted]. specialize (IH k' Hks). clear Hks. induction Hk as [|c k Hc Hk IHk]; cbn [app Split].
    + rewrite Z.eqb_refl. by rewrite IH.
    + destruct (Z.eqb_spec c (ch ".")); [done|]. by rewrite IHk.
Qed.

Lemma newExpr_chunk c : chunk_ok c -> is_const c = false ->
  newExpr (fst (segments c) ++ dotted (snd (segments c))) = inr (expr_of c).
Proof.
  intros Hc Hn. unfold newExpr.
  rewrite Split_dotted; [|done|].
  - destruct c; try done; cbn -[len]; try reflexivity.
    + unfold newOriginExpr. cbn -[len]. repeat rewrite ?len_cons.
      pose proof (len_nonneg keys). destruct (Z.ltb_spec (1 + (1 + (1 + len keys))) 3); [lia|done].
    + repeat rewrite ?len_cons. pose proof (len_nonneg keys).
      destruct (Z.ltb_spec (1 + (1 + len keys)) 2); [lia|done].
  - assert (Hname : ∀ n, name_ok n -> Forall (λ x, x <> ch ".") n)
      by (intros n Hx; eapply Forall_impl; [exact Hx|by intros ? [_ ?]]).
    assert (Hnames : ∀ ns, Forall name_ok ns -> Forall (λ n, Forall (λ x, x <> ch ".") n) ns)
      by (intros ns Hx; eapply Forall_impl; [exact Hx|auto]).
    destruct c; try done; cbn [segments fst snd chunk_ok] in *;
      repeat (apply Forall_cons; split); auto;
      try (apply Forall_cons in Hc as [? ?]; auto);
      try (repeat (apply Forall_cons; split); [discriminate..|done]).
Qed.

(** *** The loop of [Parse] *)

Definition open_prev (prev : token) : Prop := prev = tokenUnknown \/ prev = tokenRParen.

Lemma NextToken_end pre w t : Forall plain w ->
  NextToken (scan_at pre [] w t) =
    Ret (mkScan (pre ++ w) tokenEOF (len pre + len w + 1) (len pre) eoi).
Proof.
  intros Hw. unfold NextToken. rewrite (scan_eof w pre [] t) by
    (done || (cbn [scan_at s_input app]; rewrite length_app; lia)).
  cbn [app]. by rewrite len_nil, Z.add_0_r.
Qed.

Lemma parse_end pre w t prev es : Forall plain w -> open_prev prev ->
  Parse_step (scan_at pre [] w t, prev, es) = Ret (inr (inr (add_const es w))).
Proof.
  intros Hw Hp. unfold Parse_step. rewrite (NextToken_end pre w t Hw). cbn [mbind outcome_mbind s_token].
  assert (Hs : ScanString (mkScan (pre ++ w) tokenEOF (len pre + len w + 1) (len pre) eoi) =
    Ret (w, mkScan (pre ++ w) tokenEOF (len pre + len w + 1) (len pre + len w + 1) eoi)).
  { unfold ScanString. cbn [s_input s_sp s_bp]. rewrite <- (app_nil_r w) at 1.
    rewrite (slice_middle pre w []); [done|done|lia]. }
  destruct Hp as [-> | ->]; by rewrite Hs.
Qed.

Lemma parse_dollar pre w rest t prev es : Forall plain w -> open_prev prev ->
  Parse_step (scan_at pre [] (w ++ dollar :: rest) t, prev, es) =
    Ret (inl (scan_at (pre ++ w ++ [dollar]) [] rest tokenDollar, tokenDollar, add_const es w)).
Proof.
  intros Hw Hp. unfold Parse_step.
  rewrite (NextToken_at pre w dollar rest t tokenDollar Hw eq_refl). cbn [mbind outcome_mbind scan_at s_token].
  fold (scan_at pre (w ++ [dollar]) rest tokenDollar).
  destruct Hp as [-> | ->]; by rewrite ScanString_at.
Qed.

Lemma parse_lparen pre rest t es :
  Parse_step (scan_at pre [] (lParen :: rest) t, tokenDollar, es) =
    Ret (inl (scan_at (pre ++ [lParen]) [] rest tokenLParen, tokenLParen, es)).
Proof.
  unfold Parse_step.
  pose proof (NextToken_at pre [] lParen rest t tokenLParen (Forall_nil_2 _) eq_refl) as E.
  cbn [app] in E. rewrite E.
  cbn [mbind outcome_mbind scan_at s_token app].
  fold (scan_at pre [lParen] rest tokenLParen).
  pose proof (ScanString_at pre [] lParen rest tokenLParen) as E2. cbn [app] in E2. by rewrite E2.
Qed.

Lemma parse_rparen pre w rest t es e : Forall plain w -> newExpr w = inr e ->
  Parse_step (scan_at pre [] (w ++ rParen :: rest) t, tokenLParen, es) =
    Ret (inl (scan_at (pre ++ w ++ [rParen]) [] rest tokenRParen, tokenRParen, es ++ [e])).
Proof.
  intros Hw He. unfold Parse_step.
  rewrite (NextToken_at pre w rParen rest t tokenRParen Hw eq_refl). cbn [mbind outcome_mbind scan_at s_token].
  fold (scan_at pre (w ++ [rParen]) rest tokenRParen).
  rewrite ScanString_at. cbn [mbind outcome_mbind]. by rewrite He.
Qed.

Lemma plain_dotted ks : Forall name_ok ks -> Forall plain (dotted ks).
Proof.
  induction 1 as [|k ks Hk _ IH]; cbn [dotted]; [done|]. apply Forall_cons; split; [done|].
  apply Forall_app; split; [|done]. eapply Forall_impl; [exact Hk|by intros ? [? _]].
Qed.

Lemma name_ok_keywords : Forall name_ok [str "query"; str "path"; str "cookie"; str "header"; str "body"].
Proof. cbv. repeat constructor; discriminate. Qed.

Lemma plain_segments c : chunk_ok c -> is_const c = false ->
  Forall plain (fst (segments c) ++ dotted (snd (segments c))).
Proof.
  intros Hc Hn. apply Forall_app; split.
  - destruct c; try done; cbn; repeat (apply Forall_cons; split); done.
  - apply plain_dotted. pose proof name_ok_keywords as Hk. rewrite !Forall_cons in Hk. destruct_and? Hk.
    destruct c; try done; cbn [segments snd chunk_ok] in *; auto.
Qed.

Lemma parse_chunk c pre w rest t prev es r :
  chunk_ok c -> is_const c = false -> Forall plain w -> open_prev prev ->
  iterates Parse_step (scan_at (pre ++ w ++ print_chunk c) [] rest tokenRParen, tokenRParen,
    add_const es w ++ [expr_of c]) r ->
  iterates Parse_step (scan_at pre [] (w ++ print_chunk c ++ rest) t, prev, es) r.
Proof.
  intros Hc Hn Hw Hp Hr. set (seg := fst (segments c) ++ dotted (snd (segments c))).
  assert (Hpc : print_chunk c = dollar :: lParen :: seg ++ [rParen])
    by (unfold seg; destruct c; try done; cbn [print_chunk]; by rewrite <- app_assoc).
  rewrite Hpc in *. cbn [app].
  eapply iterates_next; [by apply parse_dollar|].
  eapply iterates_next; [by apply parse_lparen|].
  rewrite <- (app_assoc seg).
  eapply iterates_next; [apply parse_rparen; [by apply plain_segments|by apply newExpr_chunk]|].
  match goal with |- iterates _ (scan_at ?p _ _ _, _, _) _ =>
    replace p with (pre ++ w ++ dollar :: lParen :: seg ++ [rParen]) by (by rewrite <- !app_assoc) end.
  exact Hr.
Qed.

Lemma add_const_nil es : add_const es [] = es.
Proof. done. Qed.

Lemma parse_chunks cs : ∀ pre w t prev es,
  template_ok cs -> Forall plain w -> open_prev prev ->
  (w = [] \/ match cs with c :: _ => is_const c = false | [] => True end) ->
  iterates Parse_step (scan_at pre [] (w ++ print cs) t, prev, es)
    (inr (add_const es w ++ map expr_of cs)).
Proof.
  induction cs as [|c cs IH]; intros pre w t prev es Hok Hw Hp Hwc.
  - cbn [print map concat]. rewrite !app_nil_r. apply iterates_done. by apply parse_end.
  - destruct Hok as (Hc & Hok & Hadj). unfold print. cbn [map concat]. fold (print cs).
    destruct (is_const c) eqn:Ec.
    + destruct Hwc as [->|]; [|done]. destruct c as [v| | | | | | | |]; try done.
      destruct Hc as [Hv Hpv]. cbn [print_chunk app expr_of].
      replace (add_const es [] ++ constExpr v :: map expr_of cs) with (add_const es v ++ map expr_of cs).
      * apply IH; [done..|]. right. destruct cs as [|c' cs]; [done|]. by destruct (is_const c').
      * unfold add_const. cbn. destruct v as [|x v]; [done|]. rewrite len_cons. pose proof (len_nonneg v).
        destruct (Z.ltb_spec 0 (1 + len v)); [|lia]. by rewrite <- app_assoc.
    + apply parse_chunk; [done..|].
      specialize (IH (pre ++ w ++ print_chunk c) [] tokenRParen tokenRParen (add_const es w ++ [expr_of c])
        Hok (Forall_nil_2 _) (or_intror eq_refl) (or_introl eq_refl)).
      cbn [app] in IH. by rewrite add_const_nil, <- app_assoc in IH.
Qed.

(** *** Parsing returns *)

Definition scan_ok (scan : scanner) : Prop :=
  0 <= s_sp scan <= s_bp scan /\ s_bp scan <= len (s_input scan) /\
  (s_bp scan = len (s_input scan) -> s_ch scan = eoi).

Lemma Next_ok scan : 0 <= s_sp scan <= s_bp scan -> s_bp scan < len (s_input scan) -> scan_ok (Next scan).
Proof.
  intros Hs Hb. unfold scan_ok, Next. cbn. split_and!; try lia.
  intros E. rewrite E, Z.ltb_irrefl. done.
Qed.


Lemma scan_returns fuel : ∀ scan, scan_ok scan ->
  (Z.to_nat (len (s_input scan) - s_bp scan) < fuel)%nat ->
  ∃ scan', loop NextToken_step fuel scan = Ret scan' /\ s_input scan' = s_input scan /\
    s_sp scan' = s_sp scan /\ s_bp scan < s_bp scan' <= len (s_input scan) + 1 /\
    (s_token scan' <> tokenEOF -> scan_ok scan').
Proof.
  induction fuel as [|fuel IH]; intros scan Hok Hf; [lia|]. cbn [loop].
  pose proof Hok as (Hs & Hb & He). unfold NextToken_step at 1.
  destruct (classify (s_ch scan)) as [t|] eqn:Ec.
  - eexists. split; [done|]. cbn. split_and!; try done; try lia.
    intros Ht. apply Next_ok; cbn; [done|].
    assert (s_bp scan <> len (s_input scan)); [|lia].
    intros E. rewrite (He E) in Ec. cbn in Ec. by injection Ec as <-.
  - assert (s_bp scan <> len (s_input scan)) by (intros E; by rewrite (He E) in Ec).
    destruct (IH (Next scan)) as (scan' & Hl & Hi & Hsp & Hbp & Hok').
    + apply Next_ok; [done|lia].
    + cbn. lia.
    + exists scan'. cbn in *. split_and!; try done; lia.
Qed.

Lemma NextToken_ok scan : scan_ok scan ->
  ∃ scan', NextToken scan = Ret scan' /\ s_input scan' = s_input scan /\
    s_sp scan' = s_sp scan /\ s_bp scan < s_bp scan' <= len (s_input scan) + 1 /\
    (s_token scan' <> tokenEOF -> scan_ok scan').
Proof. intros H. apply scan_returns; [done|]. destruct H as (Hs & Hb & _). unfold len in *. lia. Qed.

(** The string is a slice inside the input. *)
Lemma ScanString_ok scan : 0 <= s_sp scan < s_bp scan -> s_bp scan <= len (s_input scan) + 1 ->
  ∃ v, ScanString scan =
    Ret (v, mkScan (s_input scan) (s_token scan) (s_bp scan) (s_bp scan) (s_ch scan)).
Proof. intros Hs Hb. unfold ScanString. rewrite slice_in_range by lia. by eexists. Qed.

Lemma Parse_step_ok scan prev es : scan_ok scan ->
  ∃ r, Parse_step (scan, prev, es) = Ret r /\
    ∀ scan' prev' es', r = inl (scan', prev', es') ->
      scan_ok scan' /\ s_bp scan < s_bp scan' /\ s_input scan' = s_input scan.
Proof.
  intros H. destruct (NextToken_ok scan H) as (sc & Hn & Hi & Hsp & Hbp & Hok).
  unfold Parse_step. rewrite Hn. cbn [mbind outcome_mbind].
  pose proof H as (Hs & _). rewrite <- Hi in Hbp.
  destruct (ScanString_ok sc) as [v Hv]; [lia|lia|].
  assert (Hnext : s_token sc <> tokenEOF -> scan_ok (mkScan (s_input sc) (s_token sc) (s_bp sc) (s_bp sc) (s_ch sc))).
  { intros Ht. destruct (Hok Ht) as (H1 & H2 & H3). unfold scan_ok. cbn in *. lia. }
  destruct (s_token sc) eqn:Et; try (destruct prev; try rewrite Hv; cbn [mbind outcome_mbind];
    try (destruct (newExpr v) as [?|?]); eexists; (split; [done|]); intros ? ? ? E; try discriminate E;
    injection E as <- <- <-; cbn; split_and!; try done; try lia; by apply Hnext).
  eexists. split; [done|]. intros ? ? ? [= <- <- <-]. split_and!; [by apply Hok|lia|done].
Qed.

Lemma Parse_returns value : returns (Parse value).
Proof.
  unfold Parse.
  apply (loop_returns _ (λ '(scan, _, _), scan_ok scan /\ s_input scan = value)
    (λ '(scan, _, _), Z.to_nat (len value - s_bp scan))).
  - intros [[scan prev] es] [H Hi]. destruct (Parse_step_ok scan prev es H) as (r & Hr & Hnext).
    exists r. split; [done|]. intros [[scan' prev'] es'] ->.
    destruct (Hnext _ _ _ eq_refl) as (H1 & H2 & H3). split; [split; [done|congruence]|].
    destruct H1 as (_ & Hb & _). rewrite H3, Hi in Hb. lia.
  - split; [|done]. unfold newScanner. unfold scan_ok, Next. cbn. split_and!; [lia|lia|apply len_nonneg|].
    intros E. rewrite <- E. done.
  - unfold newScanner, Next. cbn. unfold len. lia.
Qed.

Lemma newScanner_at value : newScanner value = scan_at [] [] value tokenEOF.
Proof.
  unfold newScanner, scan_at, Next. cbn. f_equal. destruct value as [|c value]; [done|].
  rewrite len_cons. pose proof (len_nonneg value). change (-1 + 1) with 0. bcase; [done|lia].
Qed.

Lemma Parse_printed :
  (∀ value, returns (Parse value)) /\
  (∀ cs, template_ok cs -> Parse (print cs) = Ret (inr (map expr_of cs))).
Proof.
  split; [exact Parse_returns|]. intros cs Hcs. unfold Parse.
  apply loop_iterates; [exact (Parse_returns (print cs))|]. rewrite newScanner_at.
  exact (parse_chunks cs [] [] tokenEOF tokenUnknown [] Hcs (Forall_nil_2 _) (or_introl eq_refl) (or_introl eq_refl)).
Qed.

(** C36: parsing a rewrite template always ends, in expressions or a syntax error, and a
    well-formed template written out parses to the expressions of its chunks; of a
    [depend] chunk the first key is lost. *)
Theorem Parse_print :
  (∀ value, returns (Parse value)) /\
  (∀ cs, template_ok cs -> Parse (print cs) = Ret (inr (map expr_of cs))).
Proof. exact Parse_printed. Qed.

Lemma Parse_print_witness :
  Parse (str "/v1$(origin.path)/$(param.id)?u=$(depend.user.name)") =
    Ret (inr [constExpr (str "/v1"); originPathExpr; constExpr (str "/"); pathParamExpr (str "id");
              constExpr (str "?u="); dependParamExpr [str "name"]]).
Proof.
  apply (proj2 Parse_print [CConst (str "/v1"); CPath; CConst (str "/"); CParam (str "id");
    CConst (str "?u="); CDepend (str "user") [str "name"]]).
  cbn. unfold name_ok, plain. repeat (done || split || constructor).
Defined.

(** ** Rewriting *)

(** The keys that reach the JSON reader are not empty. *)
Definition keys_given (c : chunk) : Prop :=
  match c with
  | CBody k ks => keys_ok (k :: ks)
  | CDepend k ks => keys_ok ks
  | _ => True
  end.

Lemma expr_Exec_returns c ctx : keys_given c -> returns (expr_Exec (expr_of c) ctx).
Proof.
  intros Hc. destruct c; cbn [expr_of expr_Exec keys_given] in *; eauto.
  - destruct (proj1 Get_good (Req_Body (Origin ctx)) (key :: keys) Hc) as (v & t & e & err & -> & _).
    cbn. destruct err; eauto.
  - destruct (Depend ctx) as [data|]; [|eauto].
    destruct (proj1 Get_good data keys Hc) as (v & t & e & err & -> & _). cbn. destruct err; eauto.
  - destruct (Params ctx); eauto.
Qed.

Lemma Exec_returns cs ctx : Forall keys_given cs -> returns (Exec ctx (map expr_of cs)).
Proof.
  induction 1 as [|c cs Hc _ [rest IH]]; cbn [map Exec]; [eauto|].
  destruct (expr_Exec_returns c ctx Hc) as [w ->]. cbn [mbind outcome_mbind]. rewrite IH.
  cbn [mbind outcome_mbind]. eauto.
Qed.

(** A well-formed template with no empty key rewrites every request without a panic; an
    empty key of a body expression lets a request choose to panic. *)
Theorem rewrite_total :
  (∀ cs ctx, template_ok cs -> Forall keys_given cs ->
     ∃ es out, Parse (print cs) = Ret (inr es) /\ Exec ctx es = Ret out) /\
  ∃ es, Parse (str "$(origin.body.)") = Ret (inr es) /\
    ∀ ctx, Req_Body (Origin ctx) = str "[1]" -> Exec ctx es = Panic.
Proof.
  split.
  - intros cs ctx Hcs Hk. exists (map expr_of cs). destruct (Exec_returns cs ctx Hk) as [out Hout].
    exists out. split; [by apply (proj2 Parse_printed)|done].
  - eexists. split; [by vm_compute|]. intros ctx Hb. cbn [Exec expr_Exec]. rewrite Hb.
    by rewrite (proj2 Get_good).
Qed.

Lemma rewrite_total_witness : ∃ es out, Parse (str "/users/$(param.id)") = Ret (inr es) /\
  Exec (mkCtx (mkRequest [] [] [] [] [] (λ _, []) (λ _, []) (λ _, []) (λ _, [])) None
    (Some {[ str "id" := str "7" ]})) es = Ret out /\ out = str "/users/7".
Proof.
  destruct (proj1 rewrite_total [CConst (str "/users/"); CParam (str "id")]
    (mkCtx (mkRequest [] [] [] [] [] (λ _, []) (λ _, []) (λ _, []) (λ _, [])) None
    (Some {[ str "id" := str "7" ]}))) as (es & out & H1 & H2).
  - cbn. unfold name_ok, plain. repeat (done || split || constructor).
  - repeat constructor.
  - exists es, out. split; [exact H1|]. split; [exact H2|].
    vm_compute in H1. injection H1 as <-. vm_compute in H2. by injection H2 as <-.
Defined.
