(* ===== verification/Validation.v ===== *)
(** Model of [src/src/pb/validation.go]: what the store asks of a message before it keeps it. *)
From S2P Require Import Prelude Meta Expr.

(** Go's [regexp.Compile], and [plugin.NewRuntime], which runs a plugin's script in the
    JavaScript engine: whether they succeed. *)
Class Checks := {
  regexp_Compile : bytes -> bool;
  NewRuntime : Plugin -> bool
}.

Inductive invalid :=
| missing_api | missing_cluster | missing_name | error_traffic_rate (rate : Z)
| missing_server_address | missing_server_max_qps
| missing_api_name | missing_URLPattern | error_rewrite (e : exprError) | error_regexp
| missing_plugin_name | missing_plugin_version | missing_plugin_content | error_plugin.

Definition ValidateRouting (value : Routing) : option invalid :=
  if Routing_API value =? 0 then Some missing_api
  else if Routing_ClusterID value =? 0 then Some missing_cluster
  else if bytes_eqb (Routing_Name value) [] then Some missing_name
  else if (Routing_TrafficRate value <=? 0) || (100 <? Routing_TrafficRate value)
  then Some (error_traffic_rate (Routing_TrafficRate value))
  else None.

Definition ValidateCluster (value : Cluster) : option invalid :=
  if bytes_eqb (Cluster_Name value) [] then Some missing_name else None.

Definition ValidateServer (value : Server) : option invalid :=
  if bytes_eqb (Server_Addr value) [] then Some missing_server_address
  else if Server_MaxQPS value =? 0 then Some missing_server_max_qps
  else None.

Section Validate.
Context {checks : Checks}.

Fixpoint validateRules (rules : list ValidationRule) : option invalid :=
  match rules with
  | [] => None
  | r :: rules =>
      if bool_decide (Rule_Type r = RuleRegexp) && negb (regexp_Compile (Rule_Expression r)) then Some error_regexp
      else validateRules rules
  end.

Fixpoint validateValidations (vs : list Validation) : option invalid :=
  match vs with
  | [] => None
  | v :: vs => match validateRules (Validation_Rules v) with Some e => Some e | None => validateValidations vs end
  end.

Fixpoint validateNodes (nodes : list DispatchNode) : outcome (option invalid) :=
  match nodes with
  | [] => Ret None
  | n :: nodes =>
      err ← (if bytes_eqb (DispatchNode_URLRewrite n) [] then Ret None
             else r ← Expr.Parse (DispatchNode_URLRewrite n);
                  Ret (match r with inl e => Some (error_rewrite e) | inr _ => None end));
      match err with
      | Some e => Ret (Some e)
      | None =>
          match validateValidations (DispatchNode_Validations n) with
          | Some e => Ret (Some e)
          | None => validateNodes nodes
          end
      end
  end.

Definition ValidateAPI (value : API) : outcome (option invalid) :=
  if bytes_eqb (API_Name value) [] then Ret (Some missing_api_name)
  else if bytes_eqb (API_URLPattern value) [] then Ret (Some missing_URLPattern)
  else validateNodes (API_Nodes value).

Definition ValidatePlugin (value : Plugin) : option invalid :=
  if bytes_eqb (Plugin_Name value) [] then Some missing_plugin_name
  else if Plugin_Version value =? 0 then Some missing_plugin_version
  else if len (Plugin_Content value) =? 0 then Some missing_plugin_content
  else if NewRuntime value then None else Some error_plugin.

End Validate.
