(* ===== verification/Builders.v ===== *)
(** Model of the builders of messages in [src/src/client]: [api.go], [server.go], [routing.go],
    [cluster.go] and [plugin.go].  A builder is the message it builds; a method that changes it is
    a function on messages.  The nodes of an API are changed through the builder only: the
    messages that a caller passed to [Use] and keeps are not followed. *)
From S2P Require Import Prelude Meta Matching Validation.

(** ** Assignments to a field *)
Definition api_Name x a :=
  mkAPI (API_ID a) x (API_URLPattern a) (API_Method a) (API_Domain a) (API_Status a) (API_IPAccessControl a)
    (API_DefaultValue a) (API_Nodes a) (API_UseDefault a) (API_MatchRule a) (API_MaxQPS a) (API_CircuitBreaker a)
    (API_RateLimitOption a) (API_RenderTemplate a) (API_WebSocketOptions a) (API_Perms a) (API_AuthFilter a)
    (API_Position a) (API_Tags a) (API_UseTLS a) (API_TlsEmbedCert a).
Definition api_URLPattern x a :=
  mkAPI (API_ID a) (API_Name a) x (API_Method a) (API_Domain a) (API_Status a) (API_IPAccessControl a)
    (API_DefaultValue a) (API_Nodes a) (API_UseDefault a) (API_MatchRule a) (API_MaxQPS a) (API_CircuitBreaker a)
    (API_RateLimitOption a) (API_RenderTemplate a) (API_WebSocketOptions a) (API_Perms a) (API_AuthFilter a)
    (API_Position a) (API_Tags a) (API_UseTLS a) (API_TlsEmbedCert a).
Definition api_Method x a :=
  mkAPI (API_ID a) (API_Name a) (API_URLPattern a) x (API_Domain a) (API_Status a) (API_IPAccessControl a)
    (API_DefaultValue a) (API_Nodes a) (API_UseDefault a) (API_MatchRule a) (API_MaxQPS a) (API_CircuitBreaker a)
    (API_RateLimitOption a) (API_RenderTemplate a) (API_WebSocketOptions a) (API_Perms a) (API_AuthFilter a)
    (API_Position a) (API_Tags a) (API_UseTLS a) (API_TlsEmbedCert a).
Definition api_Domain x a :=
  mkAPI (API_ID a) (API_Name a) (API_URLPattern a) (API_Method a) x (API_Status a) (API_IPAccessControl a)
    (API_DefaultValue a) (API_Nodes a) (API_UseDefault a) (API_MatchRule a) (API_MaxQPS a) (API_CircuitBreaker a)
    (API_RateLimitOption a) (API_RenderTemplate a) (API_WebSocketOptions a) (API_Perms a) (API_AuthFilter a)
    (API_Position a) (API_Tags a) (API_UseTLS a) (API_TlsEmbedCert a).
Definition api_Status x a :=
  mkAPI (API_ID a) (API_Name a) (API_URLPattern a) (API_Method a) (API_Domain a) x (API_IPAccessControl a)
    (API_DefaultValue a) (API_Nodes a) (API_UseDefault a) (API_MatchRule a) (API_MaxQPS a) (API_CircuitBreaker a)
    (API_RateLimitOption a) (API_RenderTemplate a) (API_WebSocketOptions a) (API_Perms a) (API_AuthFilter a)
    (API_Position a) (API_Tags a) (API_UseTLS a) (API_TlsEmbedCert a).
Definition api_IPAccessControl x a :=
  mkAPI (API_ID a) (API_Name a) (API_URLPattern a) (API_Method a) (API_Domain a) (API_Status a) x (API_DefaultValue a)
    (API_Nodes a) (API_UseDefault a) (API_MatchRule a) (API_MaxQPS a) (API_CircuitBreaker a) (API_RateLimitOption a)
    (API_RenderTemplate a) (API_WebSocketOptions a) (API_Perms a) (API_AuthFilter a) (API_Position a) (API_Tags a)
    (API_UseTLS a) (API_TlsEmbedCert a).
Definition api_DefaultValue x a :=
  mkAPI (API_ID a) (API_Name a) (API_URLPattern a) (API_Method a) (API_Domain a) (API_Status a)
    (API_IPAccessControl a) x (API_Nodes a) (API_UseDefault a) (API_MatchRule a) (API_MaxQPS a) (API_CircuitBreaker a)
    (API_RateLimitOption a) (API_RenderTemplate a) (API_WebSocketOptions a) (API_Perms a) (API_AuthFilter a)
    (API_Position a) (API_Tags a) (API_UseTLS a) (API_TlsEmbedCert a).
Definition api_Nodes x a :=
  mkAPI (API_ID a) (API_Name a) (API_URLPattern a) (API_Method a) (API_Domain a) (API_Status a)
    (API_IPAccessControl a) (API_DefaultValue a) x (API_UseDefault a) (API_MatchRule a) (API_MaxQPS a)
    (API_CircuitBreaker a) (API_RateLimitOption a) (API_RenderTemplate a) (API_WebSocketOptions a) (API_Perms a)
    (API_AuthFilter a) (API_Position a) (API_Tags a) (API_UseTLS a) (API_TlsEmbedCert a).
Definition api_UseDefault x a :=
  mkAPI (API_ID a) (API_Name a) (API_URLPattern a) (API_Method a) (API_Domain a) (API_Status a)
    (API_IPAccessControl a) (API_DefaultValue a) (API_Nodes a) x (API_MatchRule a) (API_MaxQPS a)
    (API_CircuitBreaker a) (API_RateLimitOption a) (API_RenderTemplate a) (API_WebSocketOptions a) (API_Perms a)
    (API_AuthFilter a) (API_Position a) (API_Tags a) (API_UseTLS a) (API_TlsEmbedCert a).
Definition api_RenderTemplate x a :=
  mkAPI (API_ID a) (API_Name a) (API_URLPattern a) (API_Method a) (API_Domain a) (API_Status a)
    (API_IPAccessControl a) (API_DefaultValue a) (API_Nodes a) (API_UseDefault a) (API_MatchRule a) (API_MaxQPS a)
    (API_CircuitBreaker a) (API_RateLimitOption a) x (API_WebSocketOptions a) (API_Perms a) (API_AuthFilter a)
    (API_Position a) (API_Tags a) (API_UseTLS a) (API_TlsEmbedCert a).
Definition api_WebSocketOptions x a :=
  mkAPI (API_ID a) (API_Name a) (API_URLPattern a) (API_Method a) (API_Domain a) (API_Status a)
    (API_IPAccessControl a) (API_DefaultValue a) (API_Nodes a) (API_UseDefault a) (API_MatchRule a) (API_MaxQPS a)
    (API_CircuitBreaker a) (API_RateLimitOption a) (API_RenderTemplate a) x (API_Perms a) (API_AuthFilter a)
    (API_Position a) (API_Tags a) (API_UseTLS a) (API_TlsEmbedCert a).
Definition api_Perms x a :=
  mkAPI (API_ID a) (API_Name a) (API_URLPattern a) (API_Method a) (API_Domain a) (API_Status a)
    (API_IPAccessControl a) (API_DefaultValue a) (API_Nodes a) (API_UseDefault a) (API_MatchRule a) (API_MaxQPS a)
    (API_CircuitBreaker a) (API_RateLimitOption a) (API_RenderTemplate a) (API_WebSocketOptions a) x
    (API_AuthFilter a) (API_Position a) (API_Tags a) (API_UseTLS a) (API_TlsEmbedCert a).
Definition api_AuthFilter x a :=
  mkAPI (API_ID a) (API_Name a) (API_URLPattern a) (API_Method a) (API_Domain a) (API_Status a)
    (API_IPAccessControl a) (API_DefaultValue a) (API_Nodes a) (API_UseDefault a) (API_MatchRule a) (API_MaxQPS a)
    (API_CircuitBreaker a) (API_RateLimitOption a) (API_RenderTemplate a) (API_WebSocketOptions a) (API_Perms a) x
    (API_Position a) (API_Tags a) (API_UseTLS a) (API_TlsEmbedCert a).
Definition api_Position x a :=
  mkAPI (API_ID a) (API_Name a) (API_URLPattern a) (API_Method a) (API_Domain a) (API_Status a)
    (API_IPAccessControl a) (API_DefaultValue a) (API_Nodes a) (API_UseDefault a) (API_MatchRule a) (API_MaxQPS a)
    (API_CircuitBreaker a) (API_RateLimitOption a) (API_RenderTemplate a) (API_WebSocketOptions a) (API_Perms a)
    (API_AuthFilter a) x (API_Tags a) (API_UseTLS a) (API_TlsEmbedCert a).
Definition api_Tags x a :=
  mkAPI (API_ID a) (API_Name a) (API_URLPattern a) (API_Method a) (API_Domain a) (API_Status a)
    (API_IPAccessControl a) (API_DefaultValue a) (API_Nodes a) (API_UseDefault a) (API_MatchRule a) (API_MaxQPS a)
    (API_CircuitBreaker a) (API_RateLimitOption a) (API_RenderTemplate a) (API_WebSocketOptions a) (API_Perms a)
    (API_AuthFilter a) (API_Position a) x (API_UseTLS a) (API_TlsEmbedCert a).

Definition node_URLRewrite x n :=
  mkDispatchNode (DispatchNode_ClusterID n) x (DispatchNode_AttrName n) (DispatchNode_Validations n)
    (DispatchNode_DefaultValue n) (DispatchNode_UseDefault n) (DispatchNode_BatchIndex n)
    (DispatchNode_RetryStrategy n) (DispatchNode_Cache n) (DispatchNode_HostType n) (DispatchNode_CustemHost n)
    (DispatchNode_WriteTimeout n) (DispatchNode_ReadTimeout n).
Definition node_AttrName x n :=
  mkDispatchNode (DispatchNode_ClusterID n) (DispatchNode_URLRewrite n) x (DispatchNode_Validations n)
    (DispatchNode_DefaultValue n) (DispatchNode_UseDefault n) (DispatchNode_BatchIndex n)
    (DispatchNode_RetryStrategy n) (DispatchNode_Cache n) (DispatchNode_HostType n) (DispatchNode_CustemHost n)
    (DispatchNode_WriteTimeout n) (DispatchNode_ReadTimeout n).
Definition node_Validations x n :=
  mkDispatchNode (DispatchNode_ClusterID n) (DispatchNode_URLRewrite n) (DispatchNode_AttrName n) x
    (DispatchNode_DefaultValue n) (DispatchNode_UseDefault n) (DispatchNode_BatchIndex n)
    (DispatchNode_RetryStrategy n) (DispatchNode_Cache n) (DispatchNode_HostType n) (DispatchNode_CustemHost n)
    (DispatchNode_WriteTimeout n) (DispatchNode_ReadTimeout n).
Definition node_DefaultValue x n :=
  mkDispatchNode (DispatchNode_ClusterID n) (DispatchNode_URLRewrite n) (DispatchNode_AttrName n)
    (DispatchNode_Validations n) x (DispatchNode_UseDefault n) (DispatchNode_BatchIndex n)
    (DispatchNode_RetryStrategy n) (DispatchNode_Cache n) (DispatchNode_HostType n) (DispatchNode_CustemHost n)
    (DispatchNode_WriteTimeout n) (DispatchNode_ReadTimeout n).
Definition node_UseDefault x n :=
  mkDispatchNode (DispatchNode_ClusterID n) (DispatchNode_URLRewrite n) (DispatchNode_AttrName n)
    (DispatchNode_Validations n) (DispatchNode_DefaultValue n) x (DispatchNode_BatchIndex n)
    (DispatchNode_RetryStrategy n) (DispatchNode_Cache n) (DispatchNode_HostType n) (DispatchNode_CustemHost n)
    (DispatchNode_WriteTimeout n) (DispatchNode_ReadTimeout n).
Definition node_BatchIndex x n :=
  mkDispatchNode (DispatchNode_ClusterID n) (DispatchNode_URLRewrite n) (DispatchNode_AttrName n)
    (DispatchNode_Validations n) (DispatchNode_DefaultValue n) (DispatchNode_UseDefault n) x
    (DispatchNode_RetryStrategy n) (DispatchNode_Cache n) (DispatchNode_HostType n) (DispatchNode_CustemHost n)
    (DispatchNode_WriteTimeout n) (DispatchNode_ReadTimeout n).
Definition node_RetryStrategy x n :=
  mkDispatchNode (DispatchNode_ClusterID n) (DispatchNode_URLRewrite n) (DispatchNode_AttrName n)
    (DispatchNode_Validations n) (DispatchNode_DefaultValue n) (DispatchNode_UseDefault n) (DispatchNode_BatchIndex n)
    x (DispatchNode_Cache n) (DispatchNode_HostType n) (DispatchNode_CustemHost n) (DispatchNode_WriteTimeout n)
    (DispatchNode_ReadTimeout n).
Definition node_Cache x n :=
  mkDispatchNode (DispatchNode_ClusterID n) (DispatchNode_URLRewrite n) (DispatchNode_AttrName n)
    (DispatchNode_Validations n) (DispatchNode_DefaultValue n) (DispatchNode_UseDefault n) (DispatchNode_BatchIndex n)
    (DispatchNode_RetryStrategy n) x (DispatchNode_HostType n) (DispatchNode_CustemHost n)
    (DispatchNode_WriteTimeout n) (DispatchNode_ReadTimeout n).

Definition server_Addr x s :=
  mkServer (Server_ID s) x (Server_MaxQPS s) (Server_HeathCheck s) (Server_CircuitBreaker s) (Server_Weight s)
    (Server_RateLimitOption s) (Server_Protocol s).
Definition server_MaxQPS x s :=
  mkServer (Server_ID s) (Server_Addr s) x (Server_HeathCheck s) (Server_CircuitBreaker s) (Server_Weight s)
    (Server_RateLimitOption s) (Server_Protocol s).
Definition server_HeathCheck x s :=
  mkServer (Server_ID s) (Server_Addr s) (Server_MaxQPS s) x (Server_CircuitBreaker s) (Server_Weight s)
    (Server_RateLimitOption s) (Server_Protocol s).
Definition server_CircuitBreaker x s :=
  mkServer (Server_ID s) (Server_Addr s) (Server_MaxQPS s) (Server_HeathCheck s) x (Server_Weight s)
    (Server_RateLimitOption s) (Server_Protocol s).
Definition server_Weight x s :=
  mkServer (Server_ID s) (Server_Addr s) (Server_MaxQPS s) (Server_HeathCheck s) (Server_CircuitBreaker s) x
    (Server_RateLimitOption s) (Server_Protocol s).
Definition server_Protocol x s :=
  mkServer (Server_ID s) (Server_Addr s) (Server_MaxQPS s) (Server_HeathCheck s) (Server_CircuitBreaker s)
    (Server_Weight s) (Server_RateLimitOption s) x.

Definition routing_ClusterID x r :=
  mkRouting (Routing_ID r) x (Routing_Conditions r) (Routing_Strategy r) (Routing_TrafficRate r) (Routing_Status r)
    (Routing_API r) (Routing_Name r).
Definition routing_Conditions x r :=
  mkRouting (Routing_ID r) (Routing_ClusterID r) x (Routing_Strategy r) (Routing_TrafficRate r) (Routing_Status r)
    (Routing_API r) (Routing_Name r).
Definition routing_Strategy x r :=
  mkRouting (Routing_ID r) (Routing_ClusterID r) (Routing_Conditions r) x (Routing_TrafficRate r) (Routing_Status r)
    (Routing_API r) (Routing_Name r).
Definition routing_TrafficRate x r :=
  mkRouting (Routing_ID r) (Routing_ClusterID r) (Routing_Conditions r) (Routing_Strategy r) x (Routing_Status r)
    (Routing_API r) (Routing_Name r).
Definition routing_Status x r :=
  mkRouting (Routing_ID r) (Routing_ClusterID r) (Routing_Conditions r) (Routing_Strategy r) (Routing_TrafficRate r) x
    (Routing_API r) (Routing_Name r).
Definition routing_API x r :=
  mkRouting (Routing_ID r) (Routing_ClusterID r) (Routing_Conditions r) (Routing_Strategy r) (Routing_TrafficRate r)
    (Routing_Status r) x (Routing_Name r).
Definition routing_Name x r :=
  mkRouting (Routing_ID r) (Routing_ClusterID r) (Routing_Conditions r) (Routing_Strategy r) (Routing_TrafficRate r)
    (Routing_Status r) (Routing_API r) x.

(** [make] of a message: its zero value. *)
Definition newAPI : API :=
  mkAPI 0 [] [] [] [] Down None None [] false MatchDefault 0 None Wait None None [] [] 0 [] false None.
Definition newNode (cluster : Z) : DispatchNode := mkDispatchNode cluster [] [] [] None false 0 None None HostOrigin [] 0 0.
Definition newHTTPResult : HTTPResult := mkHTTPResult [] [] [] 0.
Definition newServer : Server := mkServer 0 [] 0 None None 0 Wait HTTP.
Definition newCircuitBreaker : CircuitBreaker := mkCircuitBreaker 0 0 0 0 0.
Definition newRouting : Routing := mkRouting 0 0 [] Meta.Copy 0 Down 0 [].

(** ** Clusters *)
Definition ClusterBuilder : Type := Cluster.
Definition NewClusterBuilder : ClusterBuilder := mkCluster 0 [] RoundRobin.
Definition ClusterBuilder_Use (value : Cluster) (cb : ClusterBuilder) : ClusterBuilder := value.
Definition ClusterBuilder_Name (name : bytes) (cb : ClusterBuilder) : ClusterBuilder :=
  mkCluster (Cluster_ID cb) name (Cluster_LoadBalance cb).
Definition ClusterBuilder_Loadbalance (lb : LoadBalance) (cb : ClusterBuilder) : ClusterBuilder :=
  mkCluster (Cluster_ID cb) (Cluster_Name cb) lb.

(** ** Servers *)
Definition ServerBuilder : Type := Server.
Definition NewServerBuilder : ServerBuilder := newServer.
Definition ServerBuilder_Use (value : Server) (sb : ServerBuilder) : ServerBuilder := value.
Definition ServerBuilder_NoHeathCheck (sb : ServerBuilder) : ServerBuilder := server_HeathCheck None sb.
Definition ServerBuilder_CheckHTTPCode (path : bytes) (interval timeout : Z) (sb : ServerBuilder) : ServerBuilder :=
  server_HeathCheck (Some (mkHeathCheck path [] interval timeout)) sb.
Definition ServerBuilder_CheckHTTPBody (path body : bytes) (interval timeout : Z) (sb : ServerBuilder) : ServerBuilder :=
  server_HeathCheck (Some (mkHeathCheck path body interval timeout)) sb.
Definition ServerBuilder_Addr (addr : bytes) (sb : ServerBuilder) : ServerBuilder := server_Addr addr sb.
Definition ServerBuilder_HTTPBackend (sb : ServerBuilder) : ServerBuilder := server_Protocol HTTP sb.
Definition ServerBuilder_MaxQPS (max : Z) (sb : ServerBuilder) : ServerBuilder := server_MaxQPS max sb.
Definition ServerBuilder_Weight (weight : Z) (sb : ServerBuilder) : ServerBuilder := server_Weight weight sb.
Definition ServerBuilder_NoCircuitBreaker (sb : ServerBuilder) : ServerBuilder := server_CircuitBreaker None sb.

(** The circuit breaker, made when there is none. *)
Definition on_breaker (f : CircuitBreaker -> CircuitBreaker) (sb : ServerBuilder) : ServerBuilder :=
  server_CircuitBreaker (Some (f (default newCircuitBreaker (Server_CircuitBreaker sb)))) sb.

Definition ServerBuilder_CircuitBreakerCheckPeriod (checkPeriod : Z) : ServerBuilder -> ServerBuilder :=
  on_breaker (λ b, mkCircuitBreaker (CircuitBreaker_CloseTimeout b) (CircuitBreaker_HalfTrafficRate b) checkPeriod
    (CircuitBreaker_FailureRateToClose b) (CircuitBreaker_SucceedRateToOpen b)).
Definition ServerBuilder_CircuitBreakerHalfTrafficRate (rate : Z) : ServerBuilder -> ServerBuilder :=
  on_breaker (λ b, mkCircuitBreaker (CircuitBreaker_CloseTimeout b) (i32 rate) (CircuitBreaker_RateCheckPeriod b)
    (CircuitBreaker_FailureRateToClose b) (CircuitBreaker_SucceedRateToOpen b)).
Definition ServerBuilder_CircuitBreakerCloseToHalfTimeout (timeout : Z) : ServerBuilder -> ServerBuilder :=
  on_breaker (λ b, mkCircuitBreaker timeout (CircuitBreaker_HalfTrafficRate b) (CircuitBreaker_RateCheckPeriod b)
    (CircuitBreaker_FailureRateToClose b) (CircuitBreaker_SucceedRateToOpen b)).
Definition ServerBuilder_CircuitBreakerHalfToCloseCondition (failureRate : Z) : ServerBuilder -> ServerBuilder :=
  on_breaker (λ b, mkCircuitBreaker (CircuitBreaker_CloseTimeout b) (CircuitBreaker_HalfTrafficRate b)
    (CircuitBreaker_RateCheckPeriod b) (i32 failureRate) (CircuitBreaker_SucceedRateToOpen b)).
Definition ServerBuilder_CircuitBreakerHalfToOpenCondition (succeedRate : Z) : ServerBuilder -> ServerBuilder :=
  on_breaker (λ b, mkCircuitBreaker (CircuitBreaker_CloseTimeout b) (CircuitBreaker_HalfTrafficRate b)
    (CircuitBreaker_RateCheckPeriod b) (CircuitBreaker_FailureRateToClose b) (i32 succeedRate)).

(** ** Routings *)
Definition RoutingBuilder : Type := Routing.
Definition NewRoutingBuilder : RoutingBuilder := newRouting.
Definition RoutingBuilder_Use (value : Routing) (rb : RoutingBuilder) : RoutingBuilder := value.
Definition RoutingBuilder_To (clusterID : Z) (rb : RoutingBuilder) : RoutingBuilder := routing_ClusterID clusterID rb.
Definition RoutingBuilder_AddCondition (param : Param) (op : CMP) (expect : bytes) (rb : RoutingBuilder) : RoutingBuilder :=
  routing_Conditions (Routing_Conditions rb ++ [mkCondition param op expect]) rb.
Definition RoutingBuilder_TrafficRate (rate : Z) (rb : RoutingBuilder) : RoutingBuilder := routing_TrafficRate (i32 rate) rb.
Definition RoutingBuilder_Strategy (strategy : RoutingStrategy) (rb : RoutingBuilder) : RoutingBuilder :=
  routing_Strategy strategy rb.
Definition RoutingBuilder_Up (rb : RoutingBuilder) : RoutingBuilder := routing_Status Up rb.
Definition RoutingBuilder_Down (rb : RoutingBuilder) : RoutingBuilder := routing_Status Down rb.
Definition RoutingBuilder_Name (name : bytes) (rb : RoutingBuilder) : RoutingBuilder := routing_Name name rb.
Definition RoutingBuilder_API (api : Z) (rb : RoutingBuilder) : RoutingBuilder := routing_API api rb.

(** ** Plugins *)
Definition PluginBuilder : Type := Plugin.
Definition JavaScript : Z := 0.
Definition NewPluginBuilder : PluginBuilder := mkPlugin 0 [] [] [] Down 0 0 JavaScript [] [].
Definition PluginBuilder_Use (value : Plugin) (sb : PluginBuilder) : PluginBuilder := value.
Definition PluginBuilder_Name (name : bytes) (sb : PluginBuilder) : PluginBuilder :=
  mkPlugin (Plugin_ID sb) name (Plugin_Author sb) (Plugin_Email sb) (Plugin_Status sb) (Plugin_UpdateAt sb)
    (Plugin_Version sb) (Plugin_Type sb) (Plugin_Content sb) (Plugin_Cfg sb).
Definition PluginBuilder_Version (version : Z) (sb : PluginBuilder) : PluginBuilder :=
  mkPlugin (Plugin_ID sb) (Plugin_Name sb) (Plugin_Author sb) (Plugin_Email sb) (Plugin_Status sb) (Plugin_UpdateAt sb)
    version (Plugin_Type sb) (Plugin_Content sb) (Plugin_Cfg sb).
Definition PluginBuilder_Author (author email : bytes) (sb : PluginBuilder) : PluginBuilder :=
  mkPlugin (Plugin_ID sb) (Plugin_Name sb) author email (Plugin_Status sb) (Plugin_UpdateAt sb)
    (Plugin_Version sb) (Plugin_Type sb) (Plugin_Content sb) (Plugin_Cfg sb).
Definition PluginBuilder_Script (content cfg : bytes) (sb : PluginBuilder) : PluginBuilder :=
  mkPlugin (Plugin_ID sb) (Plugin_Name sb) (Plugin_Author sb) (Plugin_Email sb) (Plugin_Status sb) (Plugin_UpdateAt sb)
    (Plugin_Version sb) (Plugin_Type sb) content cfg.

(** ** APIs *)
Definition APIBuilder : Type := API.
Definition NewAPIBuilder : APIBuilder := newAPI.
Definition APIBuilder_Use (value : API) (ab : APIBuilder) : APIBuilder := value.
Definition APIBuilder_Name (name : bytes) (ab : APIBuilder) : APIBuilder := api_Name name ab.
Definition APIBuilder_AuthPlugin (name : bytes) (ab : APIBuilder) : APIBuilder := api_AuthFilter name ab.
Definition APIBuilder_AddPerm (perm : bytes) (ab : APIBuilder) : APIBuilder := api_Perms (API_Perms ab ++ [perm]) ab.
Definition APIBuilder_RemovePerm (perm : bytes) (ab : APIBuilder) : APIBuilder :=
  if len (API_Perms ab) =? 0 then ab else api_Perms (filter (λ p, p <> perm) (API_Perms ab)) ab.
Definition APIBuilder_WebSocketOptions (options : option WebSocketOptions) (ab : APIBuilder) : APIBuilder :=
  api_WebSocketOptions options ab.
Definition APIBuilder_MatchURLPattern (urlPattern : bytes) (ab : APIBuilder) : APIBuilder :=
  api_Domain [] (api_URLPattern urlPattern ab).
Definition APIBuilder_MatchMethod (method : bytes) (ab : APIBuilder) : APIBuilder := api_Domain [] (api_Method method ab).
Definition APIBuilder_MatchDomain (domain : bytes) (ab : APIBuilder) : APIBuilder :=
  api_URLPattern [] (api_Method [] (api_Domain domain ab)).
Definition APIBuilder_UP (ab : APIBuilder) : APIBuilder := api_Status Up ab.
Definition APIBuilder_Down (ab : APIBuilder) : APIBuilder := api_Status Down ab.
Definition APIBuilder_AddTag (key value : bytes) (ab : APIBuilder) : APIBuilder := api_Tags (API_Tags ab ++ [(key, value)]) ab.
Definition APIBuilder_RemoveTag (key : bytes) (ab : APIBuilder) : APIBuilder :=
  api_Tags (filter (λ tag, tag.1 <> key) (API_Tags ab)) ab.
Definition APIBuilder_Position (value : Z) (ab : APIBuilder) : APIBuilder := api_Position value ab.

(** *** Values to answer with *)
Definition with_body (value : bytes) (r : HTTPResult) : HTTPResult :=
  mkHTTPResult value (HTTPResult_Headers r) (HTTPResult_Cookies r) (HTTPResult_Code r).
Definition with_header (name value : bytes) (r : HTTPResult) : HTTPResult :=
  mkHTTPResult (HTTPResult_Body r) (HTTPResult_Headers r ++ [(name, value)]) (HTTPResult_Cookies r) (HTTPResult_Code r).
Definition with_cookie (name value : bytes) (r : HTTPResult) : HTTPResult :=
  mkHTTPResult (HTTPResult_Body r) (HTTPResult_Headers r) (HTTPResult_Cookies r ++ [(name, value)]) (HTTPResult_Code r).
Definition on_default (f : HTTPResult -> HTTPResult) (ab : APIBuilder) : APIBuilder :=
  api_DefaultValue (Some (f (default newHTTPResult (API_DefaultValue ab)))) ab.

Definition APIBuilder_NoDefaultValue (ab : APIBuilder) : APIBuilder := api_DefaultValue None ab.
Definition APIBuilder_DefaultValue (value : bytes) : APIBuilder -> APIBuilder := on_default (with_body value).
Definition APIBuilder_UseDefaultValue (force : bool) (ab : APIBuilder) : APIBuilder := api_UseDefault force ab.
Definition APIBuilder_AddDefaultValueHeader (name value : bytes) : APIBuilder -> APIBuilder := on_default (with_header name value).
Definition APIBuilder_AddDefaultValueCookie (name value : bytes) : APIBuilder -> APIBuilder := on_default (with_cookie name value).

(** *** Address lists *)
Definition with_whitelist (l : list bytes) (a : IPAccessControl) : IPAccessControl := mkIPAccessControl l (IPAccessControl_Blacklist a).
Definition with_blacklist (l : list bytes) (a : IPAccessControl) : IPAccessControl := mkIPAccessControl (IPAccessControl_Whitelist a) l.

(** The two nested loops of [RemoveWhitelist] and [RemoveBlacklist]. *)
Definition removeIPs (old ips : list bytes) : list bytes :=
  old ≫= λ o, (λ _, o) <$> filter (λ ip, o <> ip) ips.

Definition APIBuilder_NoWhitelist (ab : APIBuilder) : APIBuilder :=
  match API_IPAccessControl ab with None => ab | Some a => api_IPAccessControl (Some (with_whitelist [] a)) ab end.
Definition APIBuilder_NoBlacklist (ab : APIBuilder) : APIBuilder :=
  match API_IPAccessControl ab with None => ab | Some a => api_IPAccessControl (Some (with_blacklist [] a)) ab end.
Definition APIBuilder_RemoveWhitelist (ips : list bytes) (ab : APIBuilder) : APIBuilder :=
  match API_IPAccessControl ab with
  | None => ab
  | Some a => if len (IPAccessControl_Whitelist a) =? 0 then ab
              else api_IPAccessControl (Some (with_whitelist (removeIPs (IPAccessControl_Whitelist a) ips) a)) ab
  end.
Definition APIBuilder_RemoveBlacklist (ips : list bytes) (ab : APIBuilder) : APIBuilder :=
  match API_IPAccessControl ab with
  | None => ab
  | Some a => if len (IPAccessControl_Blacklist a) =? 0 then ab
              else api_IPAccessControl (Some (with_blacklist (removeIPs (IPAccessControl_Blacklist a) ips) a)) ab
  end.
Definition APIBuilder_AddWhitelist (ips : list bytes) (ab : APIBuilder) : APIBuilder :=
  let a := default (mkIPAccessControl [] []) (API_IPAccessControl ab) in
  api_IPAccessControl (Some (with_whitelist (IPAccessControl_Whitelist a ++ ips) a)) ab.
Definition APIBuilder_AddBlacklist (ips : list bytes) (ab : APIBuilder) : APIBuilder :=
  let a := default (mkIPAccessControl [] []) (API_IPAccessControl ab) in
  api_IPAccessControl (Some (with_blacklist (IPAccessControl_Blacklist a ++ ips) a)) ab.

(** *** Nodes *)

(** [getNode]: where the node is that is the [index]th of the cluster. *)
Fixpoint getNode (cluster index idx : Z) (nodes : list DispatchNode) : option nat :=
  match nodes with
  | [] => None
  | n :: nodes =>
      if (DispatchNode_ClusterID n =? cluster) && (idx =? index) then Some 0%nat
      else S <$> getNode cluster index (if DispatchNode_ClusterID n =? cluster then idx + 1 else idx) nodes
  end.

(** The node, or a new one of the cluster at the end. *)
Definition on_node (cluster idx : Z) (f : DispatchNode -> DispatchNode) (ab : APIBuilder) : APIBuilder :=
  api_Nodes (match getNode cluster idx 0 (API_Nodes ab) with
             | Some i => alter f i (API_Nodes ab)
             | None => API_Nodes ab ++ [f (newNode cluster)]
             end) ab.

Definition APIBuilder_AppendDispatchNode (cluster : Z) (ab : APIBuilder) : APIBuilder :=
  api_Nodes (API_Nodes ab ++ [newNode cluster]) ab.
Definition APIBuilder_AddDispatchNode (cluster : Z) (ab : APIBuilder) : APIBuilder :=
  if existsb (λ n, DispatchNode_ClusterID n =? cluster) (API_Nodes ab) then ab
  else APIBuilder_AppendDispatchNode cluster ab.

Definition set_timeouts (readTimeout writeTimeout : Z) (n : DispatchNode) : DispatchNode :=
  mkDispatchNode (DispatchNode_ClusterID n) (DispatchNode_URLRewrite n) (DispatchNode_AttrName n) (DispatchNode_Validations n)
    (DispatchNode_DefaultValue n) (DispatchNode_UseDefault n) (DispatchNode_BatchIndex n) (DispatchNode_RetryStrategy n)
    (DispatchNode_Cache n) (DispatchNode_HostType n) (DispatchNode_CustemHost n) writeTimeout readTimeout.
Definition set_host (hostType : HostType) (custom : bytes) (n : DispatchNode) : DispatchNode :=
  mkDispatchNode (DispatchNode_ClusterID n) (DispatchNode_URLRewrite n) (DispatchNode_AttrName n) (DispatchNode_Validations n)
    (DispatchNode_DefaultValue n) (DispatchNode_UseDefault n) (DispatchNode_BatchIndex n) (DispatchNode_RetryStrategy n)
    (DispatchNode_Cache n) hostType custom (DispatchNode_WriteTimeout n) (DispatchNode_ReadTimeout n).
Definition on_node_default (f : HTTPResult -> HTTPResult) (n : DispatchNode) : DispatchNode :=
  node_DefaultValue (Some (f (default newHTTPResult (DispatchNode_DefaultValue n)))) n.

Definition APIBuilder_DispatchNodeTimeoutsWithIndex (cluster idx readTimeout writeTimeout : Z) : APIBuilder -> APIBuilder :=
  on_node cluster idx (set_timeouts readTimeout writeTimeout).
Definition APIBuilder_DispatchNodeTimeouts (cluster readTimeout writeTimeout : Z) : APIBuilder -> APIBuilder :=
  APIBuilder_DispatchNodeTimeoutsWithIndex cluster 0 readTimeout writeTimeout.
Definition APIBuilder_DispatchNodeRetryStrategyWithIndex (cluster idx : Z) (strategy : option RetryStrategy) : APIBuilder -> APIBuilder :=
  on_node cluster idx (node_RetryStrategy strategy).
Definition APIBuilder_DispatchNodeRetryStrategy (cluster : Z) (strategy : option RetryStrategy) : APIBuilder -> APIBuilder :=
  APIBuilder_DispatchNodeRetryStrategyWithIndex cluster 0 strategy.
Definition APIBuilder_DispatchNodeBatchIndexWithIndex (cluster idx batchIndex : Z) : APIBuilder -> APIBuilder :=
  on_node cluster idx (node_BatchIndex (i32 batchIndex)).
Definition APIBuilder_DispatchNodeBatchIndex (cluster batchIndex : Z) : APIBuilder -> APIBuilder :=
  APIBuilder_DispatchNodeBatchIndexWithIndex cluster 0 batchIndex.
Definition APIBuilder_AddDispatchNodeDefaultValueWithIndex (cluster idx : Z) (value : bytes) : APIBuilder -> APIBuilder :=
  on_node cluster idx (on_node_default (with_body value)).
Definition APIBuilder_AddDispatchNodeDefaultValue (cluster : Z) (value : bytes) : APIBuilder -> APIBuilder :=
  APIBuilder_AddDispatchNodeDefaultValueWithIndex cluster 0 value.
Definition APIBuilder_UseDispatchNodeDefaultValueWithIndex (cluster idx : Z) (force : bool) : APIBuilder -> APIBuilder :=
  on_node cluster idx (node_UseDefault force).
Definition APIBuilder_UseDispatchNodeDefaultValue (cluster : Z) (force : bool) : APIBuilder -> APIBuilder :=
  APIBuilder_UseDispatchNodeDefaultValueWithIndex cluster 0 force.
Definition APIBuilder_AddDispatchNodeDefaultValueHeaderWithIndex (cluster idx : Z) (name value : bytes) : APIBuilder -> APIBuilder :=
  on_node cluster idx (on_node_default (with_header name value)).
Definition APIBuilder_AddDispatchNodeDefaultValueHeader (cluster : Z) (name value : bytes) : APIBuilder -> APIBuilder :=
  APIBuilder_AddDispatchNodeDefaultValueHeaderWithIndex cluster 0 name value.
Definition APIBuilder_AddDispatchNodeDefaultValueCookieWithIndex (cluster idx : Z) (name value : bytes) : APIBuilder -> APIBuilder :=
  on_node cluster idx (on_node_default (with_cookie name value)).
Definition APIBuilder_AddDispatchNodeDefaultValueCookie (cluster : Z) (name value : bytes) : APIBuilder -> APIBuilder :=
  APIBuilder_AddDispatchNodeDefaultValueCookieWithIndex cluster 0 name value.
Definition APIBuilder_RemoveDispatchNodeURLRewrite (cluster : Z) (ab : APIBuilder) : APIBuilder :=
  api_Nodes ((λ n, if DispatchNode_ClusterID n =? cluster then node_URLRewrite [] n else n) <$> API_Nodes ab) ab.

(** [uint64(deadline.Seconds())] of a duration in nanoseconds. *)
Definition seconds (deadline : Z) : Z := u64 (Z.quot deadline 1000000000).

Definition APIBuilder_DispatchNodeUseCachingWithIndex (cluster index deadline : Z) : APIBuilder -> APIBuilder :=
  on_node cluster index (node_Cache (Some (mkCacheOption [] (seconds deadline) []))).
Definition APIBuilder_DispatchNodeUseCaching (cluster deadline : Z) : APIBuilder -> APIBuilder :=
  APIBuilder_DispatchNodeUseCachingWithIndex cluster 0 deadline.

(** A change of the cache options of a node there is; without them it panics. *)
Definition on_cache (cluster index : Z) (f : CacheOption -> CacheOption) (ab : APIBuilder) : outcome APIBuilder :=
  match getNode cluster index 0 (API_Nodes ab) with
  | None => Ret ab
  | Some i =>
      match API_Nodes ab !! i ≫= DispatchNode_Cache with
      | None => Panic
      | Some cache => Ret (api_Nodes (alter (node_Cache (Some (f cache))) i (API_Nodes ab)) ab)
      end
  end.
Definition APIBuilder_AddDispatchNodeCachingKeyWithIndex (cluster index : Z) (keys : list Param) : APIBuilder -> outcome APIBuilder :=
  on_cache cluster index (λ c, mkCacheOption (Cache_Keys c ++ keys) (Cache_Deadline c) (Cache_Conditions c)).
Definition APIBuilder_AddDispatchNodeCachingKey (cluster : Z) (keys : list Param) : APIBuilder -> outcome APIBuilder :=
  APIBuilder_AddDispatchNodeCachingKeyWithIndex cluster 0 keys.
Definition APIBuilder_AddDispatchNodeCachingConditionWithIndex (cluster index : Z) (param : Param) (op : CMP) (expect : bytes)
  : APIBuilder -> outcome APIBuilder :=
  on_cache cluster index (λ c, mkCacheOption (Cache_Keys c) (Cache_Deadline c) (Cache_Conditions c ++ [mkCondition param op expect])).
Definition APIBuilder_AddDispatchNodeCachingCondition (cluster : Z) (param : Param) (op : CMP) (expect : bytes)
  : APIBuilder -> outcome APIBuilder :=
  APIBuilder_AddDispatchNodeCachingConditionWithIndex cluster 0 param op expect.

Definition APIBuilder_DispatchNodeURLRewriteWithIndex (cluster index : Z) (urlRewrite : bytes) : APIBuilder -> APIBuilder :=
  on_node cluster index (node_URLRewrite urlRewrite).
Definition APIBuilder_DispatchNodeURLRewrite (cluster : Z) (urlRewrite : bytes) : APIBuilder -> APIBuilder :=
  APIBuilder_DispatchNodeURLRewriteWithIndex cluster 0 urlRewrite.
Definition APIBuilder_DispatchNodeValueAttrNameWithIndex (cluster index : Z) (attrName : bytes) : APIBuilder -> APIBuilder :=
  on_node cluster index (node_AttrName attrName).
Definition APIBuilder_DispatchNodeValueAttrName (cluster : Z) (attrName : bytes) : APIBuilder -> APIBuilder :=
  APIBuilder_DispatchNodeValueAttrNameWithIndex cluster 0 attrName.

(** The rule goes to the first validation of the parameter, or to a new one. *)
Definition same_param (param : Param) (v : Validation) : bool :=
  bytes_eqb (Param_Name (Validation_Param v)) (Param_Name param) && bool_decide (Param_Source (Validation_Param v) = Param_Source param).
Fixpoint addRule (param : Param) (rule : bytes) (required : bool) (l : list Validation) : list Validation :=
  match l with
  | [] => [mkValidation param required [mkValidationRule RuleRegexp rule]]
  | v :: l => if same_param param v then mkValidation (Validation_Param v) (Validation_Required v) (Validation_Rules v ++ [mkValidationRule RuleRegexp rule]) :: l
              else v :: addRule param rule required l
  end.
Definition APIBuilder_AddDispatchNodeValidationWithIndex (cluster index : Z) (param : Param) (rule : bytes) (required : bool)
  : APIBuilder -> APIBuilder :=
  on_node cluster index (λ n, node_Validations (addRule param rule required (DispatchNode_Validations n)) n).
Definition APIBuilder_AddDispatchNodeValidation (cluster : Z) (param : Param) (rule : bytes) (required : bool) : APIBuilder -> APIBuilder :=
  APIBuilder_AddDispatchNodeValidationWithIndex cluster 0 param rule required.
Definition APIBuilder_AddDispatchNodeHostWithIndex (cluster idx : Z) (hostType : HostType) (custom : bytes) : APIBuilder -> APIBuilder :=
  on_node cluster idx (set_host hostType custom).
Definition APIBuilder_AddDispatchNodeHost (cluster : Z) (hostType : HostType) (custom : bytes) : APIBuilder -> APIBuilder :=
  APIBuilder_AddDispatchNodeHostWithIndex cluster 0 hostType custom.

(** *** The template *)
Definition APIBuilder_NoRenderTemplate (ab : APIBuilder) : APIBuilder := api_RenderTemplate None ab.

Fixpoint pairs (l : list bytes) : list RenderAttr :=
  match l with name :: exp :: l => mkRenderAttr name exp :: pairs l | _ => [] end.
Definition add_attrs (attrs : list RenderAttr) (o : RenderObject) : RenderObject :=
  mkRenderObject (RenderObject_Name o) (RenderObject_Attrs o ++ attrs) (RenderObject_FlatAttrs o).

(** The last object of the name, or a new one. *)
Definition addRenderObject (nameInTemplate : bytes) (flatAttrs : bool) (l : list bytes) (ab : APIBuilder) : APIBuilder :=
  if (len l =? 0) || negb (len l mod 2 =? 0) then ab
  else
    let objects := match API_RenderTemplate ab with Some t => RenderTemplate_Objects t | None => [] end in
    let objects :=
      match last (filter (λ p, RenderObject_Name p.2 = nameInTemplate) (imap pair objects)) with
      | Some (i, _) => alter (add_attrs (pairs l)) i objects
      | None => objects ++ [add_attrs (pairs l) (mkRenderObject nameInTemplate [] flatAttrs)]
      end in
    api_RenderTemplate (Some (mkRenderTemplate objects)) ab.
Definition APIBuilder_AddFlatRenderObject (l : list bytes) : APIBuilder -> APIBuilder := addRenderObject [] true l.
Definition APIBuilder_AddRenderObject (nameInTemplate : bytes) (l : list bytes) : APIBuilder -> APIBuilder :=
  addRenderObject nameInTemplate false l.

(** ** The nodes of a cluster *)

(** The nodes of a cluster in order are what an index counts. *)
Definition nodes_of (cluster : Z) (ab : APIBuilder) : list DispatchNode :=
  filter (λ n, DispatchNode_ClusterID n = cluster) (API_Nodes ab).

(** What the operations on a node make of the nodes of its cluster. *)
Definition update_nth (cluster idx : Z) (f : DispatchNode -> DispatchNode) (l : list DispatchNode) : list DispatchNode :=
  if (0 <=? idx) && (idx <? len l) then alter f (Z.to_nat idx) l else l ++ [f (newNode cluster)].

Lemma getNode_spec cluster index : ∀ nodes idx, idx <= index ->
  match getNode cluster index idx nodes with
  | Some i => ∃ pre n post, nodes = pre ++ n :: post /\ length pre = i /\ DispatchNode_ClusterID n = cluster /\
      len (filter (λ n, DispatchNode_ClusterID n = cluster) pre) = index - idx
  | None => len (filter (λ n, DispatchNode_ClusterID n = cluster) nodes) <= index - idx
  end.
Proof.
  induction nodes as [|n nodes IH]; intros idx H; [cbn; unfold len; cbn; lia|]. cbn [getNode].
  destruct (Z.eqb_spec (DispatchNode_ClusterID n) cluster) as [E|E]; cbn [andb].
  - destruct (Z.eqb_spec idx index) as [->|N].
    + exists [], n, nodes. repeat split; [done|]. rewrite filter_nil, len_nil. lia.
    + specialize (IH (idx + 1) ltac:(lia)). destruct (getNode cluster index (idx + 1) nodes) as [i|]; cbn [fmap option_fmap option_map].
      * destruct IH as (pre & m & post & -> & <- & ? & L). exists (n :: pre), m, post. repeat split; [done|].
        rewrite filter_cons_True, len_cons by done. lia.
      * rewrite filter_cons_True, len_cons by done. lia.
  - specialize (IH idx H). destruct (getNode cluster index idx nodes) as [i|]; cbn [fmap option_fmap option_map].
    + destruct IH as (pre & m & post & -> & <- & ? & L). exists (n :: pre), m, post. repeat split; [done|].
      by rewrite filter_cons_False.
    + by rewrite filter_cons_False.
Qed.

(** An index below zero is never met. *)
Lemma getNode_below cluster index : ∀ nodes idx, index < idx -> getNode cluster index idx nodes = None.
Proof.
  induction nodes as [|n nodes IH]; intros idx H; [done|]. cbn [getNode].
  rewrite (proj2 (Z.eqb_neq idx index)), andb_false_r by lia. rewrite IH; [done|]. case_match; lia.
Qed.

(** The operations with an index, and what each changes in the node. *)
Inductive node_method :=
| Timeouts (readTimeout writeTimeout : Z) | Retries (strategy : option RetryStrategy) | BatchIndex_ (batchIndex : Z)
| DefaultBody (value : bytes) | DefaultForce (force : bool) | DefaultHeader (name value : bytes)
| DefaultCookie (name value : bytes) | Caching_ (deadline : Z) | Rewrite (urlRewrite : bytes) | AttrName_ (attrName : bytes)
| Rule (param : Param) (rule : bytes) (required : bool) | Host_ (hostType : HostType) (custom : bytes).

Definition call (m : node_method) (cluster idx : Z) : APIBuilder -> APIBuilder :=
  match m with
  | Timeouts r w => APIBuilder_DispatchNodeTimeoutsWithIndex cluster idx r w
  | Retries s => APIBuilder_DispatchNodeRetryStrategyWithIndex cluster idx s
  | BatchIndex_ b => APIBuilder_DispatchNodeBatchIndexWithIndex cluster idx b
  | DefaultBody v => APIBuilder_AddDispatchNodeDefaultValueWithIndex cluster idx v
  | DefaultForce b => APIBuilder_UseDispatchNodeDefaultValueWithIndex cluster idx b
  | DefaultHeader n v => APIBuilder_AddDispatchNodeDefaultValueHeaderWithIndex cluster idx n v
  | DefaultCookie n v => APIBuilder_AddDispatchNodeDefaultValueCookieWithIndex cluster idx n v
  | Caching_ d => APIBuilder_DispatchNodeUseCachingWithIndex cluster idx d
  | Rewrite u => APIBuilder_DispatchNodeURLRewriteWithIndex cluster idx u
  | AttrName_ a => APIBuilder_DispatchNodeValueAttrNameWithIndex cluster idx a
  | Rule p r q => APIBuilder_AddDispatchNodeValidationWithIndex cluster idx p r q
  | Host_ h c => APIBuilder_AddDispatchNodeHostWithIndex cluster idx h c
  end.

Definition change (m : node_method) : DispatchNode -> DispatchNode :=
  match m with
  | Timeouts r w => set_timeouts r w
  | Retries s => node_RetryStrategy s
  | BatchIndex_ b => node_BatchIndex (i32 b)
  | DefaultBody v => on_node_default (with_body v)
  | DefaultForce b => node_UseDefault b
  | DefaultHeader n v => on_node_default (with_header n v)
  | DefaultCookie n v => on_node_default (with_cookie n v)
  | Caching_ d => node_Cache (Some (mkCacheOption [] (seconds d) []))
  | Rewrite u => node_URLRewrite u
  | AttrName_ a => node_AttrName a
  | Rule p r q => λ n, node_Validations (addRule p r q (DispatchNode_Validations n)) n
  | Host_ h c => set_host h c
  end.

Lemma call_change m cluster idx ab : call m cluster idx ab = on_node cluster idx (change m) ab.
Proof. by destruct m. Qed.
Lemma change_cluster m n : DispatchNode_ClusterID (change m n) = DispatchNode_ClusterID n.
Proof. by destruct m. Qed.

Lemma on_node_nodes cluster idx f ab : (∀ n, DispatchNode_ClusterID (f n) = DispatchNode_ClusterID n) ->
  nodes_of cluster (on_node cluster idx f ab) = update_nth cluster idx f (nodes_of cluster ab) /\
  ∀ other, other <> cluster -> nodes_of other (on_node cluster idx f ab) = nodes_of other ab.
Proof.
  intros Hf. unfold on_node, nodes_of, update_nth. simpl. destruct (Z.ltb_spec idx 0) as [Hn|Hn].
  - rewrite getNode_below, (proj2 (Z.leb_gt 0 idx)) by lia. cbn [andb].
    split; [|intros other Ho]; rewrite filter_app; [rewrite filter_cons_True, filter_nil by by rewrite Hf|]; [done|].
    rewrite filter_cons_False, filter_nil, app_nil_r by (rewrite Hf; simpl; congruence). done.
  - rewrite (proj2 (Z.leb_le 0 idx)) by lia. cbn [andb].
    pose proof (getNode_spec cluster idx (API_Nodes ab) 0 ltac:(lia)) as G.
    destruct (getNode cluster idx 0 (API_Nodes ab)) as [i|].
    + destruct G as (pre & n & post & -> & <- & E & L). rewrite Z.sub_0_r in L.
      replace (length pre) with (length pre + 0)%nat by lia. rewrite alter_app_r. cbn [alter list_alter].
      split; [|intros other Ho]; rewrite !filter_app.
      * rewrite !filter_cons_True by (by rewrite ?Hf). rewrite len_app, len_cons.
        pose proof (len_nonneg (filter (λ n, DispatchNode_ClusterID n = cluster) post)).
        rewrite (proj2 (Z.ltb_lt idx _)) by lia.
        replace (Z.to_nat idx) with (length (filter (λ n, DispatchNode_ClusterID n = cluster) pre) + 0)%nat by (unfold len in L; lia).
        by rewrite alter_app_r.
      * rewrite !filter_cons_False by (rewrite ?Hf; congruence). done.
    + rewrite (proj2 (Z.ltb_ge idx _)) by lia.
      split; [|intros other Ho]; rewrite filter_app; [rewrite filter_cons_True, filter_nil by by rewrite Hf|]; [done|].
      rewrite filter_cons_False, filter_nil, app_nil_r by (rewrite Hf; simpl; congruence). done.
Qed.

(** An operation of the builder on the node of a cluster with an index changes exactly the
    node that is the index-th of the cluster's nodes, in its place, and adds one at the end when
    the cluster has not that many; the nodes of other clusters and everything else stay. *)
Theorem builder_node m cluster idx ab :
  nodes_of cluster (call m cluster idx ab) = update_nth cluster idx (change m) (nodes_of cluster ab) /\
  (∀ other, other <> cluster -> nodes_of other (call m cluster idx ab) = nodes_of other ab) /\
  api_Nodes (API_Nodes ab) (call m cluster idx ab) = ab.
Proof.
  rewrite call_change. destruct (on_node_nodes cluster idx (change m) ab (change_cluster m)) as [H1 H2].
  split; [done|]. split; [done|]. by destruct ab.
Qed.

(** ** Removing addresses *)

Lemma removeIPs_one old ip : removeIPs old [ip] = filter (λ o, o <> ip) old.
Proof.
  unfold removeIPs. induction old as [|o old IH]; [done|]. rewrite bind_cons, IH.
  rewrite (filter_cons (λ x, o <> x) ip []), filter_nil, (filter_cons (λ x, x <> ip)). by repeat case_decide.
Qed.

Definition whitelist (ab : APIBuilder) : list bytes :=
  match API_IPAccessControl ab with Some a => IPAccessControl_Whitelist a | None => [] end.

(** One address is removed wherever it is; of two or more at once, none is. *)
Theorem whitelist_removed ab ips : NoDup ips ->
  (∀ ip, whitelist (APIBuilder_RemoveWhitelist [ip] ab) = filter (λ o, o <> ip) (whitelist ab)) /\
  (2 <= len ips -> ∀ o, o ∈ whitelist ab -> o ∈ whitelist (APIBuilder_RemoveWhitelist ips ab)).
Proof.
  intros N. unfold whitelist, APIBuilder_RemoveWhitelist. destruct (API_IPAccessControl ab) as [a|] eqn:E; cbn; [|rewrite E].
  2: { split; [done|]. intros _ o Ho. by apply not_elem_of_nil in Ho. }
  destruct (Z.eqb_spec (len (IPAccessControl_Whitelist a)) 0) as [L|L]; cbn.
  - rewrite E. apply len_zero in L. rewrite L. split; [done|]. intros _ o Ho. by apply not_elem_of_nil in Ho.
  - split; [intros ip; apply removeIPs_one|]. intros L2 o Ho. unfold removeIPs. apply list_elem_of_bind. exists o.
    split; [|done]. apply list_elem_of_fmap.
    destruct ips as [|x [|y ips]]; [unfold len in L2; simpl in L2; lia..|].
    destruct (decide (o = x)) as [->|D]; [exists y|exists x]; (split; [done|]); apply list_elem_of_filter; (split; [|set_solver]); [|done].
    intros ->. apply NoDup_cons in N as [N _]. set_solver.
Qed.

(** ** An API with two nodes of one cluster *)
Module BuilderSamples.
Definition two : APIBuilder :=
  APIBuilder_AppendDispatchNode 7 (APIBuilder_AppendDispatchNode 7 (APIBuilder_AddDispatchNode 5
    (APIBuilder_AddWhitelist [[1]; [2]; [3]] NewAPIBuilder))).

Example second_node : DispatchNode_AttrName <$> API_Nodes (APIBuilder_DispatchNodeValueAttrNameWithIndex 7 1 [9] two) = [[]; []; [9]].
Proof. reflexivity. Qed.
Example third_node : DispatchNode_ClusterID <$> API_Nodes (APIBuilder_DispatchNodeValueAttrNameWithIndex 7 2 [9] two) = [5; 7; 7; 7].
Proof. reflexivity. Qed.
Example removed_two : whitelist (APIBuilder_RemoveWhitelist [[1]; [2]] two) = [[1]; [2]; [3]; [3]].
Proof. reflexivity. Qed.
(** A caching key on a node without caching is a nil pointer. *)
Example caching_key : APIBuilder_AddDispatchNodeCachingKey 7 [] two = Panic.
Proof. reflexivity. Qed.

Lemma builder_node_witness : nodes_of 5 (call (AttrName_ [9]) 7 1 two) = nodes_of 5 two.
Proof. apply (proj1 (proj2 (builder_node (AttrName_ [9]) 7 1 two)) 5). discriminate. Defined.

Lemma whitelist_removed_witness : NoDup [[1]; [2]] /\ ∀ o, o ∈ [[1]; [2]; [3]] -> o ∈ whitelist (APIBuilder_RemoveWhitelist [[1]; [2]] two).
Proof.
  assert (NoDup [[1]; [2]]) as N by (apply NoDup_cons; split; [set_solver|apply NoDup_singleton]).
  split; [exact N|]. apply (proj2 (whitelist_removed two [[1]; [2]] N)). reflexivity || (unfold len; simpl; lia).
Defined.
End BuilderSamples.
