(* ===== verification/Counters.v ===== *)
(** Model of the request statistics [src/src/utils/analysis.go]: counters per target, dumped
    when a timer expires, and the figures of the recent past computed from two dumps.

    The counters are atomic 64-bit integers.  A [Recently] is an object that the map of
    figures and a pending timer both point to, so the objects are in a store and both hold
    its address. *)
From S2P Require Import Prelude.

(** [time.Second] *)
Definition second : Z := 1000000000.

(** ** Pending timers

    The timers the wheel holds, by handle, each with its argument. *)
Abbreviation timers := (gmap Z Z).

(** [Timeout.Stop] *)
Definition Timeout_Stop (t : option Z) (ts : timers) : timers :=
  match t with Some h => delete h ts | None => ts end.

Module Analysis.

Record point := mkPoint {
  requests : Z;
  rejects : Z;
  failure : Z;
  successed : Z;
  continuousFailure : Z;
  costs : Z;
  max_ : Z;
  min_ : Z
}.

Definition newPoint : point := mkPoint 0 0 0 0 0 0 0 0.

(** [p.dump(target)]: both points are changed. *)
Definition dump (p target : point) : point * point :=
  (mkPoint (requests p) (rejects p) (failure p) (successed p) (continuousFailure p) (costs p) 0 0,
   mkPoint (requests p) (rejects p) (failure p) (successed p) (continuousFailure target) (costs p)
     (max_ p) (min_ p)).

Record Recently := mkRecently {
  key : Z;
  timeout : option Z;
  period : Z;
  prev : point;
  current : point;
  dumpPrev : bool;
  r_qps : Z;
  r_requests : Z;
  r_successed : Z;
  r_failure : Z;
  r_rejects : Z;
  r_max : Z;
  r_min : Z;
  r_avg : Z
}.

Definition newRecently (key period : Z) : Recently :=
  mkRecently key None period newPoint newPoint false 0 0 0 0 0 0 0 0.

(** Assignments to single fields. *)
Definition set_timeout (t : option Z) (r : Recently) : Recently :=
  mkRecently (key r) t (period r) (prev r) (current r) (dumpPrev r) (r_qps r) (r_requests r)
    (r_successed r) (r_failure r) (r_rejects r) (r_max r) (r_min r) (r_avg r).
Definition set_points (prev current : point) (dumpPrev : bool) (r : Recently) : Recently :=
  mkRecently (key r) (timeout r) (period r) prev current dumpPrev (r_qps r) (r_requests r)
    (r_successed r) (r_failure r) (r_rejects r) (r_max r) (r_min r) (r_avg r).

(** [recents] is the store of [Recently] objects, [pending] the timers with the object each
    is for; both with the next unused address. *)
Record t := mkAnalysis {
  points : gmap Z point;
  recentlyPoints : gmap Z (gmap Z Z);
  recents : gmap Z Recently;
  nextRecently : Z;
  pending : timers;
  nextTimer : Z
}.

Definition NewAnalysis : t := mkAnalysis ∅ ∅ ∅ 0 ∅ 0.

Definition RemoveTarget (key : Z) (a : t) : t :=
  let ts := match recentlyPoints a !! key with
            | None => pending a
            | Some m => map_fold (λ _ id ts, Timeout_Stop (recents a !! id ≫= timeout) ts) (pending a) m
            end in
  mkAnalysis (delete key (points a)) (delete key (recentlyPoints a)) (recents a) (nextRecently a)
    ts (nextTimer a).

(** [sync.Map.LoadOrStore] *)
Definition LoadOrStore {A} (k : Z) (v : A) (m : gmap Z A) : gmap Z A :=
  match m !! k with Some _ => m | None => <[k := v]> m end.

Definition AddTarget (key interval : Z) (a : t) : t :=
  if interval =? 0 then a
  else
    let ps := LoadOrStore key newPoint (points a) in
    let rps := LoadOrStore key ∅ (recentlyPoints a) in
    let vm := default ∅ (rps !! key) in
    match vm !! interval with
    | Some _ => mkAnalysis ps rps (recents a) (nextRecently a) (pending a) (nextTimer a)
    | None =>
        let id := nextRecently a in
        let h := nextTimer a in
        mkAnalysis ps (<[key := <[interval := id]> vm]> rps)
          (<[id := set_timeout (Some h) (newRecently key interval)]> (recents a)) (id + 1)
          (<[h := id]> (pending a)) (h + 1)
    end.

(** *** Counting *)

Definition with_point (key : Z) (f : point -> point) (a : t) : t :=
  match points a !! key with
  | Some p => mkAnalysis (<[key := f p]> (points a)) (recentlyPoints a) (recents a) (nextRecently a)
                (pending a) (nextTimer a)
  | None => a
  end.

Definition Reject (key : Z) : t -> t := with_point key (λ p,
  mkPoint (requests p) (i64 (rejects p + 1)) (failure p) (successed p) (continuousFailure p)
    (costs p) (max_ p) (min_ p)).

Definition Failure (key : Z) : t -> t := with_point key (λ p,
  mkPoint (requests p) (rejects p) (i64 (failure p + 1)) (successed p)
    (i64 (continuousFailure p + 1)) (costs p) (max_ p) (min_ p)).

Definition Request (key : Z) : t -> t := with_point key (λ p,
  mkPoint (i64 (requests p + 1)) (rejects p) (failure p) (successed p) (continuousFailure p)
    (costs p) (max_ p) (min_ p)).

Definition Response (key cost : Z) : t -> t := with_point key (λ p,
  mkPoint (requests p) (rejects p) (failure p) (i64 (successed p + 1)) 0 (i64 (costs p + cost))
    (if max_ p <? cost then cost else max_ p)
    (if (min_ p =? 0) || (cost <? min_ p) then cost else min_ p)).

(** *** The figures *)

Definition clip (x : Z) : Z := if x <? 0 then 0 else x.

(** [int64(x / 1000 / 1000)] *)
Definition millis (x : Z) : Z := Z.quot (Z.quot x 1000) 1000.

(** Go's integer division panics on zero; on [int64] the quotient wraps. *)
Definition div64 (x y : Z) : outcome Z := if y =? 0 then Panic else Ret (i64 (Z.quot x y)).

Definition calc (r : Recently) : outcome Recently :=
  let c := current r in
  let p := prev r in
  if requests c =? requests p then Ret r
  else
    let reqs := clip (i64 (requests c - requests p)) in
    let succ := clip (i64 (successed c - successed p)) in
    let fail := clip (i64 (failure c - failure p)) in
    let rej := clip (i64 (rejects c - rejects p)) in
    let mx := if max_ c <? 0 then 0 else millis (max_ c) in
    let mn := if min_ c <? 0 then 0 else millis (min_ c) in
    let costs := i64 (costs c - costs p) in
    avg ← (if reqs =? 0 then Ret 0 else div64 (millis costs) reqs);
    qps ← div64 (if reqs <? succ then reqs else succ) (Z.quot (period r) second);
    Ret (mkRecently (key r) (timeout r) (period r) p c (dumpPrev r) qps reqs succ fail rej mx mn avg).

(** [r.record(p)], with the point changed by the dump. *)
Definition record (r : Recently) (p : point) : outcome (Recently * point) :=
  if negb (dumpPrev r) then
    let '(p, c) := dump p (current r) in
    r ← calc (set_points (prev r) c (dumpPrev r) r);
    Ret (set_points (prev r) (current r) true r, p)
  else
    let '(p, q) := dump p (prev r) in
    Ret (set_points q (current r) false r, p).

(** The callback of the timer for the object [id]; the timer that expired is gone already. *)
Definition recentlyTimeout (id : Z) (a : t) : outcome t :=
  match recents a !! id with
  | None => Panic
  | Some r =>
      match points a !! key r with
      | None => Ret a
      | Some p =>
          '(r', p) ← record r p;
          let h := nextTimer a in
          Ret (mkAnalysis (<[key r := p]> (points a)) (recentlyPoints a)
                 (<[id := set_timeout (Some h) r']> (recents a)) (nextRecently a)
                 (<[h := id]> (pending a)) (h + 1))
      end
  end.

(** The expiry of the timer [h]. *)
Definition expire (h : Z) (a : t) : outcome t :=
  match pending a !! h with
  | None => Ret a
  | Some id => recentlyTimeout id (mkAnalysis (points a) (recentlyPoints a) (recents a) (nextRecently a)
                 (delete h (pending a)) (nextTimer a))
  end.

(** *** Reading *)

Definition getPoint (key interval : Z) (a : t) : option Recently :=
  m ← recentlyPoints a !! key; id ← m !! interval; recents a !! id.

Definition figure (f : Recently -> Z) (server interval : Z) (a : t) : Z :=
  match getPoint server interval a with None => 0 | Some r => f r end.

Definition GetRecentlyRequestCount := figure r_requests.
Definition GetRecentlyMax := figure r_max.
Definition GetRecentlyMin := figure r_min.
Definition GetRecentlyAvg := figure r_avg.
Definition GetQPS := figure r_qps.
Definition GetRecentlyRejectCount := figure r_rejects.
Definition GetRecentlyRequestSuccessedCount := figure r_successed.
Definition GetRecentlyRequestFailureCount := figure r_failure.

Definition GetRecentlyRequestSuccessedRate (server interval : Z) (a : t) : Z :=
  match getPoint server interval a with
  | None => 0
  | Some r =>
      if i64 (r_requests r - r_rejects r) <=? 0 then 100
      else i64 (Z.quot (i64 (r_successed r * 100)) (i64 (r_requests r - r_rejects r)))
  end.

Definition GetRecentlyRequestFailureRate (server interval : Z) (a : t) : Z :=
  match getPoint server interval a with
  | None => 100
  | Some r =>
      if i64 (r_requests r - r_rejects r) <=? 0 then -1
      else i64 (Z.quot (i64 (r_failure r * 100)) (i64 (r_requests r - r_rejects r)))
  end.

Definition GetContinuousFailureCount (key : Z) (a : t) : Z :=
  match points a !! key with None => 0 | Some p => continuousFailure p end.

End Analysis.

(** ** The figures count what happened

    Between two expiries of the timer of a target, requests are counted for it and for other
    targets. *)
Module Windows.
Import Analysis.

Inductive op := ORequest | OReject | OFailure | OResponse (cost : Z).

Definition apply (o : Z * op) (a : t) : t :=
  match o.2 with
  | ORequest => Request o.1 a
  | OReject => Reject o.1 a
  | OFailure => Failure o.1 a
  | OResponse cost => Response o.1 cost a
  end.

Definition run (ops : list (Z * op)) (a : t) : t := fold_left (λ a o, apply o a) ops a.

(** The operations of a kind on the target [k]. *)
Definition is_request (o : op) : bool := match o with ORequest => true | _ => false end.
Definition is_reject (o : op) : bool := match o with OReject => true | _ => false end.
Definition is_failure (o : op) : bool := match o with OFailure => true | _ => false end.
Definition is_response (o : op) : bool := match o with OResponse _ => true | _ => false end.

Fixpoint count (f : op -> bool) (k : Z) (ops : list (Z * op)) : Z :=
  match ops with
  | [] => 0
  | o :: ops => (if (o.1 =? k) && f o.2 then 1 else 0) + count f k ops
  end.

Lemma count_bounds f k ops : 0 <= count f k ops <= len ops.
Proof.
  induction ops as [|o ops IH]; cbn [count]; [pose proof (len_nonneg (@nil (Z * op))); lia|].
  rewrite len_cons. destruct (_ && _); lia.
Qed.

(** The timer of a target expires. *)
Definition tick (k i : Z) (a : t) : outcome t :=
  match getPoint k i a ≫= timeout with Some h => expire h a | None => Ret a end.

(** The target [k] is watched with the period [i] by the object [r], whose timer is pending. *)
Record watched (k i : Z) (r : Recently) (a : t) : Prop := {
  w_point : getPoint k i a = Some r;
  w_key : key r = k;
  w_period : period r = i;
  w_counted : is_Some (points a !! k);
  w_timer : ∃ h m id, timeout r = Some h /\ recentlyPoints a !! k = Some m /\ m !! i = Some id /\
    recents a !! id = Some r /\ pending a !! h = Some id
}.

(** *** Counting changes the counters of the target only *)

Lemma apply_frame o a :
  recentlyPoints (apply o a) = recentlyPoints a /\ recents (apply o a) = recents a /\ pending (apply o a) = pending a.
Proof.
  destruct o as [k o]. unfold apply; cbn [fst snd]. destruct o; unfold Request, Reject, Failure, Response, with_point;
    by destruct (points a !! k).
Qed.

Lemma run_cons o ops a : run (o :: ops) a = run ops (apply o a).
Proof. done. Qed.

Lemma run_frame ops : ∀ a,
  recentlyPoints (run ops a) = recentlyPoints a /\ recents (run ops a) = recents a /\ pending (run ops a) = pending a.
Proof.
  induction ops as [|o ops IH]; intros a; [done|]. rewrite run_cons.
  destruct (IH (apply o a)) as (-> & -> & ->). apply apply_frame.
Qed.

Lemma i64_add x y : i64 (i64 x + y) = i64 (x + y).
Proof. unfold i64. replace ((x + 2^63) mod 2^64 - 2^63 + y + 2^63) with ((x + 2^63) mod 2^64 + y) by lia.
  rewrite Zplus_mod_idemp_l. f_equal. f_equal. lia. Qed.

Lemma i64_diff x y : i64 (i64 x - y) = i64 (x - y).
Proof. rewrite <- !Z.add_opp_r. apply i64_add. Qed.

(** A counter [g] that the operations of kind [f] increment. *)
Definition counter (g : point -> Z) (f : op -> bool) : Prop := ∀ o a k p, points a !! k = Some p ->
  ∃ p', points (apply o a) !! k = Some p' /\ g p' = if (o.1 =? k) && f o.2 then i64 (g p + 1) else g p.

Lemma counters : counter requests is_request /\ counter rejects is_reject /\
  counter failure is_failure /\ counter successed is_response.
Proof.
  assert (Hw : ∀ g f j k a p, points a !! k = Some p ->
    ∃ p', points (with_point j f a) !! k = Some p' /\ (g p' : Z) = if j =? k then g (f p) else g p).
  { intros g f j k a p Hp. unfold with_point. destruct (Z.eqb_spec j k) as [->|Hne].
    - rewrite Hp. eexists. split; [apply lookup_insert_eq|done].
    - destruct (points a !! j); [|eauto]. exists p. split; [by rewrite <- Hp; apply lookup_insert_ne|done]. }
  assert (Hg : ∀ (g : point -> Z) (f : op -> bool), (∀ j o, ∃ h, apply (j, o) = with_point j h /\ ∀ p, g (h p) = if f o then i64 (g p + 1) else g p) ->
    counter g f).
  { intros g f Ha [j o] a k p Hp. destruct (Ha j o) as (h & -> & Hh). cbn [fst snd].
    destruct (Hw g h j k a p Hp) as (p' & Hl & Hgp). exists p'. split; [done|]. rewrite Hgp, Hh. by destruct (j =? k), (f o). }
  split_and!; apply Hg; intros j o; destruct o; eexists; (split; [reflexivity|done]).
Qed.

Lemma counter_run g f k : counter g f -> ∀ ops a p, points a !! k = Some p ->
  ∃ p', points (run ops a) !! k = Some p' /\ i64 (g p') = i64 (g p + count f k ops) /\
    (count f k ops = 0 -> g p' = g p).
Proof.
  intros Hc ops. induction ops as [|o ops IH]; intros a p Hp; [|rewrite run_cons]; cbn [count].
  { exists p. rewrite Z.add_0_r. done. }
  destruct (Hc o a k p Hp) as (p1 & Hp1 & Hg). destruct (IH (apply o a) p1 Hp1) as (p' & Hp' & Heq & Hz).
  exists p'. split; [done|]. pose proof (count_bounds f k ops). destruct ((o.1 =? k) && f o.2).
  - split; [|lia]. rewrite Heq, Hg, i64_add. f_equal. lia.
  - rewrite Heq, Z.add_0_l, Hg. split; [done|]. intros Hc0. by rewrite Hz, Hg.
Qed.

(** *** Two expiries *)

(** The two dumps agree on the counters. *)
Definition synced (q p : point) : Prop :=
  requests q = requests p /\ rejects q = rejects p /\ failure q = failure p /\ successed q = successed p.

(** An expiry stores the new object and a new timer. *)
Lemma tick_step k i r a p r' p' : watched k i r a -> points a !! k = Some p -> record r p = Ret (r', p') ->
  key r' = k -> period r' = i ->
  ∃ a' h, tick k i a = Ret a' /\ watched k i (set_timeout (Some h) r') a' /\ points a' !! k = Some p'.
Proof.
  intros [Hg Hk Hi _ (h & m & id & Ht & Hm & Hid & Hr & Hp)] Hpt Hrec Hk' Hi'.
  unfold tick. rewrite Hg. cbn. rewrite Ht. unfold expire. rewrite Hp. unfold recentlyTimeout. cbn.
  rewrite Hr, Hk, Hpt, Hrec. cbn. eexists _, _. split; [reflexivity|].
  split; [|cbn; apply lookup_insert_eq]. constructor; cbn.
  - unfold getPoint. cbn. rewrite Hm. cbn. rewrite Hid. cbn. apply lookup_insert_eq.
  - done.
  - done.
  - rewrite lookup_insert_eq. eauto.
  - eexists _, m, id. split_and!; [reflexivity|done|done|apply lookup_insert_eq|apply lookup_insert_eq].
Qed.

Lemma watched_run k i r ops a : watched k i r a -> watched k i r (run ops a).
Proof.
  intros [Hg Hk Hi [p Hp] Hw]. destruct (run_frame ops a) as (H1 & H2 & H3).
  constructor; unfold getPoint; rewrite ?H1, ?H2, ?H3; [done..| |done].
  destruct counters as [Hc _]. destruct (counter_run _ _ k Hc ops a p Hp) as (p' & Hp' & _). eauto.
Qed.

(** The dump of an expiry that only takes a base, with which the next one is compared. *)
Lemma tick_base k i r a p : watched k i r a -> points a !! k = Some p -> dumpPrev r = true ->
  ∃ a' r' p', tick k i a = Ret a' /\ watched k i r' a' /\ points a' !! k = Some p' /\
    dumpPrev r' = false /\ synced (prev r') p' /\ r_requests r' = r_requests r /\
    r_rejects r' = r_rejects r /\ r_failure r' = r_failure r /\ r_successed r' = r_successed r.
Proof.
  intros Hw Hp Hd. pose proof (w_key _ _ _ _ Hw) as Hk. pose proof (w_period _ _ _ _ Hw) as Hi.
  destruct (tick_step k i r a p (set_points (dump p (prev r)).2 (current r) false r) (dump p (prev r)).1 Hw Hp)
    as (a' & h & Ht & Hw' & Hp'); [|done|done|].
  { unfold record. rewrite Hd. done. }
  eexists _, _, _. split_and!; [exact Ht|exact Hw'|exact Hp'|done..].
Qed.

Lemma clip_pos x : 0 <= x -> clip x = x.
Proof. unfold clip. intros. destruct (Z.ltb_spec x 0); lia. Qed.

(** The increments of the counters since the base. *)
Lemma window_diff (g : point -> Z) f k ops q p p' : counter g f -> g q = g p ->
  i64 (g p') = i64 (g p + count f k ops) -> len ops < 2^56 ->
  clip (i64 (g p' - g q)) = count f k ops.
Proof.
  intros _ Hq Hg Hl. rewrite Hq. pose proof (count_bounds f k ops) as Hc.
  rewrite <- i64_diff, Hg, i64_diff. replace (g p + _ - g p) with (count f k ops) by lia.
  rewrite i64_small by (unfold is_i64; lia). apply clip_pos. lia.
Qed.

(** What the figures say after a window with the operations [ops]. *)
Definition shows (k : Z) (ops : list (Z * op)) (r : Recently) : Prop :=
  r_requests r = count is_request k ops /\ r_rejects r = count is_reject k ops /\
  r_failure r = count is_failure k ops /\ r_successed r = count is_response k ops.

Lemma calc_window k i r a p ops p' : second <= i -> period r = i ->
  synced (prev r) p -> points a !! k = Some p -> points (run ops a) !! k = Some p' -> len ops < 2^56 ->
  ∃ r', calc (set_points (prev r) (dump p' (current r)).2 (dumpPrev r) r) = Ret r' /\ key r' = key r /\ period r' = i /\
    if count is_request k ops =? 0 then
      r_requests r' = r_requests r /\ r_rejects r' = r_rejects r /\ r_failure r' = r_failure r /\ r_successed r' = r_successed r
    else shows k ops r'.
Proof.
  intros Hi Hper (S1 & S2 & S3 & S4) Hp Hp' Hl. destruct counters as (C1 & C2 & C3 & C4).
  destruct (counter_run _ _ k C1 ops a p Hp) as (p1 & E1 & R1 & Z1).
  destruct (counter_run _ _ k C2 ops a p Hp) as (p2 & E2 & R2 & _).
  destruct (counter_run _ _ k C3 ops a p Hp) as (p3 & E3 & R3 & _).
  destruct (counter_run _ _ k C4 ops a p Hp) as (p4 & E4 & R4 & _).
  assert (p1 = p') as -> by congruence. assert (p2 = p') as -> by congruence.
  assert (p3 = p') as -> by congruence. assert (p4 = p') as -> by congruence. clear E1 E2 E3 E4.
  pose proof (window_diff _ _ k ops _ _ _ C1 S1 R1 Hl) as D1. pose proof (window_diff _ _ k ops _ _ _ C2 S2 R2 Hl) as D2.
  pose proof (window_diff _ _ k ops _ _ _ C3 S3 R3 Hl) as D3. pose proof (window_diff _ _ k ops _ _ _ C4 S4 R4 Hl) as D4.
  unfold calc. cbn [set_points current prev dump snd requests rejects failure successed costs max_ min_ period key].
  destruct (Z.eqb_spec (count is_request k ops) 0) as [H0|H0].
  - rewrite Z1, S1, Z.eqb_refl by done. eexists. split_and!; [reflexivity|done..].
  - destruct (Z.eqb_spec (requests p') (requests (prev r))) as [Heq|_].
    { exfalso. apply H0. rewrite <- D1, Heq, Z.sub_diag. reflexivity. }
    assert (Hq : Z.quot (period r) second <> 0).
    { rewrite Hper. intros Hq. apply Z.quot_small_iff in Hq; [|done]. unfold second in *. lia. }
    rewrite D1, D2, D3, D4. destruct (Z.eqb_spec (count is_request k ops) 0); [done|].
    unfold div64. apply Z.eqb_neq in Hq. apply Z.eqb_neq in n. rewrite n, Hq. cbn.
    eexists. split_and!; [reflexivity|done|done|]. done.
Qed.

Lemma rate_value x n r : 0 <= x <= n -> n < 2^56 -> 0 <= r < 2^56 -> 0 < n - r ->
  i64 (Z.quot (i64 (x * 100)) (i64 (n - r))) = 100 * x / (n - r).
Proof.
  intros Hx Hn Hr Hp. rewrite (i64_small (x * 100)), (i64_small (n - r)) by (unfold is_i64; lia).
  rewrite Z.quot_div_nonneg by lia. replace (x * 100) with (100 * x) by lia. apply i64_small. unfold is_i64.
  assert (0 <= 100 * x / (n - r)) by (apply Z.div_pos; lia).
  assert (100 * x / (n - r) <= 100 * x) by (apply Z.div_le_upper_bound; nia). lia.
Qed.

(** C37: the figures of a target count exactly the operations of every second period: those
    before the base is taken are not in them, those after are, whatever the counters are and
    whatever other targets do.  The rates are percentages of the requests that were not
    rejected.  A period without requests leaves the figures of an earlier one. *)
Theorem figures_window : ∀ a k i r ops1 ops2,
  watched k i r a -> dumpPrev r = true -> second <= i -> len ops2 < 2^56 ->
  let n := count is_request k ops2 in let rej := count is_reject k ops2 in
  let f := count is_failure k ops2 in let s := count is_response k ops2 in
  ∃ a1 a2, tick k i (run ops1 a) = Ret a1 /\ tick k i (run ops2 a1) = Ret a2 /\
    if n =? 0 then
      GetRecentlyRequestCount k i a2 = r_requests r /\
      GetRecentlyRequestFailureRate k i a2 = GetRecentlyRequestFailureRate k i a /\
      GetRecentlyRequestSuccessedRate k i a2 = GetRecentlyRequestSuccessedRate k i a
    else
      GetRecentlyRequestCount k i a2 = n /\ GetRecentlyRejectCount k i a2 = rej /\
      GetRecentlyRequestFailureCount k i a2 = f /\ GetRecentlyRequestSuccessedCount k i a2 = s /\
      (f <= n -> s <= n ->
       GetRecentlyRequestFailureRate k i a2 = (if n <=? rej then -1 else 100 * f / (n - rej)) /\
       GetRecentlyRequestSuccessedRate k i a2 = (if n <=? rej then 100 else 100 * s / (n - rej))).
Proof.
  intros a k i r ops1 ops2 Hw Hd Hi Hl n rej f s.
  pose proof (watched_run k i r ops1 a Hw) as Hw0. destruct (w_counted _ _ _ _ Hw0) as [p0 Hp0].
  destruct (tick_base _ _ _ _ _ Hw0 Hp0 Hd) as (a1 & r1 & p1 & Ht1 & Hw1 & Hp1 & Hd1 & Hs1 & F1 & F2 & F3 & F4).
  pose proof (watched_run k i r1 ops2 a1 Hw1) as Hw2. destruct (w_counted _ _ _ _ Hw2) as [p2 Hp2].
  destruct (calc_window k i r1 a1 p1 ops2 p2 Hi (w_period _ _ _ _ Hw1) Hs1 Hp1 Hp2 Hl) as (r2 & Hc & Hk & Hper & Hsh).
  rewrite (w_key _ _ _ _ Hw1) in Hk.
  destruct (tick_step k i r1 _ p2 (set_points (prev r2) (current r2) true r2) (dump p2 (current r1)).1 Hw2 Hp2)
    as (a2 & h & Ht2 & Hw3 & _); [|done|done|].
  { unfold record. rewrite Hd1 in Hc |- *. cbn [negb dump fst snd] in *. by rewrite Hc. }
  exists a1, a2. split; [done|]. split; [done|].
  pose proof (w_point _ _ _ _ Hw3) as Hg2. pose proof (w_point _ _ _ _ Hw) as Hg.
  unfold GetRecentlyRequestCount, GetRecentlyRejectCount, GetRecentlyRequestFailureCount,
    GetRecentlyRequestSuccessedCount, GetRecentlyRequestFailureRate, GetRecentlyRequestSuccessedRate, figure.
  rewrite Hg2, Hg. cbn. fold n in Hsh. destruct (n =? 0).
  - destruct Hsh as (-> & -> & -> & ->). rewrite F1, F2, F3, F4. done.
  - destruct Hsh as (-> & -> & -> & ->). fold n rej f s. split_and!; [done..|]. intros Hfn Hsn.
    pose proof (count_bounds is_request k ops2). pose proof (count_bounds is_reject k ops2).
    pose proof (count_bounds is_failure k ops2). pose proof (count_bounds is_response k ops2).
    rewrite (i64_small (n - rej)) by (unfold is_i64, n, rej; lia).
    destruct (Z.leb_spec (n - rej) 0), (Z.leb_spec n rej); try lia.
    rewrite <- (i64_small (n - rej)) by (unfold is_i64, n, rej; lia).
    rewrite !rate_value by (unfold n, rej, f, s in *; lia). by rewrite (i64_small (n - rej)) by (unfold is_i64, n, rej; lia).
Qed.

(** *** A new target *)

Lemma AddTarget_watched k i a : i <> 0 -> points a !! k = None -> recentlyPoints a !! k = None ->
  ∃ r, watched k i r (AddTarget k i a) /\ points (AddTarget k i a) !! k = Some newPoint /\
    dumpPrev r = false /\ prev r = newPoint /\ r_requests r = 0.
Proof.
  intros Hi Hp Hrp. unfold AddTarget. apply Z.eqb_neq in Hi. rewrite Hi.
  unfold LoadOrStore. rewrite Hp, Hrp. rewrite lookup_insert_eq. cbn [from_option]. unfold id. rewrite lookup_empty.
  exists (set_timeout (Some (nextTimer a)) (newRecently k i)). split_and!.
  - constructor; [|done|done| |]; cbn.
    + unfold getPoint. cbn. rewrite lookup_insert_eq. cbn. rewrite lookup_insert_eq. cbn. apply lookup_insert_eq.
    + rewrite lookup_insert_eq. eauto.
    + eexists _, _, _. split_and!; [reflexivity|apply lookup_insert_eq..].
  - cbn. apply lookup_insert_eq.
  - done.
  - done.
  - done.
Qed.

(** The first period of a new target: with a period of a second or more the expiry
    returns and the count is right; with a shorter one it panics as soon as a request was
    counted, the quotient of the period and a second being zero. *)
Theorem first_window : ∀ a k i ops,
  0 < i -> points a !! k = None -> recentlyPoints a !! k = None -> len ops < 2^56 ->
  let n := count is_request k ops in
  if (i <? second) && (0 <? n) then tick k i (run ops (AddTarget k i a)) = Panic
  else ∃ a', tick k i (run ops (AddTarget k i a)) = Ret a' /\ GetRecentlyRequestCount k i a' = n.
Proof.
  intros a k i ops Hi Hp Hrp Hl n.
  destruct (AddTarget_watched k i a ltac:(lia) Hp Hrp) as (r & Hw & Hp0 & Hd & Hpr & Hr0).
  pose proof (watched_run k i r ops _ Hw) as Hw1. destruct (w_counted _ _ _ _ Hw1) as [p1 Hp1].
  destruct counters as (C1 & _). destruct (counter_run _ _ k C1 ops _ _ Hp0) as (p2 & E2 & R2 & Z2).
  assert (p2 = p1) as -> by congruence. fold n in R2, Z2.
  pose proof (count_bounds is_request k ops) as Hn. fold n in Hn.
  pose proof (window_diff requests _ k ops newPoint newPoint p1 C1 eq_refl R2 Hl) as D1. fold n in D1.
  assert (Htick : ∀ r', calc (set_points (prev r) (dump p1 (current r)).2 (dumpPrev r) r) = Ret r' -> r_requests r' = n ->
    key r' = key r -> period r' = period r -> ∃ a', tick k i (run ops (AddTarget k i a)) = Ret a' /\ GetRecentlyRequestCount k i a' = n).
  { intros r' Hc Hr' Hk' Hi'. rewrite (w_key _ _ _ _ Hw) in Hk'. rewrite (w_period _ _ _ _ Hw) in Hi'.
    destruct (tick_step k i r _ p1 (set_points (prev r') (current r') true r') (dump p1 (current r)).1 Hw1 Hp1)
      as (a2 & h & Ht2 & Hw3 & _); [|done|done|].
    { unfold record. rewrite Hd in Hc |- *. cbn [negb dump fst snd] in *. by rewrite Hc. }
    exists a2. split; [done|]. unfold GetRecentlyRequestCount, figure. by rewrite (w_point _ _ _ _ Hw3). }
  unfold calc in Htick. cbn [set_points current prev dump snd requests rejects failure successed costs max_ min_ period key] in Htick.
  rewrite Hpr in Htick. destruct (Z.ltb_spec 0 n) as [Hpos|Hz].
  - destruct (Z.eqb_spec (requests p1) (requests newPoint)) as [Heq|Hne].
    { rewrite Heq, Z.sub_diag in D1. change (0 = n) in D1. lia. }
    rewrite D1 in Htick. destruct (Z.eqb_spec n 0); [lia|]. unfold div64 in Htick. destruct (Z.eqb_spec n 0); [lia|].
    cbn in Htick. rewrite (w_period _ _ _ _ Hw) in Htick. destruct (Z.ltb_spec i second) as [Hs|Hs]; cbn [andb].
    + unfold tick. rewrite (w_point _ _ _ _ Hw1). cbn.
      destruct (w_timer _ _ _ _ Hw1) as (h & m & id & Ht & Hm & Hid & Hr & Hpd). rewrite Ht. unfold expire. rewrite Hpd.
      unfold recentlyTimeout. cbn. rewrite Hr, (w_key _ _ _ _ Hw), Hp1. unfold record. rewrite Hd. cbn.
      unfold calc. cbn. rewrite Hpr. apply Z.eqb_neq in Hne. rewrite Hne, D1.
      apply Z.eqb_neq in n0. unfold div64. rewrite !n0. cbn.
      rewrite (w_period _ _ _ _ Hw), (Z.quot_small i second) by lia. done.
    + assert (Hq : Z.quot i second <> 0) by (intros Hq; apply Z.quot_small_iff in Hq; [unfold second in *; lia|done]).
      apply Z.eqb_neq in Hq. rewrite Hq in Htick. cbn in Htick. by eapply Htick.
  - assert (n = 0) as Hn0 by lia. rewrite andb_false_r.
    rewrite Z2, Z.eqb_refl in Htick by done. eapply Htick; [reflexivity|cbn; lia|done|done].
Qed.

(** *** Witnesses *)

Definition sample_ops : list (Z * op) := [(7, ORequest); (9, ORequest); (7, OFailure); (7, ORequest); (7, OResponse 5); (7, ORequest); (7, OReject)].

Lemma first_window_witness : tick 7 1 (run sample_ops (AddTarget 7 1 NewAnalysis)) = Panic.
Proof. exact (first_window NewAnalysis 7 1 sample_ops ltac:(lia) eq_refl eq_refl eq_refl). Defined.

Definition based : t :=
  match tick 7 second (AddTarget 7 second NewAnalysis) with Ret a => a | _ => NewAnalysis end.

Lemma figures_window_witness : ∃ a1 a2, tick 7 second (run sample_ops based) = Ret a1 /\
  tick 7 second (run sample_ops a1) = Ret a2 /\ GetRecentlyRequestFailureRate 7 second a2 = 50.
Proof.
  destruct (getPoint 7 second based) as [r|] eqn:E; [|vm_compute in E; discriminate E].
  destruct (figures_window based 7 second r sample_ops sample_ops) as (a1 & a2 & H1 & H2 & H3).
  - vm_compute in E. injection E as <-. constructor; [vm_compute; reflexivity|done|done|by vm_compute; eexists|].
    eexists _, _, _. split_and!; vm_compute; reflexivity.
  - vm_compute in E. by injection E as <-.
  - done.
  - done.
  - exists a1, a2. split; [done|]. split; [done|]. cbn in H3. destruct H3 as (_ & _ & _ & _ & H3). by apply H3.
Defined.

End Windows.
