(* ===== verification/ByteBuf.v ===== *)
(** Model of the byte buffer [src/src/goetty/buf.go], of the memory pool [pool.go] behind
    it, and of the cached responses [src/src/filter/cache_utils.go] kept in such buffers.

    A Go slice is an array of bytes with a length; its capacity is the length of the array. *)
From Stdlib Require Import Sorted.
From S2P Require Import Prelude.

Record mem := mkMem { arr : bytes; mlen : Z }.

Definition cap (m : mem) : Z := len (arr m).

(** [m[lo:hi]]: the upper bound may reach the capacity. *)
Definition mslice (m : mem) (lo hi : Z) : outcome bytes :=
  if (0 <=? lo) && (lo <=? hi) && (hi <=? cap m) then slice (arr m) lo hi else Panic.

(** [copy(m[lo:hi], p)]: the array with as many bytes of [p] as fit. *)
Definition mcopy (m : mem) (lo hi : Z) (p : bytes) : outcome mem :=
  if (0 <=? lo) && (lo <=? hi) && (hi <=? cap m) then
    let n := Z.to_nat (Z.min (hi - lo) (len p)) in
    Ret (mkMem (take (Z.to_nat lo) (arr m) ++ take n p ++ drop (Z.to_nat lo + n) (arr m)) (mlen m))
  else Panic.

(** ** Numbers in big-endian order *)

(** [binary.BigEndian]: the [n] low bytes of a number, and the number of some bytes. *)
Fixpoint be (n : nat) (v : Z) : bytes :=
  match n with O => [] | S n => u8 (Z.shiftr v (8 * Z.of_nat n)) :: be n v end.

Definition be_value (l : bytes) : Z := fold_left (λ a b, a * 256 + b) l 0.

Definition Int2Bytes (v : Z) : bytes :=
  [u8 (Z.shiftr v 24); u8 (Z.shiftr v 16); u8 (Z.shiftr v 8); u8 v].

Definition Int64ToBytes (v : Z) : bytes :=
  [u8 (Z.shiftr v 56); u8 (Z.shiftr v 48); u8 (Z.shiftr v 40); u8 (Z.shiftr v 32);
   u8 (Z.shiftr v 24); u8 (Z.shiftr v 16); u8 (Z.shiftr v 8); u8 v].

(** [int(data[i])&0xff] *)
Definition octet (data : bytes) (i : Z) : outcome Z := b ← byte_at data i; Ret (Z.land b 255).

Definition Byte2Int (data : bytes) : outcome Z :=
  a ← octet data 0; b ← octet data 1; c ← octet data 2; d ← octet data 3;
  Ret (Z.lor (Z.lor (Z.lor (Z.shiftl a 24) (Z.shiftl b 16)) (Z.shiftl c 8)) d).

Definition Byte2Int64 (data : bytes) : outcome Z :=
  a ← octet data 0; b ← octet data 1; c ← octet data 2; d ← octet data 3;
  e ← octet data 4; f ← octet data 5; g ← octet data 6; h ← octet data 7;
  Ret (i64 (Z.lor (Z.lor (Z.lor (Z.lor (Z.lor (Z.lor (Z.lor (Z.shiftl a 56) (Z.shiftl b 48))
    (Z.shiftl c 40)) (Z.shiftl d 32)) (Z.shiftl e 24)) (Z.shiftl f 16)) (Z.shiftl g 8)) h)).

(** ** Memory pools

    The Go interface [Pool], and what a buffer relies on: memory of the length asked for, as
    long as only memory of the pool is given back. *)
Class Pool (P : Type) := {
  Alloc : P -> Z -> outcome (mem * P);
  Free : P -> mem -> P;
  pool_ok : P -> Prop;
  owned : P -> mem -> Prop;
  Alloc_ok p n : pool_ok p -> 0 <= n ->
    ∃ m p', Alloc p n = Ret (m, p') /\ mlen m = n /\ n <= cap m /\ owned p' m /\ pool_ok p' /\
      (∀ m', owned p m' -> owned p' m');
  owned_cap p m m' : owned p m -> cap m' = cap m -> owned p m';
  Free_ok p m : pool_ok p -> owned p m -> pool_ok (Free p m) /\ (∀ m', owned p m' -> owned (Free p m) m')
}.

Module Buf.
Section ByteBuf.
Context {P : Type} `{!Pool P}.

Record ByteBuf := mkByteBuf {
  capacity : Z;
  buf : mem;
  readerIndex : Z;
  writerIndex : Z;
  markedIndex : Z
}.

Definition minScale : Z := 128.

(** A method that can fail with [io.ErrShortBuffer] returns [None] then. *)

Definition NewByteBuf (capacity : Z) (p : P) : outcome (ByteBuf * P) :=
  '(m, p) ← Alloc p capacity; Ret (mkByteBuf capacity m 0 0 0, p).

Definition WrapBytes (data : mem) : ByteBuf := mkByteBuf (cap data) data 0 (mlen data) 0.

Definition Clear (b : ByteBuf) (p : P) : outcome (ByteBuf * P) :=
  '(m, p) ← Alloc (Free p (buf b)) (capacity b); Ret (mkByteBuf (capacity b) m 0 0 0, p).

Definition nil_mem : mem := mkMem [] 0.

Definition Release (b : ByteBuf) (p : P) : ByteBuf * P :=
  (mkByteBuf (capacity b) nil_mem (readerIndex b) (writerIndex b) (markedIndex b), Free p (buf b)).

Definition Wrap (b : ByteBuf) (data : mem) (p : P) : outcome (ByteBuf * P) :=
  '(b, p) ← Clear b p;
  let '(b, p) := Release b p in
  Ret (mkByteBuf (capacity b) data (readerIndex b) (mlen data) (markedIndex b), p).

Definition Resume (b : ByteBuf) (_capacity : Z) (p : P) : outcome (ByteBuf * P) :=
  '(m, p) ← Alloc p (capacity b);
  Ret (mkByteBuf (capacity b) m (readerIndex b) (writerIndex b) (markedIndex b), p).

Definition Capacity (b : ByteBuf) : Z := mlen (buf b).
Definition Readable (b : ByteBuf) : Z := writerIndex b - readerIndex b.
Definition Writeable (b : ByteBuf) : Z := Capacity b - writerIndex b.

Definition at_reader (b : ByteBuf) (i : Z) : ByteBuf :=
  mkByteBuf (capacity b) (buf b) i (writerIndex b) (markedIndex b).
Definition at_writer (b : ByteBuf) (i : Z) : ByteBuf :=
  mkByteBuf (capacity b) (buf b) (readerIndex b) i (markedIndex b).
Definition at_mark (b : ByteBuf) (i : Z) : ByteBuf :=
  mkByteBuf (capacity b) (buf b) (readerIndex b) (writerIndex b) i.

Definition SetReaderIndex (b : ByteBuf) (i : Z) : option ByteBuf :=
  if (i <? 0) || (writerIndex b <? i) then None else Some (at_reader b i).

Definition SetWriterIndex (b : ByteBuf) (i : Z) : option ByteBuf :=
  if (i <? readerIndex b) || (Capacity b <? i) then None else Some (at_writer b i).

Definition GetMarkedRemind (b : ByteBuf) : Z := markedIndex b - readerIndex b.

Definition GetMarkedRemindData (b : ByteBuf) : outcome bytes :=
  mslice (buf b) (readerIndex b) (markedIndex b).

Definition MarkWrite (b : ByteBuf) : ByteBuf := at_mark b (writerIndex b).

Definition MarkIndex (b : ByteBuf) (index : Z) : option ByteBuf :=
  if (Capacity b <? index) || (index <=? readerIndex b) then None else Some (at_mark b index).

Definition MarkN (b : ByteBuf) (n : Z) : option ByteBuf := MarkIndex b (readerIndex b + n).

Definition Skip (b : ByteBuf) (n : Z) : option ByteBuf :=
  if Readable b <? n then None else Some (at_reader b (readerIndex b + n)).

(** *** Reading *)

Definition ReadByte (b : ByteBuf) : outcome (Z * ByteBuf) :=
  if Readable b =? 0 then Ret (0, b)
  else v ← byte_at (take (Z.to_nat (mlen (buf b))) (arr (buf b))) (readerIndex b);
       Ret (v, at_reader b (readerIndex b + 1)).

Definition ReadRawBytes (b : ByteBuf) (n : Z) : outcome (Z * bytes) :=
  if Readable b <? n then Ret (0, [])
  else data ← mslice (buf b) (readerIndex b) (readerIndex b + n); Ret (n, data).

(** [Read(p)] into a slice of [size] bytes: what is copied to its front. *)
Definition Read (b : ByteBuf) (size : Z) : outcome (bytes * ByteBuf) :=
  if size =? 0 then Ret ([], b)
  else
    let size := if Readable b <? size then Readable b else size in
    data ← mslice (buf b) (readerIndex b) (readerIndex b + size);
    Ret (data, at_reader b (readerIndex b + len data)).

(** A fresh array of [n] zero bytes is read into. *)
Definition ReadBytes (b : ByteBuf) (n : Z) : outcome (Z * bytes * ByteBuf) :=
  if n <? 0 then Panic
  else '(data, b) ← Read b n; Ret (len data, data ++ replicate (Z.to_nat (n - len data)) 0, b).

Definition ReadAll (b : ByteBuf) : outcome (Z * bytes * ByteBuf) := ReadBytes b (Readable b).

Definition ReadMarkedBytes (b : ByteBuf) : outcome (Z * bytes * ByteBuf) := ReadBytes b (GetMarkedRemind b).

Definition MarkedBytesReaded (b : ByteBuf) : ByteBuf := at_reader b (markedIndex b).

(** The number in the next [n] bytes; the error leaves the buffer alone. *)
Definition ReadNumber (n : Z) (decode : bytes -> outcome Z) (b : ByteBuf) : outcome (option Z * ByteBuf) :=
  if Readable b <? n then Ret (None, b)
  else
    data ← mslice (buf b) (readerIndex b + n - n) (readerIndex b + n);
    v ← decode data; Ret (Some v, at_reader b (readerIndex b + n)).

Definition ReadInt := ReadNumber 4 Byte2Int.
Definition ReadUInt16 := ReadNumber 2 (λ d, Ret (be_value d)).
Definition ReadUInt32 := ReadNumber 4 (λ d, Ret (be_value d)).
Definition ReadInt64 := ReadNumber 8 Byte2Int64.
Definition ReadUInt64 := ReadNumber 8 (λ d, Ret (be_value d)).

Definition PeekInt (b : ByteBuf) (offset : Z) : outcome (option Z) :=
  if Readable b <? 4 + offset then Ret None
  else
    let start := readerIndex b + offset in
    data ← mslice (buf b) start (start + 4); v ← Byte2Int data; Ret (Some v).

Definition PeekByte (b : ByteBuf) (offset : Z) : outcome (option Z) :=
  if (Readable b <? offset) || (offset <? 0) then Ret None
  else v ← byte_at (take (Z.to_nat (mlen (buf b))) (arr (buf b))) (readerIndex b + offset); Ret (Some v).

Definition PeekN (b : ByteBuf) (offset n : Z) : outcome (option bytes) :=
  if Readable b <? n + offset then Ret None
  else
    let start := readerIndex b + offset in
    data ← mslice (buf b) start (start + n); Ret (Some data).

(** *** Writing *)

(** [for { if target > size { break }; target += step }] *)
Fixpoint grow (fuel : nat) (target size step : Z) : outcome Z :=
  match fuel with
  | O => Hang
  | S fuel => if size <? target then Ret target else grow fuel (target + step) size step
  end.

Definition Expansion (b : ByteBuf) (n : Z) (p : P) : outcome (ByteBuf * P) :=
  let free := Writeable b in
  if free <? n then
    let current := Capacity b in
    let step := Z.quot current 2 in
    let step := if step <? minScale then minScale else step in
    let size := current + (n - free) in
    target ← grow (Z.to_nat (n - free) + 2) current size step;
    '(newBuf, p) ← Alloc p target;
    let offset := writerIndex b - readerIndex b in
    data ← mslice (buf b) (readerIndex b) (writerIndex b);
    newBuf ← mcopy newBuf 0 (mlen newBuf) data;
    Ret (mkByteBuf (capacity b) newBuf 0 offset (markedIndex b), Free p (buf b))
  else Ret (b, p).

(** The bytes [data] put at the writer index, after which it is advanced by [n]. *)
Definition put (b : ByteBuf) (hi : Z) (data : bytes) (n : Z) : outcome ByteBuf :=
  m ← mcopy (buf b) (writerIndex b) hi data;
  Ret (mkByteBuf (capacity b) m (readerIndex b) (writerIndex b + n) (markedIndex b)).

Definition Write (b : ByteBuf) (data : bytes) (p : P) : outcome (ByteBuf * P) :=
  let n := len data in
  '(b, p) ← Expansion b n p; b ← put b (Capacity b) data n; Ret (b, p).

(** [b.buf[b.writerIndex:b.writerIndex+n]] is filled with the [n] bytes of a number. *)
Definition WriteNumber (n : Z) (encode : Z -> bytes) (b : ByteBuf) (v : Z) (p : P) : outcome (ByteBuf * P) :=
  '(b, p) ← Expansion b n p; b ← put b (writerIndex b + n) (encode v) n; Ret (b, p).

Definition WriteInt := WriteNumber 4 Int2Bytes.
Definition WriteUInt16 := WriteNumber 2 (be 2).
Definition WriteUInt32 := WriteNumber 4 (be 4).
Definition WriteInt64 := WriteNumber 8 Int64ToBytes.
Definition WriteUInt64 := WriteNumber 8 (be 8).

Definition WriteByte (b : ByteBuf) (v : Z) (p : P) : outcome (ByteBuf * P) :=
  '(b, p) ← Expansion b 1 p;
  if Capacity b <=? writerIndex b then Panic
  else b ← put b (Capacity b) [v] 1; Ret (b, p).

Definition WriteByteBuf (b from : ByteBuf) (p : P) : outcome (ByteBuf * ByteBuf * P) :=
  let size := Readable from in
  '(b, p) ← Expansion b size p;
  data ← mslice (buf from) (readerIndex from) (writerIndex from);
  b ← put b (writerIndex b + size) data size;
  Ret (b, at_reader from (writerIndex from), p).

End ByteBuf.
End Buf.

(** ** Numbers *)

Lemma land_octet b : is_u8 b -> Z.land b 255 = b.
Proof. intros Hb. change 255 with (Z.ones 8). rewrite Z.land_ones by lia. apply Z.mod_small. exact Hb. Qed.

Lemma be_length n v : length (be n v) = n.
Proof. induction n as [|n IH]; cbn; congruence. Qed.

Lemma be_u8 n v : Forall is_u8 (be n v).
Proof. induction n as [|n IH]; cbn [be]; constructor; [apply u8_range|done]. Qed.

Lemma fold_be l : ∀ a, fold_left (λ a b, a * 256 + b) l a = a * 2 ^ (8 * len l) + be_value l.
Proof.
  unfold be_value. induction l as [|b l IH]; intros a; cbn [fold_left].
  { replace (2 ^ (8 * len [])) with 1 by done. lia. }
  rewrite IH, (IH (0 * 256 + b)), len_cons.
  replace (8 * (1 + len l)) with (8 + 8 * len l) by lia. rewrite Z.pow_add_r by (pose proof (len_nonneg l); lia). lia.
Qed.

Lemma be_value_cons b l : be_value (b :: l) = b * 2 ^ (8 * len l) + be_value l.
Proof. unfold be_value. cbn [fold_left]. rewrite (fold_be l (0 * 256 + b)). unfold be_value. lia. Qed.

(** Decoding what was encoded: the low bytes of the number. *)
Lemma be_value_be n v : be_value (be n v) = v mod 2 ^ (8 * Z.of_nat n).
Proof.
  induction n as [|n IH]; cbn [be]; [by rewrite Z.mod_1_r|].
  rewrite be_value_cons, IH. unfold len. rewrite be_length. set (k := 8 * Z.of_nat n).
  assert (0 <= k) by lia. rewrite Z.shiftr_div_pow2 by done. unfold u8.
  replace (8 * Z.of_nat (S n)) with (k + 8) by lia. rewrite Z.pow_add_r by lia.
  rewrite (Z.rem_mul_r v (2 ^ k) (2 ^ 8)) by lia. lia.
Qed.

Lemma lor_low x y k : 0 <= k -> 0 <= y < 2 ^ k -> Z.lor (x * 2 ^ k) y = x * 2 ^ k + y.
Proof.
  intros Hk Hy. symmetry. apply Z.add_nocarry_lor, Z.bits_inj_0. intros i. rewrite Z.land_spec.
  destruct (Z.lt_ge_cases i 0); [by rewrite !Z.testbit_neg_r|].
  destruct (Z.lt_ge_cases i k); [by rewrite Z.mul_pow2_bits_low|].
  destruct (Z.eq_dec y 0) as [->|]; [by rewrite Z.bits_0, andb_false_r|].
  rewrite (Z.bits_above_log2 y), andb_false_r; [done|lia|].
  apply Z.lt_le_trans with k; [|done]. apply Z.log2_lt_pow2; lia.
Qed.

Lemma octet_at l i b : l !! i = Some b -> is_u8 b -> octet l (Z.of_nat i) = Ret b.
Proof.
  intros Hl Hb. unfold octet, byte_at. destruct (Z.ltb_spec (Z.of_nat i) 0); [lia|].
  rewrite Nat2Z.id, Hl. cbn. by rewrite land_octet.
Qed.

Lemma Byte2Int_value a b c d : is_u8 a -> is_u8 b -> is_u8 c -> is_u8 d ->
  Byte2Int [a; b; c; d] = Ret (be_value [a; b; c; d]).
Proof.
  intros Ha Hb Hc Hd. unfold Byte2Int. rewrite (octet_at _ 0%nat a), (octet_at _ 1%nat b), (octet_at _ 2%nat c), (octet_at _ 3%nat d) by done.
  cbn [mbind outcome_mbind]. f_equal. unfold is_u8 in *. rewrite !Z.shiftl_mul_pow2 by lia.
  rewrite (lor_low a (b * 2^16) 24) by lia.
  replace (a * 2^24 + b * 2^16) with ((a * 2^8 + b) * 2^16) by lia. rewrite (lor_low _ (c * 2^8) 16) by lia.
  replace (_ * 2^16 + c * 2^8) with (((a * 2^8 + b) * 2^8 + c) * 2^8) by lia. rewrite (lor_low _ d 8) by lia.
  cbn. lia.
Qed.

Lemma Byte2Int64_value a b c d e f g h :
  is_u8 a -> is_u8 b -> is_u8 c -> is_u8 d -> is_u8 e -> is_u8 f -> is_u8 g -> is_u8 h ->
  Byte2Int64 [a; b; c; d; e; f; g; h] = Ret (i64 (be_value [a; b; c; d; e; f; g; h])).
Proof.
  intros Ha Hb Hc Hd He Hf Hg Hh. unfold Byte2Int64.
  rewrite (octet_at _ 0%nat a), (octet_at _ 1%nat b), (octet_at _ 2%nat c), (octet_at _ 3%nat d),
    (octet_at _ 4%nat e), (octet_at _ 5%nat f), (octet_at _ 6%nat g), (octet_at _ 7%nat h) by done.
  cbn [mbind outcome_mbind]. f_equal. f_equal. unfold is_u8 in *. rewrite !Z.shiftl_mul_pow2 by lia.
  rewrite (lor_low a (b * 2^48) 56) by lia.
  replace (a * 2^56 + b * 2^48) with ((a * 2^8 + b) * 2^48) by lia. rewrite (lor_low _ (c * 2^40) 48) by lia.
  replace (_ * 2^48 + c * 2^40) with (((a * 2^8 + b) * 2^8 + c) * 2^40) by lia. rewrite (lor_low _ (d * 2^32) 40) by lia.
  replace (_ * 2^40 + d * 2^32) with ((((a * 2^8 + b) * 2^8 + c) * 2^8 + d) * 2^32) by lia. rewrite (lor_low _ (e * 2^24) 32) by lia.
  replace (_ * 2^32 + e * 2^24) with (((((a * 2^8 + b) * 2^8 + c) * 2^8 + d) * 2^8 + e) * 2^24) by lia. rewrite (lor_low _ (f * 2^16) 24) by lia.
  replace (_ * 2^24 + f * 2^16) with ((((((a * 2^8 + b) * 2^8 + c) * 2^8 + d) * 2^8 + e) * 2^8 + f) * 2^16) by lia. rewrite (lor_low _ (g * 2^8) 16) by lia.
  replace (_ * 2^16 + g * 2^8) with (((((((a * 2^8 + b) * 2^8 + c) * 2^8 + d) * 2^8 + e) * 2^8 + f) * 2^8 + g) * 2^8) by lia. rewrite (lor_low _ h 8) by lia.
  cbn. lia.
Qed.

(** ** A buffer is a queue of bytes *)
Module BufProofs.
Import Buf.
Section Queue.
Context {P : Type} `{!Pool P}.
Implicit Types (b : ByteBuf) (p : P).

(** The indices are in order, and the memory is the pool's. *)
Record wf b p : Prop := {
  wf_read : 0 <= readerIndex b <= writerIndex b;
  wf_write : writerIndex b <= mlen (buf b);
  wf_len : mlen (buf b) <= cap (buf b);
  wf_owned : owned p (buf b);
  wf_pool : pool_ok p
}.

(** The readable bytes. *)
Definition content b : bytes :=
  take (Z.to_nat (Readable b)) (drop (Z.to_nat (readerIndex b)) (arr (buf b))).

Lemma mslice_ok m lo hi : 0 <= lo <= hi -> hi <= cap m ->
  mslice m lo hi = Ret (take (Z.to_nat (hi - lo)) (drop (Z.to_nat lo) (arr m))).
Proof.
  intros H1 H2. unfold mslice, cap in *. rewrite slice_in_range by lia.
  destruct (Z.leb_spec 0 lo), (Z.leb_spec lo hi), (Z.leb_spec hi (len (arr m))); try lia. done.
Qed.

Lemma len_content b p : wf b p -> len (content b) = Readable b.
Proof.
  intros [H1 H2 H3 _ _]. unfold content. rewrite len_take, len_drop. unfold Readable, cap in *. lia.
Qed.

Lemma mcopy_ok m lo hi data : 0 <= lo <= hi -> hi <= cap m -> len data <= hi - lo ->
  mcopy m lo hi data = Ret (mkMem (take (Z.to_nat lo) (arr m) ++ data ++ drop (Z.to_nat (lo + len data)) (arr m)) (mlen m)).
Proof.
  intros H1 H2 H3. unfold mcopy. destruct (Z.leb_spec 0 lo), (Z.leb_spec lo hi), (Z.leb_spec hi (cap m)); try lia.
  cbn [andb]. rewrite Z.min_r by lia. rewrite len_to_nat, firstn_all.
  by replace (Z.to_nat lo + length data)%nat with (Z.to_nat (lo + len data)) by (unfold len; lia).
Qed.

(** Skipping [n] bytes. *)
Lemma skip_ok b p n : wf b p -> 0 <= n <= Readable b ->
  wf (at_reader b (readerIndex b + n)) p /\ content (at_reader b (readerIndex b + n)) = drop (Z.to_nat n) (content b).
Proof.
  intros [H1 H2 H3 H4 H5] Hn. unfold Readable in Hn. split; [constructor; cbn; try lia; done|].
  unfold content, Readable. cbn. rewrite skipn_firstn_comm, drop_drop.
  replace (Z.to_nat (readerIndex b) + Z.to_nat n)%nat with (Z.to_nat (readerIndex b + n)) by lia.
  f_equal. lia.
Qed.

(** The next [n] bytes. *)
Lemma front_ok b p n : wf b p -> 0 <= n <= Readable b ->
  mslice (buf b) (readerIndex b) (readerIndex b + n) = Ret (take (Z.to_nat n) (content b)).
Proof.
  intros [H1 H2 H3 _ _] Hn. unfold Readable in Hn. rewrite mslice_ok by lia. unfold content, Readable.
  rewrite take_take. do 2 f_equal. lia.
Qed.

Lemma grow_ok step size : 1 <= step -> ∀ fuel target, 0 < Z.of_nat fuel -> size - target + 1 < Z.of_nat fuel ->
  ∃ t, grow fuel target size step = Ret t /\ size < t.
Proof.
  intros Hs fuel. induction fuel as [|fuel IH]; intros target H0 Hf; [lia|]. cbn [grow].
  destruct (Z.ltb_spec size target); [eauto|]. apply IH; lia.
Qed.

(** Room for [n] more bytes is made and nothing readable is lost. *)
Lemma Expansion_ok b p n : wf b p -> 0 <= n ->
  ∃ b' p', Expansion b n p = Ret (b', p') /\ wf b' p' /\ content b' = content b /\ n <= Writeable b'.
Proof.
  intros Hw Hn. pose proof Hw as [H1 H2 H3 H4 H5]. unfold Expansion. destruct (Z.ltb_spec (Writeable b) n) as [Hlt|]; [|eauto 6].
  unfold Writeable, Capacity in *.
  set (step := if Z.quot (mlen (buf b)) 2 <? minScale then minScale else Z.quot (mlen (buf b)) 2).
  assert (Hs : 1 <= step) by (unfold step, minScale; destruct (Z.ltb_spec (Z.quot (mlen (buf b)) 2) 128); lia).
  destruct (grow_ok step (mlen (buf b) + (n - (mlen (buf b) - writerIndex b))) Hs
    (Z.to_nat (n - (mlen (buf b) - writerIndex b)) + 2) (mlen (buf b))) as (t & Ht & Hlt'); [lia..|].
  fold step. rewrite Ht. cbn [mbind outcome_mbind].
  destruct (Alloc_ok p t H5 ltac:(lia)) as (m & p' & Ha & Hm & Hc & Ho & Hp & Hmono). rewrite Ha. cbn [mbind outcome_mbind].
  rewrite mslice_ok by lia. cbn [mbind outcome_mbind].
  change (take _ (drop _ (arr (buf b)))) with (content b).
  pose proof (len_content b p Hw) as Hlc. unfold Readable in Hlc.
  rewrite mcopy_ok by lia. cbn [mbind outcome_mbind].
  destruct (Free_ok p' (buf b) Hp (Hmono _ H4)) as [Hp' Hmono'].
  eexists _, _. split; [reflexivity|]. split_and!.
  - assert (Hcap : cap (mkMem (take (Z.to_nat 0) (arr m) ++ content b ++ drop (Z.to_nat (0 + len (content b))) (arr m))
      (mlen m)) = cap m) by (unfold cap in *; cbn [arr]; rewrite !len_app, len_take, len_drop; lia).
    constructor; cbn [buf readerIndex writerIndex]; [lia|cbn; lia|rewrite Hcap; cbn; lia|by eapply Hmono', owned_cap|done].
  - unfold content at 1, Readable. cbn. rewrite Z.sub_0_r, <- Hlc, len_to_nat.
    change (take (length (content b)) (content b ++ drop (Z.to_nat (0 + len (content b))) (arr m)) = content b).
    apply take_app_length.
  - unfold Writeable, Capacity. cbn. lia.
Qed.

Lemma put_ok b p hi data : wf b p -> len data <= Writeable b -> hi <= Capacity b -> writerIndex b + len data <= hi ->
  ∃ b', put b hi data (len data) = Ret b' /\ wf b' p /\ content b' = content b ++ data.
Proof.
  intros Hw Hl Hh Hd. pose proof Hw as [H1 H2 H3 H4 H5]. unfold Writeable, Capacity in *. unfold put.
  rewrite mcopy_ok by (pose proof (len_nonneg data); lia). cbn [mbind outcome_mbind]. eexists. split; [reflexivity|].
  pose proof (len_nonneg data) as Hnn.
  set (m := mkMem _ _).
  assert (Hcap : cap m = cap (buf b)).
  { unfold cap, m in *. cbn [arr]. rewrite !len_app, len_take, len_drop. lia. }
  split.
  - constructor; cbn [buf readerIndex writerIndex]; try lia; [change (mlen m) with (mlen (buf b)); lia..| |done].
    by apply (owned_cap p (buf b)).
  - unfold content, Readable. cbn [buf readerIndex writerIndex arr m].
    set (w := Z.to_nat (writerIndex b)). set (r := Z.to_nat (readerIndex b)).
    assert (Hlw : length (take w (arr (buf b))) = w) by (rewrite length_take; unfold cap, len in *; lia).
    rewrite drop_app_le by lia. rewrite skipn_firstn_comm.
    replace (Z.to_nat (writerIndex b - readerIndex b)) with (w - r)%nat by lia.
    rewrite app_assoc. rewrite take_app_le; [rewrite firstn_all2; [done|]|];
      rewrite length_app, length_take, length_drop; unfold cap, len in *; lia.
Qed.

(** *** Every operation is one on a queue *)

Inductive op :=
| OWrite (data : bytes) | OWriteByte (v : Z) | OWriteInt (v : Z) | OWriteUInt16 (v : Z) | OWriteUInt32 (v : Z)
| OWriteInt64 (v : Z) | OWriteUInt64 (v : Z)
| ORead (n : Z) | OReadByte | OReadInt | OReadUInt16 | OReadUInt32 | OReadInt64 | OReadUInt64 | OSkip (n : Z).

(** Bytes are bytes, and sizes are not negative. *)
Definition op_ok (o : op) : Prop :=
  match o with
  | OWrite data => Forall is_u8 data
  | OWriteByte v => is_u8 v
  | ORead n | OSkip n => 0 <= n
  | _ => True
  end.

Inductive answer := Wrote | GotBytes (n : Z) (data : bytes) | GotByte (v : Z) | Got (v : option Z) | Skipped (ok : bool).

Definition written (m : outcome (ByteBuf * P)) : outcome (answer * ByteBuf * P) :=
  '(b, p) ← m; Ret (Wrote, b, p).
Definition got (p : P) (m : outcome (option Z * ByteBuf)) : outcome (answer * ByteBuf * P) :=
  '(v, b) ← m; Ret (Got v, b, p).

Definition exec (o : op) (b : ByteBuf) (p : P) : outcome (answer * ByteBuf * P) :=
  match o with
  | OWrite data => written (Write b data p)
  | OWriteByte v => written (WriteByte b v p)
  | OWriteInt v => written (WriteInt b v p)
  | OWriteUInt16 v => written (WriteUInt16 b v p)
  | OWriteUInt32 v => written (WriteUInt32 b v p)
  | OWriteInt64 v => written (WriteInt64 b v p)
  | OWriteUInt64 v => written (WriteUInt64 b v p)
  | ORead n => '(k, data, b) ← ReadBytes b n; Ret (GotBytes k data, b, p)
  | OReadByte => '(v, b) ← ReadByte b; Ret (GotByte v, b, p)
  | OReadInt => got p (ReadInt b)
  | OReadUInt16 => got p (ReadUInt16 b)
  | OReadUInt32 => got p (ReadUInt32 b)
  | OReadInt64 => got p (ReadInt64 b)
  | OReadUInt64 => got p (ReadUInt64 b)
  | OSkip n => Ret match Skip b n with Some b' => (Skipped true, b', p) | None => (Skipped false, b, p) end
  end.

(** The queue: numbers are written and read in big-endian order, bytes that are missing
    are read as zeros, and a number for which bytes are missing is not read. *)
Definition number (n : nat) (f : Z -> Z) (q : bytes) : answer * bytes :=
  if len q <? Z.of_nat n then (Got None, q) else (Got (Some (f (be_value (take n q)))), drop n q).

Definition queue (o : op) (q : bytes) : answer * bytes :=
  match o with
  | OWrite data => (Wrote, q ++ data)
  | OWriteByte v => (Wrote, q ++ [v])
  | OWriteInt v | OWriteUInt32 v => (Wrote, q ++ be 4 v)
  | OWriteUInt16 v => (Wrote, q ++ be 2 v)
  | OWriteInt64 v | OWriteUInt64 v => (Wrote, q ++ be 8 v)
  | ORead n =>
      let k := Z.to_nat (Z.min n (len q)) in
      (GotBytes (Z.min n (len q)) (take k q ++ replicate (Z.to_nat n - k) 0), drop k q)
  | OReadByte => match q with [] => (GotByte 0, []) | v :: q => (GotByte v, q) end
  | OReadInt | OReadUInt32 => number 4 id q
  | OReadUInt16 => number 2 id q
  | OReadInt64 => number 8 i64 q
  | OReadUInt64 => number 8 id q
  | OSkip n => if len q <? n then (Skipped false, q) else (Skipped true, drop (Z.to_nat n) q)
  end.

(** The buffer holds the bytes of the queue. *)
Definition holds b p (q : bytes) : Prop := wf b p /\ content b = q /\ Forall is_u8 q.

Definition step_ok (o : op) b p (q : bytes) : Prop :=
  ∃ b' p', exec o b p = Ret ((queue o q).1, b', p') /\ holds b' p' (queue o q).2.

Lemma Write_ok b p q data : holds b p q -> Forall is_u8 data ->
  ∃ b' p', Write b data p = Ret (b', p') /\ holds b' p' (q ++ data).
Proof.
  intros (Hw & Hc & Hq) Hd. unfold Write.
  destruct (Expansion_ok b p (len data) Hw (len_nonneg data)) as (b1 & p1 & -> & Hw1 & Hc1 & Hf). cbn [mbind outcome_mbind].
  destruct (put_ok b1 p1 (Capacity b1) data Hw1 Hf) as (b2 & -> & Hw2 & Hc2); [lia|unfold Writeable in Hf; lia|].
  eexists _, _. split; [reflexivity|]. split; [done|]. split; [by rewrite Hc2, Hc1, Hc|by apply Forall_app].
Qed.

Lemma WriteNumber_ok b p q n encode v : holds b p q -> (0 < n)%nat -> encode v = be n v ->
  ∃ b' p', WriteNumber (Z.of_nat n) encode b v p = Ret (b', p') /\ holds b' p' (q ++ be n v).
Proof.
  intros (Hw & Hc & Hq) Hn He. unfold WriteNumber.
  destruct (Expansion_ok b p (Z.of_nat n) Hw ltac:(lia)) as (b1 & p1 & -> & Hw1 & Hc1 & Hf). cbn [mbind outcome_mbind].
  rewrite He. assert (Hl : len (be n v) = Z.of_nat n) by (unfold len; by rewrite be_length).
  destruct (put_ok b1 p1 (writerIndex b1 + Z.of_nat n) (be n v) Hw1) as (b2 & Hp & Hw2 & Hc2);
    [lia|unfold Writeable in Hf; lia|lia|].
  rewrite Hl in Hp. rewrite Hp. eexists _, _. split; [reflexivity|].
  split; [done|]. split; [by rewrite Hc2, Hc1, Hc|]. apply Forall_app. split; [done|apply be_u8].
Qed.

Lemma ReadNumber_ok b p q n decode f : holds b p q ->
  (∀ d, length d = n -> Forall is_u8 d -> decode d = Ret (f (be_value d))) ->
  ∃ b', got p (ReadNumber (Z.of_nat n) decode b) = Ret ((number n f q).1, b', p) /\ holds b' p (number n f q).2.
Proof.
  intros (Hw & Hc & Hq) Hd. pose proof (len_content b p Hw) as Hl. rewrite Hc in Hl.
  unfold ReadNumber, number. rewrite <- Hl. destruct (Z.ltb_spec (len q) (Z.of_nat n)).
  - eexists. split; [reflexivity|]. done.
  - rewrite Z.add_simpl_r. rewrite (front_ok b p) by (done || lia). cbn [mbind outcome_mbind].
    rewrite Hc, Nat2Z.id, Hd; [|rewrite length_take; unfold len in *; lia|by apply Forall_take].
    cbn. destruct (skip_ok b p (Z.of_nat n) Hw) as [Hw' Hc']; [lia|].
    eexists. split; [reflexivity|]. cbn. split; [done|]. rewrite Hc', Hc, Nat2Z.id. split; [done|by apply Forall_drop].
Qed.

Lemma Byte2Int_ok d : length d = 4%nat -> Forall is_u8 d -> Byte2Int d = Ret (id (be_value d)).
Proof.
  destruct d as [|? [|? [|? [|? []]]]]; try done. intros _ Hd.
  repeat match type of Hd with Forall _ (_ :: _) => apply Forall_cons in Hd as [? Hd] end. by apply Byte2Int_value.
Qed.

Lemma Byte2Int64_ok d : length d = 8%nat -> Forall is_u8 d -> Byte2Int64 d = Ret (i64 (be_value d)).
Proof.
  destruct d as [|? [|? [|? [|? [|? [|? [|? [|? []]]]]]]]]; try done. intros _ Hd.
  repeat match type of Hd with Forall _ (_ :: _) => apply Forall_cons in Hd as [? Hd] end. by apply Byte2Int64_value.
Qed.

Lemma ReadBytes_ok b p q n : holds b p q -> 0 <= n -> step_ok (ORead n) b p q.
Proof.
  intros (Hw & Hc & Hq) Hn. pose proof (len_content b p Hw) as Hl. rewrite Hc in Hl. pose proof (len_nonneg q).
  unfold step_ok. cbn [exec queue fst snd]. set (k := Z.min n (len q)).
  unfold ReadBytes. destruct (Z.ltb_spec n 0); [lia|]. unfold Read. destruct (Z.eqb_spec n 0) as [->|Hn0].
  - assert (k = 0) as -> by (unfold k; lia). eexists _, _. split; [reflexivity|]. done.
  - rewrite <- Hl. assert ((if len q <? n then len q else n) = k) as -> by (unfold k; destruct (Z.ltb_spec (len q) n); lia).
    rewrite (front_ok b p) by (done || lia). cbn [mbind outcome_mbind]. rewrite Hc.
    assert (Hk : len (take (Z.to_nat k) q) = k) by (rewrite len_take; lia). rewrite Hk.
    destruct (skip_ok b p k Hw) as [Hw' Hc']; [lia|].
    eexists _, _. split; [do 3 f_equal; repeat f_equal; lia|]. split; [done|]. rewrite Hc', Hc. split; [done|by apply Forall_drop].
Qed.

Lemma ReadByte_ok b p q : holds b p q -> step_ok OReadByte b p q.
Proof.
  intros (Hw & Hc & Hq). pose proof (len_content b p Hw) as Hl. rewrite Hc in Hl.
  unfold step_ok, exec, ReadByte. rewrite <- Hl. destruct q as [|v q]; cbn [queue fst snd].
  - eexists _, _. split; [reflexivity|]. done.
  - rewrite len_cons in *. pose proof (len_nonneg q). destruct (Z.eqb_spec (1 + len q) 0); [lia|].
    destruct (skip_ok b p 1 Hw) as [Hw' Hc']; [lia|].
    pose proof Hw as [H1 H2 H3 _ _]. unfold Readable in Hl.
    assert (Hv : take (Z.to_nat (mlen (buf b))) (arr (buf b)) !! Z.to_nat (readerIndex b) = Some v).
    { assert (Hv : content b !! 0%nat = Some v) by (by rewrite Hc). unfold content, Readable in Hv.
      apply lookup_take_Some in Hv as [Hv _]. rewrite lookup_drop, Nat.add_0_r in Hv. by rewrite lookup_take_lt by lia. }
    unfold byte_at. destruct (Z.ltb_spec (readerIndex b) 0); [lia|]. rewrite Hv. cbn.
    eexists _, _. split; [reflexivity|]. split; [done|]. rewrite Hc', Hc. split; [done|].
    by apply Forall_cons in Hq as [_ Hq].
Qed.

Lemma WriteByte_ok b p q v : holds b p q -> is_u8 v -> step_ok (OWriteByte v) b p q.
Proof.
  intros (Hw & Hc & Hq) Hv. unfold step_ok. cbn [exec queue fst snd]. unfold WriteByte.
  destruct (Expansion_ok b p 1 Hw ltac:(lia)) as (b1 & p1 & -> & Hw1 & Hc1 & Hf). cbn [mbind outcome_mbind].
  unfold Writeable in Hf. destruct (Z.leb_spec (Capacity b1) (writerIndex b1)); [lia|].
  destruct (put_ok b1 p1 (Capacity b1) [v] Hw1) as (b2 & Hp & Hw2 & Hc2);
    [change (len [v]) with 1; unfold Writeable; lia|lia|change (len [v]) with 1; lia|].
  change (len [v]) with 1 in Hp. rewrite Hp. eexists _, _. split; [reflexivity|].
  split; [done|]. split; [by rewrite Hc2, Hc1, Hc|]. apply Forall_app. split; [done|by apply Forall_singleton].
Qed.

Lemma exec_ok o b p q : holds b p q -> op_ok o -> step_ok o b p q.
Proof.
  intros Hb Ho.
  assert (Hn : ∀ n (Hn : (0 < n)%nat) encode v, encode v = be n v ->
    ∃ b' p', written (WriteNumber (Z.of_nat n) encode b v p) = Ret (Wrote, b', p') /\ holds b' p' (q ++ be n v)).
  { intros n Hn encode v He. destruct (WriteNumber_ok b p q n encode v Hb Hn He) as (b' & p' & -> & H). cbn. eauto. }
  assert (Hr : ∀ n decode f, (∀ d, length d = n -> Forall is_u8 d -> decode d = Ret (f (be_value d))) ->
    ∃ b' p', got p (ReadNumber (Z.of_nat n) decode b) = Ret ((number n f q).1, b', p') /\ holds b' p' (number n f q).2).
  { intros n decode f Hd. destruct (ReadNumber_ok b p q n decode f Hb Hd) as (b' & ? & ?). eauto. }
  destruct o; cbn in Ho.
  - destruct (Write_ok b p q data Hb Ho) as (b' & p' & Hw & Hh). unfold step_ok, exec. rewrite Hw. cbn. eauto.
  - by apply WriteByte_ok.
  - exact (Hn 4%nat ltac:(lia) Int2Bytes v eq_refl).
  - exact (Hn 2%nat ltac:(lia) (be 2) v eq_refl).
  - exact (Hn 4%nat ltac:(lia) (be 4) v eq_refl).
  - exact (Hn 8%nat ltac:(lia) Int64ToBytes v eq_refl).
  - exact (Hn 8%nat ltac:(lia) (be 8) v eq_refl).
  - by apply ReadBytes_ok.
  - by apply ReadByte_ok.
  - exact (Hr 4%nat Byte2Int id Byte2Int_ok).
  - exact (Hr 2%nat _ id (λ d _ _, eq_refl)).
  - exact (Hr 4%nat _ id (λ d _ _, eq_refl)).
  - exact (Hr 8%nat Byte2Int64 i64 Byte2Int64_ok).
  - exact (Hr 8%nat _ id (λ d _ _, eq_refl)).
  - destruct Hb as (Hw & Hc & Hq). pose proof (len_content b p Hw) as Hl. rewrite Hc in Hl.
    unfold step_ok. cbn [exec queue]. unfold Skip. rewrite Hl. destruct (Z.ltb_spec (Readable b) n).
    + eexists _, _. split; [reflexivity|]. done.
    + destruct (skip_ok b p n Hw) as [Hw' Hc']; [lia|]. eexists _, _. split; [reflexivity|].
      split; [done|]. rewrite Hc', Hc. split; [done|by apply Forall_drop].
Qed.

Fixpoint exec_all (ops : list op) (b : ByteBuf) (p : P) : outcome (list answer * ByteBuf * P) :=
  match ops with
  | [] => Ret ([], b, p)
  | o :: ops => '(a, b, p) ← exec o b p; '(l, b, p) ← exec_all ops b p; Ret (a :: l, b, p)
  end.

Fixpoint queue_all (ops : list op) (q : bytes) : list answer * bytes :=
  match ops with
  | [] => ([], q)
  | o :: ops => let '(a, q) := queue o q in let '(l, q) := queue_all ops q in (a :: l, q)
  end.

Lemma exec_all_ok ops : ∀ b p q, holds b p q -> Forall op_ok ops ->
  ∃ b' p', exec_all ops b p = Ret ((queue_all ops q).1, b', p') /\ holds b' p' (queue_all ops q).2.
Proof.
  induction ops as [|o ops IH]; intros b p q Hb Ho; cbn [exec_all queue_all].
  { eexists _, _. split; [reflexivity|done]. }
  apply Forall_cons in Ho as [Ho Hos]. destruct (exec_ok o b p q Hb Ho) as (b1 & p1 & -> & Hb1). cbn [mbind outcome_mbind].
  destruct (IH b1 p1 _ Hb1 Hos) as (b2 & p2 & -> & Hb2). cbn [mbind outcome_mbind].
  destruct (queue o q) as [a q1]. cbn [fst snd] in *. destruct (queue_all ops q1) as [l q2]. eauto.
Qed.

Lemma NewByteBuf_ok c p : pool_ok p -> 0 <= c -> ∃ b p', NewByteBuf c p = Ret (b, p') /\ holds b p' [].
Proof.
  intros Hp Hc. unfold NewByteBuf. destruct (Alloc_ok p c Hp Hc) as (m & p' & -> & Hm & Hcap & Ho & Hp' & _).
  eexists _, _. split; [reflexivity|]. split; [by constructor; cbn; try lia|]. split; [|constructor].
  unfold content, Readable. by cbn.
Qed.

(** C33: a buffer is a queue of bytes: any sequence of writes, reads and skips on a new buffer
    returns what the queue answers, whatever the pool hands out, and no expansion loses or
    invents a byte. *)
Theorem bytebuf_queue : ∀ c p ops, pool_ok p -> 0 <= c -> Forall op_ok ops ->
  ∃ b p1 b' p', NewByteBuf c p = Ret (b, p1) /\
    exec_all ops b p1 = Ret ((queue_all ops []).1, b', p') /\ content b' = (queue_all ops []).2.
Proof.
  intros c p ops Hp Hc Ho. destruct (NewByteBuf_ok c p Hp Hc) as (b & p1 & Hn & Hb).
  destruct (exec_all_ok ops b p1 [] Hb Ho) as (b' & p' & He & (_ & Hq & _)). eauto 8.
Qed.

End Queue.
End BufProofs.

(** ** The slab pool

    [SyncPool]: free arrays by size class.  [sync.Pool] may hand out any free array; here it
    is the one given back last. *)
Module Slab.

Record SyncPool := mkSyncPool { classes : list (Z * list bytes); maxSize : Z }.

(** [for chunkSize := minSize; chunkSize <= maxSize; chunkSize *= factor] *)
Fixpoint chunkSizes (fuel : nat) (chunkSize maxSize factor : Z) : outcome (list Z) :=
  match fuel with
  | O => Hang
  | S fuel =>
      if chunkSize <=? maxSize
      then l ← chunkSizes fuel (chunkSize * factor) maxSize factor; Ret (chunkSize :: l)
      else Ret []
  end.

Definition NewSyncPool (minSize maxSize factor : Z) : outcome SyncPool :=
  sizes ← chunkSizes (Z.to_nat maxSize + 2) minSize maxSize factor;
  Ret (mkSyncPool (map (λ s, (s, [])) sizes) maxSize).

Definition zeros (n : Z) : bytes := replicate (Z.to_nat n) 0.

(** The first class that is large enough, and the array taken from it. *)
Fixpoint getClass (cs : list (Z * list bytes)) (size : Z) : option (bytes * list (Z * list bytes)) :=
  match cs with
  | [] => None
  | (s, free) :: cs =>
      if size <=? s then
        match free with
        | [] => Some (zeros s, (s, []) :: cs)
        | a :: free => Some (a, (s, free) :: cs)
        end
      else match getClass cs size with Some (a, cs) => Some (a, (s, free) :: cs) | None => None end
  end.

(** The array of a class cut to a length. *)
Definition reslice (a : bytes) (size : Z) : outcome mem :=
  if (0 <=? size) && (size <=? len a) then Ret (mkMem a size) else Panic.

(** [make([]byte, size)] *)
Definition make_bytes (size : Z) : outcome mem :=
  if size <? 0 then Panic else Ret (mkMem (zeros size) size).

Definition SyncPool_Alloc (p : SyncPool) (size : Z) : outcome (mem * SyncPool) :=
  match (if size <=? maxSize p then getClass (classes p) size else None) with
  | Some (a, cs) => m ← reslice a size; Ret (m, mkSyncPool cs (maxSize p))
  | None => m ← make_bytes size; Ret (m, p)
  end.

Fixpoint putClass (cs : list (Z * list bytes)) (a : bytes) : list (Z * list bytes) :=
  match cs with
  | [] => []
  | (s, free) :: cs => if len a <=? s then (s, a :: free) :: cs else (s, free) :: putClass cs a
  end.

Definition SyncPool_Free (p : SyncPool) (m : mem) : SyncPool :=
  if cap m <=? maxSize p then mkSyncPool (putClass (classes p) (arr m)) (maxSize p) else p.

(** *** Memory of the pool keeps it sound *)

Definition sizes (p : SyncPool) : list Z := (classes p).*1.

(** The sizes ascend, and the free arrays of a class have its size. *)
Definition class_ok (c : Z * list bytes) : Prop := 0 < c.1 /\ Forall (λ a, len a = c.1) c.2.
Definition slab_ok (p : SyncPool) : Prop :=
  StronglySorted Z.lt (sizes p) /\ Forall class_ok (classes p) /\ Forall (λ s, s <= maxSize p) (sizes p).

(** Memory of the pool is of a class, or larger than all of them. *)
Definition slab_owned (p : SyncPool) (m : mem) : Prop := Forall (λ s, s < cap m) (sizes p) \/ cap m ∈ sizes p.

Lemma getClass_ok cs size a cs' : Forall class_ok cs -> getClass cs size = Some (a, cs') ->
  size <= len a /\ len a ∈ cs.*1 /\ cs'.*1 = cs.*1 /\ Forall class_ok cs'.
Proof.
  revert cs'. induction cs as [|[s free] cs IH]; intros cs' Hok H; cbn in H; [done|].
  apply Forall_cons in Hok as [[Hs Hf] Hok]. cbn in Hs, Hf. destruct (Z.leb_spec size s).
  - destruct free as [|x free]; injection H as <- <-.
    + unfold zeros. rewrite len_replicate, Z2Nat.id by lia. split_and!; [done|left|done|by repeat constructor].
    + apply Forall_cons in Hf as [Hx Hf]. rewrite Hx. split_and!; [done|left|done|by constructor].
  - destruct (getClass cs size) as [[x cs0]|]; [|done]. injection H as <- <-.
    destruct (IH cs0 Hok eq_refl) as (H1 & H2 & H3 & H4). cbn. rewrite H3.
    split_and!; [done|by right|done|by constructor].
Qed.

Lemma putClass_sizes cs a : (putClass cs a).*1 = cs.*1.
Proof. induction cs as [|[s free] cs IH]; cbn; [done|]. destruct (len a <=? s); cbn; congruence. Qed.

Lemma putClass_ok cs a : StronglySorted Z.lt cs.*1 -> Forall class_ok cs -> len a ∈ cs.*1 -> Forall class_ok (putClass cs a).
Proof.
  induction cs as [|[s free] cs IH]; intros Hs Hok Ha; cbn in *; [constructor|].
  apply StronglySorted_inv in Hs as [Hs Hlt]. apply Forall_cons in Hok as [[H1 H2] Hok]. cbn in H1, H2.
  destruct (Z.leb_spec (len a) s).
  - apply elem_of_cons in Ha as [Ha|Ha]; [by repeat constructor|].
    rewrite Forall_forall in Hlt. specialize (Hlt _ Ha). lia.
  - constructor; [done|]. apply IH; [done|done|]. apply elem_of_cons in Ha as [Ha|Ha]; [lia|done].
Qed.

Lemma getClass_none cs size : getClass cs size = None -> Forall (λ s, s < size) cs.*1.
Proof.
  induction cs as [|[s free] cs IH]; cbn; [constructor|]. destruct (Z.leb_spec size s); [by destruct free|].
  destruct (getClass cs size) as [[a cs']|]; [done|]. intros _. constructor; [done|by apply IH].
Qed.

Lemma make_ok n : 0 <= n -> ∃ m, make_bytes n = Ret m /\ mlen m = n /\ cap m = n.
Proof.
  intros Hn. unfold make_bytes. destruct (Z.ltb_spec n 0); [lia|]. eexists. split; [reflexivity|].
  unfold cap, zeros. cbn [arr mlen]. rewrite len_replicate. lia.
Qed.

Lemma SyncPool_Alloc_ok p n : slab_ok p -> 0 <= n ->
  ∃ m p', SyncPool_Alloc p n = Ret (m, p') /\ mlen m = n /\ n <= cap m /\ slab_owned p' m /\ slab_ok p' /\
    sizes p' = sizes p.
Proof.
  intros (Hs & Hok & Hm) Hn. unfold SyncPool_Alloc.
  assert (Hmk : Forall (λ s, s < n) (sizes p) -> ∃ m p', (m ← make_bytes n; Ret (m, p)) = Ret (m, p') /\ mlen m = n /\
    n <= cap m /\ slab_owned p' m /\ slab_ok p' /\ sizes p' = sizes p).
  { intros Hlt. destruct (make_ok n Hn) as (m & -> & Hl & Hc). cbn. eexists _, _. split; [reflexivity|].
    rewrite Hc. split_and!; [done|lia| |done|done]. left. by rewrite Hc. }
  destruct (Z.leb_spec n (maxSize p)) as [Hle|Hgt].
  - destruct (getClass (classes p) n) as [[a cs]|] eqn:E; [|apply Hmk; by apply getClass_none in E].
    destruct (getClass_ok _ _ _ _ Hok E) as (H1 & H2 & H3 & H4). unfold reslice.
    destruct (Z.leb_spec 0 n), (Z.leb_spec n (len a)); try lia. cbn.
    eexists _, _. split; [reflexivity|]. unfold slab_ok, slab_owned, sizes, cap in *. cbn [arr mlen classes maxSize].
    rewrite H3. split_and!; try done. by right.
  - apply Hmk. eapply Forall_impl; [exact Hm|]. cbn. intros; lia.
Qed.

Lemma putClass_large cs a : Forall (λ s, s < len a) cs.*1 -> putClass cs a = cs.
Proof.
  induction cs as [|[s free] cs IH]; cbn; [done|]. intros [Hs Hl]%Forall_cons.
  destruct (Z.leb_spec (len a) s); [lia|]. by rewrite IH.
Qed.

Lemma SyncPool_Free_ok p m : slab_ok p -> slab_owned p m -> slab_ok (SyncPool_Free p m) /\ sizes (SyncPool_Free p m) = sizes p.
Proof.
  intros (Hs & Hok & Hm) Ho. unfold SyncPool_Free. destruct (cap m <=? maxSize p); [|done].
  unfold slab_ok, sizes in *. cbn. rewrite putClass_sizes. split_and!; try done.
  destruct Ho as [Hl|Hi]; [by rewrite putClass_large|by apply putClass_ok].
Qed.

#[export, refine] Instance slab_pool : Pool SyncPool := {|
  Alloc := SyncPool_Alloc; Free := SyncPool_Free; pool_ok := slab_ok; owned := slab_owned |}.
Proof.
  - intros p n Hp Hn. destruct (SyncPool_Alloc_ok p n Hp Hn) as (m & p' & H1 & H2 & H3 & H4 & H5 & H6).
    exists m, p'. split_and!; try done. intros m'. unfold slab_owned. by rewrite H6.
  - intros p m m' Ho Hc. unfold slab_owned. by rewrite Hc.
  - intros p m Hp Ho. destruct (SyncPool_Free_ok p m Hp Ho) as [H1 H2]. split; [done|].
    intros m'. unfold slab_owned. by rewrite H2.
Defined.

(** The pool [NewSyncPool] makes is sound: the loop ends, whatever the sizes. *)
Lemma chunkSizes_ok factor maxSize : 2 <= factor -> ∀ fuel c, 1 <= c -> maxSize - c + 1 < Z.of_nat fuel -> 0 < Z.of_nat fuel ->
  ∃ l, chunkSizes fuel c maxSize factor = Ret l /\ StronglySorted Z.lt l /\
    Forall (λ s, c <= s /\ s <= maxSize) l.
Proof.
  intros Hf fuel. induction fuel as [|fuel IH]; intros c Hc H1 H2; [lia|]. cbn [chunkSizes].
  destruct (Z.leb_spec c maxSize); [|exists []; by repeat constructor].
  destruct (IH (c * factor)) as (l & -> & Hs & Hl); [nia..|lia|]. cbn. eexists. split; [reflexivity|]. split.
  - constructor; [done|]. eapply Forall_impl; [exact Hl|]. cbn. intros; nia.
  - constructor; [lia|]. eapply Forall_impl; [exact Hl|]. cbn. intros; nia.
Qed.

Lemma NewSyncPool_ok minSize maxSize factor : 1 <= minSize -> 2 <= factor ->
  ∃ p, NewSyncPool minSize maxSize factor = Ret p /\ slab_ok p.
Proof.
  intros H1 H2. unfold NewSyncPool.
  destruct (chunkSizes_ok factor maxSize H2 (Z.to_nat maxSize + 2) minSize H1) as (l & -> & Hs & Hl); [lia..|]. cbn.
  eexists. split; [reflexivity|]. unfold slab_ok, sizes. cbn. rewrite map_map. cbn. rewrite map_id.
  split_and!; [done| |].
  - apply Forall_fmap. eapply Forall_impl; [exact Hl|]. intros s Hs'. split; cbn in *; [lia|constructor].
  - eapply Forall_impl; [exact Hl|]. cbn. intros; lia.
Qed.

End Slab.

(** *** A pool of three classes *)
Module Sample.
Import BufProofs Slab.

Definition small_pool : SyncPool := mkSyncPool [(256, []); (512, []); (1024, [])] 1024.

Lemma small_pool_ok : pool_ok small_pool.
Proof.
  split_and!; cbn.
  - repeat constructor; lia.
  - repeat constructor; cbn; lia.
  - repeat constructor; lia.
Qed.

(** More than the 128 bytes the buffer starts with. *)
Definition sample_ops : list op :=
  [OWriteInt 5; OWrite (replicate 300 7); OReadInt; ORead 2; OSkip 297; OReadByte; OReadInt; OWriteInt64 (-2); OReadInt64].

Lemma bytebuf_queue_witness : ∃ b p1 b' p', Buf.NewByteBuf 128 small_pool = Ret (b, p1) /\
  exec_all sample_ops b p1 =
    Ret ([Wrote; Wrote; Got (Some 5); GotBytes 2 [7; 7]; Skipped true; GotByte 7; Got None; Wrote; Got (Some (-2))], b', p') /\
  content b' = [].
Proof.
  apply (bytebuf_queue 128 small_pool sample_ops); [exact small_pool_ok|lia|].
  unfold sample_ops. repeat (apply Forall_cons; split); cbn; try done; try lia.
Defined.

End Sample.
