(* ===== verification/Caching.v ===== *)
(** Model of the response cache: the encoding of a response in a buffer
    [src/src/filter/cache_utils.go], the LRU cache [src/src/utils/lru.go], and the keys and
    hits of the caching filter [src/src/proxy/filter_caching.go]. *)
From S2P Require Import Prelude Meta Matching ByteBuf.
Import Buf.

(** ** Encoded responses *)
Section Encoding.
Context {P : Type} `{!Pool P}.

(** What a response keeps: the headers in the order [VisitAll] visits them, and the body. *)
Record response := mkResponse { headers : list (bytes * bytes); body : bytes }.

(** The callback of [VisitAll]. *)
Fixpoint writeHeaders (hs : list (bytes * bytes)) (buf : ByteBuf) (p : P) : outcome (ByteBuf * P) :=
  match hs with
  | [] => Ret (buf, p)
  | (key, value) :: hs =>
      '(buf, p) ← WriteInt buf (len key) p;
      '(buf, p) ← Write buf key p;
      '(buf, p) ← WriteInt buf (len value) p;
      '(buf, p) ← Write buf value p;
      writeHeaders hs buf p
  end.

(** [goetty.Int2BytesTo(n, buf.RawBuf())] *)
Definition setCount (n : Z) (b : ByteBuf) : outcome ByteBuf :=
  if mlen (buf b) <? 4 then Panic
  else m ← mcopy (buf b) 0 4 (Int2Bytes n);
       Ret (mkByteBuf (capacity b) m (readerIndex b) (writerIndex b) (markedIndex b)).

Definition NewCachedValue (resp : response) (p : P) : outcome (ByteBuf * P) :=
  '(b, p) ← NewByteBuf 128 p;
  '(b, p) ← WriteInt b 0 p;
  '(b, p) ← writeHeaders (headers resp) b p;
  '(b, p) ← WriteInt b (len (body resp)) p;
  '(b, p) ← Write b (body resp) p;
  b ← setCount (len (headers resp)) b; Ret (b, p).

(** [n, _ := buf.ReadInt()] *)
Definition readLen (b : ByteBuf) : outcome (Z * ByteBuf) :=
  '(n, b) ← ReadInt b; Ret (default 0 n, b).

Definition readBytes (b : ByteBuf) : outcome (bytes * ByteBuf) :=
  '(n, b) ← readLen b; '(_, value, b) ← ReadBytes b n; Ret (value, b).

Fixpoint readHeaders (n : nat) (b : ByteBuf) : outcome (list (bytes * bytes) * ByteBuf) :=
  match n with
  | O => Ret ([], b)
  | S n =>
      '(key, b) ← readBytes b; '(value, b) ← readBytes b;
      '(hs, b) ← readHeaders n b; Ret ((key, value) :: hs, b)
  end.

(** The response the value is read to; the buffer is the one in the cache. *)
Definition ReadCachedValueTo (b : ByteBuf) : outcome (response * ByteBuf) :=
  '(n, b) ← readLen b;
  '(hs, b) ← readHeaders (Z.to_nat n) b;
  '(bd, b) ← readBytes b; Ret (mkResponse hs bd, b).

End Encoding.

(** ** The LRU cache

    The list of entries, most recently used first; the Go map from keys to list elements is
    an index of it.  [OnEvicted] is called with every entry that is purged: [evicted] are its
    arguments.  [Readable] is the size of a value. *)
Module Lru.
Section LRU.
Context {K V : Type} `{!EqDecision K} (Readable : V -> Z).

Record Cache := mkCache {
  MaxBytes : Z;
  current : Z;
  ll : list (K * V);
  evicted : list (K * V)
}.

Definition NewLRUCache (maxBytes : Z) : Cache := mkCache maxBytes 0 [] [].

Definition hit (key : K) (l : list (K * V)) : option V := snd <$> (snd <$> list_find (λ e, e.1 = key) l).

(** The list without the element of the key. *)
Definition without (key : K) (l : list (K * V)) : list (K * V) := filter (λ e, e.1 <> key) l.

Definition removeElement (e : K * V) (c : Cache) : Cache :=
  mkCache (MaxBytes c) (u64 (current c - u64 (Readable e.2))) (without e.1 (ll c)) (evicted c ++ [e]).

Definition removeOldest (c : Cache) : Cache :=
  match last (ll c) with None => c | Some e => removeElement e c end.

Definition Add (key : K) (value : V) (c : Cache) : Cache :=
  match hit key (ll c) with
  | Some _ =>
      let cur := u64 (current c - u64 (Readable value)) in
      mkCache (MaxBytes c) (u64 (cur + u64 (Readable value))) ((key, value) :: without key (ll c)) (evicted c)
  | None =>
      let c := mkCache (MaxBytes c) (u64 (current c + u64 (Readable value))) ((key, value) :: ll c) (evicted c) in
      if negb (MaxBytes c =? 0) && (MaxBytes c <? current c) then removeOldest c else c
  end.

Definition Get (key : K) (c : Cache) : option V * Cache :=
  match hit key (ll c) with
  | Some v => (Some v, mkCache (MaxBytes c) (current c) ((key, v) :: without key (ll c)) (evicted c))
  | None => (None, c)
  end.

Definition Remove (key : K) (c : Cache) : Cache :=
  match hit key (ll c) with Some v => removeElement (key, v) c | None => c end.

Definition Len (c : Cache) : Z := len (ll c).

(** The entries are handed to [OnEvicted] in the order [order] of the map. *)
Definition Clear (order : list (K * V)) (c : Cache) : Cache :=
  mkCache (MaxBytes c) 0 [] (evicted c ++ order).

End LRU.
Arguments Cache K V : clear implicits.
End Lru.

(** ** The caching filter *)

(** [strings.Join] *)
Fixpoint Join (l : list bytes) (sep : bytes) : bytes :=
  match l with
  | [] => []
  | [x] => x
  | x :: l => x ++ sep ++ Join l sep
  end.

Fixpoint paramValues (keys : list Param) (req : Request) : outcome (list bytes) :=
  match keys with
  | [] => Ret []
  | p :: keys => v ← paramValue p req; vs ← paramValues keys req; Ret (v :: vs)
  end.

(** [uri] is the request URI. *)
Definition getID (uri : bytes) (req : Request) (keys : list Param) : outcome bytes :=
  if len keys =? 0 then Ret uri
  else ids ← paramValues keys req; Ret (Join (uri :: ids) (str "-")).

(** ** Encoding and decoding *)
Module Encoded.
Import BufProofs.
#[local] Arguments be : simpl never.
Section Encoded.
Context {P : Type} `{!Pool P}.
Implicit Types (b : ByteBuf) (p : P).

Definition entry (s : bytes) : bytes := be 4 (len s) ++ s.
Definition entries (hs : list (bytes * bytes)) : bytes := concat (map (λ h, entry h.1 ++ entry h.2) hs).

(** Texts of bytes that a 32-bit length can describe. *)
Definition text_ok (s : bytes) : Prop := Forall is_u8 s /\ len s < 2^32.
Definition headers_ok (hs : list (bytes * bytes)) : Prop := Forall (λ h, text_ok h.1 /\ text_ok h.2) hs.
Definition response_ok (r : response) : Prop :=
  headers_ok (headers r) /\ len (headers r) < 2^32 /\ text_ok (body r).

(** *** The reader index stays at 0 while writing *)

Lemma Expansion_reader b n p b' p' : Expansion b n p = Ret (b', p') -> readerIndex b = 0 -> readerIndex b' = 0.
Proof.
  unfold Expansion. destruct (_ <? n); [|by intros [= <- _]]. intros H _. bind_inv H. bind_inv H. destruct a0. cbn in H.
  bind_inv H. bind_inv H. by injection H as <- _.
Qed.

Lemma put_reader b hi data n b' : put b hi data n = Ret b' -> readerIndex b' = readerIndex b.
Proof. unfold put. intros H. bind_inv H. by injection H as <-. Qed.

Lemma Write_reader b data p b' p' : Write b data p = Ret (b', p') -> readerIndex b = 0 -> readerIndex b' = 0.
Proof.
  unfold Write. intros H H0. bind_inv H. destruct a as [b1 p1]. apply Expansion_reader in E; [|done].
  bind_inv H. injection H as <- _. by rewrite (put_reader _ _ _ _ _ E0).
Qed.

Lemma WriteInt_reader b v p b' p' : WriteInt b v p = Ret (b', p') -> readerIndex b = 0 -> readerIndex b' = 0.
Proof.
  unfold WriteInt, WriteNumber. intros H H0. bind_inv H. destruct a as [b1 p1]. apply Expansion_reader in E; [|done].
  bind_inv H. injection H as <- _. by rewrite (put_reader _ _ _ _ _ E0).
Qed.

(** *** Writing *)

(** The buffer holds the bytes, from the start of its memory. *)
Definition holds0 b p (q : bytes) : Prop := holds b p q /\ readerIndex b = 0.

Lemma Write0 b p q s : holds0 b p q -> Forall is_u8 s -> ∃ b' p', Write b s p = Ret (b', p') /\ holds0 b' p' (q ++ s).
Proof.
  intros [Hb H0] Hs. destruct (Write_ok b p q s Hb Hs) as (b' & p' & Hw & Hb'). exists b', p'.
  split; [done|]. split; [done|by eapply Write_reader].
Qed.

Lemma WriteInt0 b p q n : holds0 b p q -> ∃ b' p', WriteInt b n p = Ret (b', p') /\ holds0 b' p' (q ++ be 4 n).
Proof.
  intros [Hb H0]. destruct (WriteNumber_ok b p q 4 Int2Bytes n Hb ltac:(lia) eq_refl) as (b' & p' & Hw & Hb').
  exists b', p'. split; [exact Hw|]. split; [done|]. eapply WriteInt_reader; [exact Hw|done].
Qed.

Lemma WriteEntry0 {A} b p q s (k : ByteBuf * P -> outcome A) : holds0 b p q -> Forall is_u8 s ->
  ∃ b' p', ('(b, p) ← WriteInt b (len s) p; '(b, p) ← Write b s p; k (b, p)) = k (b', p') /\
    holds0 b' p' (q ++ entry s).
Proof.
  intros Hb Hs. destruct (WriteInt0 b p q (len s) Hb) as (b1 & p1 & -> & H1). cbn.
  destruct (Write0 b1 p1 _ s H1 Hs) as (b2 & p2 & -> & H2). cbn. exists b2, p2.
  split; [done|]. unfold entry. by rewrite app_assoc.
Qed.

Lemma writeHeaders_ok hs : ∀ b p q, holds0 b p q -> headers_ok hs ->
  ∃ b' p', writeHeaders hs b p = Ret (b', p') /\ holds0 b' p' (q ++ entries hs).
Proof.
  induction hs as [|[k v] hs IH]; intros b p q Hb Hh; cbn [writeHeaders].
  { exists b, p. unfold entries. cbn. by rewrite app_nil_r. }
  apply Forall_cons in Hh as [[[Hk _] [Hv _]] Hh]. cbn in Hk, Hv.
  destruct (WriteEntry0 b p q k (λ '(b, p), '(b, p) ← WriteInt b (len v) p; '(b, p) ← Write b v p; writeHeaders hs b p) Hb Hk)
    as (b1 & p1 & -> & H1).
  destruct (WriteEntry0 b1 p1 _ v (λ '(b, p), writeHeaders hs b p) H1 Hv) as (b2 & p2 & -> & H2).
  destruct (IH b2 p2 _ H2 Hh) as (b3 & p3 & -> & H3). exists b3, p3. split; [done|].
  unfold entries in *. cbn. by rewrite !app_assoc in *.
Qed.

Lemma setCount_ok n b p c q : holds0 b p (c ++ q) -> length c = 4%nat ->
  ∃ b', setCount n b = Ret b' /\ holds b' p (be 4 n ++ q).
Proof.
  intros [(Hw & Hc & Hq) H0] Hl. pose proof (len_content b p Hw) as Hlen. rewrite Hc, len_app in Hlen.
  pose proof Hw as [H1 H2 H3 H4 H5]. pose proof (len_nonneg q). assert (Hl4 : len c = 4) by (unfold len; lia).
  unfold Readable in Hlen. unfold setCount. destruct (Z.ltb_spec (mlen (buf b)) 4); [lia|].
  rewrite mcopy_ok by (try (change (len (Int2Bytes n)) with 4); lia). cbn [mbind outcome_mbind].
  change (len (Int2Bytes n)) with 4. eexists. split; [reflexivity|].
  set (m := mkMem _ _). change (Int2Bytes n) with (be 4 n) in m.
  assert (Hcap : cap m = cap (buf b)).
  { unfold cap, m in *. cbn [arr]. rewrite !len_app, len_take, len_drop. change (len (be 4 n)) with 4. lia. }
  split; [|split].
  - constructor; cbn [buf readerIndex writerIndex]; try lia; [cbn; lia|rewrite Hcap; cbn; lia|by eapply owned_cap|done].
  - unfold content, Readable in *. cbn [buf readerIndex writerIndex arr m]. rewrite H0 in *. change (Z.to_nat 0) with 0%nat in *.
    rewrite drop_0 in *. cbn [take app]. rewrite Z.sub_0_r in *. rewrite (take_0 (arr (buf b))), app_nil_l, firstn_app.
    assert (Hb4 : length (be 4 n) = 4%nat) by apply be_length. rewrite firstn_all2 by (unfold len in *; lia).
    f_equal. rewrite Hb4. change (Z.to_nat (0 + 4)) with 4%nat. rewrite <- skipn_firstn_comm, Hc.
    rewrite <- Hl. apply drop_app_length.
  - apply Forall_app in Hq as [_ Hq]. apply Forall_app. split; [apply be_u8|done].
Qed.

(** *** Reading *)

Lemma readLen_ok b p n q : holds b p (be 4 n ++ q) -> 0 <= n < 2^32 -> ∃ b', readLen b = Ret (n, b') /\ holds b' p q.
Proof.
  intros Hb Hn. destruct (ReadNumber_ok b p _ 4 Byte2Int id Hb Byte2Int_ok) as (b' & Hr & Hb').
  assert (Hnum : number 4 id (be 4 n ++ q) = (Got (Some n), q)).
  { unfold number. rewrite len_app. pose proof (len_nonneg q). change (len (be 4 n)) with 4.
    destruct (Z.ltb_spec (4 + len q) (Z.of_nat 4)); [lia|].
    rewrite take_app_length' by (by rewrite be_length). rewrite drop_app_length' by (by rewrite be_length).
    unfold id. rewrite be_value_be. do 3 f_equal. apply Z.mod_small. lia. }
  rewrite Hnum in *. cbn [fst snd] in *. exists b'. split; [|done]. unfold readLen, ReadInt.
  unfold got in Hr. change (Z.of_nat 4) with 4 in Hr. destruct (ReadNumber 4 Byte2Int b) as [[v b1]| |]; cbn in *; [|done|done].
  by injection Hr as -> ->.
Qed.

Lemma readBytes_ok b p s q : holds b p (entry s ++ q) -> text_ok s -> ∃ b', readBytes b = Ret (s, b') /\ holds b' p q.
Proof.
  intros Hb [Hs Hl]. unfold entry in Hb. rewrite <- app_assoc in Hb. pose proof (len_nonneg s). pose proof (len_nonneg q).
  unfold readBytes. destruct (readLen_ok b p (len s) (s ++ q) Hb ltac:(lia)) as (b1 & -> & H1). cbn [mbind outcome_mbind].
  destruct (ReadBytes_ok b1 p _ (len s) H1 ltac:(lia)) as (b2 & p2 & He & H2). cbn [exec queue fst snd] in He, H2.
  rewrite len_app, Z.min_l, len_to_nat, take_app_length, Nat.sub_diag in He by lia.
  rewrite len_app, Z.min_l, len_to_nat, drop_app_length in H2 by lia. cbn [replicate] in He. rewrite app_nil_r in He.
  destruct (ReadBytes b1 (len s)) as [[[k data] b3]| |]; cbn in *; [|done|done]. injection He as _ -> -> ->. eauto.
Qed.

Lemma readHeaders_ok hs : ∀ b p q, holds b p (entries hs ++ q) -> headers_ok hs ->
  ∃ b', readHeaders (length hs) b = Ret (hs, b') /\ holds b' p q.
Proof.
  induction hs as [|[k v] hs IH]; intros b p q Hb Hh; cbn [readHeaders length]; [eauto|].
  apply Forall_cons in Hh as [[Hk Hv] Hh]. cbn in Hk, Hv.
  unfold entries in Hb. cbn in Hb. rewrite <- !app_assoc in Hb.
  destruct (readBytes_ok b p k _ Hb Hk) as (b1 & -> & H1). cbn.
  destruct (readBytes_ok b1 p v _ H1 Hv) as (b2 & -> & H2). cbn.
  destruct (IH b2 p q H2 Hh) as (b3 & -> & H3). cbn. eauto.
Qed.

(** A buffer with nothing left gives the empty response. *)
Lemma read_empty b p : holds b p [] -> ReadCachedValueTo b = Ret (mkResponse [] [], b).
Proof.
  intros (Hw & Hc & _). pose proof (len_content b p Hw) as Hl. rewrite Hc in Hl. change (len []) with 0 in Hl.
  assert (Hr : readLen b = Ret (0, b)) by (unfold readLen, ReadInt, ReadNumber; by rewrite <- Hl).
  unfold ReadCachedValueTo, readBytes. rewrite Hr. cbn [mbind outcome_mbind].
  change (readHeaders (Z.to_nat 0) b) with (Ret (A := list (bytes * bytes) * ByteBuf) ([], b)). cbn [mbind outcome_mbind].
  rewrite Hr. reflexivity.
Qed.

(** A response read from the cached value is the one that was stored, headers in their
    order and body, but only once: reading moves the read index of the buffer in the cache,
    and every later hit answers with no headers and an empty body. *)
Theorem cached_once : ∀ (p : P) resp, pool_ok p -> response_ok resp ->
  ∃ b p' b1, NewCachedValue resp p = Ret (b, p') /\ ReadCachedValueTo b = Ret (resp, b1) /\
    ReadCachedValueTo b1 = Ret (mkResponse [] [], b1).
Proof.
  intros p [hs bd] Hp (Hh & Hn & Hb). cbn in Hh, Hn, Hb. unfold NewCachedValue. cbn [headers body].
  destruct (NewByteBuf_ok 128 p Hp ltac:(lia)) as (b0 & p0 & He0 & Hb0). rewrite He0. cbn [mbind outcome_mbind].
  assert (Hr0 : readerIndex b0 = 0) by (unfold NewByteBuf in He0; bind_inv He0; destruct a; by injection He0 as <- _).
  destruct (WriteInt0 b0 p0 [] 0 (conj Hb0 Hr0)) as (b1 & p1 & -> & H1). cbn [mbind outcome_mbind].
  destruct (writeHeaders_ok hs b1 p1 _ H1 Hh) as (b2 & p2 & -> & H2). cbn [mbind outcome_mbind].
  destruct (WriteEntry0 b2 p2 _ bd (λ '(b, p), b ← setCount (len hs) b; Ret (b, p)) H2 (proj1 Hb)) as (b3 & p3 & -> & H3).
  rewrite <- app_assoc in H3. destruct (setCount_ok (len hs) b3 p3 _ _ H3 eq_refl) as (b4 & -> & H4). cbn [mbind outcome_mbind].
  destruct (readLen_ok b4 p3 (len hs) _ H4 ltac:(pose proof (len_nonneg hs); lia)) as (b5 & Hr5 & H5).
  destruct (readHeaders_ok hs b5 p3 _ H5 Hh) as (b6 & Hr6 & H6).
  rewrite <- (app_nil_r (entry bd)) in H6. destruct (readBytes_ok b6 p3 bd [] H6 Hb) as (b7 & Hr7 & H7).
  exists b4, p3, b7. split; [done|]. split; [|by eapply read_empty].
  unfold ReadCachedValueTo. rewrite Hr5. cbn. by rewrite len_to_nat, Hr6; cbn; rewrite Hr7.
Qed.

End Encoded.
End Encoded.

(** ** The accounting of the cache *)
Module Accounting.
Import Lru.
Section Accounting.
Context {K V : Type} `{!EqDecision K} (Readable : V -> Z).
Implicit Types (c : Cache K V) (l : list (K * V)).

Definition total l : Z := sumZ (λ e, Readable e.2) l.

(** Keys are distinct and the counter is the size of the entries. *)
Definition accounted c : Prop := NoDup (ll c).*1 /\ current c = u64 (total (ll c)).

Lemma total_cons e l : total (e :: l) = Readable e.2 + total l.
Proof. done. Qed.

Lemma u64_add x y : u64 (u64 x + u64 y) = u64 (x + y).
Proof. unfold u64. by rewrite <- Z.add_mod by lia. Qed.

Lemma u64_sub x y : u64 (u64 x - u64 y) = u64 (x - y).
Proof. unfold u64. by rewrite <- Zminus_mod. Qed.

Lemma u64_id x : u64 (u64 x) = u64 x.
Proof. unfold u64. by rewrite Z.mod_mod by lia. Qed.

Lemma hit_cons key e l : hit key (e :: l) = if decide (e.1 = key) then Some e.2 else hit key l.
Proof.
  unfold hit. cbn [list_find]. destruct (decide (e.1 = key)); [done|].
  by destruct (list_find (λ e0, e0.1 = key) l) as [[i x]|].
Qed.

Lemma hit_None key l : hit key l = None <-> key ∉ l.*1.
Proof.
  induction l as [|e l IH]; [split; [intros _ ?%elem_of_nil; done|done]|].
  rewrite hit_cons, fmap_cons, not_elem_of_cons, <- IH. destruct (decide (e.1 = key)) as [He|He].
  - split; [done|]. intros [? _]. congruence.
  - split; [by intros; split; [congruence|]|by intros [_ ?]].
Qed.

Lemma hit_in key v l : NoDup l.*1 -> (key, v) ∈ l -> hit key l = Some v.
Proof.
  induction l as [|e l IH]; intros Hn He; [by apply elem_of_nil in He|]. rewrite hit_cons.
  rewrite fmap_cons in Hn. apply NoDup_cons in Hn as [Hk Hn].
  apply elem_of_cons in He as [<-|He]; [cbn; by rewrite decide_True|].
  destruct (decide (e.1 = key)) as [Hek|]; [|by apply IH]. exfalso. apply Hk. rewrite Hek.
  apply list_elem_of_fmap. by exists (key, v).
Qed.

Lemma without_keys key l : (without key l).*1 = filter (λ k, k <> key) l.*1.
Proof.
  unfold without. induction l as [|e l IH]; [done|]. rewrite fmap_cons, !filter_cons.
  destruct (decide (e.1 <> key)); cbn; by rewrite IH.
Qed.

Lemma without_NoDup key l : NoDup l.*1 -> NoDup (without key l).*1 /\ key ∉ (without key l).*1.
Proof.
  intros Hn. rewrite without_keys. split; [by apply NoDup_filter|].
  rewrite list_elem_of_filter. tauto.
Qed.

Lemma without_absent key l : key ∉ l.*1 -> without key l = l.
Proof.
  unfold without. induction l as [|e l IH]; [done|]. rewrite fmap_cons, not_elem_of_cons. intros [Hk Hl].
  rewrite filter_cons_True by congruence. f_equal. by apply IH.
Qed.

Lemma without_total key v l : NoDup l.*1 -> hit key l = Some v -> total (without key l) = total l - Readable v.
Proof.
  unfold total. induction l as [|e l IH]; intros Hn Hh; [done|]. rewrite hit_cons in Hh.
  rewrite fmap_cons in Hn. apply NoDup_cons in Hn as [Hk Hn]. destruct (decide (e.1 = key)) as [<-|Hne].
  - injection Hh as <-. unfold without. rewrite filter_cons_False by tauto. fold (without e.1 l).
    rewrite without_absent by done. cbn. lia.
  - unfold without in *. rewrite filter_cons_True by done. cbn. rewrite IH by done. lia.
Qed.

Lemma removeElement_ok key v c : accounted c -> hit key (ll c) = Some v -> accounted (removeElement Readable (key, v) c).
Proof.
  intros [Hn Hc] Hh. split; cbn; [by apply without_NoDup|].
  rewrite Hc, u64_sub. by rewrite (without_total key v).
Qed.

Lemma last_hit c e : NoDup (ll c).*1 -> last (ll c) = Some e -> hit e.1 (ll c) = Some e.2.
Proof. intros Hn Hl. apply hit_in; [done|]. apply last_Some_elem_of in Hl. by destruct e. Qed.

(** The byte counter that decides about eviction stays the size of the entries, and keys
    stay distinct, on look-ups, removals and additions of new keys; an addition to a key that
    is present keeps it right only if the new value has the size of the old one. *)
Theorem lru_accounting : ∀ c k v, accounted c ->
  accounted (Get k c).2 /\ accounted (Remove Readable k c) /\
  (hit k (ll c) = None -> accounted (Add Readable k v c)) /\
  (∀ w, hit k (ll c) = Some w -> (accounted (Add Readable k v c) <-> u64 (Readable v) = u64 (Readable w))).
Proof.
  intros c k v H. pose proof H as [Hn Hc]. split_and!.
  - unfold Get. destruct (hit k (ll c)) as [w|] eqn:E; [|done]. cbn [snd]. split; cbn [current ll].
    + apply NoDup_cons. by destruct (without_NoDup k (ll c) Hn).
    + rewrite Hc, total_cons, (without_total k w) by done. cbn. f_equal. lia.
  - unfold Remove. destruct (hit k (ll c)) as [w|] eqn:E; [by apply removeElement_ok|done].
  - intros E. unfold Add. rewrite E.
    set (c' := mkCache (MaxBytes c) _ _ _). assert (Hc' : accounted c').
    { split; [cbn; apply NoDup_cons; split; [by apply hit_None|done]|]. cbn [current ll c'].
      rewrite Hc, u64_add, total_cons. cbn. f_equal. lia. }
    destruct (_ && _); [|done]. unfold removeOldest. destruct (last (ll c')) as [e|] eqn:El; [|done].
    destruct e as [k' v']. apply removeElement_ok; [done|]. apply (last_hit c' (k', v')); [by destruct Hc'|done].
  - intros w E. unfold Add. rewrite E. unfold accounted. cbn [ll current].
    rewrite Hc, u64_sub, u64_add. replace (total (ll c) - Readable v + Readable v) with (total (ll c)) by lia.
    rewrite total_cons, (without_total k w) by done. cbn [snd].
    assert (HN : NoDup (((k, v) :: without k (ll c)).*1)) by (apply NoDup_cons; by destruct (without_NoDup k (ll c) Hn)).
    unfold u64. rewrite !Z.cong_iff_0.
    replace (total (ll c) - (Readable v + (total (ll c) - Readable w))) with (- (Readable v - Readable w)) by lia.
    rewrite !Z.mod_divide by lia. rewrite Z.divide_opp_r. tauto.
Qed.

End Accounting.
End Accounting.

(** ** Witnesses *)
Section Witnesses.
Import Slab Encoded Accounting.

Definition sample_response : response := mkResponse [(str "Content-Type", str "text/plain")] (str "hello").

Lemma cached_once_witness : ∃ b p' b1, NewCachedValue sample_response ByteBuf.Sample.small_pool = Ret (b, p') /\
  ReadCachedValueTo b = Ret (sample_response, b1) /\ ReadCachedValueTo b1 = Ret (mkResponse [] [], b1).
Proof.
  apply (cached_once ByteBuf.Sample.small_pool sample_response); [exact ByteBuf.Sample.small_pool_ok|].
  assert (Ht : ∀ s, forallb (λ c, (0 <=? c) && (c <? 256)) s = true -> (len s <? 2^32) = true -> text_ok s).
  { intros s Hs Hl. split; [|by apply Z.ltb_lt]. rewrite Forall_forall. intros c Hc.
    rewrite forallb_forall in Hs. apply list_elem_of_In in Hc. specialize (Hs c Hc). unfold is_u8. lia. }
  split; [|split].
  - apply Forall_singleton. split; apply Ht; vm_compute; reflexivity.
  - vm_compute. reflexivity.
  - apply Ht; vm_compute; reflexivity.
Defined.

(** The value of the key 1 is replaced by a larger one. *)
Lemma lru_accounting_witness : ¬ accounted id (Lru.Add id 1 9 (Lru.Add id 1 5 (Lru.NewLRUCache 100))).
Proof.
  destruct (lru_accounting id (Lru.Add id 1 5 (Lru.NewLRUCache 100)) 1 9) as (_ & _ & _ & H).
  - split; [by apply NoDup_singleton|vm_compute; reflexivity].
  - intros Ha. apply (H 5) in Ha; [vm_compute in Ha; discriminate Ha|vm_compute; reflexivity].
Defined.

End Witnesses.
