(* ===== verification/TimeWheel.v ===== *)
(** Model of the timer wheel [src/src/goetty/timewheel.go]: buckets of timeouts by their
    deadlines, free lists of timeout objects with generations, the ticker and the goroutine
    that calls the expired callbacks.

    A linked list is a list of the numbers of its timeouts, first one first.  A callback and
    its argument are one value.  The two goroutines and the callers interleave between their
    critical sections.  The wheel is running: the gateway never stops it. *)
From S2P Require Import Prelude.

(** The states of a timeout. *)
Inductive tstate := timeoutInactive | timeoutExpired | timeoutActive.
#[export] Instance tstate_eq_dec : EqDecision tstate.
Proof. solve_decision. Defined.

Section Wheel.
Context {A : Type} (tickInterval : Z) (bucketExp lockExp : Z).

Record timeout := mkTimeout { generation : Z; state : tstate; deadline : Z; call : option A }.

(** A handle: [Timeout]. *)
Definition Handle := (nat * Z)%type.

(** [bucketMask] and [poolMask]. *)
Definition bucketMask : Z := Z.shiftl 1 bucketExp - 1.
Definition poolMask : Z := Z.shiftl 1 lockExp - 1.

(** [objects] are all timeouts; [processed] is the tick the ticker is done with, behind [ticks]
    between its two critical sections; [expiredList] is the ticker's, [walking] what the other
    goroutine still has to call, [called] what it has called. *)
Record TimeoutWheel := mkWheel {
  ticks : Z;
  processed : Z;
  objects : list timeout;
  buckets : Z -> Z * list nat;
  freelists : Z -> list nat;
  expiredList : list nat;
  walking : list nat;
  called : list (Handle * option A)
}.
Implicit Types (w : TimeoutWheel) (id : nat).

Definition NewTimeoutWheel : TimeoutWheel := mkWheel 0 0 [] (λ _, (0, [])) (λ _, []) [] [] [].

Definition blank : timeout := mkTimeout 0 timeoutInactive 0 None.
Definition obj w id : timeout := nth id (objects w) blank.

Definition set_obj id (t : timeout) w : TimeoutWheel :=
  mkWheel (ticks w) (processed w) (<[id := t]> (objects w)) (buckets w) (freelists w) (expiredList w) (walking w) (called w).
Definition set_free f w : TimeoutWheel :=
  mkWheel (ticks w) (processed w) (objects w) (buckets w) f (expiredList w) (walking w) (called w).
Definition set_buckets b w : TimeoutWheel :=
  mkWheel (ticks w) (processed w) (objects w) b (freelists w) (expiredList w) (walking w) (called w).
Definition log_call (h : Handle) (c : option A) w : TimeoutWheel :=
  mkWheel (ticks w) (processed w) (objects w) (buckets w) (freelists w) (expiredList w) (walking w) (called w ++ [(h, c)]).

Definition upd {B} (f : Z -> B) (i : Z) (x : B) : Z -> B := λ j, if j =? i then x else f j.

Definition bucket_of (d : Z) : Z := Z.land d bucketMask.
Definition lock_of (d : Z) : Z := Z.land d poolMask.

(** ** Operations *)

Definition getTimeoutLocked (d : Z) w : nat * TimeoutWheel :=
  match freelists w (lock_of d) with
  | id :: rest => (id, set_free (upd (freelists w) (lock_of d) rest) w)
  | [] => (length (objects w),
           mkWheel (ticks w) (processed w) (objects w ++ [blank]) (buckets w) (freelists w) (expiredList w) (walking w) (called w))
  end.

Definition putTimeoutLocked id w : TimeoutWheel :=
  let t := obj w id in
  let w := set_obj id (mkTimeout (u64 (generation t + 1)) timeoutInactive (deadline t) (call t)) w in
  let i := lock_of (deadline t) in set_free (upd (freelists w) i (id :: freelists w i)) w.

Definition dTicks (d : Z) : Z := Z.quot (i64 (d + tickInterval - 1)) tickInterval.

(** [loaded] is the count of ticks it reads before it takes the lock. *)
Definition Schedule (loaded d : Z) (c : option A) w : Handle * TimeoutWheel :=
  let dl := u64 (loaded + u64 (dTicks d)) in
  let '(id, w) := getTimeoutLocked dl w in
  let t := obj w id in
  let w := set_obj id (mkTimeout (generation t) timeoutActive dl c) w in
  let out := (id, generation t) in
  let '(lastTick, l) := buckets w (bucket_of dl) in
  if dl <=? lastTick then (out, log_call out c (putTimeoutLocked id w))
  else (out, set_buckets (upd (buckets w) (bucket_of dl) (lastTick, id :: l)) w).

Definition Stop (h : Handle) w : bool * TimeoutWheel :=
  let '(id, g) := h in
  let t := obj w id in
  if negb (generation t =? g) || negb (bool_decide (state t = timeoutActive)) then (false, w)
  else
    let '(lastTick, l) := buckets w (bucket_of (deadline t)) in
    let w := set_buckets (upd (buckets w) (bucket_of (deadline t)) (lastTick, filter (λ x, x <> id) l)) w in
    (true, putTimeoutLocked id w).

(** The ticker: the count first. *)
Definition tick w : TimeoutWheel :=
  mkWheel (u64 (ticks w + 1)) (processed w) (objects w) (buckets w) (freelists w) (expiredList w) (walking w) (called w).

(** The loop over a bucket: what stays, and the expired put in front of the list. *)
Fixpoint expire (now : Z) (l : list nat) (objs : list timeout) (out : list nat) : list nat * list timeout * list nat :=
  match l with
  | [] => ([], objs, out)
  | id :: l =>
      let t := nth id objs blank in
      if deadline t <=? now then
        expire now l (<[id := mkTimeout (generation t) timeoutExpired (deadline t) (call t)]> objs) (id :: out)
      else let '(stay, objs, out) := expire now l objs out in (id :: stay, objs, out)
  end.

(** Then the bucket, and the hand-over of the expired if the other goroutine is [ready]. *)
Definition doTick (ready : bool) w : TimeoutWheel :=
  let i := bucket_of (ticks w) in
  let '(_, l) := buckets w i in
  let '(stay, objs, out) := expire (ticks w) l (objects w) (expiredList w) in
  let b := upd (buckets w) i (ticks w, stay) in
  if ready then mkWheel (ticks w) (ticks w) objs b (freelists w) [] out (called w)
  else mkWheel (ticks w) (ticks w) objs b (freelists w) out (walking w) (called w).

(** One turn of [doExpired]. *)
Definition doExpired w : TimeoutWheel :=
  match walking w with
  | [] => w
  | id :: rest =>
      let t := obj w id in
      let w := mkWheel (ticks w) (processed w) (objects w) (buckets w) (freelists w) (expiredList w) rest (called w) in
      log_call (id, generation t) (call t) (putTimeoutLocked id w)
  end.

(** ** The wheel and its users, without wrap-around of the ticks or generations *)
Inductive step w : TimeoutWheel -> Prop :=
| step_schedule loaded d c : 0 <= loaded <= ticks w -> 0 <= d -> d + tickInterval <= 2^63 -> loaded + dTicks d < 2^64 -> step w (Schedule loaded d c w).2
| step_stop h : step w (Stop h w).2
| step_tick : processed w = ticks w -> ticks w + 1 < 2^64 -> step w (tick w)
| step_doTick ready : processed w < ticks w -> (ready = true -> walking w = []) -> step w (doTick ready w)
| step_doExpired : walking w <> [] -> step w (doExpired w).

(** The generations stay below their wrap-around. *)
Definition bounded w : Prop := Forall (λ t, generation t < 2^64 - 1) (objects w).
Definition move w w' : Prop := step w w' /\ bounded w'.
Definition reached : TimeoutWheel -> Prop := rtc move NewTimeoutWheel.

(** ** Where the timeouts are *)

Definition active w id : Prop := (id < length (objects w))%nat /\ state (obj w id) = timeoutActive.
Definition lastTick w (i : Z) : Z := (buckets w i).1.

(** The invariant, but for a timeout [x] that is in no list. *)
Record ok (x : option nat) w : Prop := {
  ok_bucket i id : id ∈ (buckets w i).2 <-> x <> Some id /\ active w id /\ bucket_of (deadline (obj w id)) = i;
  ok_bucket_nodup i : NoDup (buckets w i).2;
  ok_free i id : id ∈ freelists w i -> x <> Some id /\ (id < length (objects w))%nat /\
    state (obj w id) = timeoutInactive /\ lock_of (deadline (obj w id)) = i;
  ok_free_nodup i : NoDup (freelists w i);
  ok_expired id : id ∈ expiredList w ++ walking w <->
    x <> Some id /\ (id < length (objects w))%nat /\ state (obj w id) = timeoutExpired;
  ok_expired_nodup : NoDup (expiredList w ++ walking w);
  ok_last i : 0 <= lastTick w i <= processed w /\ ∀ t, lastTick w i < t <= processed w -> bucket_of t <> i;
  ok_due id : x <> Some id -> active w id -> lastTick w (bucket_of (deadline (obj w id))) < deadline (obj w id);
  ok_late id : state (obj w id) = timeoutExpired -> deadline (obj w id) <= processed w;
  ok_ticks : 0 <= processed w <= ticks w /\ ticks w <= processed w + 1 /\ ticks w < 2^64;
  ok_called h c : (h, c) ∈ called w -> (h.1 < length (objects w))%nat /\ h.2 < generation (obj w h.1);
  ok_called_nodup : NoDup (map fst (called w));
  ok_generation id : 0 <= generation (obj w id);
  ok_detached id : x = Some id -> (id < length (objects w))%nat
}.

Lemma elem_of_rev {B} (x : B) l : x ∈ rev l <-> x ∈ l.
Proof. by rewrite !list_elem_of_In, <- in_rev. Qed.

Lemma new_ok : ok None NewTimeoutWheel.
Proof.
  split; cbn; try (by constructor); try lia; try done.
  - intros i id. split; [by intros ?%elem_of_nil|]. intros (_ & [H _] & _). cbn in H. lia.
  - intros i id H. by apply elem_of_nil in H.
  - intros id. split; [by intros ?%elem_of_nil|]. intros (_ & H & _). lia.
  - intros i. unfold lastTick. cbn. split; [lia|]. intros t Ht. lia.
  - intros id _ [H _]. cbn in H. lia.
  - by intros [|id].
  - intros h c H. by apply elem_of_nil in H.
  - intros [|id]; cbn; lia.
Qed.

Lemma nth_insert (l : list timeout) i j t : (i < length l)%nat -> nth j (<[i := t]> l) blank = if decide (j = i) then t else nth j l blank.
Proof.
  intros Hi. rewrite !nth_lookup. destruct (decide (j = i)) as [->|Hne].
  - by rewrite list_lookup_insert_eq.
  - by rewrite list_lookup_insert_ne.
Qed.

(** Changing the timeout that is in no list. *)
Lemma set_obj_ok x t w : ok (Some x) w -> generation (obj w x) <= generation t -> state t <> timeoutExpired -> ok (Some x) (set_obj x t w).
Proof.
  intros Ho Hg Hst. pose proof (ok_detached _ _ Ho x eq_refl) as Hx. pose proof Ho as [].
  assert (Hobj : ∀ id, obj (set_obj x t w) id = if decide (id = x) then t else obj w id) by (intros; by apply nth_insert).
  split; unfold active, lastTick in *; cbn [objects buckets freelists expiredList walking processed ticks called set_obj];
    rewrite ?length_insert; try done.
  - intros i id. rewrite Hobj. rewrite ok_bucket0. destruct (decide (id = x)) as [->|]; [|done]. split; intros (H & _); done.
  - intros i id Hid. rewrite Hobj. destruct (ok_free0 i id Hid) as (Hn & ?). by rewrite decide_False by congruence.
  - intros id. rewrite Hobj, ok_expired0. destruct (decide (id = x)) as [->|]; [|done]. split; intros (H & _); done.
  - intros id Hn. rewrite Hobj, decide_False by congruence. by apply ok_due0.
  - intros id. rewrite Hobj. destruct (decide (id = x)); [done|apply ok_late0].
  - intros h c Hin. rewrite Hobj. destruct (ok_called0 h c Hin). split; [done|]. destruct (decide (h.1 = x)) as [E|]; [rewrite E in *|]; lia.
  - intros id. rewrite Hobj. pose proof (ok_generation0 x). destruct (decide (id = x)); [lia|done].
Qed.

(** Putting it into the free list, or into its bucket. *)
Lemma free_ok x w : ok (Some x) w -> state (obj w x) = timeoutInactive ->
  ok None (set_free (upd (freelists w) (lock_of (deadline (obj w x))) (x :: freelists w (lock_of (deadline (obj w x))))) w).
Proof.
  intros Ho Hs. pose proof (ok_detached _ _ Ho x eq_refl) as Hx. pose proof Ho as [].
  assert (Hnot : ∀ i, x ∉ freelists w i) by (intros i Hi; by apply ok_free0 in Hi as [[] _]).
  split; try done.
  - intros i id. etransitivity; [apply ok_bucket0|]. unfold active. split; [intros (_ & ?); done|].
    intros (_ & [H1 H2] & H3). split_and!; [|done|done|done]. intros [= ->]. unfold obj in *. cbn in *. congruence.
  - intros i id. cbn. unfold upd. destruct (Z.eqb_spec i (lock_of (deadline (obj w x)))) as [->|].
    + intros [->|Hin]%elem_of_cons; [done|]. by destruct (ok_free0 _ id Hin) as (_ & ?).
    + intros Hin. by destruct (ok_free0 i id Hin) as (_ & ?).
  - intros i. cbn. unfold upd. destruct (_ =? _); [|done]. by constructor.
  - intros id. etransitivity; [apply ok_expired0|]. split; [intros (_ & ?); done|]. intros (_ & H1 & H2).
    split_and!; [|done|done]. intros [= ->]. unfold obj in *. cbn in *. congruence.
  - intros id _ Ha. apply ok_due0; [|done]. intros [= ->]. destruct Ha as [_ Ha]. unfold obj in *. cbn in *. congruence.
Qed.

Lemma bucket_ok x w : ok (Some x) w -> state (obj w x) = timeoutActive ->
  let i := bucket_of (deadline (obj w x)) in lastTick w i < deadline (obj w x) ->
  ok None (set_buckets (upd (buckets w) i (lastTick w i, x :: (buckets w i).2)) w).
Proof.
  intros Ho Hs i Hl. pose proof (ok_detached _ _ Ho x eq_refl) as Hx. pose proof Ho as [].
  assert (Hlast : ∀ j, lastTick (set_buckets (upd (buckets w) i (lastTick w i, x :: (buckets w i).2)) w) j = lastTick w j)
    by (intros j; unfold lastTick; cbn; unfold upd; destruct (Z.eqb_spec j i) as [->|]; done).
  split; try done.
  - intros j id. cbn. unfold upd. unfold active. change (obj (set_buckets _ w) id) with (obj w id). cbn [objects set_buckets].
    destruct (Z.eqb_spec j i) as [->|Hne]; cbn.
    + rewrite elem_of_cons, ok_bucket0. unfold active. split.
      * intros [->|(? & ? & ?)]; done.
      * intros (_ & ? & ?). destruct (decide (id = x)) as [->|]; [by left|right]. split; [congruence|done].
    + rewrite ok_bucket0. unfold active. split; [intros (_ & ?); done|]. intros (_ & ? & <-). split; [|done].
      intros [= ->]. done.
  - intros j. cbn. unfold upd. destruct (Z.eqb_spec j i) as [->|]; [|done]. constructor; [|done].
    rewrite ok_bucket0. by intros [[] _].
  - intros j id Hin. by destruct (ok_free0 j id Hin) as (_ & ?).
  - intros id. etransitivity; [apply ok_expired0|]. split; [intros (_ & ?); done|]. intros (_ & H1 & H2).
    split_and!; [|done|done]. intros [= ->]. unfold obj in *. cbn in *. congruence.
  - intros j. rewrite Hlast. apply ok_last0.
  - intros id _ Ha. rewrite Hlast. change (obj (set_buckets _ w) id) with (obj w id).
    destruct (decide (id = x)) as [->|]; [done|]. apply ok_due0; [congruence|done].
Qed.

(** Taking a timeout that is free, or a new one. *)
Lemma get_ok d w id w' : ok None w -> getTimeoutLocked d w = (id, w') ->
  ok (Some id) w' /\ ticks w' = ticks w /\ processed w' = processed w /\ buckets w' = buckets w /\ called w' = called w /\
  (generation (obj w' id) = generation (obj w id) \/ generation (obj w' id) = 0) /\ state (obj w' id) = timeoutInactive.
Proof.
  intros [] Hg. unfold getTimeoutLocked in Hg. destruct (freelists w (lock_of d)) as [|x rest] eqn:Ef; injection Hg as <- <-.
  - set (n := length (objects w)).
    assert (Hobj : ∀ k, (k < n)%nat -> nth k (objects w ++ [blank]) blank = obj w k) by (intros; by apply app_nth1).
    assert (Hnew : nth n (objects w ++ [blank]) blank = blank) by (rewrite app_nth2 by lia; by rewrite Nat.sub_diag).
    split; [|unfold obj; cbn; rewrite Hnew; split_and!; auto].
    split; unfold active, lastTick, obj in *; cbn [objects buckets freelists expiredList walking processed ticks called];
      rewrite ?length_app; cbn [length]; try done.
    + intros i k. rewrite ok_bucket0. split.
      * intros (_ & [Hk Hs] & Hb). rewrite Hobj by done. split_and!; try done; [intros [= E]; lia|lia].
      * intros (Hne & [Hk Hs] & Hb). assert (k <> n) by congruence. rewrite Hobj in * by lia. split_and!; try done. lia.
    + intros i k Hk. destruct (ok_free0 i k Hk) as (_ & Hlt & ?). rewrite Hobj by done. split_and!; try tauto; [intros [= E]; lia|lia].
    + intros k. rewrite ok_expired0. split.
      * intros (_ & Hk & Hs). rewrite Hobj by done. split_and!; try done; [intros [= E]; lia|lia].
      * intros (Hne & Hk & Hs). assert (k <> n) by congruence. rewrite Hobj in * by lia. split_and!; try done. lia.
    + intros k Hne [Hk Hs]. assert (k <> n) by congruence. rewrite Hobj in * by lia. apply ok_due0; [done|]. split; [lia|done].
    + intros k. destruct (decide (k < n)%nat); [rewrite Hobj by done; apply ok_late0|]. destruct (decide (k = n)) as [->|]; [by rewrite Hnew|].
      rewrite nth_overflow; [done|]. rewrite length_app. cbn. lia.
    + intros h c Hin. destruct (ok_called0 h c Hin). rewrite Hobj by done. split; lia.
    + intros k. destruct (decide (k < n)%nat); [by rewrite Hobj|]. destruct (decide (k = n)) as [->|]; [rewrite Hnew; cbn; lia|].
      rewrite nth_overflow; [cbn; lia|]. rewrite length_app. cbn. lia.
    + intros k [= <-]. lia.
  - assert (Hx : x ∈ freelists w (lock_of d)) by (rewrite Ef; by left). destruct (ok_free0 _ x Hx) as (_ & Hlt & Hs & Hl).
    pose proof (ok_free_nodup0 (lock_of d)) as Hnd. rewrite Ef in Hnd. apply NoDup_cons in Hnd as [Hnx Hnd].
    split; [|unfold obj; cbn; split_and!; auto].
    split; try done.
    + intros i k. etransitivity; [apply ok_bucket0|]. split; [intros (_ & [H1 H2] & H3)|intros (_ & ?); done].
      split; [intros [= ->]; congruence|done].
    + intros i k. cbn. unfold upd. destruct (Z.eqb_spec i (lock_of d)) as [->|Hne]; intros Hk.
      * destruct (ok_free0 (lock_of d) k) as (_ & ?); [rewrite Ef; by right|]. split; [|done]. intros [= ->]. done.
      * destruct (ok_free0 i k Hk) as (_ & H1 & H2 & H3). split_and!; [|done|done|done]. intros [= ->]. congruence.
    + intros i. cbn. unfold upd. destruct (_ =? _); [done|apply ok_free_nodup0].
    + intros k. etransitivity; [apply ok_expired0|]. split; [intros (_ & H1 & H2)|intros (_ & ?); done].
      split_and!; [intros [= ->]|done|done]. congruence.
    + intros k _. by apply ok_due0.
    + by intros k [= <-].
Qed.

Lemma putTimeout_ok x w : ok (Some x) w -> generation (obj w x) < 2^64 - 1 ->
  ok None (putTimeoutLocked x w) /\ generation (obj (putTimeoutLocked x w) x) = generation (obj w x) + 1 /\
  called (putTimeoutLocked x w) = called w /\ length (objects (putTimeoutLocked x w)) = length (objects w).
Proof.
  intros Ho Hg. pose proof (ok_generation _ _ Ho x) as H0. pose proof (ok_detached _ _ Ho x eq_refl) as Hx.
  assert (Hu : u64 (generation (obj w x) + 1) = generation (obj w x) + 1) by (apply Z.mod_small; lia).
  set (t := mkTimeout (generation (obj w x) + 1) timeoutInactive (deadline (obj w x)) (call (obj w x))).
  assert (Hobj : obj (set_obj x t w) x = t) by (unfold obj at 1; cbn; rewrite nth_insert by done; by rewrite decide_True).
  assert (H1 : ok (Some x) (set_obj x t w)) by (apply set_obj_ok; [done|cbn; lia|done]).
  pose proof (free_ok x _ H1 ltac:(by rewrite Hobj)) as H2. rewrite Hobj in H2.
  unfold putTimeoutLocked. rewrite Hu. fold t. split; [exact H2|]. split; [|cbn; by rewrite length_insert].
  change (generation (obj (set_obj x t w) x) = generation (obj w x) + 1). by rewrite Hobj.
Qed.

Lemma log_ok id g c w : ok None w -> (id < length (objects w))%nat -> g < generation (obj w id) -> (id, g) ∉ map fst (called w) ->
  ok None (log_call (id, g) c w).
Proof.
  intros [] Hid Hg Hn. split; try done.
  - intros h c'. cbn. rewrite elem_of_app, list_elem_of_singleton. intros [Hin|[= -> ->]]; [by apply (ok_called0 h c')|done].
  - cbn. rewrite map_app. apply NoDup_app. split_and!; [done| |by apply NoDup_singleton]. cbn. intros h Hh ->%list_elem_of_singleton. done.
Qed.

(** A handle of the present generation was not called. *)
Lemma not_called x w id g : ok x w -> generation (obj w id) <= g -> (id, g) ∉ map fst (called w).
Proof.
  intros Ho Hg Hin. apply list_elem_of_fmap in Hin as ([h c] & Hh & Hin). cbn in Hh. subst h.
  destruct (ok_called _ _ Ho _ _ Hin) as [_ H]. cbn in H. lia.
Qed.

(** Putting a timeout and calling it. *)
Lemma put_call_ok x w c : ok (Some x) w -> generation (obj w x) < 2^64 - 1 ->
  ok None (log_call (x, generation (obj w x)) c (putTimeoutLocked x w)).
Proof.
  intros Ho Hg. destruct (putTimeout_ok x w Ho Hg) as (H1 & H2 & H3 & H4). apply log_ok; [done| |lia|].
  - rewrite H4. by apply (ok_detached _ _ Ho).
  - rewrite H3. eapply not_called; [done|lia].
Qed.

Lemma bounded_obj w id : bounded w -> generation (obj w id) < 2^64 - 1.
Proof.
  intros Hb. unfold obj. rewrite nth_lookup. destruct (objects w !! id) as [t|] eqn:E; cbn; [|lia].
  by eapply Forall_lookup_1 in Hb.
Qed.

Lemma dTicks_ceil d : 0 < tickInterval -> 0 <= d -> d + tickInterval <= 2^63 -> dTicks d = (d + tickInterval - 1) / tickInterval.
Proof. intros. unfold dTicks. rewrite i64_small by (unfold is_i64; lia). apply Z.quot_div_nonneg; lia. Qed.

Lemma Schedule_ok loaded d c w : ok None w -> bounded w -> 0 <= loaded -> 0 <= dTicks d -> loaded + dTicks d < 2^64 ->
  ok None (Schedule loaded d c w).2.
Proof.
  intros Ho Hb Hl Hd Hlt. unfold Schedule.
  assert (Hdl : u64 (loaded + u64 (dTicks d)) = loaded + dTicks d) by (unfold u64; rewrite (Z.mod_small (dTicks d)), Z.mod_small; lia).
  rewrite Hdl. set (dl := loaded + dTicks d) in *. destruct (getTimeoutLocked dl w) as [id w1] eqn:Eg.
  destruct (get_ok dl w id w1 Ho Eg) as (H1 & _ & _ & Hbk & _ & Hgen & _).
  set (t := mkTimeout (generation (obj w1 id)) timeoutActive dl c).
  assert (H2 : ok (Some id) (set_obj id t w1)) by (apply set_obj_ok; [done|cbn; lia|done]).
  assert (Hobj : obj (set_obj id t w1) id = t).
  { unfold obj. cbn. rewrite nth_insert by (by apply (ok_detached _ _ H1)). by rewrite decide_True. }
  assert (Hg : generation (obj (set_obj id t w1) id) < 2^64 - 1).
  { rewrite Hobj. cbn. destruct Hgen as [->| ->]; [by apply bounded_obj|lia]. }
  destruct (buckets (set_obj id t w1) (bucket_of dl)) as [last l] eqn:Ebk. destruct (Z.leb_spec dl last); cbn [snd].
  - pose proof (put_call_ok id _ c H2 Hg) as H3. by rewrite Hobj in H3.
  - pose proof (bucket_ok id _ H2) as H3. rewrite Hobj in H3. cbn [state deadline t] in H3. unfold lastTick in H3.
    rewrite Ebk in H3. by apply H3.
Qed.

(** Taking a pending timeout out of its bucket. *)
Lemma remove_ok id w : ok None w -> active w id ->
  let i := bucket_of (deadline (obj w id)) in
  ok (Some id) (set_buckets (upd (buckets w) i (lastTick w i, filter (λ x, x <> id) (buckets w i).2)) w).
Proof.
  intros [] [Hid Hs] i.
  assert (Hlast : ∀ j, lastTick (set_buckets (upd (buckets w) i (lastTick w i, filter (λ x, x <> id) (buckets w i).2)) w) j = lastTick w j)
    by (intros j; unfold lastTick; cbn; unfold upd; destruct (Z.eqb_spec j i) as [->|]; done).
  split; try done.
  - intros j k. cbn. unfold upd. destruct (Z.eqb_spec j i) as [->|Hne]; cbn.
    + rewrite list_elem_of_filter, ok_bucket0. split; [intros (? & _ & ?); split; [congruence|done]|].
      intros (? & ?). split; [congruence|]. by split.
    + rewrite ok_bucket0. split; [intros (_ & Ha & Hb)|intros (_ & ?); done]. split; [intros [= ->]; done|done].
  - intros j. cbn. unfold upd. destruct (_ =? _); [|done]. by apply NoDup_filter.
  - intros j k Hk. destruct (ok_free0 j k Hk) as (_ & ? & Hk2 & ?). split; [intros [= ->]; congruence|done].
  - intros k. etransitivity; [apply ok_expired0|]. split; [intros (_ & ? & Hk2)|intros (_ & ?); done].
    split; [intros [= ->]; congruence|done].
  - intros j. rewrite Hlast. apply ok_last0.
  - intros k _ Ha. rewrite Hlast. by apply ok_due0.
  - by intros k [= <-].
Qed.

Lemma Stop_ok h w : ok None w -> bounded w -> ok None (Stop h w).2.
Proof.
  intros Ho Hb. unfold Stop. destruct h as [id g]. destruct (generation (obj w id) =? g); cbn [negb orb]; [|done].
  case_bool_decide as Es; cbn [negb]; [|done].
  assert (Hid : active w id).
  { split; [|done]. destruct (decide (id < length (objects w))%nat); [done|]. unfold obj in Es. rewrite nth_overflow in Es by lia. done. }
  pose proof (remove_ok id w Ho Hid) as H. cbn zeta in H. unfold lastTick in H. destruct (buckets w _) as [last l]. cbn [fst snd] in *.
  apply putTimeout_ok; [exact H|]. by apply bounded_obj.
Qed.

Lemma tick_ok w : ok None w -> processed w = ticks w -> ticks w + 1 < 2^64 -> ok None (tick w).
Proof.
  intros [] Hp Ht. split; try done. cbn. assert (u64 (ticks w + 1) = ticks w + 1) as -> by (apply Z.mod_small; lia). lia.
Qed.

Lemma pop_ok id rest w : ok None w -> walking w = id :: rest ->
  ok (Some id) (mkWheel (ticks w) (processed w) (objects w) (buckets w) (freelists w) (expiredList w) rest (called w)).
Proof.
  intros [] Hw. rewrite Hw in *. assert (Hid : id ∈ expiredList w ++ id :: rest) by (apply elem_of_app; right; by left).
  apply ok_expired0 in Hid as (_ & Hlt & Hs).
  rewrite <- Permutation_middle in ok_expired_nodup0. apply NoDup_cons in ok_expired_nodup0 as [Hn Hnd].
  split; try done.
  - intros i k. etransitivity; [apply ok_bucket0|]. split; [intros (_ & [? H2] & ?)|intros (_ & ?); done].
    split; [intros [= ->]; congruence|done].
  - intros i k Hk. destruct (ok_free0 i k Hk) as (_ & ? & H2 & ?). split; [intros [= ->]; congruence|done].
  - intros k. cbn. pose proof (ok_expired0 k) as Hk. rewrite <- Permutation_middle, elem_of_cons in Hk. split.
    + intros Hin. split; [intros [= ->]; done|]. by apply Hk; right.
    + intros (Hne & H). destruct (proj2 Hk) as [->|?]; [by split|done|done].
  - intros k _. by apply ok_due0.
  - by intros k [= <-].
Qed.

Lemma doExpired_ok w : ok None w -> bounded w -> ok None (doExpired w).
Proof.
  intros Ho Hb. unfold doExpired. destruct (walking w) as [|id rest] eqn:E; [done|].
  apply (put_call_ok id _ (call (obj w id)) (pop_ok id rest w Ho E)). by apply bounded_obj.
Qed.

(** The loop over a bucket sorts its timeouts by whether they are due. *)
Lemma expire_spec t l : ∀ objs out stay objs' out', NoDup l -> Forall (λ id, (id < length objs)%nat) l ->
  expire t l objs out = (stay, objs', out') ->
  let due id := deadline (nth id objs blank) <=? t in
  stay = filter (λ id, due id = false) l /\ out' = rev (filter (λ id, due id = true) l) ++ out /\
  length objs' = length objs /\
  ∀ id, nth id objs' blank = (let o := nth id objs blank in
    if decide (id ∈ l /\ due id = true) then mkTimeout (generation o) timeoutExpired (deadline o) (call o) else o).
Proof.
  induction l as [|x l IH]; intros objs out stay objs' out' Hnd Hl He; cbn [expire] in He.
  { injection He as <- <- <-. by split_and!. }
  apply NoDup_cons in Hnd as [Hx Hnd]. apply Forall_cons in Hl as [Hxl Hl]. cbn zeta.
  destruct (deadline (nth x objs blank) <=? t) eqn:Ed.
  - assert (Hsame : ∀ id, deadline (nth id (<[x := mkTimeout (generation (nth x objs blank)) timeoutExpired (deadline (nth x objs blank)) (call (nth x objs blank))]> objs) blank) = deadline (nth id objs blank)).
    { intros id. rewrite nth_insert by done. by destruct (decide (id = x)) as [->|]. }
    apply IH in He; [|done|by rewrite length_insert]. cbn zeta in He. destruct He as (-> & -> & Hlen & Hobj).
    rewrite length_insert in Hlen. rewrite !filter_cons, Ed. cbn [decide]. rewrite decide_False by done. rewrite decide_True by done.
    split_and!.
    + apply list_filter_iff. intros id. by rewrite Hsame.
    + cbn [rev]. rewrite <- app_assoc. cbn [app]. f_equal. f_equal. apply list_filter_iff. intros id. by rewrite Hsame.
    + done.
    + intros id. rewrite Hobj. cbn zeta. rewrite Hsame, nth_insert by done. destruct (decide (id = x)) as [->|Hne].
      * rewrite decide_False by (by intros [? _]). rewrite decide_True by (split; [by left|done]). done.
      * destruct (decide (id ∈ l /\ _)) as [[H1 H2]|Hn].
        { rewrite decide_True; [done|]. split; [by right|done]. }
        rewrite decide_False; [done|]. intros [[->|H1]%elem_of_cons H2]; auto.
  - destruct (expire t l objs out) as [[stay1 objs1] out1] eqn:E1. injection He as <- <- <-.
    apply IH in E1; [|done|done]. cbn zeta in E1. destruct E1 as (-> & -> & Hlen & Hobj).
    rewrite !filter_cons, Ed. rewrite (decide_True (P := false = false)) by done. rewrite (decide_False (P := false = true)) by done.
    split_and!; [done|done|done|]. intros id. rewrite Hobj. cbn zeta.
    destruct (decide (id ∈ l /\ _)) as [[H1 H2]|Hn].
    + rewrite decide_True; [done|]. split; [by right|done].
    + rewrite decide_False; [done|]. intros [[->|H1]%elem_of_cons H2]; [congruence|auto].
Qed.

(** What the ticker makes of a timeout. *)
Definition due w id : bool := bool_decide (id ∈ (buckets w (bucket_of (ticks w))).2) && (deadline (obj w id) <=? ticks w).

Lemma doTick_spec ready w : ok None w -> let i := bucket_of (ticks w) in let w' := doTick ready w in
  (∀ id, obj w' id = if due w id then mkTimeout (generation (obj w id)) timeoutExpired (deadline (obj w id)) (call (obj w id)) else obj w id) /\
  length (objects w') = length (objects w) /\ processed w' = ticks w /\ ticks w' = ticks w /\
  buckets w' = upd (buckets w) i (ticks w, filter (λ id, (deadline (obj w id) <=? ticks w) = false) (buckets w i).2) /\
  freelists w' = freelists w /\ called w' = called w /\
  expiredList w' ++ walking w' =
    rev (filter (λ id, (deadline (obj w id) <=? ticks w) = true) (buckets w i).2) ++ expiredList w ++ (if ready then [] else walking w).
Proof.
  intros Ho i w'. unfold w', doTick. fold i. pose proof (ok_bucket_nodup _ _ Ho i) as Hnd.
  assert (Hl : Forall (λ id, (id < length (objects w))%nat) (buckets w i).2).
  { apply Forall_forall. intros id Hid. by apply (ok_bucket _ _ Ho) in Hid as (_ & [? _] & _). }
  unfold due. fold i. destruct (buckets w i) as [last l] eqn:Eb. cbn [snd fst] in *.
  destruct (expire (ticks w) l (objects w) (expiredList w)) as [[stay objs] out] eqn:Ee.
  destruct (expire_spec _ _ _ _ _ _ _ Hnd Hl Ee) as (-> & -> & Hlen & Hobj). unfold obj.
  assert (Hnth : ∀ id, nth id objs blank =
    if bool_decide (id ∈ l) && (deadline (nth id (objects w) blank) <=? ticks w)
    then mkTimeout (generation (nth id (objects w) blank)) timeoutExpired (deadline (nth id (objects w) blank)) (call (nth id (objects w) blank))
    else nth id (objects w) blank).
  { intros id. rewrite Hobj. cbn zeta. case_bool_decide as Hin; cbn [andb].
    - destruct (_ <=? _) eqn:Ed; [by rewrite decide_True|]. rewrite decide_False; [done|]. by intros [_ ?].
    - rewrite decide_False; [done|]. by intros [? _]. }
  destruct ready; cbn; rewrite ?app_nil_r, <- ?app_assoc; done.
Qed.

Lemma due_active w id : ok None w -> due w id = true <-> active w id /\ bucket_of (deadline (obj w id)) = bucket_of (ticks w) /\ deadline (obj w id) <= ticks w.
Proof.
  intros Ho. unfold due. rewrite andb_true_iff, bool_decide_eq_true, (ok_bucket _ _ Ho), Z.leb_le. intuition congruence.
Qed.

Lemma doTick_ok ready w : ok None w -> processed w < ticks w -> (ready = true -> walking w = []) -> ok None (doTick ready w).
Proof.
  intros Ho Hp Hr. destruct (doTick_spec ready w Ho) as (Hobj & Hlen & Hpr & Hti & Hb & Hf & Hc & He).
  set (w' := doTick ready w) in *. set (i := bucket_of (ticks w)) in *. pose proof Ho as [].
  assert (Hdl : ∀ id, deadline (obj w' id) = deadline (obj w id)) by (intros id; rewrite Hobj; by destruct (due w id)).
  assert (Hge : ∀ id, generation (obj w' id) = generation (obj w id)) by (intros id; rewrite Hobj; by destruct (due w id)).
  assert (Hact : ∀ id, active w' id <-> active w id /\ due w id = false).
  { intros id. unfold active. rewrite Hlen, Hobj. destruct (due w id); cbn; [|tauto]. split; [intros [_ ?]|intros [_ ?]]; done. }
  assert (Hlast : ∀ j, lastTick w' j = if j =? i then ticks w else lastTick w j).
  { intros j. unfold lastTick. rewrite Hb. unfold upd. by destruct (j =? i). }
  assert (Hexp : ∀ id, (id < length (objects w'))%nat /\ state (obj w' id) = timeoutExpired <->
    due w id = true \/ ((id < length (objects w))%nat /\ state (obj w id) = timeoutExpired)).
  { intros id. rewrite Hlen, Hobj. destruct (due w id) eqn:Ed; cbn; [|intuition congruence].
    apply due_active in Ed as ([? _] & _); [|done]. tauto. }
  assert (Hmem : ∀ id, id ∈ expiredList w' ++ walking w' <-> due w id = true \/ id ∈ expiredList w ++ walking w).
  { intros id. rewrite He. rewrite !elem_of_app, elem_of_rev, list_elem_of_filter. unfold due. fold i.
    rewrite andb_true_iff, bool_decide_eq_true. destruct ready; [rewrite Hr by done|]; tauto. }
  split; rewrite ?Hpr, ?Hti, ?Hf, ?Hc; try done.
  - intros j id. rewrite Hact, Hdl, Hb. unfold upd. destruct (Z.eqb_spec j i) as [->|Hne]; cbn.
    + rewrite list_elem_of_filter, ok_bucket0. unfold due. fold i. rewrite andb_false_iff, bool_decide_eq_false, ok_bucket0. tauto.
    + rewrite ok_bucket0. split; [|tauto]. intros (_ & Ha & <-). split_and!; [done|done| |done].
      unfold due. fold i. rewrite bool_decide_false; [done|]. rewrite ok_bucket0. by intros (_ & _ & ?).
  - intros j. rewrite Hb. unfold upd. destruct (_ =? _); [|done]. by apply NoDup_filter.
  - intros j id Hid. destruct (ok_free0 j id Hid) as (_ & ? & Hs & ?). rewrite Hlen, Hdl, Hobj. split_and!; try done.
    destruct (due w id) eqn:Ed; [|done]. apply due_active in Ed as ([_ ?] & _); [congruence|done].
  - intros id. assert (None <> Some id) by done. pose proof (Hexp id). rewrite Hmem, ok_expired0. tauto.
  - rewrite He. apply NoDup_app. split_and!.
    + rewrite <- Permutation_rev. by apply NoDup_filter.
    + intros id. rewrite elem_of_rev, list_elem_of_filter. intros [_ Hin] Hx.
      assert (id ∈ expiredList w ++ walking w) as Hy by (destruct ready; [rewrite Hr by done|]; done).
      apply ok_expired0 in Hy as (_ & _ & ?). apply ok_bucket0 in Hin as (_ & [_ ?] & _). congruence.
    + destruct ready; [|done]. by rewrite Hr in ok_expired_nodup0.
  - intros j. rewrite Hlast. destruct (Z.eqb_spec j i) as [->|Hne]; [split; [lia|intros t; lia]|].
    destruct (ok_last0 j) as [? Hj]. split; [lia|]. intros t Ht. destruct (decide (t = ticks w)) as [->|]; [done|]. apply Hj. lia.
  - intros id _ Ha. rewrite Hlast, Hdl. apply Hact in Ha as [Ha Hd]. destruct (Z.eqb_spec (bucket_of (deadline (obj w id))) i) as [E|]; [|by apply ok_due0].
    destruct (Z.lt_ge_cases (ticks w) (deadline (obj w id))); [done|]. exfalso.
    assert (due w id = true) by (by apply due_active). congruence.
  - intros id. rewrite Hobj. destruct (due w id) eqn:Ed; cbn; [by apply due_active in Ed as (_ & _ & ?)|].
    intros Hs. specialize (ok_late0 id Hs). lia.
  - lia.
  - intros h c Hin. rewrite Hlen, Hge. by apply ok_called0 with c.
  - intros id. by rewrite Hge.
Qed.

Lemma step_ok w w' : 0 < tickInterval -> ok None w -> bounded w -> step w w' -> ok None w'.
Proof.
  intros Hti Ho Hb. destruct 1 as [loaded d c Hl Hd Hdi Hlt|h|Hp Ht|ready Hp Hr|Hw].
  - apply Schedule_ok; try done; [lia|]. rewrite dTicks_ceil by lia. apply Z.div_pos; lia.
  - by apply Stop_ok.
  - by apply tick_ok.
  - by apply doTick_ok.
  - by apply doExpired_ok.
Qed.

Lemma reached_ok w : 0 < tickInterval -> reached w -> ok None w /\ bounded w.
Proof.
  intros Hti. apply (rtc_ind_r (λ w, ok None w /\ bounded w)); [split; [apply new_ok|by constructor]|].
  intros w1 w2 _ [Hs Hb] [IH1 IH2]. split; [by apply step_ok with w1|done].
Qed.

(** ** Deadlines *)

Lemma active_late w id : ok None w -> active w id -> processed w < deadline (obj w id).
Proof.
  intros Ho Ha. pose proof (ok_due _ _ Ho id ltac:(done) Ha) as Hd. destruct (ok_last _ _ Ho (bucket_of (deadline (obj w id)))) as [_ Hl].
  destruct (Z.lt_ge_cases (processed w) (deadline (obj w id))); [done|]. exfalso. by apply (Hl (deadline (obj w id))).
Qed.

Lemma due_exact w id : ok None w -> processed w < ticks w -> due w id = true <-> active w id /\ deadline (obj w id) = ticks w.
Proof.
  intros Ho Hp. rewrite due_active by done. split.
  - intros (Ha & _ & Hd). pose proof (active_late w id Ho Ha). pose proof (ok_ticks _ _ Ho). split; [done|lia].
  - intros [Ha ->]. done.
Qed.

(** What a schedule leaves: a pending timeout, or a call at once. *)
Lemma Schedule_spec loaded d c w : ok None w -> 0 <= loaded -> 0 <= dTicks d -> loaded + dTicks d < 2^64 ->
  let h := (Schedule loaded d c w).1 in let w' := (Schedule loaded d c w).2 in let dl := loaded + dTicks d in
  if dl <=? lastTick w (bucket_of dl) then called w' = called w ++ [(h, c)]
  else called w' = called w /\ (h.1 < length (objects w'))%nat /\ obj w' h.1 = mkTimeout h.2 timeoutActive dl c.
Proof.
  intros Ho Hl Hd Hlt. unfold Schedule, lastTick.
  assert (Hdl : u64 (loaded + u64 (dTicks d)) = loaded + dTicks d) by (unfold u64; rewrite (Z.mod_small (dTicks d)), Z.mod_small; lia).
  rewrite Hdl. set (dl := loaded + dTicks d) in *. destruct (getTimeoutLocked dl w) as [id w1] eqn:Eg.
  destruct (get_ok dl w id w1 Ho Eg) as (H1 & _ & _ & Hbk & Hc & _ & _).
  pose proof (ok_detached _ _ H1 id eq_refl) as Hid.
  change (buckets (set_obj id ?t w1)) with (buckets w1). rewrite Hbk. destruct (buckets w (bucket_of dl)) as [last l]. cbn [fst].
  destruct (dl <=? last); cbn; [by rewrite Hc|]. rewrite length_insert. split_and!; [done|done|].
  unfold obj. cbn. rewrite nth_insert by done. by rewrite decide_True.
Qed.

(** ** Calls: once, of the present generation of a timeout that is late, with what it holds *)
Record keeps w w' : Prop := {
  keeps_length : (length (objects w) <= length (objects w'))%nat;
  keeps_processed : processed w <= processed w';
  keeps_generation id : (id < length (objects w))%nat -> generation (obj w id) <= generation (obj w' id);
  keeps_old id g c : (id < length (objects w))%nat -> g < generation (obj w id) -> ((id, g), c) ∈ called w' -> ((id, g), c) ∈ called w;
  keeps_timeout id : (id < length (objects w))%nat -> state (obj w id) <> timeoutInactive ->
    generation (obj w' id) = generation (obj w id) ->
    state (obj w' id) <> timeoutInactive /\ deadline (obj w' id) = deadline (obj w id) /\ call (obj w' id) = call (obj w id);
  keeps_now id c : (id < length (objects w))%nat -> state (obj w id) <> timeoutInactive ->
    ((id, generation (obj w id)), c) ∈ called w' ->
    ((id, generation (obj w id)), c) ∈ called w \/ (c = call (obj w id) /\ deadline (obj w id) <= processed w')
}.

#[local] Instance keeps_po : PreOrder keeps.
Proof.
  split; [intros w; split; auto; lia|]. intros w1 w2 w3 [L1 P1 G1 O1 T1 N1] [L2 P2 G2 O2 T2 N2].
  split; [lia|lia| | | |].
  - intros id Hid. specialize (G1 id Hid). specialize (G2 id ltac:(lia)). lia.
  - intros id g c Hid Hg Hin. specialize (G1 id Hid). apply O1, O2; [done|done|lia|lia|done].
  - intros id Hid Hs Hg. pose proof (G1 id Hid). pose proof (G2 id ltac:(lia)).
    destruct (T1 id Hid Hs ltac:(lia)) as (Hs2 & <- & <-).
    apply T2; [lia|done|lia].
  - intros id c Hid Hs Hin. pose proof (G1 id Hid). destruct (decide (generation (obj w2 id) = generation (obj w1 id))) as [E|].
    + destruct (T1 id Hid Hs E) as (Hs2 & Hd & Hc). rewrite <- E in Hin. destruct (N2 id c ltac:(lia) Hs2 Hin) as [Hin2|[-> ?]].
      * rewrite E in Hin2. destruct (N1 id c Hid Hs Hin2) as [?|[? ?]]; [by left|]. right. split; [done|lia].
      * right. split; [done|lia].
    + apply O2 in Hin; [|lia|lia]. destruct (N1 id c Hid Hs Hin) as [?|[? ?]]; [by left|]. right. split; [done|lia].
Qed.

Lemma keeps_same w w' : objects w' = objects w -> called w' = called w -> processed w' = processed w -> keeps w w'.
Proof. intros E1 E2 Hp. split; unfold obj; rewrite ?E1, ?E2; auto; intros; lia. Qed.

Lemma keeps_set w id t : generation (obj w id) <= generation t ->
  (state (obj w id) = timeoutInactive \/ generation (obj w id) < generation t) -> keeps w (set_obj id t w).
Proof.
  intros Hg Hi. assert (Hobj : ∀ k, (k < length (objects w))%nat -> obj (set_obj id t w) k = if decide (k = id) then t else obj w k).
  { intros k Hk. unfold obj. cbn. destruct (decide (id < length (objects w))%nat); [by apply nth_insert|].
    rewrite list_insert_ge by lia. rewrite decide_False by lia. done. }
  split; cbn [objects called processed set_obj]; rewrite ?length_insert; [done|done| |auto| |auto].
  - intros k Hk. rewrite Hobj by done. destruct (decide (k = id)) as [->|]; lia.
  - intros k Hk Hs. rewrite Hobj by done. destruct (decide (k = id)) as [->|]; [|done]. intros E. destruct Hi; [done|lia].
Qed.

Lemma keeps_put w id : 0 <= generation (obj w id) < 2^64 - 1 -> keeps w (putTimeoutLocked id w).
Proof.
  intros Hg. unfold putTimeoutLocked. assert (Hu : u64 (generation (obj w id) + 1) = generation (obj w id) + 1) by (apply Z.mod_small; lia).
  rewrite Hu. pose proof (keeps_set w id (mkTimeout (generation (obj w id) + 1) timeoutInactive (deadline (obj w id)) (call (obj w id)))) as K.
  etransitivity; [apply K; cbn; [lia|right; lia]|by apply keeps_same].
Qed.

Lemma keeps_call w id : 0 <= generation (obj w id) < 2^64 - 1 -> deadline (obj w id) <= processed w ->
  keeps w (log_call (id, generation (obj w id)) (call (obj w id)) (putTimeoutLocked id w)).
Proof.
  intros Hg Hd. destruct (keeps_put w id Hg) as [L P G O T N]. split; [done|done|done| |done|].
  - intros k g c Hk Hlt. change (called (log_call ?h ?e ?v)) with (called v ++ [(h, e)]). rewrite elem_of_app.
    intros [Hin|Hin%list_elem_of_singleton]; [by apply (O k)|].
    injection Hin as -> -> _. lia.
  - intros k c Hk Hs. cbn. rewrite elem_of_app. intros [Hin|Hin%list_elem_of_singleton]; [by left|].
    injection Hin as Ek _ Ec. subst k c. by right.
Qed.

Lemma keeps_get d w id w' : ok None w -> getTimeoutLocked d w = (id, w') -> keeps w w'.
Proof.
  intros Ho Hg. unfold getTimeoutLocked in Hg. destruct (freelists w (lock_of d)); injection Hg as <- <-; [|by apply keeps_same].
  split; unfold obj; cbn; [rewrite length_app; lia|done| |auto| |auto]; intros k Hk; by rewrite app_nth1 by done.
Qed.

Lemma ok_generations w id : ok None w -> bounded w -> 0 <= generation (obj w id) < 2^64 - 1.
Proof. intros Ho Hb. pose proof (ok_generation _ _ Ho id). pose proof (bounded_obj w id Hb). lia. Qed.

Lemma keeps_Schedule loaded d c w : ok None w -> bounded w -> keeps w (Schedule loaded d c w).2.
Proof.
  intros Ho Hb. unfold Schedule. set (dl := u64 _). destruct (getTimeoutLocked dl w) as [id w1] eqn:Eg.
  destruct (get_ok _ w id w1 Ho Eg) as (H1 & _ & _ & _ & _ & Hgen & Hst).
  pose proof (keeps_get _ _ _ _ Ho Eg) as K1. pose proof (ok_detached _ _ H1 id eq_refl) as Hid.
  set (t := mkTimeout (generation (obj w1 id)) timeoutActive dl c). set (w2 := set_obj id t w1).
  assert (K2 : keeps w w2) by (etransitivity; [exact K1|apply keeps_set; [done|by left]]).
  assert (Hobj : obj w2 id = t) by (unfold obj; cbn; rewrite nth_insert by done; by rewrite decide_True).
  pose proof (ok_last _ _ H1 (bucket_of dl)) as [[_ Hl] _]. unfold lastTick in Hl. change (buckets w1) with (buckets w2) in Hl.
  destruct (buckets w2 _) as [last l]. cbn [fst] in Hl. destruct (Z.leb_spec dl last); cbn [snd].
  - etransitivity; [exact K2|]. pose proof (keeps_call w2 id) as K. rewrite Hobj in K. apply K; cbn; [|lia].
    pose proof (ok_generations w id Ho Hb). destruct Hgen as [->| ->]; lia.
  - etransitivity; [exact K2|by apply keeps_same].
Qed.

Lemma keeps_doTick ready w : ok None w -> processed w < ticks w -> keeps w (doTick ready w).
Proof.
  intros Ho Hp. destruct (doTick_spec ready w Ho) as (Hobj & Hlen & Hpr & _ & _ & _ & Hc & _).
  split; rewrite ?Hlen, ?Hc, ?Hpr; [done|lia| |auto| |auto]; intros id _; rewrite Hobj.
  - destruct (due w id); cbn; lia.
  - intros Hs _. by destruct (due w id).
Qed.

Lemma keeps_step w w' : ok None w -> bounded w -> step w w' -> keeps w w'.
Proof.
  intros Ho Hb. destruct 1 as [loaded d c Hl Hd Hdi Hlt|[id g]|Hp Ht|ready Hp Hr|Hw].
  - by apply keeps_Schedule.
  - unfold Stop. destruct (negb _ || negb _); [done|]. destruct (buckets w _) as [last l]. cbn [snd].
    set (w1 := set_buckets _ w). transitivity w1; [by apply keeps_same|]. apply keeps_put. by apply (ok_generations w).
  - by apply keeps_same.
  - by apply keeps_doTick.
  - unfold doExpired. destruct (walking w) as [|id rest] eqn:E; [done|].
    pose proof (ok_expired _ _ Ho id) as [He _]. rewrite E in He. destruct He as (_ & _ & Hs); [apply elem_of_app; right; by left|].
    set (w1 := mkWheel _ _ _ _ _ _ rest _). transitivity w1; [by apply keeps_same|].
    apply (keeps_call w1); [by apply (ok_generations w)|by apply (ok_late _ _ Ho)].
Qed.

Lemma moves_keep w w' : 0 < tickInterval -> ok None w -> bounded w -> rtc move w w' -> ok None w' /\ keeps w w'.
Proof.
  intros Hti Ho Hb. induction 1 as [w|w w1 w2 [Hs Hb1] _ IH]; [done|].
  destruct IH as [IH1 IH2]; [by apply step_ok with w|done|]. split; [done|].
  transitivity w1; [by apply keeps_step|done].
Qed.

(** ** What the users of the wheel see *)

(** The timeout of a handle is pending: stopping it succeeds. *)
Definition pending (h : Handle) w : bool := (Stop h w).1.

Lemma pending_iff id g w : pending (id, g) w = true <-> active w id /\ generation (obj w id) = g.
Proof.
  unfold pending, Stop. destruct (Z.eqb_spec (generation (obj w id)) g); cbn [negb orb]; [|split; [done|by intros []]].
  case_bool_decide as Hs; cbn [negb]; [|split; [done|by intros [[_ ?] _]]].
  destruct (buckets w _) as [last l]. split; [|done]. intros _. split; [|done]. split; [|done].
  destruct (decide (id < length (objects w))%nat); [done|]. unfold obj in Hs. by rewrite nth_overflow in Hs by lia.
Qed.

Lemma pending_uncalled h c w : ok None w -> pending h w = true -> (h, c) ∉ called w.
Proof.
  destruct h as [id g]. intros Ho [_ <-]%pending_iff Hin. destruct (ok_called _ _ Ho _ _ Hin) as [_ H]. cbn in H. lia.
Qed.

Lemma schedule_outcome loaded d c w : 0 < tickInterval -> ok None w ->
  0 <= loaded -> 0 <= d -> d + tickInterval <= 2^63 -> loaded + dTicks d < 2^64 ->
  let h := (Schedule loaded d c w).1 in let w1 := (Schedule loaded d c w).2 in let dl := loaded + (d + tickInterval - 1) / tickInterval in
  (dl <= processed w /\ called w1 = called w ++ [(h, c)]) \/
  (pending h w1 = true /\ called w1 = called w /\ deadline (obj w1 h.1) = dl /\ call (obj w1 h.1) = c).
Proof.
  intros Hti Ho Hl Hd Hdi Hlt h w1 dl.
  assert (H0 : 0 <= dTicks d) by (rewrite dTicks_ceil by lia; apply Z.div_pos; lia).
  pose proof (Schedule_spec loaded d c w Ho Hl H0 Hlt) as Hs. cbn zeta in Hs.
  pose proof (dTicks_ceil d Hti Hd Hdi) as Ec. rewrite Ec in Hs. fold h w1 dl in Hs.
  destruct (Z.leb_spec dl (lastTick w (bucket_of dl))) as [Hle|Hgt].
  - left. split; [|done]. pose proof (ok_last _ _ Ho (bucket_of dl)). lia.
  - right. destruct Hs as (Hc & Hlen & Hobj). rewrite Hobj. split_and!; try done.
    destruct h as [id g]. apply pending_iff. cbn in *. unfold active. by rewrite Hobj.
Qed.

Lemma pending_fate h w w' : 0 < tickInterval -> ok None w -> bounded w -> pending h w = true -> rtc move w w' ->
  (∀ c, (h, c) ∈ called w' -> c = call (obj w h.1) /\ deadline (obj w h.1) <= processed w') /\
  (pending h w' = true -> processed w' < deadline (obj w h.1)).
Proof.
  intros Hti Ho Hb Hp Hm. destruct (moves_keep _ _ Hti Ho Hb Hm) as [Ho' K]. pose proof Hp as Hp0. destruct h as [id g]. cbn [fst].
  apply pending_iff in Hp as [[Hid Hs] <-]. assert (Hn : state (obj w id) <> timeoutInactive) by congruence. split.
  - intros c Hin. destruct (keeps_now _ _ K id c Hid Hn Hin) as [Hw|[-> ?]]; [|done]. by apply pending_uncalled in Hw.
  - intros [Ha Hg]%pending_iff. destruct (keeps_timeout _ _ K id Hid Hn Hg) as (_ & <- & _). by apply active_late.
Qed.

Lemma stopped_silent h w w' : 0 < tickInterval -> ok None w -> bounded w -> pending h w = true -> bounded (Stop h w).2 ->
  rtc move (Stop h w).2 w' -> h ∉ map fst (called w').
Proof.
  intros Hti Ho Hb Hp Hb1 Hm. pose proof (Stop_ok h w Ho Hb) as Ho1. destruct (moves_keep _ _ Hti Ho1 Hb1 Hm) as [_ K].
  intros Hin. apply list_elem_of_fmap in Hin as ([h' c] & Hh & Hin). cbn in Hh. subst h'. pose proof (pending_uncalled h c w Ho Hp) as Hc.
  destruct h as [id g]. apply pending_iff in Hp as [Ha Hg]. pose proof (remove_ok id w Ho Ha) as Hr. cbn zeta in Hr.
  destruct Ha as [Hid Hs]. unfold Stop in *. rewrite Hg, Z.eqb_refl, Hs, bool_decide_true in * by done. cbn [negb orb] in *.
  unfold lastTick in Hr. destruct (buckets w _) as [last l]. cbn [fst snd] in *.
  destruct (putTimeout_ok id _ Hr (bounded_obj w id Hb)) as (_ & Hgen & Hcal & Hlen). cbn [called objects set_buckets] in Hcal, Hlen.
  apply Hc. rewrite <- Hcal. apply (keeps_old _ _ K id g c); [by rewrite Hlen| |done].
  rewrite Hgen. change (obj (set_buckets _ w) id) with (obj w id). lia.
Qed.

Lemma doTick_state ready w id : ok None w -> processed w < ticks w -> active w id ->
  state (obj (doTick ready w) id) = if deadline (obj w id) =? ticks w then timeoutExpired else timeoutActive.
Proof.
  intros Ho Hp Ha. destruct (doTick_spec ready w Ho) as (Hobj & _). rewrite Hobj. pose proof (due_exact w id Ho Hp) as Hd.
  destruct (due w id); destruct (Z.eqb_spec (deadline (obj w id)) (ticks w)); cbn; try done.
  - by apply proj1 in Hd as [_ ?].
  - by assert (false = true) by (by apply Hd).
  - by destruct Ha.
Qed.

(** C29: In every interleaving of the callers, the ticker and the goroutine that calls back, a
    timeout scheduled for a duration is due at the tick the duration rounded up leads to: it
    is called at once only if that tick was already processed, and otherwise the ticker
    expires it exactly at that tick, neither before nor later.  A handle is called at most
    once, with the callback it was scheduled with and not before its tick, and not at all
    after a Stop that succeeded. *)
Theorem wheel_exact w : 0 < tickInterval -> reached w ->
  (∀ loaded d c, 0 <= loaded -> 0 <= d -> d + tickInterval <= 2^63 -> loaded + dTicks d < 2^64 ->
    let h := (Schedule loaded d c w).1 in let w1 := (Schedule loaded d c w).2 in let dl := loaded + (d + tickInterval - 1) / tickInterval in
    (dl <= processed w /\ called w1 = called w ++ [(h, c)]) \/
    (pending h w1 = true /\ called w1 = called w /\ deadline (obj w1 h.1) = dl /\ call (obj w1 h.1) = c)) /\
  (∀ ready id, processed w < ticks w -> active w id ->
    state (obj (doTick ready w) id) = if deadline (obj w id) =? ticks w then timeoutExpired else timeoutActive) /\
  (∀ h w', pending h w = true -> rtc move w w' ->
    (∀ c, (h, c) ∈ called w' -> c = call (obj w h.1) /\ deadline (obj w h.1) <= processed w') /\
    (pending h w' = true -> processed w' < deadline (obj w h.1))) /\
  (∀ h w', pending h w = true -> bounded (Stop h w).2 -> rtc move (Stop h w).2 w' -> h ∉ map fst (called w')) /\
  NoDup (map fst (called w)).
Proof.
  intros Hti Hr. destruct (reached_ok w Hti Hr) as [Ho Hb]. split_and!.
  - intros. by apply schedule_outcome.
  - intros. by apply doTick_state.
  - intros. by apply pending_fate.
  - intros. by apply (stopped_silent h w).
  - by apply (ok_called_nodup _ _ Ho).
Qed.

End Wheel.

(** A wheel of four buckets: a timeout of 25 units of time, the ticks 10 units apart. *)
Module Samples.
Definition scheduled : TimeoutWheel := (Schedule (A := Z) 10 2 1 0 25 (Some 7) NewTimeoutWheel).2.
Definition turn (w : TimeoutWheel (A := Z)) : TimeoutWheel := doTick 2 true (tick w).
Definition third : TimeoutWheel := tick (turn (turn scheduled)).
Definition fired : TimeoutWheel := doExpired (A := Z) 1 (doTick 2 true third).

Lemma scheduled_turns : rtc (move (A := Z) 10 2 1) scheduled third.
Proof.
  assert (Hturn : ∀ w, processed w = ticks w -> ticks w + 1 < 2^64 -> walking w = [] -> bounded (tick w) -> bounded (turn w) ->
    processed (tick w) < ticks (tick w) -> rtc (move (A := Z) 10 2 1) w (turn w)).
  { intros w H1 H2 H3 H4 H5 H6. eapply rtc_l; [split; [by apply step_tick|done]|]. apply rtc_once.
    split; [by apply step_doTick|done]. }
  assert (Hb : ∀ w : TimeoutWheel (A := Z), forallb (λ t, generation t <? 2^64 - 1) (objects w) = true -> bounded w).
  { intros w H. apply Forall_forall. intros t Ht. rewrite forallb_forall in H. apply Z.ltb_lt, H. by apply list_elem_of_In. }
  etransitivity; [apply Hturn; try reflexivity; by apply Hb|].
  etransitivity; [apply Hturn; try reflexivity; by apply Hb|].
  apply rtc_once. split; [by apply step_tick|by apply Hb].
Qed.

Lemma scheduled_reached : reached (A := Z) 10 2 1 scheduled.
Proof.
  apply rtc_once. split; [apply step_schedule; cbn; try lia; vm_compute; split; congruence|]. repeat constructor.
Qed.

Lemma third_reached : reached (A := Z) 10 2 1 third.
Proof. unfold reached. etransitivity; [apply scheduled_reached|apply scheduled_turns]. Qed.

Lemma wheel_exact_witness : reached (A := Z) 10 2 1 third /\ ticks third = 3 /\ called fired = [((0%nat, 0), Some 7)] /\
  state (obj (doTick 2 true third) 0%nat) = timeoutExpired /\ NoDup (map fst (called third)) /\
  (∀ w', rtc (move 10 2 1) third w' -> ∀ c, ((0%nat, 0), c) ∈ called w' -> c = Some 7 /\ 3 <= processed w').
Proof.
  destruct (wheel_exact 10 2 1 third ltac:(lia) third_reached) as (_ & H2 & H3 & _ & H5).
  split; [exact third_reached|]. split; [reflexivity|]. split; [vm_compute; reflexivity|]. split; [|split].
  - apply (H2 true 0%nat); [reflexivity|]. split; [apply Nat.ltb_lt; reflexivity|reflexivity].
  - exact H5.
  - intros w' Hm. destruct (H3 (0%nat, 0) w' eq_refl Hm) as [H _]. exact H.
Defined.
End Samples.
