(* ===== verification/HttpClient.v ===== *)
(** Model of the HTTP client [src/src/utils/fasthttp.go]: the connections of a host, how an
    exchange takes one and gives it back or closes it, and the cleaner of idle ones.

    Connections are numbered in the order they are made.  Every critical section of the
    host's mutex is one step, and so is every other access to what requests share. *)
From stdpp Require Import sorting.
From S2P Require Import Prelude.

(** The options that decide about connections. *)
Record HTTPOption := mkHTTPOption {
  MaxConns : Z;
  MaxConnDuration : Z;
  MaxIdleConnDuration : Z;
  ReadTimeout : Z;
  WriteTimeout : Z
}.

Definition DefaultHTTPOption : HTTPOption := mkHTTPOption 8 (60 * 1000000000) (30 * 1000000000) (30 * 1000000000) (30 * 1000000000).

Record clientConn := mkConn { cc_id : nat; createdTime : Z; lastUseTime : Z }.

Record hostClients := mkHost {
  startedCleaner : bool;
  option_ : HTTPOption;
  connsCount : Z;
  conns : list clientConn
}.

(** fasthttp's [DefaultMaxConnsPerHost]. *)
Definition DefaultMaxConnsPerHost : Z := 512.

Definition maxConns (o : HTTPOption) : Z := if MaxConns o <=? 0 then DefaultMaxConnsPerHost else MaxConns o.

Definition set_conns (n : Z) (l : list clientConn) (c : hostClients) : hostClients :=
  mkHost (startedCleaner c) (option_ c) n l.
Definition set_cleaner (b : bool) (c : hostClients) : hostClients :=
  mkHost b (option_ c) (connsCount c) (conns c).

(** ** Operations *)

(** The part of [acquireConn] under the lock: an idle connection, the most recently used one;
    or one to create, and whether it is the only one; or none. *)
Inductive acquired := Reuse (cc : clientConn) | Create (startCleaner : bool) | ErrNoFreeConns.

Definition acquireConn (c : hostClients) : acquired * hostClients :=
  match last (conns c) with
  | Some cc => (Reuse cc, set_conns (connsCount c) (removelast (conns c)) c)
  | None =>
      if connsCount c <? maxConns (option_ c) then
        (Create (connsCount c + 1 =? 1), set_conns (connsCount c + 1) (conns c) c)
      else (ErrNoFreeConns, c)
  end.

Definition decConnsCount (c : hostClients) : hostClients := set_conns (connsCount c - 1) (conns c) c.

(** [releaseConn] reads the clock before it takes the lock. *)
Definition used (cc : clientConn) (now : Z) : clientConn := mkConn (cc_id cc) (createdTime cc) now.
Definition releaseConn (cc : clientConn) (c : hostClients) : hostClients := set_conns (connsCount c) (conns c ++ [cc]) c.

(** [atomic.SwapUint64(&c.startedCleaner, 1) == 0]: whether the cleaner is started. *)
Definition swapCleaner (c : hostClients) : bool * hostClients := (negb (startedCleaner c), set_cleaner true c).

(** How many connections from the front are idle for too long. *)
Fixpoint expired (maxIdle now : Z) (l : list clientConn) : nat :=
  match l with
  | cc :: l => if maxIdle <? now - lastUseTime cc then S (expired maxIdle now l) else 0
  | [] => 0
  end.

(** A turn of [connsCleaner] under the lock, with the time it has read before: the connections
    to close and [mustStop]. *)
Definition cleanConns (now : Z) (c : hostClients) : list clientConn * bool * hostClients :=
  let i := expired (MaxIdleConnDuration (option_ c)) now (conns c) in
  (take i (conns c), connsCount c =? Z.of_nat i, set_conns (connsCount c) (drop i (conns c)) c).

(** What happens on the connection during an exchange. *)
Record io := mkIO {
  req_ConnectionClose : bool;
  resp_ConnectionClose : bool;
  err_SetWriteDeadline : bool;
  err_Write : bool;
  err_SetReadDeadline : bool;
  err_Read : bool
}.

(** [doNonNilReqResp] after the connection is acquired: whether there is an error, and whether
    the connection is released, or closed. *)
Definition exchange (opt : HTTPOption) (now : Z) (cc : clientConn) (x : io) : bool * bool :=
  if (0 <? WriteTimeout opt) && err_SetWriteDeadline x then (true, false)
  else
    let resetConnection := (0 <? MaxConnDuration opt) && (MaxConnDuration opt <? now - createdTime cc) &&
                           negb (req_ConnectionClose x) in
    if err_Write x then (true, false)
    else if (0 <? ReadTimeout opt) && err_SetReadDeadline x then (true, false)
    else if err_Read x then (true, false)
    else (false, negb (resetConnection || req_ConnectionClose x || resp_ConnectionClose x)).

(** ** The client: hosts by their addresses

    The host keeps the options of the first request to it. *)
Definition hostOf (addr : bytes) (opt : HTTPOption) (hosts : gmap bytes hostClients) : hostClients * gmap bytes hostClients :=
  match hosts !! addr with
  | Some hc => (hc, hosts)
  | None => let hc := mkHost false opt 0 [] in (hc, <[addr := hc]> hosts)
  end.

(** ** Requests and the cleaner of one host *)

(** What the cleaner is at: nothing, about to read the clock, about to take the lock with the
    time it has read, or closing what it took off. *)
Inductive cleaner := NoCleaner | Cleaning | Timed (t : Z) | Closing (scratch : list clientConn) (mustStop : bool).

(** The requests that dial, with [startCleaner]; the connections in use, and those with their
    time set that wait for the lock. *)
Record client := mkClient {
  host : hostClients;
  dialing : list bool;
  lent : list clientConn;
  releasing : list clientConn;
  clean : cleaner;
  nextConn : nat;
  now : Z
}.

(** A connection is made; the first one starts the cleaner. *)
Definition dialed (b : bool) (others : list bool) (s : client) : client :=
  let cc := mkConn (nextConn s) (now s) 0 in
  let '(go, hc) := if b then swapCleaner (host s) else (false, host s) in
  mkClient hc others (cc :: lent s) (releasing s) (if go : bool then Cleaning else clean s) (S (nextConn s)) (now s).

(** A turn of the cleaner that has read the time [t]. *)
Definition cleaned (t : Z) (s : client) : client :=
  let '(scratch, mustStop, hc) := cleanConns t (host s) in
  mkClient hc (dialing s) (lent s) (releasing s) (Closing scratch mustStop) (nextConn s) (now s).

(** [wait] is how long a request at most waits for the lock when it gives a connection back;
    every run has such a bound.  An exchange decides with a time it has read before. *)
Inductive step (wait : Z) (s : client) : client -> Prop :=
| step_reuse cc hc : acquireConn (host s) = (Reuse cc, hc) ->
    step wait s (mkClient hc (dialing s) (cc :: lent s) (releasing s) (clean s) (nextConn s) (now s))
| step_create b hc : acquireConn (host s) = (Create b, hc) ->
    step wait s (mkClient hc (b :: dialing s) (lent s) (releasing s) (clean s) (nextConn s) (now s))
| step_refuse hc : acquireConn (host s) = (ErrNoFreeConns, hc) ->
    step wait s (mkClient hc (dialing s) (lent s) (releasing s) (clean s) (nextConn s) (now s))
| step_dial_error d1 b d2 : dialing s = d1 ++ b :: d2 ->
    step wait s (mkClient (decConnsCount (host s)) (d1 ++ d2) (lent s) (releasing s) (clean s) (nextConn s) (now s))
| step_dial d1 b d2 : dialing s = d1 ++ b :: d2 ->
    step wait s (dialed b (d1 ++ d2) s)
| step_keep l1 cc l2 opt t x : lent s = l1 ++ cc :: l2 -> t <= now s -> (exchange opt t cc x).2 = true ->
    step wait s (mkClient (host s) (dialing s) (l1 ++ l2) (used cc (now s) :: releasing s) (clean s) (nextConn s) (now s))
| step_drop l1 cc l2 opt t x : lent s = l1 ++ cc :: l2 -> t <= now s -> (exchange opt t cc x).2 = false ->
    step wait s (mkClient (decConnsCount (host s)) (dialing s) (l1 ++ l2) (releasing s) (clean s) (nextConn s) (now s))
| step_release l1 cc l2 : releasing s = l1 ++ cc :: l2 -> now s - lastUseTime cc <= wait ->
    step wait s (mkClient (releaseConn cc (host s)) (dialing s) (lent s) (l1 ++ l2) (clean s) (nextConn s) (now s))
| step_time t : now s <= t -> step wait s (mkClient (host s) (dialing s) (lent s) (releasing s) (clean s) (nextConn s) t)
| step_clock : clean s = Cleaning ->
    step wait s (mkClient (host s) (dialing s) (lent s) (releasing s) (Timed (now s)) (nextConn s) (now s))
| step_clean t : clean s = Timed t ->
    step wait s (cleaned t s)
| step_close cc scratch mustStop : clean s = Closing (cc :: scratch) mustStop ->
    step wait s (mkClient (decConnsCount (host s)) (dialing s) (lent s) (releasing s) (Closing scratch mustStop) (nextConn s) (now s))
| step_sleep : clean s = Closing [] false ->
    step wait s (mkClient (host s) (dialing s) (lent s) (releasing s) Cleaning (nextConn s) (now s))
| step_stop : clean s = Closing [] true ->
    step wait s (mkClient (set_cleaner false (host s)) (dialing s) (lent s) (releasing s) NoCleaner (nextConn s) (now s)).

Definition begin (opt : HTTPOption) (t : Z) : client := mkClient (mkHost false opt 0 []) [] [] [] NoCleaner 0 t.

Inductive reached (wait : Z) (opt : HTTPOption) : client -> Prop :=
| reached_begin t : reached wait opt (begin opt t)
| reached_step s s' : reached wait opt s -> step wait s s' -> reached wait opt s'.

(** ** The accounting *)

Definition closing (s : client) : list clientConn := match clean s with Closing l _ => l | _ => [] end.
Definition owned (s : client) : list clientConn := conns (host s) ++ lent s ++ releasing s ++ closing s.

(** No later than by [wait]. *)
Definition before (wait x y : Z) : Prop := x <= y + wait.

(** Every connection has one owner, the counter counts the connections and the dials, and the
    idle ones are in the order they were used but for the waits for the lock. *)
Record accounted (wait : Z) (opt : HTTPOption) (s : client) : Prop := {
  ac_option : option_ (host s) = opt;
  ac_count : connsCount (host s) = len (owned s) + len (dialing s);
  ac_max : connsCount (host s) <= maxConns opt;
  ac_nodup : NoDup (map cc_id (owned s));
  ac_fresh : Forall (λ cc, (cc_id cc < nextConn s)%nat) (owned s);
  ac_sorted : StronglySorted (before wait) (map lastUseTime (conns (host s)));
  ac_past : Forall (λ cc, lastUseTime cc <= now s) (conns (host s) ++ releasing s);
  ac_cleaner : startedCleaner (host s) = true <-> clean s <> NoCleaner
}.

Lemma last_removelast {A} (l : list A) x : last l = Some x -> l = removelast l ++ [x].
Proof.
  induction l as [|y l IH]; [done|]. destruct l as [|z l]; [by intros [= ->]|].
  change (last (y :: z :: l)) with (last (z :: l)). intros H. cbn [removelast app]. f_equal. by apply IH.
Qed.

Section Accounting.
Context (wait : Z) (opt : HTTPOption).
Implicit Type s : client.

(** A step that makes no connection. *)
Lemma accounted_shrink s s' gone : accounted wait opt s -> map cc_id (owned s) ≡ₚ map cc_id gone ++ map cc_id (owned s') ->
  option_ (host s') = opt -> connsCount (host s') = len (owned s') + len (dialing s') ->
  connsCount (host s') <= maxConns opt -> nextConn s' = nextConn s ->
  StronglySorted (before wait) (map lastUseTime (conns (host s'))) ->
  Forall (λ cc, lastUseTime cc <= now s') (conns (host s') ++ releasing s') ->
  (startedCleaner (host s') = true <-> clean s' <> NoCleaner) -> accounted wait opt s'.
Proof.
  intros [] Hp Ho Hn Hm Hf Hs Ht Hc. assert (Hfr := ac_fresh0). rewrite Hp in ac_nodup0.
  apply NoDup_app in ac_nodup0 as (_ & _ & Hnd). split; try done. rewrite Hf.
  rewrite <- (Forall_map cc_id (λ n, (n < nextConn s)%nat)) in Hfr |- *. rewrite Hp in Hfr. by apply Forall_app in Hfr as [_ ?].
Qed.

Lemma begin_accounted t : accounted wait opt (begin opt t).
Proof.
  split; cbn; try done; try constructor; try done.
  - unfold maxConns, DefaultMaxConnsPerHost. destruct (Z.leb_spec (MaxConns opt) 0); lia.
Qed.

(** What the critical sections do to a host. *)
Lemma acquire_reuse c cc c' : acquireConn c = (Reuse cc, c') ->
  conns c = conns c' ++ [cc] /\ connsCount c' = connsCount c /\ option_ c' = option_ c /\ startedCleaner c' = startedCleaner c.
Proof.
  unfold acquireConn. destruct (last (conns c)) as [x|] eqn:E; [|by destruct (_ <? _)].
  intros [= -> <-]. split; [by apply last_removelast|done].
Qed.

Lemma acquire_create c b c' : acquireConn c = (Create b, c') ->
  conns c = [] /\ connsCount c < maxConns (option_ c) /\ c' = set_conns (connsCount c + 1) [] c.
Proof.
  unfold acquireConn. destruct (last (conns c)) as [x|] eqn:E; [done|]. apply last_None in E.
  destruct (Z.ltb_spec (connsCount c) (maxConns (option_ c))); [|done]. intros [= _ <-]. by rewrite E.
Qed.

Lemma acquire_refuse c c' : acquireConn c = (ErrNoFreeConns, c') -> c' = c /\ conns c = [] /\ maxConns (option_ c) <= connsCount c.
Proof.
  unfold acquireConn. destruct (last (conns c)) as [x|] eqn:E; [done|]. apply last_None in E.
  destruct (Z.ltb_spec (connsCount c) (maxConns (option_ c))); [done|]. by intros [= <-].
Qed.

Lemma Forall_past t t' (l : list clientConn) : t <= t' -> Forall (λ cc, lastUseTime cc <= t) l -> Forall (λ cc, lastUseTime cc <= t') l.
Proof. intros Ht Hl. eapply Forall_impl; [exact Hl|]. cbn. intros; lia. Qed.

Lemma sorted_release l cc t : StronglySorted (before wait) (map lastUseTime l) -> Forall (λ cc, lastUseTime cc <= t) l ->
  t - lastUseTime cc <= wait -> StronglySorted (before wait) (map lastUseTime (l ++ [cc])).
Proof.
  intros Hs Hl Hw. rewrite map_app. apply StronglySorted_app_2; [|done|repeat constructor].
  intros x y Hx Hy. apply list_elem_of_singleton in Hy as ->. apply list_elem_of_fmap in Hx as (z & -> & Hz).
  pose proof (proj1 (Forall_forall _ _) Hl z Hz). unfold before. cbn in *. lia.
Qed.

Lemma sorted_app_l l1 l2 : StronglySorted (before wait) (map lastUseTime (l1 ++ l2)) -> StronglySorted (before wait) (map lastUseTime l1).
Proof. rewrite map_app. apply StronglySorted_app_1_l. Qed.
Lemma sorted_app_r l1 l2 : StronglySorted (before wait) (map lastUseTime (l1 ++ l2)) -> StronglySorted (before wait) (map lastUseTime l2).
Proof. rewrite map_app. apply StronglySorted_app_1_r. Qed.

(** Sides of [accounted_shrink] that count or move connections. *)
Ltac sides := unfold owned, closing in *; cbn in *;
  repeat match goal with H : _ = _ :: _ |- _ => rewrite H in * | H : lent _ = _ |- _ => rewrite H in * | H : releasing _ = _ |- _ => rewrite H in * | H : clean _ = _ |- _ => rewrite H in * end;
  first [ done | lia | repeat first [rewrite map_app | progress cbn [map app]]; solve_Permutation | autorewrite with len in *; lia | idtac ].

(** A connection that is made is new. *)
Lemma dialed_accounted s d1 b d2 : accounted wait opt s -> dialing s = d1 ++ b :: d2 -> accounted wait opt (dialed b (d1 ++ d2) s).
Proof.
  intros [] Hd. set (hc := if b then swapCleaner (host s) else (false, host s)).
  assert (Hh : conns hc.2 = conns (host s) /\ connsCount hc.2 = connsCount (host s) /\ option_ hc.2 = opt) by (by unfold hc; destruct b).
  assert (Hgo : startedCleaner hc.2 = true <-> (if hc.1 then Cleaning else clean s) <> NoCleaner).
  { unfold hc. destruct b; cbn; [|done]. destruct (startedCleaner (host s)) eqn:E; cbn; [|done]. tauto. }
  assert (Hclosing : match (if hc.1 then Cleaning else clean s) with Closing l _ => l | _ => [] end = closing s).
  { unfold hc, closing. destruct b; cbn; [|done]. destruct (startedCleaner (host s)) eqn:E; cbn; [done|].
    destruct (clean s) eqn:Ec; try done. destruct ac_cleaner0 as [_ H]. discriminate H. congruence. }
  unfold dialed. fold hc. destruct hc as [go hc]. cbn in Hh, Hgo, Hclosing. destruct Hh as (Hc & Hn & Ho).
  split; unfold owned, closing; cbn; rewrite ?Hc, ?Hn, ?Hclosing; try done.
  - rewrite ac_count0, Hd. unfold owned. autorewrite with len. lia.
  - rewrite map_app. cbn [map app cc_id]. rewrite <- Permutation_middle, <- map_app. constructor; [|done].
    intros Hin. apply list_elem_of_fmap in Hin as (x & Hx & Hin). eapply Forall_forall in ac_fresh0; [|exact Hin]. lia.
  - unfold owned in ac_fresh0. rewrite !Forall_app in *. destruct ac_fresh0 as (H1 & H2 & H3).
    assert (Hup : ∀ l, Forall (λ cc, (cc_id cc < nextConn s)%nat) l -> Forall (λ cc, (cc_id cc < S (nextConn s))%nat) l)
      by (intros l Hf; eapply Forall_impl; [exact Hf|]; cbn; intros; lia).
    destruct H3. split; [auto|]. apply Forall_cons. split; [cbn; lia|]. rewrite !Forall_app; auto.
Qed.

Lemma cleaned_accounted t s : accounted wait opt s -> clean s = Timed t -> accounted wait opt (cleaned t s).
Proof.
  intros Ha Hc. pose proof Ha as []. unfold cleaned, cleanConns. set (i := expired _ _ _).
  pose proof (take_drop i (conns (host s))) as Htd. unfold owned, closing in *. rewrite Hc in *.
  apply (accounted_shrink s _ []); unfold owned, closing; cbn; try done.
  - rewrite Hc, app_nil_r. rewrite <- Htd at 1. rewrite !map_app. solve_Permutation.
  - rewrite ac_count0, <- Htd at 1. autorewrite with len. lia.
  - rewrite <- Htd in ac_sorted0. by apply sorted_app_r in ac_sorted0.
  - apply Forall_app in ac_past0 as [??]. apply Forall_app. split; [by apply Forall_drop|done].
  - by rewrite ac_cleaner0.
Qed.

Lemma step_accounted s s' : accounted wait opt s -> step wait s s' -> accounted wait opt s'.
Proof.
  intros Ha Hs. pose proof Ha as []. assert (Hp := ac_past0). apply Forall_app in Hp as [Hp1 Hp2].
  destruct Hs as [cc hc E|b hc E|hc E|d1 b d2 Hd|d1 b d2 Hd|l1 cc l2 opt' t x Hl Ht Hx|l1 cc l2 opt' t x Hl Ht Hx|l1 cc l2 Hl Hw|t Ht|Hc|t Hc|cc scratch ms Hc|Hc|Hc].
  - apply acquire_reuse in E as (Hc & Hn & Ho & Hst). rewrite Hc in *.
    apply (accounted_shrink s _ []); cbn in *; rewrite ?Hn, ?Ho, ?Hst in *; try done.
    + unfold owned, closing. cbn. rewrite Hc. sides.
    + rewrite ac_count0. unfold owned, closing. cbn. rewrite Hc. autorewrite with len. lia.
    + by apply sorted_app_l in ac_sorted0.
    + apply Forall_app in Hp1 as [? _]. by apply Forall_app.
  - apply acquire_create in E as (Hc & Hn & ->). split; unfold owned, closing in *; cbn in *; rewrite ?Hc in *; try done.
    + rewrite ac_count0. autorewrite with len. lia.
    + rewrite ac_option0 in Hn. lia.
  - apply acquire_refuse in E as (-> & _ & _). by destruct s.
  - apply (accounted_shrink s _ []); unfold owned, closing in *; cbn in *; try done; [|lia].
    rewrite ac_count0, Hd. autorewrite with len. lia.
  - by apply dialed_accounted.
  - apply (accounted_shrink s _ []); try done; [unfold used; sides..|].
    cbn. apply Forall_app. split; [done|]. apply Forall_cons. split; [cbn; lia|done].
  - apply (accounted_shrink s _ [cc]); sides.
  - apply (accounted_shrink s _ []); try done; [sides..| |].
    + cbn. by eapply sorted_release.
    + cbn. rewrite Hl in ac_past0. rewrite !Forall_app, !Forall_cons in *. destruct ac_past0 as (? & ? & ? & ?). by split_and!.
  - apply (accounted_shrink s _ []); cbn; try done. by eapply Forall_past.
  - apply (accounted_shrink s _ []); sides. by rewrite ac_cleaner0.
  - by apply cleaned_accounted.
  - apply (accounted_shrink s _ [cc]); sides. by rewrite ac_cleaner0.
  - apply (accounted_shrink s _ []); sides. by rewrite ac_cleaner0.
  - apply (accounted_shrink s _ []); sides.
Qed.

Lemma reached_accounted s : reached wait opt s -> accounted wait opt s.
Proof. induction 1; [apply begin_accounted|by eapply step_accounted]. Qed.

Lemma expired_rest maxIdle t l : 0 <= wait -> StronglySorted (before wait) (map lastUseTime l) ->
  Forall (λ cc, t - lastUseTime cc <= maxIdle + wait) (drop (expired maxIdle t l) l).
Proof.
  intros Hw. induction l as [|x l IH]; cbn; [done|]. intros Hs. apply StronglySorted_inv in Hs as [Hs Hx].
  destruct (Z.ltb_spec maxIdle (t - lastUseTime x)); [by apply IH|]. cbn. constructor; [lia|].
  apply Forall_forall. intros y Hy. rewrite Forall_forall in Hx. specialize (Hx (lastUseTime y)). unfold before in Hx.
  assert (lastUseTime x <= lastUseTime y + wait) by (apply Hx, list_elem_of_fmap; eauto). lia.
Qed.

(** C28: the connections of a host are accounted for, in every interleaving of requests, dials,
    errors and the cleaner: the counter is the number of connections that are idle, in use,
    being given back, being closed or being dialed, and stays within the maximum; no
    connection is idle and in use, or in use by two requests; a request is refused only if no
    connection is idle and the maximum is reached; and a turn of the cleaner leaves no
    connection that was idle, at the time the cleaner has read, for longer than the option and
    the longest wait of a request that gives one back for the lock. *)
Theorem connections_accounted : ∀ s, 0 <= wait -> reached wait opt s ->
  connsCount (host s) = len (conns (host s)) + len (lent s) + len (releasing s) + len (closing s) + len (dialing s) /\
  0 <= connsCount (host s) <= maxConns opt /\
  NoDup (map cc_id (conns (host s) ++ lent s ++ releasing s ++ closing s)) /\
  (∀ hc, acquireConn (host s) = (ErrNoFreeConns, hc) -> conns (host s) = [] /\ connsCount (host s) = maxConns opt) /\
  (∀ t, clean s = Timed t -> Forall (λ cc, t - lastUseTime cc <= MaxIdleConnDuration opt + wait) (conns (host (cleaned t s)))).
Proof.
  intros s Hw Hr. pose proof (reached_accounted s Hr) as []. unfold owned in *.
  rewrite !len_app in ac_count0. split_and!; try done; try lia.
  - pose proof (len_nonneg (conns (host s))). pose proof (len_nonneg (lent s)). pose proof (len_nonneg (closing s)).
    pose proof (len_nonneg (releasing s)). pose proof (len_nonneg (dialing s)). lia.
  - intros hc H. apply acquire_refuse in H as (_ & Hc & Hm). split; [done|]. rewrite ac_option0 in Hm. lia.
  - intros t _. unfold cleaned, cleanConns. cbn. rewrite ac_option0. by apply expired_rest.
Qed.

End Accounting.

(** ** Examples *)

Definition sample_request_done : io := mkIO false false false false false false.

(** A host can be left with idle connections and no cleaner: the request that was to start it
    could not dial while another made a connection. *)
Definition sample_left : client :=
  mkClient (mkHost false DefaultHTTPOption 1 [mkConn 0 7 7]) [] [] [] NoCleaner 1 7.

Ltac goes st := eapply reached_step; [|st]; cbn.

Lemma cleaner_lost : reached 0 DefaultHTTPOption sample_left.
Proof.
  set (o := DefaultHTTPOption). unfold sample_left.
  goes ltac:(by apply (step_release 0 (mkClient (mkHost false o 1 []) [] [] [mkConn 0 7 7] NoCleaner 1 7) [] (mkConn 0 7 7) [])).
  goes ltac:(by apply (step_keep 0 (mkClient (mkHost false o 1 []) [] [mkConn 0 7 0] [] NoCleaner 1 7) [] (mkConn 0 7 0) [] o 7 sample_request_done)).
  goes ltac:(by apply (step_dial 0 (mkClient (mkHost false o 1 []) [false] [] [] NoCleaner 0 7) [] false [])).
  goes ltac:(by apply (step_dial_error 0 (mkClient (mkHost false o 2 []) [false; true] [] [] NoCleaner 0 7) [false] true [])).
  goes ltac:(by apply (step_create 0 (mkClient (mkHost false o 1 []) [true] [] [] NoCleaner 0 7))).
  goes ltac:(by apply (step_create 0 (begin o 7))). apply (reached_begin 0 o 7).
Qed.

Lemma connections_accounted_witness :
  connsCount (host sample_left) = 1 /\ 1 <= maxConns DefaultHTTPOption /\
  NoDup (map cc_id (conns (host sample_left) ++ lent sample_left ++ releasing sample_left ++ closing sample_left)).
Proof.
  destruct (connections_accounted 0 DefaultHTTPOption sample_left ltac:(lia) cleaner_lost) as (Hn & Hm & Hd & _).
  split; [reflexivity|]. split; [vm_compute; discriminate|exact Hd].
Defined.

(** Two connections given back in the opposite order of their times: a turn of the cleaner stops
    at the first, which is fresh, and leaves the one behind it, idle for too long. *)
Definition sample_option : HTTPOption := mkHTTPOption 8 0 30 0 0.
Definition sample_late : client :=
  mkClient (mkHost true sample_option 2 [mkConn 1 0 50; mkConn 0 0 10]) [] [] [] (Timed 60) 2 60.

Lemma left_too_long : reached 40 sample_option sample_late /\
  conns (host (cleaned 60 sample_late)) = [mkConn 1 0 50; mkConn 0 0 10] /\
  MaxIdleConnDuration sample_option < 60 - 10.
Proof.
  split; [|by vm_compute]. set (o := sample_option). unfold sample_late. fold o.
  goes ltac:(by apply (step_clock 40 (mkClient (mkHost true o 2 [mkConn 1 0 50; mkConn 0 0 10]) [] [] [] Cleaning 2 60))).
  goes ltac:(by apply (step_time 40 (mkClient (mkHost true o 2 [mkConn 1 0 50; mkConn 0 0 10]) [] [] [] Cleaning 2 50) 60)).
  goes ltac:(by apply (step_release 40 (mkClient (mkHost true o 2 [mkConn 1 0 50]) [] [] [mkConn 0 0 10] Cleaning 2 50) [] (mkConn 0 0 10) [])).
  goes ltac:(by apply (step_release 40 (mkClient (mkHost true o 2 []) [] [] [mkConn 1 0 50; mkConn 0 0 10] Cleaning 2 50) [] (mkConn 1 0 50) [mkConn 0 0 10])).
  goes ltac:(by apply (step_keep 40 (mkClient (mkHost true o 2 []) [] [mkConn 1 0 0] [mkConn 0 0 10] Cleaning 2 50) [] (mkConn 1 0 0) [] o 0 sample_request_done)).
  goes ltac:(by apply (step_time 40 (mkClient (mkHost true o 2 []) [] [mkConn 1 0 0] [mkConn 0 0 10] Cleaning 2 10) 50)).
  goes ltac:(by apply (step_keep 40 (mkClient (mkHost true o 2 []) [] [mkConn 1 0 0; mkConn 0 0 0] [] Cleaning 2 10) [mkConn 1 0 0] (mkConn 0 0 0) [] o 0 sample_request_done)).
  goes ltac:(by apply (step_time 40 (mkClient (mkHost true o 2 []) [] [mkConn 1 0 0; mkConn 0 0 0] [] Cleaning 2 0) 10)).
  goes ltac:(by apply (step_dial 40 (mkClient (mkHost true o 2 []) [false] [mkConn 0 0 0] [] Cleaning 1 0) [] false [])).
  goes ltac:(by apply (step_create 40 (mkClient (mkHost true o 1 []) [] [mkConn 0 0 0] [] Cleaning 1 0))).
  goes ltac:(by apply (step_dial 40 (mkClient (mkHost false o 1 []) [true] [] [] NoCleaner 0 0) [] true [])).
  goes ltac:(by apply (step_create 40 (begin o 0))). apply (reached_begin 40 o 0).
Qed.
