(* ===== verification/Ring.v ===== *)
(** Model of the ring buffer [src/src/utils/task/ring.go]: a queue for many producers and
    consumers without locks.  Every access to shared memory is one step of a thread, threads
    interleave, and whatever they do the values come out in the order they went in. *)
From S2P Require Import Prelude.

Definition or_shift (n v : Z) : Z := Z.lor v (Z.shiftr v n).
Definition roundUp (v : Z) : Z :=
  let v := u64 (v - 1) in
  let v := or_shift 1 v in let v := or_shift 2 v in let v := or_shift 4 v in
  let v := or_shift 8 v in let v := or_shift 16 v in let v := or_shift 32 v in
  u64 (v + 1).

(** Doubling the run of ones under the top bit fills all the bits below it. *)
Definition filled (j m v : Z) : Prop :=
  (∀ i, 0 <= i -> m - j < i <= m -> Z.testbit v i = true) /\ (∀ i, m < i -> Z.testbit v i = false).

Lemma or_shift_filled j m v : 0 < j -> 0 <= m -> filled j m v -> filled (2 * j) m (or_shift j v).
Proof.
  intros Hj Hm [F N]; split; intros i H; [intros Hi|]; unfold or_shift; rewrite Z.lor_spec, Z.shiftr_spec by lia.
  - destruct (Z.ltb_spec (m - j) i); [rewrite F by lia; done|]. rewrite (F (i + j)) by lia. apply orb_true_r.
  - rewrite !N by lia. done.
Qed.

Lemma filled_ones j m v : m < j -> 0 <= m -> filled j m v -> v = 2^(m + 1) - 1.
Proof.
  intros Hj Hm [F N]. replace (2^(m + 1) - 1) with (Z.ones (m + 1)) by (rewrite Z.ones_equiv; lia).
  apply Z.bits_inj'; intros i Hi. destruct (Z.ltb_spec m i).
  - rewrite N, Z.ones_spec_high by lia. done.
  - rewrite F, Z.ones_spec_low by lia. done.
Qed.

(** The least power of two that is not below [v]. *)
Lemma roundUp_power v : 0 < v <= 2^63 -> ∃ k, 0 <= k < 64 /\ roundUp v = 2^k /\ v <= 2^k < 2 * v.
Proof.
  intros Hv. unfold roundUp. rewrite (u64_small (v - 1)) by (unfold is_u64; lia).
  destruct (Z.eq_dec v 1) as [->|]; [exists 0; done|].
  set (m := Z.log2 (v - 1)). destruct (Z.log2_spec (v - 1) ltac:(lia)) as [Lo Hi]. fold m in Lo, Hi.
  assert (0 <= m) by apply Z.log2_nonneg. assert (m < 63) by (apply Z.log2_lt_pow2; lia).
  assert (filled 1 m (v - 1)) as F.
  { split; [intros i ??; replace i with m by lia; apply Z.bit_log2; lia|].
    intros i ?; apply Z.bits_above_log2; lia. }
  do 6 (apply or_shift_filled in F; [|lia|lia]).
  apply filled_ones in F; [|lia|lia].
  change (2 * (2 * (2 * (2 * (2 * 1))))) with 32 in F. change (2 * (2 * (2 * (2 * 1)))) with 16 in F.
  change (2 * (2 * (2 * 1))) with 8 in F. change (2 * (2 * 1)) with 4 in F. change (2 * 1) with 2 in F. cbv zeta. rewrite F.
  exists (m + 1). assert (2^(m + 1) <= 2^63) by (apply Z.pow_le_mono_r; lia).
  rewrite u64_small by (unfold is_u64; lia).
  rewrite Z.pow_succ_r in Hi by lia. assert (2^(m + 1) = 2 * 2^m) by (rewrite Z.pow_add_r; lia). lia.
Qed.

Section Ring.
(** The values; [nil] is Go's. *)
Context {A : Type} (nil : A).

Record node := mkNode { position : Z; data : A }.
Record RingBuffer := mkRing { queue : Z; dequeue : Z; mask : Z; disposed : bool; nodes : list node }.
Implicit Types (rb : RingBuffer).

Definition init (size : Z) : RingBuffer :=
  let size := roundUp size in
  mkRing 0 0 (u64 (size - 1)) false ((λ i, mkNode (Z.of_nat i) nil) <$> seq 0 (Z.to_nat size)).
Definition NewRingBuffer (size : Z) : RingBuffer := init size.

Definition Cap rb : Z := len (nodes rb).
Definition Len rb : Z := u64 (queue rb - dequeue rb).
Definition IsDisposed rb : bool := disposed rb.

(** [rb.nodes[pos&rb.mask]]: its index, and its fields. *)
Definition slot rb (pos : Z) : nat := Z.to_nat (Z.land pos (mask rb)).
Definition node_at rb (pos : Z) : node := nth (slot rb pos) (nodes rb) (mkNode 0 nil).

Definition set_queue q rb := mkRing q (dequeue rb) (mask rb) (disposed rb) (nodes rb).
Definition set_dequeue d rb := mkRing (queue rb) d (mask rb) (disposed rb) (nodes rb).
Definition set_node pos n rb := mkRing (queue rb) (dequeue rb) (mask rb) (disposed rb) (<[slot rb pos := n]> (nodes rb)).
Definition set_data pos d rb := set_node pos (mkNode (position (node_at rb pos)) d) rb.
Definition set_position pos p rb := set_node pos (mkNode p (data (node_at rb pos))) rb.
Definition Dispose rb := mkRing (queue rb) (dequeue rb) (mask rb) true (nodes rb).

Inductive result := PutDone (ok : bool) | Got (d : A) | ErrDisposed | ErrTimeout.

(** Where a thread is in [put] and in [Poll]. *)
Inductive pc :=
| PutLoad (item : A) (offer : bool)
| PutLoop (item : A) (offer : bool) (pos : Z)
| PutSeq (item : A) (offer : bool) (pos : Z)
| PutCas (item : A) (offer : bool) (pos : Z)
| PutReload (item : A) (offer : bool)
| PutWrite (item : A) (pos : Z)
| PutStore (item : A) (pos : Z)
| GetLoad (timeout : bool)
| GetLoop (timeout : bool) (pos : Z)
| GetSeq (timeout : bool) (pos : Z)
| GetCas (timeout : bool) (pos : Z)
| GetReload (timeout : bool)
| GetRead (pos : Z)
| GetClear (pos : Z) (d : A)
| GetStore (pos : Z) (d : A)
| Returned (r : result).

(** One step; [late]: the time of a [Poll] with a timeout is up.  The cases [dif < 0] of the
    code compare an unsigned number and never hold. *)
Definition next (late : bool) rb (p : pc) : RingBuffer * pc :=
  match p with
  | PutLoad item offer => (rb, PutLoop item offer (queue rb))
  | PutLoop item offer pos => (rb, if disposed rb then Returned ErrDisposed else PutSeq item offer pos)
  | PutSeq item offer pos =>
      (rb, if u64 (position (node_at rb pos) - pos) =? 0 then PutCas item offer pos else PutReload item offer)
  | PutCas item offer pos =>
      if queue rb =? pos then (set_queue (u64 (pos + 1)) rb, PutWrite item pos)
      else (rb, if offer then Returned (PutDone false) else PutLoop item offer pos)
  | PutReload item offer => (rb, if offer then Returned (PutDone false) else PutLoop item offer (queue rb))
  | PutWrite item pos => (set_data pos item rb, PutStore item pos)
  | PutStore item pos => (set_position pos (u64 (pos + 1)) rb, Returned (PutDone true))
  | GetLoad timeout => (rb, GetLoop timeout (dequeue rb))
  | GetLoop timeout pos => (rb, if disposed rb then Returned ErrDisposed else GetSeq timeout pos)
  | GetSeq timeout pos =>
      (rb, if u64 (position (node_at rb pos) - u64 (pos + 1)) =? 0 then GetCas timeout pos else GetReload timeout)
  | GetCas timeout pos =>
      if dequeue rb =? pos then (set_dequeue (u64 (pos + 1)) rb, GetRead pos)
      else (rb, if timeout && late then Returned ErrTimeout else GetLoop timeout pos)
  | GetReload timeout => (rb, if timeout && late then Returned ErrTimeout else GetLoop timeout (dequeue rb))
  | GetRead pos => (rb, GetClear pos (data (node_at rb pos)))
  | GetClear pos d => (set_data pos nil rb, GetStore pos d)
  | GetStore pos d => (set_position pos (u64 (u64 (pos + mask rb) + 1)) rb, Returned (Got d))
  | Returned r => (rb, Returned r)
  end.

(** The calls. *)
Definition Put (item : A) : pc := PutLoad item false.
Definition Offer (item : A) : pc := PutLoad item true.
Definition Poll (timeout : bool) : pc := GetLoad timeout.
Definition Get : pc := Poll false.

(** ** Threads

    [log]: the values put, in the order of their compare and swap; [delivered]: the values
    returned, with the number of the get. *)
Record system := mkSystem { ring : RingBuffer; threads : list pc; log : list A; delivered : list (Z * A) }.
Implicit Types (s : system).

Definition logged (p p' : pc) (l : list A) : list A :=
  match p, p' with PutCas item _ _, PutWrite _ _ => l ++ [item] | _, _ => l end.
Definition returned (p : pc) (l : list (Z * A)) : list (Z * A) :=
  match p with GetStore pos d => l ++ [(pos, d)] | _ => l end.

Inductive step s : system -> Prop :=
| step_call call : (∃ item offer, call = PutLoad item offer) \/ (∃ timeout, call = GetLoad timeout) ->
    step s (mkSystem (ring s) (threads s ++ [call]) (log s) (delivered s))
| step_thread i p p' late rb' : threads s !! i = Some p -> next late (ring s) p = (rb', p') ->
    queue (ring s) + Cap (ring s) < 2^64 ->
    step s (mkSystem rb' (<[i := p']> (threads s)) (logged p p' (log s)) (returned p (delivered s)))
| step_dispose : step s (mkSystem (Dispose (ring s)) (threads s) (log s) (delivered s)).

Definition start (size : Z) : system := mkSystem (NewRingBuffer size) [] [] [].
Definition reached (size : Z) s : Prop := rtc step (start size) s.

(** ** Slots *)
Definition geometry rb : Prop := ∃ k, 1 <= k /\ Cap rb = 2^k /\ mask rb = 2^k - 1.

Lemma land_mask k x : 0 <= k -> Z.land x (2^k - 1) = x mod 2^k.
Proof. intros; rewrite <- Z.land_ones by lia; f_equal; rewrite Z.ones_equiv; lia. Qed.

Lemma Cap_two rb : geometry rb -> 2 <= Cap rb.
Proof. intros (k & Hk & -> & _). replace k with (1 + (k - 1)) by lia. rewrite Z.pow_add_r by lia. pose proof (Z.pow_pos_nonneg 2 (k - 1)); lia. Qed.
Lemma slot_mod rb pos : geometry rb -> slot rb pos = Z.to_nat (pos mod Cap rb).
Proof. intros (k & Hk & HC & HM); unfold slot; by rewrite HM, HC, land_mask by lia. Qed.

Lemma slot_lt rb pos : geometry rb -> (slot rb pos < length (nodes rb))%nat.
Proof.
  intros G; rewrite slot_mod by done. pose proof (Cap_two _ G). pose proof (Z.mod_pos_bound pos (Cap rb) ltac:(lia)).
  unfold Cap, len in *; lia.
Qed.

Lemma slot_eq rb u v : geometry rb -> slot rb u = slot rb v <-> u mod Cap rb = v mod Cap rb.
Proof.
  intros G; rewrite !slot_mod by done. pose proof (Cap_two _ G).
  pose proof (Z.mod_pos_bound u (Cap rb) ltac:(lia)); pose proof (Z.mod_pos_bound v (Cap rb) ltac:(lia)); lia.
Qed.

(** Tickets less than a round apart share no slot, a round apart they do. *)
Lemma slot_near rb u v : geometry rb -> u - v < Cap rb -> v - u < Cap rb -> slot rb u = slot rb v -> u = v.
Proof.
  intros G ?? E; apply slot_eq in E; [|done].
  pose proof (Cap_two _ G).
  pose proof (Z.div_mod u (Cap rb) ltac:(lia)) as Hu; pose proof (Z.div_mod v (Cap rb) ltac:(lia)) as Hv.
  assert (u / Cap rb = v / Cap rb) as D by nia. rewrite D in Hu; lia.
Qed.
Lemma slot_round rb u : geometry rb -> slot rb (u - Cap rb) = slot rb u.
Proof.
  intros G; apply slot_eq; [done|]. pose proof (Cap_two _ G).
  replace (u - Cap rb) with (u + (-1) * Cap rb) by lia. rewrite Z.mod_add by lia; done.
Qed.
Lemma slot_window rb pos q : geometry rb -> ∃ u, q - Cap rb <= u < q /\ slot rb u = slot rb pos.
Proof.
  intros G; pose proof (Cap_two _ G).
  exists (q - Cap rb + (pos - q) mod Cap rb). pose proof (Z.mod_pos_bound (pos - q) (Cap rb) ltac:(lia)).
  split; [lia|]. apply slot_eq; [done|].
  rewrite Zplus_mod_idemp_r. replace (q - Cap rb + (pos - q)) with (pos + (-1) * Cap rb) by lia.
  rewrite Z.mod_add; [done|lia].
Qed.

Lemma node_at_slot rb u v : slot rb u = slot rb v -> node_at rb u = node_at rb v.
Proof. unfold node_at; by intros ->. Qed.
Lemma node_at_set rb pos n u : geometry rb ->
  node_at (set_node pos n rb) u = if decide (slot rb u = slot rb pos) then n else node_at rb u.
Proof.
  intros G; pose proof (slot_lt _ pos G); unfold node_at; change (slot (set_node pos n rb) u) with (slot rb u); simpl.
  rewrite !nth_lookup. case_decide as D.
  - rewrite D, list_lookup_insert_eq by done. done.
  - rewrite list_lookup_insert_ne; congruence.
Qed.
Lemma Cap_set rb pos n : Cap (set_node pos n rb) = Cap rb.
Proof. unfold Cap, set_node; simpl; unfold len; by rewrite length_insert. Qed.
Lemma geometry_set rb pos n : geometry rb -> geometry (set_node pos n rb).
Proof. intros (k&?&?&?); exists k; rewrite Cap_set; done. Qed.

(** ** Owners: between its compare and swap and its last store a thread owns a ticket. *)
Definition owner (p : pc) : option Z :=
  match p with
  | PutWrite _ t | PutStore _ t | GetRead t | GetClear t _ | GetStore t _ => Some t
  | _ => None
  end.
Definition owned (ts : list pc) (t : Z) : Prop := t ∈ omap owner ts.
#[export] Instance owned_dec ts t : Decision (owned ts t).
Proof. unfold owned; apply _. Defined.
Definition unshared (ts : list pc) : Prop :=
  ∀ i j p p' t, ts !! i = Some p -> ts !! j = Some p' -> owner p = Some t -> owner p' = Some t -> i = j.

Lemma owned_iff ts t : owned ts t <-> ∃ i p, ts !! i = Some p /\ owner p = Some t.
Proof.
  unfold owned; rewrite list_elem_of_omap; setoid_rewrite list_elem_of_lookup.
  split; [intros (p & (i & ?) & ?) | intros (i & p & ? & ?)]; eauto.
Qed.

Lemma lookup_set {B} (ts : list B) i j p p' : ts !! i = Some p ->
  <[i := p']> ts !! j = if decide (i = j) then Some p' else ts !! j.
Proof.
  intros L; case_decide as D; [subst; rewrite list_lookup_insert_eq; [done|by eapply lookup_lt_Some]|].
  by apply list_lookup_insert_ne.
Qed.

Lemma owned_set ts i p p' t : unshared ts -> ts !! i = Some p ->
  owned (<[i := p']> ts) t <-> owner p' = Some t \/ owned ts t /\ owner p <> Some t.
Proof.
  intros U L; rewrite !owned_iff; split.
  - intros (j & x & H & E); rewrite (lookup_set _ _ _ _ _ L) in H; case_decide; [left; congruence|].
    right; split; [eauto|]. intros F; eauto.
  - intros [E|((j & x & H & E) & F)]; [exists i, p' | exists j, x]; rewrite (lookup_set _ _ _ _ _ L).
    + by rewrite decide_True.
    + rewrite decide_False; [done|congruence].
Qed.

Lemma unshared_set ts i p p' : unshared ts -> ts !! i = Some p ->
  (∀ t, owner p' = Some t -> owner p = Some t \/ ~ owned ts t) -> unshared (<[i := p']> ts).
Proof.
  intros U L F j k x y t; rewrite !(lookup_set _ _ _ _ _ L).
  assert (∀ k y, i <> k -> ts !! k = Some y -> owner y = Some t -> owner p' = Some t -> False) as W.
  { intros k' y' ? Hk Ek E'; destruct (F _ E') as [Ep|N]; [by eapply H, U | apply N, owned_iff; eauto]. }
  repeat case_decide; subst; intros; simplify_eq; try done; try (exfalso; by eauto); eauto.
Qed.

(** ** The invariant *)
Definition slot_ok s (u : Z) : Prop :=
  let n := node_at (ring s) u in
  let taken := dequeue (ring s) <=? u in
  if decide (owned (threads s) u) then position n = if taken then u else u + 1
  else if taken then position n = u + 1 /\ log s !! Z.to_nat u = Some (data n)
  else position n = u + Cap (ring s).

Definition thread_ok s (p : pc) : Prop :=
  let rb := ring s in
  match p with
  | PutLoop _ _ pos | PutSeq _ _ pos => 0 <= pos <= queue rb
  | PutCas _ _ pos => 0 <= pos <= queue rb /\ (queue rb = pos -> position (node_at rb pos) = pos)
  | PutWrite item t => dequeue rb <= t < queue rb /\ log s !! Z.to_nat t = Some item
  | PutStore item t => dequeue rb <= t < queue rb /\ log s !! Z.to_nat t = Some item /\ data (node_at rb t) = item
  | GetLoop _ pos | GetSeq _ pos => 0 <= pos <= dequeue rb
  | GetCas _ pos => 0 <= pos <= dequeue rb /\ (dequeue rb = pos -> position (node_at rb pos) = pos + 1)
  | GetRead t => (0 <= t /\ queue rb - Cap rb <= t < dequeue rb) /\ log s !! Z.to_nat t = Some (data (node_at rb t))
  | GetClear t d | GetStore t d => (0 <= t /\ queue rb - Cap rb <= t < dequeue rb) /\ log s !! Z.to_nat t = Some d
  | PutLoad _ _ | PutReload _ _ | GetLoad _ | GetReload _ | Returned _ => True
  end.

(** Every number a get took is held by its thread or was delivered, once, with the value put
    under it. *)
Record inv s : Prop := mkInv {
  inv_geometry : geometry (ring s);
  inv_counts : 0 <= dequeue (ring s) <= queue (ring s) /\ queue (ring s) <= dequeue (ring s) + Cap (ring s);
  inv_log : len (log s) = queue (ring s);
  inv_unshared : unshared (threads s);
  inv_slots : ∀ u, queue (ring s) - Cap (ring s) <= u < queue (ring s) -> slot_ok s u;
  inv_threads : ∀ i p, threads s !! i = Some p -> thread_ok s p;
  inv_unique : NoDup (delivered s).*1;
  inv_values : ∀ t d, (t, d) ∈ delivered s -> 0 <= t < dequeue (ring s) /\ ~ owned (threads s) t /\ log s !! Z.to_nat t = Some d;
  inv_all : ∀ t, 0 <= t < dequeue (ring s) -> owned (threads s) t \/ t ∈ (delivered s).*1 }.

Lemma owned_range s t : inv s -> owned (threads s) t -> 0 <= t /\ queue (ring s) - Cap (ring s) <= t < queue (ring s).
Proof.
  intros I (i & p & L & E)%owned_iff. destruct (inv_counts _ I).
  pose proof (inv_threads _ I _ _ L) as T. destruct p; simpl in *; simplify_eq; lia.
Qed.

(** The position of the slot of any number. *)
Lemma position_range s pos : inv s -> 0 <= position (node_at (ring s) pos) <= queue (ring s) + Cap (ring s).
Proof.
  intros I. destruct (inv_counts _ I). pose proof (Cap_two _ (inv_geometry _ I)).
  destruct (slot_window (ring s) pos (queue (ring s)) (inv_geometry _ I)) as (u & Hu & E).
  rewrite <- (node_at_slot _ _ _ E). pose proof (inv_slots _ I _ Hu) as W; unfold slot_ok in W.
  case_decide as D; [apply owned_range in D; [|done]|];
    destruct (Z.leb_spec (dequeue (ring s)) u); lia.
Qed.

(** What a compare and swap on [queue] relies on: the slot was given back. *)
Lemma slot_free s : inv s -> position (node_at (ring s) (queue (ring s))) = queue (ring s) ->
  ~ owned (threads s) (queue (ring s) - Cap (ring s)) /\ queue (ring s) - Cap (ring s) < dequeue (ring s).
Proof.
  intros I E. destruct (inv_counts _ I). pose proof (Cap_two _ (inv_geometry _ I)).
  rewrite <- (node_at_slot _ _ _ (slot_round _ _ (inv_geometry _ I))) in E.
  pose proof (inv_slots _ I (queue (ring s) - Cap (ring s)) ltac:(lia)) as W; unfold slot_ok in W.
  case_decide as D; destruct (Z.leb_spec (dequeue (ring s)) (queue (ring s) - Cap (ring s))); split; try done; lia.
Qed.

(** On [dequeue]: the slot holds the value. *)
Lemma slot_full s : inv s -> position (node_at (ring s) (dequeue (ring s))) = dequeue (ring s) + 1 ->
  ~ owned (threads s) (dequeue (ring s)) /\ dequeue (ring s) < queue (ring s) /\
  log s !! Z.to_nat (dequeue (ring s)) = Some (data (node_at (ring s) (dequeue (ring s)))).
Proof.
  intros I E. destruct (inv_counts _ I). pose proof (Cap_two _ (inv_geometry _ I)).
  destruct (decide (dequeue (ring s) = queue (ring s))) as [F|F].
  - exfalso. rewrite F, <- (node_at_slot _ _ _ (slot_round _ _ (inv_geometry _ I))) in E.
    pose proof (inv_slots _ I (queue (ring s) - Cap (ring s)) ltac:(lia)) as W; unfold slot_ok in W.
    case_decide as D; destruct (Z.leb_spec (dequeue (ring s)) (queue (ring s) - Cap (ring s))); lia.
  - pose proof (inv_slots _ I (dequeue (ring s)) ltac:(lia)) as W; unfold slot_ok in W.
    rewrite Z.leb_refl in W. case_decide as D; [lia|]. split; [done|]. split; [lia|]. apply W.
Qed.

(** ** Steps *)

(** Steps that leave memory and owners as they are. *)
Lemma inv_quiet s i p p' : inv s -> threads s !! i = Some p -> owner p' = owner p -> thread_ok s p' ->
  inv (mkSystem (ring s) (<[i := p']> (threads s)) (log s) (delivered s)).
Proof.
  intros I L E T. assert (∀ t, owned (<[i := p']> (threads s)) t <-> owned (threads s) t) as O.
  { intros t; rewrite (owned_set _ _ _ _ _ (inv_unshared _ I) L), E; split; [|destruct (decide (owner p = Some t)); auto].
    intros [?|[? _]]; [|done]. apply owned_iff; eauto. }
  split; simpl; try apply I.
  - eapply unshared_set; [apply I|done|]. rewrite E; auto.
  - intros u Hu. pose proof (inv_slots _ I u Hu) as W; unfold slot_ok in *; simpl.
    rewrite (decide_ext _ _ _ _ (O u)). done.
  - intros j x; rewrite (lookup_set _ _ _ _ _ L); case_decide; [by intros [= <-]|]. apply (inv_threads _ I).
  - intros t d F; rewrite O. by apply (inv_values _ I).
  - intros t F; rewrite O. by apply (inv_all _ I).
Qed.

Lemma thread_ok_memory s rb' ts ds p : queue rb' = queue (ring s) -> dequeue rb' = dequeue (ring s) -> Cap rb' = Cap (ring s) ->
  (∀ u, owner p = Some u -> node_at rb' u = node_at (ring s) u) ->
  (position (node_at (ring s) (queue (ring s))) = queue (ring s) -> position (node_at rb' (queue (ring s))) = queue (ring s)) ->
  (position (node_at (ring s) (dequeue (ring s))) = dequeue (ring s) + 1 ->
   position (node_at rb' (dequeue (ring s))) = dequeue (ring s) + 1) ->
  thread_ok s p -> thread_ok (mkSystem rb' ts (log s) ds) p.
Proof.
  intros Q D C N NQ ND T; destruct p; simpl in *; rewrite ?Q, ?D, ?C; try rewrite N by done; try done;
    destruct T as [? T]; (split; [done|]); intros <-; auto.
Qed.

(** What a thread gives to the list of delivered values when it stops owning [t]. *)
Definition hands_over s (t : Z) (p' : pc) (ds : list (Z * A)) : Prop :=
  ds = delivered s /\ (owner p' = Some t \/ dequeue (ring s) <= t) \/
  ∃ d, ds = delivered s ++ [(t, d)] /\ owner p' = None /\ t < dequeue (ring s) /\ log s !! Z.to_nat t = Some d.

(** Steps of the owner of [t] on its slot. *)
Lemma inv_memory s i p p' t n ds : inv s -> threads s !! i = Some p -> owner p = Some t ->
  owner p' = Some t \/ owner p' = None -> hands_over s t p' ds ->
  let rb' := set_node t n (ring s) in
  (position (node_at (ring s) (queue (ring s))) = queue (ring s) -> position (node_at rb' (queue (ring s))) = queue (ring s)) ->
  (position (node_at (ring s) (dequeue (ring s))) = dequeue (ring s) + 1 ->
   position (node_at rb' (dequeue (ring s))) = dequeue (ring s) + 1) ->
  let s' := mkSystem rb' (<[i := p']> (threads s)) (log s) ds in
  slot_ok s' t -> thread_ok s' p' -> inv s'.
Proof.
  intros I L E P HO rb' NQ ND s' ST T.
  assert (Cap rb' = Cap (ring s)) as C by apply Cap_set.
  pose proof (inv_geometry _ I) as G. pose proof (inv_unshared _ I) as U.
  assert (owned (threads s) t) as Ot by (apply owned_iff; eauto). pose proof (owned_range _ _ I Ot) as Rt.
  assert (∀ u, owned (<[i := p']> (threads s)) u <-> (u <> t /\ owned (threads s) u) \/ (u = t /\ owner p' = Some t)) as O.
  { intros u; rewrite (owned_set _ _ _ _ _ U L), E. destruct P as [P|P]; rewrite P;
      (split; [intros [?|[? ?]]; simplify_eq; auto; left; split; [congruence|done]
              | intros [[? ?]|[? ?]]; subst; simplify_eq; auto; right; split; congruence]). }
  assert (∀ u, queue (ring s) - Cap (ring s) <= u < queue (ring s) -> u <> t -> node_at rb' u = node_at (ring s) u) as N.
  { intros u Hu F; unfold rb'; rewrite node_at_set by done; rewrite decide_False; [done|].
    intros X; apply F. apply (slot_near (ring s)); [done|lia|lia|done]. }
  split; simpl; try apply I.
  - by apply geometry_set.
  - rewrite C; apply I.
  - eapply unshared_set; [done..|]. rewrite E; destruct P as [-> | ->]; [auto|done].
  - rewrite C; intros u Hu. destruct (decide (u = t)) as [->|F]; [done|].
    pose proof (inv_slots _ I u Hu) as W; unfold slot_ok in *; simpl.
    rewrite N, C by done. rewrite (decide_ext _ (owned (threads s) u)); [done|]. rewrite O; tauto.
  - intros j x; rewrite (lookup_set _ _ _ _ _ L); case_decide as D; [by intros [= <-]|].
    intros Lj. apply thread_ok_memory; try done; [|by apply (inv_threads _ I _ _ Lj)].
    intros u Eu. apply N; [apply owned_range; [done|]; apply owned_iff; eauto|]. intros ->; apply D; by eapply U.
  - destruct HO as [[-> _]|(d & -> & _ & _ & _)]; [apply I|].
    rewrite fmap_app; apply NoDup_app; split; [apply I|]. split; [|apply NoDup_singleton].
    intros x X Y; apply list_elem_of_singleton in Y; simpl in Y; subst.
    apply list_elem_of_fmap in X as ([? v] & -> & X). by apply (inv_values _ I) in X as (_ & [] & _).
  - intros u d X; rewrite O. destruct HO as [[-> _]|(d' & -> & P' & Q & Lt)].
    + apply (inv_values _ I) in X as (? & ? & ?). split; [done|]. split; [intros [[]|[-> _]]; auto|done].
    + apply elem_of_app in X as [X|X].
      * apply (inv_values _ I) in X as (? & ? & ?). split; [done|]. split; [intros [[]|[-> _]]; auto|done].
      * apply list_elem_of_singleton in X; simplify_eq. split; [lia|]. split; [|done]. rewrite P'; intros [[? _]|[_ [=]]]; done.
  - intros u Hu; rewrite O. destruct (inv_all _ I u Hu) as [X|X].
    + destruct (decide (u = t)) as [->|]; [|auto].
      destruct HO as [[-> [?|?]]|(d & -> & _)]; [auto|lia|]. right; rewrite fmap_app; apply elem_of_app; right; by apply list_elem_of_singleton.
    + right. destruct HO as [[-> _]|(d & -> & _)]; [done|]. rewrite fmap_app; apply elem_of_app; auto.
Qed.

(** A put takes the next number, and a get. *)
Lemma inv_claim_put s i item offer : inv s -> threads s !! i = Some (PutCas item offer (queue (ring s))) ->
  inv (mkSystem (set_queue (queue (ring s) + 1) (ring s)) (<[i := PutWrite item (queue (ring s))]> (threads s))
                (log s ++ [item]) (delivered s)).
Proof.
  intros I L. destruct (inv_counts _ I). pose proof (Cap_two _ (inv_geometry _ I)).
  destruct (inv_threads _ I _ _ L) as [_ F]. specialize (F eq_refl). destruct (slot_free _ I F) as [N ?].
  pose proof (inv_log _ I) as Lg.
  assert (∀ u, owned (<[i := PutWrite item (queue (ring s))]> (threads s)) u <-> owned (threads s) u \/ u = queue (ring s)) as O.
  { intros u; rewrite (owned_set _ _ _ _ _ (inv_unshared _ I) L); simpl; split; [intros [[=]|[]]|intros [|]]; subst; auto. }
  assert (∀ t d, log s !! Z.to_nat t = Some d -> (log s ++ [item]) !! Z.to_nat t = Some d) as Keep
    by (intros; by apply lookup_app_l_Some).
  split; simpl; try apply I.
  - change (Cap (set_queue (queue (ring s) + 1) (ring s))) with (Cap (ring s)); lia.
  - rewrite len_app, Lg; done.
  - eapply unshared_set; [apply I|done|]. intros t [= <-]; right. intros X. apply owned_range in X; [lia|done].
  - change (Cap (set_queue (queue (ring s) + 1) (ring s))) with (Cap (ring s)); intros u Hu; unfold slot_ok; simpl.
    destruct (decide (u = queue (ring s))) as [->|D].
    + rewrite decide_True by (apply O; auto). destruct (Z.leb_spec (dequeue (ring s)) (queue (ring s))); [done|lia].
    + pose proof (inv_slots _ I u ltac:(lia)) as W; unfold slot_ok in W.
      rewrite (decide_ext _ (owned (threads s) u)) by (rewrite O; tauto).
      case_decide; [done|]. case_match; [|done]. destruct W; split; [done|by apply Keep].
  - intros j x; rewrite (lookup_set _ _ _ _ _ L); case_decide as D.
    + intros [= <-]; simpl. split; [lia|]. rewrite lookup_app_r by (unfold len in Lg; lia).
      by replace (Z.to_nat (queue (ring s)) - length (log s))%nat with 0%nat by (unfold len in Lg; lia).
    + intros Lj. pose proof (inv_threads _ I _ _ Lj) as T.
      assert (∀ t, owner x = Some t -> t <> queue (ring s) - Cap (ring s)) as Q.
      { intros t Et ->; apply N, owned_iff; eauto. }
      destruct x; simpl in *; try specialize (Q _ eq_refl); try done; try lia; try exact T;
        change (Cap (set_queue (queue (ring s) + 1) (ring s))) with (Cap (ring s)); 
        (destruct T as [? T]; split; [lia|]); first [by apply Keep | intros; lia | destruct T; split; [by apply Keep|done]].
  - intros t d X; rewrite O. apply (inv_values _ I) in X as (? & ? & ?). split; [done|]. split; [|by apply Keep].
    intros [|]; [done|lia].
  - intros t Ht; rewrite O. destruct (inv_all _ I t Ht); auto.
Qed.

Lemma inv_claim_get s i timeout : inv s -> threads s !! i = Some (GetCas timeout (dequeue (ring s))) ->
  inv (mkSystem (set_dequeue (dequeue (ring s) + 1) (ring s)) (<[i := GetRead (dequeue (ring s))]> (threads s)) (log s) (delivered s)).
Proof.
  intros I L. destruct (inv_counts _ I). pose proof (Cap_two _ (inv_geometry _ I)).
  destruct (inv_threads _ I _ _ L) as [_ F]. specialize (F eq_refl). destruct (slot_full _ I F) as (N & ? & Ld).
  assert (∀ u, owned (<[i := GetRead (dequeue (ring s))]> (threads s)) u <-> owned (threads s) u \/ u = dequeue (ring s)) as O.
  { intros u; rewrite (owned_set _ _ _ _ _ (inv_unshared _ I) L); simpl; split; [intros [[=]|[]]|intros [|]]; subst; auto. }
  split; simpl; try apply I.
  - change (Cap (set_dequeue (dequeue (ring s) + 1) (ring s))) with (Cap (ring s)); lia.
  - eapply unshared_set; [apply I|done|]. intros t [= <-]; auto.
  - change (Cap (set_dequeue (dequeue (ring s) + 1) (ring s))) with (Cap (ring s)); intros u Hu; unfold slot_ok; simpl.
    destruct (decide (u = dequeue (ring s))) as [->|D].
    + rewrite decide_True by (apply O; auto). destruct (Z.leb_spec (dequeue (ring s) + 1) (dequeue (ring s))); [lia|done].
    + pose proof (inv_slots _ I u ltac:(lia)) as W; unfold slot_ok in W.
      rewrite (decide_ext _ (owned (threads s) u)) by (rewrite O; tauto).
      replace (dequeue (ring s) + 1 <=? u) with (dequeue (ring s) <=? u); [done|].
      destruct (Z.leb_spec (dequeue (ring s)) u), (Z.leb_spec (dequeue (ring s) + 1) u); lia.
  - intros j x; rewrite (lookup_set _ _ _ _ _ L); case_decide as D.
    + intros [= <-]; simpl. split; [|done]. change (Cap (set_dequeue (dequeue (ring s) + 1) (ring s))) with (Cap (ring s)); lia.
    + intros Lj. pose proof (inv_threads _ I _ _ Lj) as T.
      assert (∀ t, owner x = Some t -> t <> dequeue (ring s)) as Q.
      { intros t Et ->; apply N, owned_iff; eauto. }
      destruct x; simpl in *; try specialize (Q _ eq_refl); try done; try lia; try exact T;
        change (Cap (set_dequeue (dequeue (ring s) + 1) (ring s))) with (Cap (ring s));
        (destruct T as [? T]; split; [lia|]); first [exact T | intros; lia].
  - intros t d X; rewrite O. apply (inv_values _ I) in X as (? & ? & ?). split; [lia|]. split; [|done].
    intros [|]; [done|lia].
  - intros t Ht; rewrite O. destruct (decide (t = dequeue (ring s))) as [|D]; [auto|]. destruct (inv_all _ I t ltac:(lia)); auto.
Qed.

(** A thread on its slot: the two stores of a put, the store and the release of a get. *)
Lemma position_set_data rb t d u : geometry rb -> position (node_at (set_data t d rb) u) = position (node_at rb u).
Proof.
  intros G; unfold set_data; rewrite node_at_set by done; case_decide as D; [|done]. simpl. by rewrite (node_at_slot _ _ _ D).
Qed.

Lemma inv_write s i p p' t d : inv s -> threads s !! i = Some p -> owner p = Some t -> owner p' = Some t ->
  thread_ok (mkSystem (set_data t d (ring s)) (<[i := p']> (threads s)) (log s) (delivered s)) p' ->
  inv (mkSystem (set_data t d (ring s)) (<[i := p']> (threads s)) (log s) (delivered s)).
Proof.
  intros I L E E' T; pose proof (inv_geometry _ I) as G. assert (owned (threads s) t) as Ot by (apply owned_iff; eauto).
  eapply inv_memory; [done..|by left|left; auto| | | |done]; fold (set_data t d (ring s)).
  1, 2: intros; by rewrite (position_set_data _ _ _ _ G).
  pose proof (inv_slots _ I t (proj2 (owned_range _ _ I Ot))) as W; unfold slot_ok in *; simpl.
  rewrite decide_True in W by done. rewrite decide_True by (apply (owned_set _ _ _ _ _ (inv_unshared _ I) L); auto).
  by rewrite (position_set_data _ _ _ _ G).
Qed.

Lemma position_set rb t q u : geometry rb ->
  node_at (set_position t q rb) u = if decide (slot rb u = slot rb t) then mkNode q (data (node_at rb t)) else node_at rb u.
Proof. apply node_at_set. Qed.

Lemma inv_release_put s i item t : inv s -> threads s !! i = Some (PutStore item t) ->
  inv (mkSystem (set_position t (t + 1) (ring s)) (<[i := Returned (PutDone true)]> (threads s)) (log s) (delivered s)).
Proof.
  intros I L; pose proof (inv_geometry _ I) as G. destruct (inv_counts _ I). pose proof (Cap_two _ G).
  assert (owned (threads s) t) as Ot by (apply owned_iff; eauto). pose proof (owned_range _ _ I Ot) as R.
  destruct (inv_threads _ I _ _ L) as (Rt & Lt & Dt).
  pose proof (inv_slots _ I t (proj2 R)) as W; unfold slot_ok in W. rewrite decide_True in W by done.
  destruct (Z.leb_spec (dequeue (ring s)) t) as [_|]; [|lia].
  eapply inv_memory; [done|done|done|by right|left; split; [done|right; lia]| | | |done]; fold (set_position t (t + 1) (ring s)).
  - intros F; rewrite position_set by done; case_decide as D; [|done]. rewrite (node_at_slot _ _ _ D) in F; lia.
  - intros F; rewrite position_set by done; case_decide as D; [|done]. rewrite (node_at_slot _ _ _ D) in F.
    apply slot_near in D; [simpl; lia|done|lia|lia].
  - unfold slot_ok; simpl. rewrite decide_False, position_set, decide_True by
      (done || (rewrite (owned_set _ _ _ _ _ (inv_unshared _ I) L); simpl; intros [[=]|[]]; done)).
    destruct (Z.leb_spec (dequeue (ring s)) t); [|lia]. by rewrite Lt, Dt.
Qed.

Lemma inv_release_get s i t d : inv s -> threads s !! i = Some (GetStore t d) ->
  inv (mkSystem (set_position t (t + Cap (ring s)) (ring s)) (<[i := Returned (Got d)]> (threads s)) (log s) (delivered s ++ [(t, d)])).
Proof.
  intros I L; pose proof (inv_geometry _ I) as G. destruct (inv_counts _ I). pose proof (Cap_two _ G).
  assert (owned (threads s) t) as Ot by (apply owned_iff; eauto). pose proof (owned_range _ _ I Ot) as R.
  destruct (inv_threads _ I _ _ L) as (Rt & Lt).
  pose proof (inv_slots _ I t (proj2 R)) as W; unfold slot_ok in W. rewrite decide_True in W by done.
  destruct (Z.leb_spec (dequeue (ring s)) t) as [|_]; [lia|].
  eapply inv_memory; [done|done|done|by right|right; exists d; split; [done|]; split; [done|]; split; [lia|done]| | | |done];
    fold (set_position t (t + Cap (ring s)) (ring s)).
  - intros F; rewrite position_set by done; case_decide as D; [|done].
    rewrite <- slot_round in D by done. apply slot_near in D; [simpl; lia|done|lia|lia].
  - intros F; rewrite position_set by done; case_decide as D; [|done]. rewrite (node_at_slot _ _ _ D) in F; lia.
  - unfold slot_ok; simpl. rewrite decide_False, position_set, decide_True by
      (done || (rewrite (owned_set _ _ _ _ _ (inv_unshared _ I) L); simpl; intros [[=]|[]]; done)).
    destruct (Z.leb_spec (dequeue (ring s)) t); [lia|]. simpl. unfold set_position; by rewrite Cap_set.
Qed.

Lemma u64_next s pos : inv s -> queue (ring s) + Cap (ring s) < 2^64 -> 0 <= pos <= queue (ring s) -> u64 (pos + 1) = pos + 1.
Proof. intros I ??; pose proof (Cap_two _ (inv_geometry _ I)); apply u64_small; unfold is_u64; lia. Qed.

Lemma u64_same x y : is_u64 x -> is_u64 y -> u64 (x - y) = 0 -> x = y.
Proof.
  unfold is_u64, u64; intros ?? E. destruct (Z.le_gt_cases y x); [rewrite Z.mod_small in E; lia|].
  rewrite <- (Z.mod_unique (x - y) (2^64) (-1) (x - y + 2^64)) in E; lia.
Qed.

Lemma inv_thread s i p p' late rb' : inv s -> threads s !! i = Some p -> next late (ring s) p = (rb', p') ->
  queue (ring s) + Cap (ring s) < 2^64 ->
  inv (mkSystem rb' (<[i := p']> (threads s)) (logged p p' (log s)) (returned p (delivered s))).
Proof.
  intros I L E B. pose proof (inv_threads _ I _ _ L) as T. destruct (inv_counts _ I) as [? _].
  pose proof (Cap_two _ (inv_geometry _ I)). pose proof (position_range s) as P.
  assert (∀ p, is_u64 (position (node_at (ring s) p))) as U by (intros x; specialize (P x I); unfold is_u64; lia).
  destruct p as [item offer|item offer pos|item offer pos|item offer pos|item offer|item t|item t
                |timeout|timeout pos|timeout pos|timeout pos|timeout|t|t d|t d|r]; simpl in E, T.
  all: repeat match type of E with context [if ?b then _ else _] => destruct b eqn:? end.
  all: injection E as <- <-; simpl; rewrite ?Z.eqb_eq in *.
  all: try (eapply inv_quiet; [done|exact L|done|]; simpl; try done; try lia; fail).
  - eapply inv_quiet; [done|exact L|done|]; simpl. split; [lia|]. intros <-. apply u64_same; [auto|unfold is_u64; lia|done].
  - subst pos; rewrite (u64_next s) by (done || lia). by eapply inv_claim_put.
  - eapply inv_write; [done|exact L|done|done|]; simpl. destruct T as [? Lt]. split; [done|]. split; [done|].
    unfold set_data; rewrite node_at_set, decide_True; [done|done|apply I].
  - rewrite (u64_next s) by (done || lia). by eapply inv_release_put.
  - eapply inv_quiet; [done|exact L|done|]; simpl. split; [lia|]. intros <-.
    rewrite <- (u64_next s) by (done || lia). apply u64_same; [auto|apply u64_range|done].
  - subst pos; rewrite (u64_next s) by (done || lia). by eapply inv_claim_get.
  - eapply inv_write; [done|exact L|done|done|]; simpl. unfold set_data; rewrite Cap_set; done.
  - replace (u64 (u64 (t + mask (ring s)) + 1)) with (t + Cap (ring s)); [by apply inv_release_get|].
    destruct (inv_geometry _ I) as (k & ? & C & ->). rewrite C in *.
    rewrite (u64_small (t + _)) by (unfold is_u64; lia). rewrite u64_small by (unfold is_u64; lia). lia.
Qed.

Lemma inv_call s call : inv s -> (∃ item offer, call = PutLoad item offer) \/ (∃ timeout, call = GetLoad timeout) ->
  inv (mkSystem (ring s) (threads s ++ [call]) (log s) (delivered s)).
Proof.
  intros I C. assert (owner call = None /\ ∀ s', thread_ok s' call) as [N T] by (destruct C as [(?&?&->)|(?&->)]; done).
  assert (∀ t, owned (threads s ++ [call]) t <-> owned (threads s) t) as O.
  { intros t; unfold owned; rewrite omap_app; simpl; rewrite N, app_nil_r; done. }
  assert (∀ i p, (threads s ++ [call]) !! i = Some p -> threads s !! i = Some p \/ p = call) as Lk.
  { intros i p [?|[_ X%list_lookup_singleton_Some]]%lookup_app_Some; [auto|right; symmetry; apply X]. }
  split; simpl; try apply I.
  - intros i j p p' t Hi Hj E E'. destruct (Lk _ _ Hi), (Lk _ _ Hj); subst; try congruence. by eapply (inv_unshared _ I).
  - intros u Hu. pose proof (inv_slots _ I u Hu) as W; unfold slot_ok in *; simpl. by rewrite (decide_ext _ _ _ _ (O u)).
  - intros i p Hi. destruct (Lk _ _ Hi) as [?| ->]; [by eapply (inv_threads _ I)|done].
  - intros t d X; rewrite O; by apply (inv_values _ I).
  - intros t X; rewrite O; by apply (inv_all _ I).
Qed.

Lemma ring_inv_step s s' : inv s -> step s s' -> inv s'.
Proof.
  intros I St; destruct St; [by apply inv_call|by eapply inv_thread|].
  destruct I; split; done.
Qed.

Lemma inv_start size k : 1 <= k < 64 -> roundUp size = 2^k -> inv (start size).
Proof.
  intros Hk R. assert (0 < 2^k < 2^64) by (split; [lia|apply Z.pow_lt_mono_r; lia]).
  assert (Cap (NewRingBuffer size) = 2^k) as C by
    (unfold Cap, NewRingBuffer, init, len; rewrite R; simpl; rewrite length_fmap, length_seq; lia).
  assert (geometry (NewRingBuffer size)) as G.
  { exists k. rewrite C. split; [lia|]. split; [done|]. unfold NewRingBuffer, init; simpl. rewrite R.
    apply u64_small; unfold is_u64; lia. }
  split; simpl; try done; try (rewrite ?C; lia).
  - intros u Hu. unfold slot_ok. case_decide as D; [by apply not_elem_of_nil in D|]. simpl.
    destruct (Z.leb_spec 0 u); [lia|]. rewrite C in *.
    unfold node_at. rewrite slot_mod, C by done. rewrite nth_lookup.
    rewrite <- (Z.mod_unique u (2^k) (-1) (u + 2^k)) by lia.
    change (nodes (NewRingBuffer size)) with ((λ i, mkNode (Z.of_nat i) nil) <$> seq 0 (Z.to_nat (roundUp size))).
    rewrite list_lookup_fmap, R, lookup_seq_lt by lia. simpl; lia.
  - apply NoDup_nil_2.
  - intros ? ? X; by apply not_elem_of_nil in X.
Qed.

Lemma Cap_step s s' : step s s' -> Cap (ring s') = Cap (ring s).
Proof.
  intros [|i p p' late rb' _ E _|]; simpl; [done| |done].
  destruct p; simpl in E; repeat case_match; simplify_eq; try done; apply Cap_set.
Qed.

Lemma ring_reached_inv size k s : 1 <= k < 64 -> roundUp size = 2^k -> reached size s -> inv s /\ Cap (ring s) = 2^k.
Proof.
  intros Hk R St. pose proof (inv_start _ _ Hk R) as I.
  assert (Cap (ring (start size)) = 2^k) as C by
    (unfold Cap, start, NewRingBuffer, init, len; simpl; rewrite R, length_fmap, length_seq; lia).
  revert I C; induction St as [|x y z S1 _ IH]; [done|]. intros I C.
  apply IH; [by eapply ring_inv_step|by rewrite (Cap_step _ _ S1)].
Qed.

(** C30: a ring of any size from two on is a queue: whatever its threads do and however their steps
    interleave, every value that a [Get] or [Poll] returns is the value put under its number, no
    number is served twice, the numbers taken are all served or held by a thread that is still
    inside [Poll], and the ring holds at most its capacity, the size rounded up to a power of two. *)
Theorem ring_fifo size s : 2 <= size <= 2^63 -> reached size s ->
  (size <= Cap (ring s) < 2 * size /\ len (log s) = queue (ring s) /\
   0 <= dequeue (ring s) <= queue (ring s) /\ queue (ring s) <= dequeue (ring s) + Cap (ring s)) /\
  NoDup (delivered s).*1 /\
  (∀ t d, (t, d) ∈ delivered s -> 0 <= t < dequeue (ring s) /\ log s !! Z.to_nat t = Some d) /\
  (∀ t, 0 <= t < dequeue (ring s) -> t ∈ (delivered s).*1 \/ ∃ i p, threads s !! i = Some p /\ owner p = Some t).
Proof.
  intros Hs St. destruct (roundUp_power size) as (k & Hk & R & B); [lia|].
  assert (1 <= k < 64) by (split; [|lia]; destruct (Z.eq_dec k 0); subst; simpl in *; lia).
  destruct (ring_reached_inv _ _ _ ltac:(done) R St) as [I C]. pose proof (inv_counts _ I). pose proof (inv_log _ I).
  split; [lia|]. split; [apply I|]. split.
  - intros t d X. apply (inv_values _ I) in X as (? & _ & ?); done.
  - intros t Ht. destruct (inv_all _ I t Ht) as [O|]; [right; by apply owned_iff|auto].
Qed.
End Ring.

(** ** Runs *)
Module RingSamples.
(** Schedules: a call on a thread of its own, or a step of a thread. *)
Definition exec (x : @pc Z + nat) (s : @system Z) : @system Z :=
  match x with
  | inl call => mkSystem (ring s) (threads s ++ [call]) (log s) (delivered s)
  | inr i =>
      match threads s !! i with
      | Some p => let '(rb', p') := next 0 false (ring s) p in
          mkSystem rb' (<[i := p']> (threads s)) (logged p p' (log s)) (returned p (delivered s))
      | None => s
      end
  end.
Definition run (size : Z) (l : list (@pc Z + nat)) : @system Z := foldl (λ s x, exec x s) (start 0 size) l.
Definition turns (l : list nat) : list (@pc Z + nat) := inr <$> l.

(** A ring of two slots.  A put is overtaken by another after its compare and swap, a get takes
    the number of the first and waits for its value. *)
Definition overtaken : list (@pc Z + nat) :=
  [inl (Put 7); inl (Put 8); inl Get] ++ turns [0; 0; 0; 0; 1; 1; 1; 1; 1; 1; 1; 2; 2; 2; 2; 0; 0; 2; 2; 2; 2; 2; 2]%nat.
Definition sample : @system Z := run 2 overtaken.

Example overtaken_order : (log sample, delivered sample, threads sample !! 1%nat) = ([7; 8], [(0, 7)], Some (Returned (PutDone true))).
Proof. vm_compute. reflexivity. Qed.

Definition allowed (x : @pc Z + nat) (s : @system Z) : bool :=
  match x with
  | inl (PutLoad _ _ | GetLoad _) => true
  | inl _ => false
  | inr i => bool_decide (is_Some (threads s !! i)) && (queue (ring s) + Cap (ring s) <? 2^64)
  end.
Fixpoint all_allowed (l : list (@pc Z + nat)) (s : @system Z) : bool :=
  match l with [] => true | x :: l => allowed x s && all_allowed l (exec x s) end.

Lemma allowed_step (x : @pc Z + nat) s : allowed x s = true -> @step Z 0 s (exec x s).
Proof.
  destruct x as [call|i]; simpl.
  - intros H; apply step_call. destruct call; eauto; done.
  - intros [[p L]%bool_decide_eq_true B%Z.ltb_lt]%andb_true_iff. rewrite L.
    destruct (next 0 false (ring s) p) as [rb' p'] eqn:E. by eapply step_thread.
Qed.
Lemma allowed_steps l : ∀ s, all_allowed l s = true -> rtc (step 0) s (foldl (λ s x, exec x s) s l).
Proof.
  induction l as [|x l IH]; simpl; intros s H; [constructor|]. apply andb_true_iff in H as [H1 H2].
  eapply rtc_l; [by apply allowed_step|by apply IH].
Qed.

Lemma overtaken_reached : reached 0 2 sample.
Proof. apply (allowed_steps overtaken). vm_compute. reflexivity. Qed.

Lemma ring_fifo_witness : NoDup (delivered sample).*1 /\ ∃ d, (0, d) ∈ delivered sample /\ log sample !! 0%nat = Some d.
Proof.
  destruct (ring_fifo 0 2 sample) as (_ & N & V & _); [lia|apply overtaken_reached|].
  split; [exact N|]. exists 7.
  assert (delivered sample = [(0, 7)]) as E by (vm_compute; reflexivity).
  assert ((0, 7) ∈ delivered sample) as X by (rewrite E; left). split; [exact X|].
  exact (proj2 (V _ _ X)).
Defined.

(** One slot is not enough: the position a put leaves is the one the next put waits for, so that
    it overwrites a value nobody took. *)
Example one_slot_loses :
  let s := run 1 ([inl (Put 7); inl (Put 8)] ++ turns [0; 0; 0; 0; 0; 0; 1; 1; 1; 1; 1; 1]%nat) in
  (threads s, log s, data <$> nodes (ring s)) = ([Returned (PutDone true); Returned (PutDone true)], [7; 8], [8]).
Proof. vm_compute. reflexivity. Qed.

(** [Offer] gives up on a compare and swap that another put won, although there is room. *)
Example offer_beaten :
  let s := run 4 ([inl (Offer 7); inl (Put 8)] ++ turns [0; 0; 0; 1; 1; 1; 1; 0]%nat) in
  threads s !! 0%nat = Some (Returned (PutDone false)).
Proof. vm_compute. reflexivity. Qed.
End RingSamples.
