(* ===== verification/Queue.v ===== *)
(** Model of the blocking queue [src/src/utils/task/queue.go].  The queue is guarded by a mutex,
    but a put that finds a waiting poll keeps the mutex and lets the poll take its items itself,
    outside of the mutex, until it says that it is done; and a poll can give up at any moment.
    Threads interleave between their accesses to shared memory; what a thread does under the
    mutex without waiting is one step. *)
From S2P Require Import Prelude.

Section BlockingQueue.
Context {A : Type}.

(** A semaphore: its channel, which holds one signal, and its wait group. *)
Record sema := mkSema { ready : bool; response : Z }.
Definition newSema : sema := mkSema false 0.

(** [lock]: the thread that has the mutex, and the semaphore it waits for, if it does.
    Semaphores are numbered in the order they are made. *)
Record Queue := mkQueue {
  waiters : list nat; items : list A; lock : option (nat * option nat); disposed : bool; semas : list sema }.
Implicit Types q : Queue.

Definition New : Queue := mkQueue [] [] None false [].

(** [cmp] of [PutOrUpdate] finds the item to replace. *)
Inductive change := Append (l : list A) | Update (cmp : A -> bool) (item : A).
Fixpoint position (cmp : A -> bool) (l : list A) : option nat :=
  match l with [] => None | a :: l => if cmp a then Some 0%nat else S <$> position cmp l end.
Definition apply_change (c : change) (l : list A) : list A :=
  match c with
  | Append xs => l ++ xs
  | Update cmp item => match position cmp l with Some i => <[i := item]> l | None => l ++ [item] end
  end.

Inductive result := Panicked | Done | Got (l : list A) | Dropped (l : list A) | Seen (l : list A) (d : bool) | ErrDisposed | ErrTimeout.

(** Where a thread is. *)
Inductive pc :=
| PutLock (c : change)
| PutNext
| PutWait (s : nat)
| PollLock (number : Z) (timed : bool)
| PollWait (number : Z) (timed : bool) (s : nat)
| PollTimeout (s : nat)
| PollRemove (s : nat)
| PollCancel (s : nat)
| PollWoken (number : Z) (s : nat)
| PollTake (number : Z) (s : nat)
| PollStore (number : Z) (s : nat) (seen : list A)
| PollRelease (s : nat) (got : list A)
| DisposeLock
| LookLock
| Returned (r : result).

Definition sem q (s : nat) : sema := nth s (semas q) newSema.
Definition set_items l q := mkQueue (waiters q) l (lock q) (disposed q) (semas q).
Definition set_lock k q := mkQueue (waiters q) (items q) k (disposed q) (semas q).
Definition set_waiters w q := mkQueue w (items q) (lock q) (disposed q) (semas q).
Definition set_sem s x q := mkQueue (waiters q) (items q) (lock q) (disposed q) (<[s := x]> (semas q)).

(** [response.Done()]; a counter that becomes negative panics. *)
Definition answer s q := set_sem s (mkSema (ready (sem q s)) (response (sem q s) - 1)) q.
(** [response.Add(1)] and the attempt to send: a full channel is left as it is. *)
Definition signal s q := set_sem s (mkSema true (response (sem q s) + 1)) q.

(** Every waiter is signalled, and the queue is empty for ever. *)
Definition release_all q : Queue := mkQueue [] [] None true (semas (foldr signal q (waiters q))).

(** [items.get(number, ...)]: what is returned, and what is left. *)
Definition taken_part (number : Z) (l : list A) : list A := take (Z.to_nat number) l.
Definition left_part (number : Z) (l : list A) : list A := drop (Z.to_nat number) l.

(** What a step does to the items. *)
Inductive effect := NoEffect | Puts (c : change) | Takes (l : list A) | Drops (l : list A).

(** A step of thread [i]; [None] is a thread that waits.  [late]: its timeout is over, and the
    select takes that branch. *)
Definition next (i : nat) (late : bool) q (p : pc) : option (Queue * pc * effect) :=
  match p with
  | PutLock c =>
      match lock q with
      | Some _ => None
      | None => Some (if disposed q then (q, Returned ErrDisposed, NoEffect)
                      else (set_lock (Some (i, None)) (set_items (apply_change c (items q)) q), PutNext, Puts c))
      end
  | PutNext =>
      match waiters q with
      | [] => Some (set_lock None q, Returned Done, NoEffect)
      | s :: w =>
          let q1 := signal s (set_waiters w q) in
          if ready (sem q s) then
            Some (if bool_decide (items q = []) then (set_lock None q1, Returned Done, NoEffect) else (q1, PutNext, NoEffect))
          else Some (set_lock (Some (i, Some s)) q1, PutWait s, NoEffect)
      end
  | PutWait s =>
      if response (sem q s) =? 0 then
        Some (if bool_decide (items q = []) then (set_lock None q, Returned Done, NoEffect)
              else (set_lock (Some (i, None)) q, PutNext, NoEffect))
      else None
  | PollLock number timed =>
      if number <? 1 then Some (q, Returned (Got []), NoEffect)
      else
        match lock q with
        | Some _ => None
        | None =>
            Some (if disposed q then (q, Returned ErrDisposed, NoEffect)
                  else if bool_decide (items q = []) then
                    let s := length (semas q) in
                    (mkQueue (waiters q ++ [s]) [] None false (semas q ++ [newSema]), PollWait number timed s, NoEffect)
                  else (set_items (left_part number (items q)) q, Returned (Got (taken_part number (items q))),
                        Takes (taken_part number (items q))))
        end
  | PollWait number timed s =>
      if timed && late then Some (q, PollTimeout s, NoEffect)
      else if ready (sem q s) then Some (set_sem s (mkSema false (response (sem q s))) q, PollWoken number s, NoEffect)
      else None
  | PollTimeout s =>
      Some (if ready (sem q s) then (q, PollCancel s, NoEffect)
            else (set_sem s (mkSema true (response (sem q s))) q, PollRemove s, NoEffect))
  | PollRemove s =>
      match lock q with
      | Some _ => None
      | None => Some (set_waiters (filter (λ w, w <> s) (waiters q)) q, Returned ErrTimeout, NoEffect)
      end
  | PollCancel s => Some (answer s q, if response (sem q s) =? 0 then Returned Panicked else Returned ErrTimeout, NoEffect)
  | PollWoken number s => Some (q, if disposed q then Returned ErrDisposed else PollTake number s, NoEffect)
  | PollTake number s => Some (q, PollStore number s (items q), NoEffect)
  | PollStore number s seen =>
      Some (set_items (left_part number seen) q, PollRelease s (taken_part number seen), Takes (taken_part number seen))
  | PollRelease s got => Some (answer s q, if response (sem q s) =? 0 then Returned Panicked else Returned (Got got), NoEffect)
  | DisposeLock =>
      match lock q with
      | Some _ => None
      | None => Some (release_all q, Returned (Dropped (items q)), Drops (items q))
      end
  | LookLock => match lock q with Some _ => None | None => Some (q, Returned (Seen (items q) (disposed q)), NoEffect) end
  | Returned r => None
  end.

(** The calls; [Peek], [Empty], [Len] and [Disposed] only look. *)
Definition Put (l : list A) : pc := match l with [] => Returned Done | _ => PutLock (Append l) end.
Definition PutOrUpdate (cmp : A -> A -> bool) (item : A) : pc := PutLock (Update (λ old, cmp old item) item).
Definition Poll (number : Z) (timed : bool) : pc := PollLock number timed.
Definition Get (number : Z) : pc := Poll number false.
Definition Dispose : pc := DisposeLock.
Definition Look : pc := LookLock.

Definition Peek (l : list A) (d : bool) : result + option A := if d then inl ErrDisposed else inr (head l).
Definition Empty (l : list A) : bool := bool_decide (l = []).
Definition Len (l : list A) : Z := len l.

(** ** Threads

    [added]: the items put, in order, a replaced one in the place of the old; [taken]: those
    handed out; [dropped]: those a dispose returned. *)
Record system := mkSystem { queue : Queue; threads : list pc; added : list A; taken : list A; dropped : list A }.
Implicit Types z : system.

Definition add_to (c : change) (l : list A) (before : nat) (log : list A) : list A :=
  match c with
  | Append xs => log ++ xs
  | Update cmp item => match position cmp l with Some i => <[(before + i)%nat := item]> log | None => log ++ [item] end
  end.

Definition record_ (e : effect) z (q : Queue) (ts : list pc) : system :=
  match e with
  | NoEffect => mkSystem q ts (added z) (taken z) (dropped z)
  | Puts c => mkSystem q ts (add_to c (items (queue z)) (length (taken z)) (added z)) (taken z) (dropped z)
  | Takes l => mkSystem q ts (added z) (taken z ++ l) (dropped z)
  | Drops l => mkSystem q ts (added z) (taken z) (dropped z ++ l)
  end.

(** A call of [Put], [PutOrUpdate], [Poll], [Get], [Dispose] or one of those that look. *)
Definition entry (p : pc) : Prop :=
  match p with PutLock _ | PollLock _ _ | DisposeLock | LookLock | Returned Done => True | _ => False end.

Inductive step z : system -> Prop :=
| step_call p : entry p ->
    step z (mkSystem (queue z) (threads z ++ [p]) (added z) (taken z) (dropped z))
| step_thread i p late q' p' e : threads z !! i = Some p -> next i late (queue z) p = Some (q', p', e) ->
    step z (record_ e z q' (<[i := p']> (threads z))).

Definition start : system := mkSystem New [] [] [] [].
Definition reached z : Prop := rtc step start z.

(** ** The invariant *)

#[local] Arguments sem : simpl never.

Lemma sem_insert w l k d ss s x t : (s < length ss)%nat ->
  sem (mkQueue w l k d (<[s := x]> ss)) t = if decide (s = t) then x else nth t ss newSema.
Proof.
  intros ?. unfold sem; cbn. rewrite !nth_lookup. case_decide; subst.
  - by rewrite list_lookup_insert_eq.
  - by rewrite list_lookup_insert_ne.
Qed.

Lemma sem_set q s x t : (s < length (semas q))%nat -> sem (set_sem s x q) t = if decide (s = t) then x else sem q t.
Proof. apply sem_insert. Qed.

(** The semaphore of a poll that has not found items. *)
Definition awaits (p : pc) : option nat :=
  match p with
  | PollWait _ _ s | PollTimeout s | PollRemove s | PollCancel s | PollWoken _ s | PollTake _ s
  | PollStore _ s _ | PollRelease s _ => Some s
  | _ => None
  end.

(** A put has signalled [s] and waits for it. *)
Definition called q (s : nat) : Prop := ∃ i, lock q = Some (i, Some s).
Definition active q (s : nat) : Prop := disposed q = true \/ called q s.

(** What a thread knows of the queue where it is. *)
Definition local q (i : nat) (p : pc) : Prop :=
  (∀ s, awaits p = Some s -> (s < length (semas q))%nat) /\
  match p with
  | PutNext => lock q = Some (i, None)
  | PutWait s => lock q = Some (i, Some s)
  | PollWait _ _ s | PollTimeout s =>
      if ready (sem q s) then response (sem q s) = 1 /\ active q s else response (sem q s) = 0 /\ s ∈ waiters q
  | PollRemove s => ready (sem q s) = true /\ ~ called q s
  | PollCancel s | PollWoken _ s => response (sem q s) = 1 /\ active q s
  | PollTake _ s | PollRelease s _ => response (sem q s) = 1 /\ called q s
  | PollStore _ s seen => response (sem q s) = 1 /\ called q s /\ items q = seen
  | Returned r => r <> Panicked
  | _ => True
  end.

Record shaped q : Prop := {
  waiters_once : NoDup (waiters q);
  waiters_made : ∀ s, s ∈ waiters q -> (s < length (semas q))%nat;
  disposed_shape : disposed q = true -> waiters q = [] /\ items q = [] /\ lock q = None;
  not_lost : lock q = None -> items q = [] \/ ∀ s, s ∈ waiters q -> ready (sem q s) = true;
  waiting_response : ∀ s, s ∈ waiters q -> ready (sem q s) = false -> response (sem q s) = 0;
  called_made : ∀ s, called q s -> (s < length (semas q))%nat /\ s ∉ waiters q;
  called_response : ∀ s, called q s -> response (sem q s) = 0 \/ response (sem q s) = 1 }.

(** A poll has to answer for [s]. *)
Definition pending q s : Prop := s ∈ waiters q \/ called q s /\ response (sem q s) = 1.
Definition polls (ts : list pc) s : Prop := ∃ j p, ts !! j = Some p /\ awaits p = Some s.
Definition holder (w : option nat) : pc := match w with None => PutNext | Some s => PutWait s end.

Record manned q (ts : list pc) : Prop := {
  manned_local : ∀ i p, ts !! i = Some p -> local q i p;
  manned_lock : ∀ i w, lock q = Some (i, w) -> ts !! i = Some (holder w);
  manned_polls : ∀ s, pending q s -> polls ts s;
  manned_once : ∀ i j p p' s, ts !! i = Some p -> ts !! j = Some p' -> awaits p = Some s -> awaits p' = Some s -> i = j }.

Lemma ready_signal s t q : (s < length (semas q))%nat ->
  sem (signal s q) t = if decide (s = t) then mkSema true (response (sem q s) + 1) else sem q t.
Proof. apply sem_set. Qed.

Lemma length_signal s q : length (semas (signal s q)) = length (semas q).
Proof. apply length_insert. Qed.

(** [Dispose] signals each waiter once. *)
Lemma sem_signals ws q t : NoDup ws -> (∀ s, s ∈ ws -> (s < length (semas q))%nat) ->
  length (semas (foldr signal q ws)) = length (semas q) /\
  sem (foldr signal q ws) t = if decide (t ∈ ws) then mkSema true (response (sem q t) + 1) else sem q t.
Proof.
  induction 1 as [|s ws Hs _ IH]; intros Hm; cbn [foldr].
  { rewrite decide_False by apply not_elem_of_nil. done. }
  destruct IH as [Hl He]; [set_solver|].
  assert ((s < length (semas q))%nat) by set_solver.
  rewrite length_signal, Hl, ready_signal by (rewrite Hl; done). split; [done|].
  destruct (decide (s = t)) as [->|].
  - rewrite (decide_True (P := t ∈ t :: ws)) by set_solver.
    assert (sem (foldr signal q ws) t = sem q t) as ->; [|done].
    rewrite He, decide_False by done. done.
  - rewrite He. destruct (decide (t ∈ ws)); [rewrite decide_True by set_solver|rewrite decide_False by set_solver]; done.
Qed.

(** ** The queue keeps its shape *)

Lemma shaped_set_lock k q : shaped q ->
  (disposed q = true -> k = None) -> (k = None -> items q = [] \/ ∀ s, s ∈ waiters q -> ready (sem q s) = true) ->
  (∀ i s, k = Some (i, Some s) ->
     (s < length (semas q))%nat /\ s ∉ waiters q /\ (response (sem q s) = 0 \/ response (sem q s) = 1)) ->
  shaped (set_lock k q).
Proof.
  intros [W1 W2 D N P C R] Hd Hn Hc. split; cbn; try done.
  - intros ?. destruct D as (?&?&?); auto.
  - intros s [i Hi]. by destruct (Hc i s Hi) as (?&?&?).
  - intros s [i Hi]. by destruct (Hc i s Hi) as (?&?&?).
Qed.

Lemma shaped_set_items l q : shaped q ->
  (disposed q = true -> l = []) -> (lock q = None -> l = [] \/ ∀ s, s ∈ waiters q -> ready (sem q s) = true) ->
  shaped (set_items l q).
Proof. intros [W1 W2 D N P C R] Hd Hn. split; cbn; try done. intros ?. destruct D as (?&?&?); auto. Qed.

Lemma shaped_set_sem s x q : shaped q -> (s < length (semas q))%nat ->
  (ready x = true \/ s ∉ waiters q) -> (called q s -> response x = 0 \/ response x = 1) -> shaped (set_sem s x q).
Proof.
  intros [W1 W2 D N P C R] Hs Hr Hc. split; cbn; rewrite ?length_insert; try done.
  - intros Hk. destruct (N Hk) as [?|Hw]; [by left|right]. intros t Ht.
    rewrite sem_set by done. case_decide; subst; [by destruct Hr|auto].
  - intros t Ht. rewrite sem_set by done. case_decide; subst; [|auto]. intros Hx. destruct Hr; [congruence|done].
  - intros t Ht. rewrite sem_set by done. case_decide; subst; [by apply Hc|by apply R].
Qed.

Lemma shaped_signal i s w q : shaped q -> lock q = Some (i, None) -> waiters q = s :: w -> shaped (signal s (set_waiters w q)).
Proof.
  intros [W1 W2 D N P C R] Hl Hw. rewrite Hw in *. apply NoDup_cons in W1 as [Hs W1].
  split; cbn; rewrite ?length_insert; try done.
  - intros t Ht. apply W2. by right.
  - intros Hd. destruct (D Hd) as [? _]. done.
  - congruence.
  - intros t Ht. rewrite ready_signal by (apply W2; left). case_decide; [done|]. apply P. by right.
  - intros t [j Hj]. cbn in Hj. congruence.
  - intros t [j Hj]. cbn in Hj. congruence.
Qed.
#[local] Hint Resolve shaped_set_lock shaped_set_items shaped_set_sem shaped_signal : core.

Lemma shaped_dispose q : shaped (release_all q).
Proof. split; cbn; try done; [by constructor|set_solver|by left|set_solver|by intros s [? ?]|by intros s [? ?]]. Qed.

Lemma shaped_wait q : shaped q -> items q = [] -> lock q = None ->
  shaped (mkQueue (waiters q ++ [length (semas q)]) [] None false (semas q ++ [newSema])).
Proof.
  intros [W1 W2 D N P C R] Hi Hl. split; cbn; try done.
  - apply NoDup_app. split; [done|]. split; [|apply NoDup_singleton].
    intros s Hs ->%list_elem_of_singleton. apply W2 in Hs. lia.
  - intros s [Hs| ->%list_elem_of_singleton]%elem_of_app; rewrite length_app; cbn; [apply W2 in Hs|]; lia.
  - by left.
  - intros s Hs. unfold sem; cbn. rewrite nth_lookup. apply elem_of_app in Hs as [Hs| ->%list_elem_of_singleton].
    + rewrite lookup_app_l by auto. rewrite <- nth_lookup. by apply P.
    + by rewrite list_lookup_middle by done.
  - by intros s [? ?].
  - by intros s [? ?].
Qed.

Lemma shaped_remove s q : shaped q -> lock q = None -> shaped (set_waiters (filter (λ w, w <> s) (waiters q)) q).
Proof.
  intros [W1 W2 D N P C R] Hl. split; cbn; try done.
  - by apply NoDup_filter.
  - intros t [_ Ht]%list_elem_of_filter. auto.
  - intros Hd. destruct (D Hd) as (-> & ? & ?). done.
  - intros _. destruct (N Hl) as [?|Hr]; [by left|right]. intros t [_ Ht]%list_elem_of_filter. by apply Hr.
  - intros t [_ Ht]%list_elem_of_filter. by apply P.
  - intros t [j Hj]. cbn in Hj. congruence.
Qed.

(** Cases of a step: what the thread found. *)
Ltac step_cases H :=
  cbn in H; repeat case_match; simplify_eq;
  repeat match goal with
  | Hb : bool_decide _ = true |- _ => apply bool_decide_eq_true in Hb
  | Hb : bool_decide _ = false |- _ => apply bool_decide_eq_false in Hb
  | Hb : (_ =? _) = true |- _ => apply Z.eqb_eq in Hb
  | Hb : (_ =? _) = false |- _ => apply Z.eqb_neq in Hb
  end.

Lemma locked_open q i w : shaped q -> lock q = Some (i, w) -> disposed q = false.
Proof. intros S Hl. destruct (disposed q) eqn:Hd; [|done]. apply (disposed_shape _ S) in Hd as (_&_&?). congruence. Qed.

Lemma active_gone q s : shaped q -> active q s -> s ∉ waiters q.
Proof.
  intros S [Hd|Hc]; [|by apply (called_made _ S)].
  destruct (disposed_shape _ S Hd) as (-> & _). apply not_elem_of_nil.
Qed.

Lemma shaped_answer q s : shaped q -> (s < length (semas q))%nat -> active q s -> response (sem q s) = 1 -> shaped (answer s q).
Proof.
  intros S Hs Ha Hr. apply shaped_set_sem; cbn; [done..| |].
  - right. by apply active_gone.
  - rewrite Hr. by left.
Qed.
#[local] Hint Resolve shaped_answer active_gone : core.

Lemma next_shaped i late q p q' p' e : shaped q -> local q i p -> next i late q p = Some (q', p', e) -> shaped q'.
Proof.
  intros S [L1 L2] H.
  destruct p; step_cases H; try done; cbn in L2.
  all: repeat match goal with Hr : ready ?x = _, L : context [ready ?x] |- _ => rewrite Hr in L end.
  - change (shaped (set_items (apply_change c (items q)) (set_lock (Some (i, None)) q))).
    apply shaped_set_items; cbn; [apply shaped_set_lock|..]; congruence || done.
  - apply shaped_set_lock; try done. rewrite H0. set_solver.
  - apply shaped_set_lock; cbn; eauto; done.
  - eauto.
  - assert (Hn : n ∈ waiters q) by (rewrite H0; left).
    apply shaped_set_lock; cbn; [eauto|by erewrite locked_open|done|]. intros ? ? [= <- <-].
    rewrite length_insert, ready_signal by (by apply (waiters_made _ S)). rewrite decide_True by done. cbn.
    pose proof (waiters_once _ S) as W. rewrite H0 in W. apply NoDup_cons in W as [? _].
    change (sem (set_waiters l q) n) with (sem q n). rewrite (waiting_response _ S) by done. split; [by apply (waiters_made _ S)|]. auto.
  - apply shaped_set_lock; auto; done.
  - apply shaped_set_lock; try done. erewrite locked_open; done.
  - by apply shaped_wait.
  - apply shaped_set_items; [done|congruence|]. right. by destruct (not_lost _ S).
  - destruct L2. apply shaped_set_sem; cbn; auto.
  - apply shaped_set_sem; cbn; auto. intros Hc. by apply (called_response _ S).
  - by apply shaped_remove.
  - destruct L2; auto.
  - destruct L2; auto.
  - destruct L2 as (?&Hc&?). apply shaped_set_items; [done| |]; destruct Hc; [|congruence].
    erewrite locked_open; done.
  - destruct L2; apply shaped_answer; auto. by right.
  - destruct L2; apply shaped_answer; auto. by right.
  - apply shaped_dispose.
Qed.
(** ** What the threads know stays true *)

Lemma next_local i late q p q' p' e : shaped q -> local q i p -> next i late q p = Some (q', p', e) -> local q' i p'.
Proof.
  intros S [L1 L2] H.
  destruct p; step_cases H; cbn in L2;
    repeat match goal with Hr : ready ?x = _, L : context [ready ?x] |- _ => rewrite Hr in L end;
    try (exfalso; naive_solver lia); unfold local; cbn; try (split; [discriminate|try done]);
    rewrite ?length_insert; try (split; [exact L1|]).
  - split; [intros ? [= <-]; rewrite length_app; cbn; lia|].
    unfold sem; cbn. rewrite nth_lookup, list_lookup_middle by done. cbn. split; [done|set_solver].
  - by rewrite H1.
  - by rewrite H1.
  - rewrite sem_set, decide_True by auto. cbn. tauto.
  - done.
  - rewrite sem_set, decide_True by auto. cbn. split; [done|]. intros Hc.
    destruct L2. by apply (called_made _ S) in Hc as [_ ?].
  - destruct L2 as [? [?|?]]; [congruence|done].
  - tauto.
  - tauto.
Qed.

Lemma local_frame q q' j p : local q j p -> (length (semas q) <= length (semas q'))%nat ->
  (∀ w, lock q = Some (j, w) -> lock q' = lock q) -> (disposed q = true -> disposed q' = true) ->
  (∀ s, awaits p = Some s ->
     sem q' s = sem q s /\ (s ∈ waiters q -> s ∈ waiters q') /\ (called q s <-> called q' s) /\
     (called q s -> items q' = items q)) ->
  local q' j p.
Proof.
  intros [L1 L2] Hl Hk Hd Hs. split; [intros s Ht; specialize (L1 s Ht); lia|].
  assert (Ha : ∀ s, awaits p = Some s -> active q s -> active q' s).
  { intros s Hw [?|Hc]; [left; auto|right]. destruct (Hs s Hw) as (_&_&[Hc' _]&_). auto. }
  destruct p; cbn in *; try done;
    try match type of Hs with context [Some ?s = Some _] => destruct (Hs s eq_refl) as (-> & Hi & Hc & Hq); specialize (Ha s eq_refl) end.
  - by rewrite (Hk _ L2).
  - by rewrite (Hk _ L2).
  - destruct (ready _), L2; auto.
  - destruct (ready _), L2; auto.
  - destruct L2. tauto.
  - destruct L2. auto.
  - destruct L2. auto.
  - destruct L2. tauto.
  - destruct L2 as (?&?&<-). tauto.
  - destruct L2. tauto.
Qed.
Lemma not_active q i s : shaped q -> lock q = Some (i, None) -> ~ active q s.
Proof. intros S Hl [Hd|[j Hj]]; [erewrite locked_open in Hd by done|]; congruence. Qed.

Lemma idle_not_active q s : shaped q -> lock q = None -> disposed q = false -> ~ active q s.
Proof. intros S Hl Hd [?|[j Hj]]; congruence. Qed.

(** The signal of a put. *)
Lemma sem_signal_lock k s w q t : (s < length (semas q))%nat ->
  sem (set_lock k (signal s (set_waiters w q))) t = if decide (s = t) then mkSema true (response (sem q s) + 1) else sem q t.
Proof. apply (ready_signal s t (set_waiters w q)). Qed.

(** The signal of a put: a poll that waits is called, one that gave up is passed over. *)
Lemma signal_frame i j k s w q p : shaped q -> local q j p -> i <> j -> lock q = Some (i, None) -> waiters q = s :: w ->
  (if ready (sem q s) then k = None \/ k = Some (i, None) else k = Some (i, Some s)) ->
  local (set_lock k (signal s (set_waiters w q))) j p.
Proof.
  intros S HL Hij Hl Hw Hk.
  assert (Hs : (s < length (semas q))%nat) by (apply (waiters_made _ S); rewrite Hw; left).
  assert (Hna : ∀ t, ~ active q t) by (intros; by eapply not_active).
  destruct (decide (awaits p = Some s)) as [Ha|Ha].
  - destruct HL as [L1 L2]. split; [intros t Ht; cbn; rewrite length_insert; by apply L1|].
    assert (E : sem (set_lock k (signal s (set_waiters w q))) s = mkSema true (response (sem q s) + 1)).
    { rewrite sem_signal_lock by done. by rewrite decide_True. }
    specialize (Hna s). assert (~ called q s) by (unfold active in Hna; tauto).
    destruct p; simplify_eq/=; rewrite ?E; cbn; try tauto;
      destruct (ready (sem q s)); try tauto; try subst k.
    + split; [lia|]. right. by exists i.
    + split; [lia|]. right. by exists i.
    + split; [done|]. intros [v Hv]. cbn in Hv. destruct Hk; congruence.
    + by destruct L2.
  - apply (local_frame q); cbn; rewrite ?length_insert; try done.
    + intros v Hv. congruence.
    + intros t Ht. assert (s <> t) by congruence. repeat split.
      * rewrite sem_signal_lock by done. by rewrite decide_False.
      * rewrite Hw. set_solver.
      * intros Hc. destruct (Hna t). by right.
      * intros [v Hv]. cbn in Hv. destruct (ready _); [destruct Hk|]; congruence.
Qed.

(** Nobody is called before or after. *)
Lemma quiet_frame j k l q p : local q j p -> (∀ s, ~ called q s) -> (∀ w, lock q <> Some (j, w)) ->
  (∀ i s, k <> Some (i, Some s)) -> local (set_lock k (set_items l q)) j p.
Proof.
  intros L Hc Hl Hk. apply (local_frame q); cbn; try done.
  - intros w Hw. by destruct (Hl w).
  - intros s _. repeat split; try done; [by intros ?%Hc|intros [v Hv]; by destruct (Hk v s)|by intros ?%Hc].
Qed.

Lemma set_sem_frame j s x q p : local q j p -> (s < length (semas q))%nat -> awaits p <> Some s -> local (set_sem s x q) j p.
Proof.
  intros L Hs Ha. apply (local_frame q); cbn; rewrite ?length_insert; try done.
  intros t Ht. rewrite sem_set, decide_False by congruence. done.
Qed.

(** The poll has answered: nobody looks at the semaphore any more. *)
Lemma answered_frame i j k s q p : shaped q -> local q j p -> i <> j -> lock q = Some (i, Some s) -> response (sem q s) = 0 ->
  k = None \/ k = Some (i, None) -> local (set_lock k q) j p.
Proof.
  intros S L Hij Hl Hr Hk.
  assert (Hc : called q s) by by exists i. destruct (called_made _ S _ Hc) as [_ Hw].
  apply (local_frame q); cbn; try done.
  - intros w ?. congruence.
  - intros t Ht. assert (Hst : s <> t).
    { intros ->. destruct L as [_ L]. destruct p; simplify_eq/=; try destruct (ready _); destruct L; try done; congruence || lia. }
    repeat split; try done.
    + intros [v Hv]. congruence.
    + intros [v Hv]. cbn in Hv. destruct Hk; congruence.
Qed.

Lemma sem_release q t : shaped q ->
  sem (release_all q) t = if decide (t ∈ waiters q) then mkSema true (response (sem q t) + 1) else sem q t.
Proof. intros S. apply (sem_signals (waiters q) q t (waiters_once _ S) (waiters_made _ S)). Qed.

Lemma length_release q : shaped q -> length (semas (release_all q)) = length (semas q).
Proof. intros S. apply (sem_signals (waiters q) q 0 (waiters_once _ S) (waiters_made _ S)). Qed.

Lemma dispose_frame j q p : shaped q -> local q j p -> lock q = None -> local (release_all q) j p.
Proof.
  intros S [L1 L2] Hl. split; [intros t Ht; rewrite length_release by done; by apply L1|].
  assert (Hnc : ∀ t, ~ called q t) by (intros t [? ?]; congruence).
  assert (Hnc' : ∀ t, ~ called (release_all q) t) by (intros t [? ?]; cbn in *; congruence).
  assert (Hac : ∀ t, active (release_all q) t) by (intros t; by left).
  assert (Hd : ∀ t, active q t -> sem (release_all q) t = sem q t).
  { intros t Ht. rewrite sem_release by done. rewrite decide_False; [done|]. by apply active_gone. }
  destruct p; cbn in L2; try done; try congruence; try (exfalso; by destruct L2 as [_ ?%Hnc]).
  - destruct (ready (sem q s)) eqn:E, L2 as [H1 H2]; [by rewrite (Hd _ H2), E|].
    rewrite sem_release, decide_True, H1 by done. cbn. auto.
  - destruct (ready (sem q s)) eqn:E, L2 as [H1 H2]; [by rewrite (Hd _ H2), E|].
    rewrite sem_release, decide_True, H1 by done. cbn. auto.
  - rewrite sem_release by done. split; [|done]. case_decide; [done|]. tauto.
  - destruct L2 as [H1 H2]. by rewrite (Hd _ H2).
  - destruct L2 as [H1 H2]. by rewrite (Hd _ H2).
  - exfalso. by destruct L2 as (_ & ?%Hnc & _).
Qed.

Lemma next_frame i j late q p pj q' p' e : shaped q -> local q i p -> local q j pj -> i <> j ->
  (∀ s, awaits p = Some s -> awaits pj <> Some s) -> next i late q p = Some (q', p', e) -> local q' j pj.
Proof.
  intros S [L1 L2] LJ Hij Ha H.
  destruct p; step_cases H; try done; cbn in L2;
    repeat match goal with Hr : ready ?x = _, L : context [ready ?x] |- _ => rewrite Hr in L end;
    try (apply set_sem_frame; cbn; by auto).
  - apply quiet_frame; try done; [intros s [? ?]|]; congruence.
  - apply (quiet_frame j None (items q)); try done; [intros s [? ?]|]; congruence.
  - eapply (signal_frame i); try done. rewrite H1. by left.
  - change (local (set_lock (lock q) (signal n (set_waiters l q))) j pj). 
    eapply (signal_frame i); try done. rewrite H1, L2. by right.
  - eapply (signal_frame i); try done. by rewrite H1.
  - eapply answered_frame; try done. by left.
  - eapply answered_frame; try done. by right.
  - apply (local_frame q); cbn; rewrite ?length_app; [done|lia|congruence|congruence|].
    intros t Ht. assert (t < length (semas q))%nat by (by apply LJ).
    assert (Hnc : ~ called q t) by (intros [? ?]; congruence). repeat split.
    + unfold sem; cbn. by rewrite app_nth1.
    + set_solver.
    + done.
    + intros [? ?]. cbn in *. congruence.
    + done.
  - change (local (set_lock (lock q) (set_items (left_part number (items q)) q)) j pj).
    apply quiet_frame; try done; [intros s [? ?]|..]; congruence.
  - apply (local_frame q); try done. intros t Ht. repeat split; try done. cbn. intros ?.
    apply list_elem_of_filter. split; [|done]. intros ->. by apply (Ha s).
  - apply (local_frame q); try done. intros t Ht. repeat split; try done. intros [v Hv].
    destruct L2 as (_ & [v' Hv'] & _). rewrite Hv in Hv'. simplify_eq. by destruct (Ha s).
  - by apply dispose_frame.
Qed.
Ltac locals L2 :=
  cbn in L2; repeat match goal with Hr : ready ?x = _, L : context [ready ?x] |- _ => rewrite Hr in L end.

Lemma pending_back q q' s : (s ∈ waiters q' -> s ∈ waiters q) -> (called q' s -> called q s /\ response (sem q' s) = response (sem q s)) ->
  pending q' s -> pending q s.
Proof. intros Hw Hc [?|[Hs Hr]]; [left; auto|right]. destruct (Hc Hs) as [? <-]. done. Qed.

Lemma answer_pending q s t : shaped q -> (s < length (semas q))%nat -> active q s -> response (sem q s) = 1 ->
  pending (answer s q) t -> pending q t /\ Some s <> Some t.
Proof.
  intros S Hs Ha Hr [Hw|[Hc Hp]].
  - split; [by left|]. intros [= ->]. by apply (active_gone _ _ S Ha).
  - unfold answer in Hp. rewrite sem_set in Hp by done. case_decide as Hst; subst; cbn in Hp; [lia|].
    split; [by right|congruence].
Qed.

Lemma next_pending i late q p q' p' e s : shaped q -> local q i p -> next i late q p = Some (q', p', e) ->
  pending q' s -> awaits p' = Some s \/ pending q s /\ awaits p <> Some s.
Proof.
  intros S [L1 L2] H Hp.
  assert (Hkeep : ∀ t, pending q s -> Some t = Some s \/ pending q s /\ Some t <> Some s).
  { intros t Hq. destruct (decide (t = s)) as [->|]; [by left|right]. split; [done|congruence]. }
  destruct p; step_cases H; locals L2; try (left; done); try (right; done); cbn [awaits]; try (by apply Hkeep);
    try (right; split; [|congruence]; revert Hp; apply pending_back; cbn; [done|intros [? ?]; cbn in *; congruence]).
  - right. split; [|congruence]. revert Hp. apply pending_back; cbn; [rewrite H0; by right|intros [? ?]; cbn in *; congruence].
  - right. split; [|congruence]. revert Hp. apply pending_back; cbn; [rewrite H0; by right|intros [? ?]; cbn in *; congruence].
  - right. split; [|congruence]. destruct Hp as [Hw|[[v Hv] _]]; left; rewrite H0; [by right|].
    cbn in Hv. simplify_eq. left.
  - destruct Hp as [[?|Hw%list_elem_of_singleton]%elem_of_app|[[v Hv] _]]; [|by left; subst|by cbn in Hv].
    right. split; [by left|done].
  - destruct (decide (s0 = s)) as [->|Hne]; [by left|right]. split; [|congruence]. revert Hp. apply pending_back; [done|].
    intros Hc. split; [done|]. by rewrite sem_set, decide_False by auto.
  - destruct (decide (s0 = s)) as [->|Hne]; [by left|right]. split; [|congruence]. revert Hp. apply pending_back; [done|].
    intros Hc. split; [done|]. by rewrite sem_set, decide_False by auto.
  - right. destruct Hp as [[Hne Hw]%list_elem_of_filter|[Hc Hr]]; (split; [|intros [= ->]]); [by left|done|by right|].
    by destruct L2.
  - right. destruct L2. eapply answer_pending; eauto.
  - right. destruct L2. eapply answer_pending; eauto.
  - exfalso. destruct (disposed_shape _ S H0) as (Hw & _ & Hk). destruct Hp as [Hp|[[v Hv] _]]; [|congruence].
    rewrite Hw in Hp. by apply not_elem_of_nil in Hp.
  - right. destruct L2. eapply answer_pending; eauto. by right.
  - right. destruct L2. eapply answer_pending; eauto. by right.
  - exfalso. destruct Hp as [Hp|[[v Hv] _]]; [by apply not_elem_of_nil in Hp|done].
Qed.

Lemma next_lock i late q p q' p' e j w : local q i p -> (∀ v, lock q = Some (i, v) -> p = holder v) ->
  next i late q p = Some (q', p', e) -> lock q' = Some (j, w) -> j = i /\ p' = holder w \/ j <> i /\ lock q = Some (j, w).
Proof.
  intros [L1 L2] Hm H Hl.
  assert (Hkeep : p <> PutNext -> (∀ s, p <> PutWait s) -> lock q = Some (j, w) -> j <> i /\ lock q = Some (j, w)).
  { intros H1 H2 Hq. split; [|done]. intros ->. destruct w; cbn in *; naive_solver. }
  destruct p; step_cases H; locals L2; simplify_eq/=; auto.
Qed.

Lemma next_awaits i late q p q' p' e : next i late q p = Some (q', p', e) ->
  awaits p' = None \/ awaits p' = awaits p \/ awaits p' = Some (length (semas q)).
Proof. intros H. destruct p; step_cases H; auto. Qed.

(** What a step tells of the items. *)
Lemma next_items i late q p q' p' e : shaped q -> local q i p -> next i late q p = Some (q', p', e) ->
  match e with
  | NoEffect => items q' = items q /\ disposed q' = disposed q
  | Puts c => items q' = apply_change c (items q) /\ disposed q = false /\ disposed q' = false
  | Takes l => items q = l ++ items q' /\ disposed q = false /\ disposed q' = false
  | Drops l => items q = l /\ items q' = [] /\ disposed q' = true
  end.
Proof.
  intros S [L1 L2] H. destruct p; step_cases H; locals L2; cbn; try (by auto); try (by rewrite take_drop; auto).
  - unfold taken_part, left_part. by rewrite take_drop.
  - destruct L2 as (_ & [v Hv] & <-). unfold taken_part, left_part. rewrite take_drop. by erewrite locked_open.
Qed.
(** ** Every step keeps the threads in order *)

Lemma polls_insert ts i p p' s : ts !! i = Some p -> awaits p <> Some s -> polls ts s -> polls (<[i := p']> ts) s.
Proof.
  intros Hp Ha (j & pj & Hj & Hs). exists j, pj. split; [|done].
  rewrite list_lookup_insert_ne; [done|]. intros ->. congruence.
Qed.

Lemma manned_step q ts i p late q' p' e : shaped q -> manned q ts -> ts !! i = Some p ->
  next i late q p = Some (q', p', e) -> manned q' (<[i := p']> ts).
Proof.
  intros S [L K P O] Hp H. pose proof (L i p Hp) as Li.
  assert (Hi : (i < length ts)%nat) by by eapply lookup_lt_Some.
  assert (Hnew : ∀ s, awaits p' = Some s -> awaits p = Some s \/ s = length (semas q)).
  { intros s Hs. destruct (next_awaits _ _ _ _ _ _ _ H) as [E|[E|E]]; rewrite E in Hs; simplify_eq; auto. }
  split.
  - intros j pj. rewrite list_lookup_insert. case_decide as Hj; [|intros Hpj].
    + intros [= <-]. destruct Hj as [<- _]. by eapply next_local.
    + assert (i <> j) by (intros ->; auto). eapply next_frame; eauto.
  - intros j w Hl. eapply next_lock in Hl; [|done| |done].
    + destruct Hl as [[-> ->]|[? Hl]]; [by rewrite list_lookup_insert_eq|].
      rewrite list_lookup_insert_ne by done. auto.
    + intros v Hv. apply K in Hv. congruence.
  - intros s Hs. eapply next_pending in Hs; [|done..]. destruct Hs as [Hs|[Hs Ha]].
    + exists i, p'. by rewrite list_lookup_insert_eq.
    + eapply polls_insert; eauto.
  - assert (Hold : ∀ j pj s, ts !! j = Some pj -> awaits pj = Some s -> (s < length (semas q))%nat).
    { intros j pj s Hj. by apply (L j pj Hj). }
    assert (Hone : ∀ j pj s, j <> i -> ts !! j = Some pj -> awaits pj = Some s -> awaits p' <> Some s).
    { intros j pj s Hj Hpj Hs [Hs'| ->]%Hnew; [|by apply (Nat.lt_irrefl (length (semas q))), (Hold j pj)].
      by destruct Hj, (O j i _ _ s Hpj Hp Hs Hs'). }
    intros j k pj pk s. rewrite !list_lookup_insert. repeat case_decide; intros; destruct_and?; simplify_eq; try done.
    + destruct (Hone k pk s); congruence || naive_solver.
    + destruct (Hone j pj s); congruence || naive_solver.
    + by eapply O.
Qed.

(** ** The system *)

Record ordered z : Prop := {
  ordered_shape : shaped (queue z);
  ordered_threads : manned (queue z) (threads z);
  ordered_items : added z = taken z ++ dropped z ++ items (queue z);
  ordered_dropped : disposed (queue z) = false -> dropped z = [] }.

Lemma ordered_start : ordered start.
Proof.
  split; cbn; try done; split; cbn; try done; try (by constructor); try set_solver.
  - by intros ? [? ?].
  - by intros ? [? ?].
  - intros s [Hs|[[? ?] _]]; [by apply not_elem_of_nil in Hs|done].
Qed.

Lemma manned_call q ts p : manned q ts -> entry p -> manned q (ts ++ [p]).
Proof.
  intros [L K P O] Hp.
  assert (Ha : awaits p = None) by (by destruct p).
  split.
  - intros j pj [Hj|[_ [_ <-]%list_lookup_singleton_Some]]%lookup_app_Some; [auto|].
    destruct p as [| | | | | | | | | | | | | |r]; try done; try destruct r; try done; by split.
  - intros j w Hl. apply K in Hl. by apply lookup_app_l_Some.
  - intros s (j & pj & Hj & Hs)%P. exists j, pj. split; [|done]. by apply lookup_app_l_Some.
  - intros j k pj pk s Hj Hk Hsj Hsk.
    apply lookup_app_Some in Hj as [Hj|[_ [_ <-]%list_lookup_singleton_Some]]; [|congruence].
    apply lookup_app_Some in Hk as [Hk|[_ [_ <-]%list_lookup_singleton_Some]]; [|congruence].
    by eapply O.
Qed.

Lemma position_lt cmp (l : list A) n : position cmp l = Some n -> (n < length l)%nat.
Proof.
  revert n. induction l as [|a l IH]; cbn; [done|]. intros n. case_match; [intros [= <-]; lia|].
  destruct (position cmp l); cbn; [|done]. intros [= <-]. specialize (IH _ eq_refl). lia.
Qed.

Lemma add_apply c (before l : list A) : add_to c l (length before) (before ++ l) = before ++ apply_change c l.
Proof.
  destruct c as [xs|cmp item]; cbn; [by rewrite app_assoc|].
  destruct (position cmp l) as [n|]; [by rewrite insert_app_r|by rewrite app_assoc].
Qed.

Lemma ordered_step z z' : ordered z -> step z z' -> ordered z'.
Proof.
  intros [S T I D] [p Hp|i p late q' p' e Hp H].
  { split; cbn; try done. by apply manned_call. }
  pose proof (next_items _ _ _ _ _ _ _ S (manned_local _ _ T _ _ Hp) H) as E.
  pose proof (next_shaped _ _ _ _ _ _ _ S (manned_local _ _ T _ _ Hp) H).
  pose proof (manned_step _ _ _ _ _ _ _ _ S T Hp H).
  destruct e; split; cbn; try done; destruct E as (E1 & E2); rewrite ?I, ?E1.
  - done.
  - intros ?. apply D. congruence.
  - destruct E2 as [E2 _]. by rewrite (D E2), add_apply.
  - by destruct E2 as [E2 _]; auto.
  - destruct E2 as [E2 _]. rewrite (D E2). cbn. by rewrite <- app_assoc.
  - by destruct E2 as [E2 _]; auto.
  - destruct E2 as [-> _]. by rewrite app_nil_r, ?app_assoc.
  - destruct E2. congruence.
Qed.

Lemma reached_ordered z : reached z -> ordered z.
Proof. revert z. apply (rtc_ind_r ordered start); eauto using ordered_start, ordered_step. Qed.

(** A thread that touches the items, in the mutex of a put or for a put that waits for it. *)
Definition inside (p : pc) : Prop :=
  match p with PutNext | PollTake _ _ | PollStore _ _ _ | PollRelease _ _ => True | _ => False end.

Lemma inside_once z i j p p' : ordered z -> threads z !! i = Some p -> threads z !! j = Some p' ->
  inside p -> inside p' -> i = j.
Proof.
  intros [S T _ _] Hi Hj Hp Hp'.
  pose proof (manned_local _ _ T _ _ Hi) as [_ Li]. pose proof (manned_local _ _ T _ _ Hj) as [_ Lj].
  assert (Hs : ∀ s, awaits p = Some s -> awaits p' = Some s -> i = j) by (intros s; by apply (manned_once _ _ T)).
  destruct p; try done; destruct p'; try done; cbn in Li, Lj; destruct_and?;
    repeat match goal with Hc : called _ _ |- _ => destruct Hc as [? ?] end; simplify_eq/=; try done; by eapply Hs.
Qed.

(** The thread that has the mutex, or the poll it waits for, can go on. *)
Lemma holder_goes z i w : ordered z -> lock (queue z) = Some (i, w) ->
  ∃ j p, threads z !! j = Some p /\ next j false (queue z) p <> None.
Proof.
  intros [S T _ _] Hl. pose proof (manned_lock _ _ T _ _ Hl) as Hi. destruct w as [s|]; cbn in Hi.
  - assert (Hc : called (queue z) s) by by exists i.
    destruct (called_response _ S s Hc) as [Hr|Hr].
    + exists i, (PutWait s). split; [done|]. cbn. by rewrite Hr.
    + destruct (manned_polls _ _ T s) as (j & p & Hj & Ha); [by right|].
      destruct (called_made _ S _ Hc) as [_ Hw].
      exists j, p. split; [done|]. pose proof (manned_local _ _ T _ _ Hj) as [_ L].
      destruct p; simplify_eq/=; try done; try (by destruct L).
      rewrite andb_false_r. destruct (ready _); [done|]. by destruct L.
  - exists i, PutNext. split; [done|]. cbn. by repeat case_match.
Qed.

(** C31: the queue, for threads that put, update, poll, time out and dispose in any order: what was put is, in order, what was
    taken, what a dispose returned and what is in the queue; one thread at a time touches the items; when the mutex is free and
    there are items, no poll waits for them; after a dispose every poll that waits has its signal; whoever has the mutex, a
    thread can go on; and no counter of a semaphore becomes negative. *)
Theorem queue_fifo z (Hz : reached z) :
  added z = taken z ++ dropped z ++ items (queue z) /\
  (∀ i j p p', threads z !! i = Some p -> threads z !! j = Some p' -> inside p -> inside p' -> i = j) /\
  (∀ i number timed s, threads z !! i = Some (PollWait number timed s) ->
     if disposed (queue z) then ready (sem (queue z) s) = true
     else lock (queue z) = None -> items (queue z) = []) /\
  (∀ i w, lock (queue z) = Some (i, w) -> ∃ j p, threads z !! j = Some p /\ next j false (queue z) p <> None) /\
  (∀ i, threads z !! i <> Some (Returned Panicked)).
Proof.
  apply reached_ordered in Hz. pose proof Hz as [S T I _]. split; [done|]. split; [by intros *; apply inside_once|].
  split; [|split; [by intros *; apply holder_goes|]].
  - intros i number timed s Hi. apply (manned_local _ _ T) in Hi as [_ L]. cbn in L.
    destruct (disposed _) eqn:Hd.
    + destruct (ready _); [done|]. destruct L as [_ L]. destruct (disposed_shape _ S Hd) as (Hw & _). rewrite Hw in L. by apply not_elem_of_nil in L.
    + intros Hl. destruct (not_lost _ S Hl) as [?|Hr]; [done|].
      destruct (ready _) eqn:E, L as [_ L]; [by apply idle_not_active in L|]. apply Hr in L. congruence.
  - intros i Hi. by apply (manned_local _ _ T) in Hi as [_ []].
Qed.

End BlockingQueue.

Module QueueSamples.
(** A poll of two items waits; a put of three signals it and waits; the poll takes two, answers, and the put goes on to
    find no other poll. *)
Definition at_ (q : Queue) (ts : list (@pc Z)) (add took : list Z) : system := mkSystem q ts add took [].
Definition waiting : Queue (A := Z) := mkQueue [0%nat] [] None false [newSema].
Definition called_ : Queue (A := Z) := mkQueue [] [1; 2; 3] (Some (1%nat, Some 0%nat)) false [mkSema true 1].
Definition taking : Queue (A := Z) := mkQueue [] [1; 2; 3] (Some (1%nat, Some 0%nat)) false [mkSema false 1].
Definition took : Queue (A := Z) := mkQueue [] [3] (Some (1%nat, Some 0%nat)) false [mkSema false 1].
Definition after : system := at_ (mkQueue [] [3] None false [mkSema false 0]) [Returned (Got [1; 2]); Returned Done] [1; 2; 3] [1; 2].

Ltac by_thread n := eapply rtc_l; [eapply (step_thread _ n _ false); reflexivity|]; cbn.

Lemma after_reached : reached after.
Proof.
  unfold reached, start. eapply rtc_l; [apply (step_call _ (Get 2)); exact I|]; cbn.
  eapply rtc_l; [apply (step_call _ (Put [1; 2; 3])); exact I|]; cbn.
  by_thread 0%nat. by_thread 1%nat. by_thread 1%nat. by_thread 0%nat. by_thread 0%nat. by_thread 0%nat.
  by_thread 0%nat. by_thread 0%nat. by_thread 1%nat. by_thread 1%nat. apply rtc_refl.
Qed.

(** [queue_fifo] on this run. *)
Lemma queue_fifo_witness : reached after /\ added after = taken after ++ [] ++ [3].
Proof. split; [apply after_reached|]. apply (queue_fifo after), after_reached. Defined.

(** A poll that gives up as it is signalled lets the put go on. *)
Example cancelled :
  next 0 true called_ (PollWait 2 true 0) = Some (called_, PollTimeout 0, NoEffect) /\
  next 0 false called_ (PollTimeout 0) = Some (called_, PollCancel 0, NoEffect) /\
  next 1 false called_ (PutWait 0) = None /\
  next 1 false (mkQueue [] [1; 2; 3] (Some (1%nat, Some 0%nat)) false [mkSema true 0]) (PutWait 0) =
    Some (mkQueue [] [1; 2; 3] (Some (1%nat, None)) false [mkSema true 0], PutNext, NoEffect).
Proof. done. Qed.

(** [PutOrUpdate] replaces the first item that matches. *)
Example updated : apply_change (Update (Z.eqb 2) 9) [1; 2; 2] = [1; 9; 2] /\ apply_change (Update (Z.eqb 5) 9) [1] = [1; 9].
Proof. done. Qed.
End QueueSamples.
