(* ===== verification/UUID.v ===== *)
(** Model of the unique identifiers of [src/src/utils/uuid] and [src/src/goetty/uuid.go], which
    differ in how they read a text.  The clock, the network interfaces, the random source and the
    two hash functions are arguments. *)
From S2P Require Import Prelude.

(** A UUID is an array of 16 bytes. *)
Abbreviation UUID := bytes.
Definition Nil : UUID := replicate 16 0.
Definition is_uuid (u : UUID) : Prop := length u = 16%nat /\ Forall is_u8 u.

Definition VariantNCS : Z := 0.
Definition VariantRFC4122 : Z := 1.
Definition VariantMicrosoft : Z := 2.
Definition VariantFuture : Z := 3.
Definition DomainPerson : Z := 0.
Definition DomainGroup : Z := 1.
Definition DomainOrg : Z := 2.
Definition epochStart : Z := 122192928000000000.
Definition dash : Z := ch "-".
Definition urnPrefix : bytes := str "urn:uuid:".
Definition byteGroups : list nat := [8; 4; 4; 4; 12]%nat.

Definition at_ (u : UUID) (i : nat) : Z := nth i u 0.

Definition And (u1 u2 : UUID) : UUID := zip_with Z.land u1 u2.
Definition Or (u1 u2 : UUID) : UUID := zip_with Z.lor u1 u2.
Definition Equal (u1 u2 : UUID) : bool := bytes_eqb u1 u2.

Definition Version (u : UUID) : Z := Z.shiftr (at_ u 6) 4.
Definition Variant (u : UUID) : Z :=
  let b := at_ u 8 in
  if Z.land b 128 =? 0 then VariantNCS
  else if Z.lor (Z.land b 192) 128 =? 128 then VariantRFC4122
  else if Z.lor (Z.land b 224) 192 =? 192 then VariantMicrosoft
  else VariantFuture.
Definition Bytes (u : UUID) : bytes := u.
Definition SetVersion (v : Z) (u : UUID) : UUID := <[6%nat := Z.lor (Z.land (at_ u 6) 15) (u8 (Z.shiftl v 4))]> u.
Definition SetVariant (u : UUID) : UUID := <[8%nat := Z.lor (Z.land (at_ u 8) 191) 128]> u.

(** ** Texts *)

(** [hex.Encode] and [hex.Decode]; [Decode] writes the pairs before the character it refuses. *)
Definition hexDigit (n : Z) : Z := if n <? 10 then 48 + n else 87 + n.
Definition hex_Encode (src : bytes) : bytes := flat_map (λ b, [hexDigit (Z.shiftr b 4); hexDigit (Z.land b 15)]) src.
Definition fromHexChar (c : Z) : option Z :=
  if (48 <=? c) && (c <=? 57) then Some (c - 48)
  else if (97 <=? c) && (c <=? 102) then Some (c - 87)
  else if (65 <=? c) && (c <=? 70) then Some (c - 55)
  else None.
Fixpoint hex_Decode (src : bytes) : bytes * option Z :=
  match src with
  | c :: d :: src =>
      match fromHexChar c with
      | None => ([], Some c)
      | Some a =>
          match fromHexChar d with
          | None => ([], Some d)
          | Some b => let (bs, e) := hex_Decode src in (Z.lor (Z.shiftl a 4) b :: bs, e)
          end
      end
  | _ => ([], None)
  end.

(** [u[a:b]] *)
Definition part (u : UUID) (a b : nat) : bytes := take (b - a) (drop a u).
Definition String (u : UUID) : bytes :=
  hex_Encode (part u 0 4) ++ [dash] ++ hex_Encode (part u 4 6) ++ [dash] ++ hex_Encode (part u 6 8) ++ [dash] ++
  hex_Encode (part u 8 10) ++ [dash] ++ hex_Encode (part u 10 16).
Definition MarshalText (u : UUID) : bytes := String u.

Inductive uerr := ErrTooShort | ErrTooLong | ErrFormat | ErrVersion (c : Z) | ErrHex (c : Z) | ErrLength (n : Z) | ErrType.

(** The bytes of a group are written into the receiver at [off]; its other bytes stay. *)
Definition write (u : UUID) (off : nat) (bs : bytes) : UUID := take off u ++ bs ++ drop (off + length bs) u.

(** The character between the groups: [utils/uuid] demands a dash before every group but the first,
    [goetty] skips one before any. *)
Definition separated (i : nat) (t : bytes) : outcome (uerr + bytes) :=
  if (0 <? i)%nat then c ← byte_at t 0; Ret (if c =? dash then inr (drop 1 t) else inl ErrFormat)
  else Ret (inr t).
Definition skipped (t : bytes) : outcome bytes := c ← byte_at t 0; Ret (if c =? dash then drop 1 t else t).

(** The checks of a group: the version is a character from 0 to 5, and the text ends after the last
    group, or with the closing brace. *)
Definition version_checked (i : nat) (t : bytes) : outcome (option uerr) :=
  if (i =? 2)%nat then c ← byte_at t 0; Ret (if (48 <=? c) && (c <=? 53) then None else Some (ErrVersion c)) else Ret None.
Definition too_long (braced : bool) (i g : nat) (t : bytes) : bool :=
  (i =? 4)%nat && (g <? length t)%nat &&
  ((braced && negb (nth g t 0 =? ch "}")) || (1 <? length (drop g t))%nat || negb braced).

Fixpoint groups (braced : bool) (i : nat) (gs : list nat) (u : UUID) (off : nat) (t : bytes) : outcome (UUID * option uerr) :=
  match gs with
  | [] => Ret (u, None)
  | g :: gs =>
      r ← separated i t;
      match r with
      | inl e => Ret (u, Some e)
      | inr t =>
          v ← version_checked i t;
          match v with
          | Some e => Ret (u, Some e)
          | None =>
              if (length t <? g)%nat then Ret (u, Some ErrTooShort)
              else if too_long braced i g t then Ret (u, Some ErrTooLong)
              else
                let (bs, e) := hex_Decode (take g t) in
                match e with
                | Some c => Ret (write u off bs, Some (ErrHex c))
                | None => groups braced (S i) gs (write u off bs) (off + g / 2) (drop g t)
                end
          end
      end
  end.

Definition UnmarshalText (text : bytes) (u : UUID) : outcome (UUID * option uerr) :=
  if (length text <? 32)%nat then Ret (u, Some ErrTooShort)
  else
    let urn := bytes_eqb (take 9 text) urnPrefix in
    let braced := negb urn && (nth 0 text 0 =? ch "{") in
    groups braced 0 byteGroups u 0 (if urn then drop 9 text else if braced then drop 1 text else text).

(** [goetty]'s reader. *)
Fixpoint goetty_groups (gs : list nat) (u : UUID) (off : nat) (t : bytes) : outcome (UUID * option uerr) :=
  match gs with
  | [] => Ret (u, None)
  | g :: gs =>
      t ← skipped t;
      if (length t <? g)%nat then Ret (u, Some ErrTooShort)
      else
        let (bs, e) := hex_Decode (take g t) in
        match e with
        | Some c => Ret (write u off bs, Some (ErrHex c))
        | None => goetty_groups gs (write u off bs) (off + g / 2) (drop g t)
        end
  end.

Definition goetty_UnmarshalText (text : bytes) (u : UUID) : outcome (UUID * option uerr) :=
  if (length text <? 32)%nat then Ret (u, Some ErrTooShort)
  else
    goetty_groups byteGroups u 0
      (if bytes_eqb (take 9 text) urnPrefix then drop 9 text else if nth 0 text 0 =? ch "{" then drop 1 text else text).

(** ** Other forms *)
Definition MarshalBinary (u : UUID) : bytes := Bytes u.
Definition UnmarshalBinary (data : bytes) (u : UUID) : UUID * option uerr :=
  if len data =? 16 then (data, None) else (u, Some (ErrLength (len data))).
Definition FromBytes (input : bytes) : UUID * option uerr := UnmarshalBinary input Nil.
Definition FromBytesOrNil (input : bytes) : UUID := match FromBytes input with (u, None) => u | _ => Nil end.
Definition FromString (input : bytes) : outcome (UUID * option uerr) := UnmarshalText input Nil.
Definition FromStringOrNil (input : bytes) : outcome UUID :=
  '(u, e) ← FromString input; Ret (match e with None => u | Some _ => Nil end).

(** A value of a database: [Scan] reads bytes and strings. *)
Inductive dbvalue := DbNull | DbBytes (b : bytes) | DbString (s : bytes) | DbOther.
Definition Value (u : UUID) : dbvalue := DbString (String u).
Definition Scan (src : dbvalue) (u : UUID) : outcome (UUID * option uerr) :=
  match src with
  | DbBytes b => if len b =? 16 then Ret (UnmarshalBinary b u) else UnmarshalText b u
  | DbString s => UnmarshalText s u
  | _ => Ret (u, Some ErrType)
  end.
Record NullUUID := mkNull { nUUID : UUID; Valid : bool }.
Definition NullUUID_Value (n : NullUUID) : dbvalue := if Valid n then Value (nUUID n) else DbNull.
Definition NullUUID_Scan (src : dbvalue) (n : NullUUID) : outcome (NullUUID * option uerr) :=
  match src with
  | DbNull => Ret (mkNull Nil false, None)
  | _ => '(u, e) ← Scan src (nUUID n); Ret (mkNull u true, e)
  end.

Definition NamespaceDNS : outcome (UUID * option uerr) := FromString (str "3c55db41-026a-4264-9635-d8f75ba7c088").
Definition NamespaceURL : outcome (UUID * option uerr) := FromString (str "3c55db41-026a-4264-9635-d8f75ba7c088").
Definition NamespaceOID : outcome (UUID * option uerr) := FromString (str "3c55db41-026a-4264-9635-d8f75ba7c088").
Definition NamespaceX500 : outcome (UUID * option uerr) := FromString (str "3c55db41-026a-4264-9635-d8f75ba7c088").

(** ** Generators *)

(** The state of the generators by time; [storageOnce] has run or not. *)
Record storage := mkStorage { once : bool; clockSequence : Z; lastTime : Z; hardwareAddr : bytes }.
Definition fresh : storage := mkStorage false 0 0 (replicate 6 0).

(** What the first call finds: two random bytes, the addresses of the interfaces or an error, and six random bytes. *)
Record environment := mkEnvironment { clock_bytes : bytes; interfaces : option (list bytes); address_bytes : bytes }.
Definition env_ok (e : environment) : Prop :=
  length (clock_bytes e) = 2%nat /\ Forall is_u8 (clock_bytes e) /\ length (address_bytes e) = 6%nat /\ Forall is_u8 (address_bytes e) /\
  match interfaces e with Some l => Forall (Forall is_u8) l | None => True end.

Definition initClockSequence (e : environment) : Z := at_ (clock_bytes e) 0 * 256 + at_ (clock_bytes e) 1.
Definition initHardwareAddr (e : environment) : bytes :=
  match filter (λ a : bytes, (6 <= length a)%nat) (default [] (interfaces e)) with
  | a :: _ => take 6 a
  | [] => <[0%nat := Z.lor (at_ (address_bytes e) 0) 1]> (address_bytes e)
  end.
Definition initStorage (e : environment) (s : storage) : storage :=
  mkStorage true (initClockSequence e) (lastTime s) (initHardwareAddr e).

(** [epochFunc]: the nanoseconds of the clock in steps of 100, from the epoch of UUIDs. *)
Definition unixTimeFunc (nanos : Z) : Z := u64 (epochStart + u64 (Z.quot nanos 100)).

Definition getStorage (e : environment) (timeNow : Z) (s : storage) : (Z * Z * bytes) * storage :=
  let s := if once s then s else initStorage e s in
  let c := if timeNow <=? lastTime s then u16 (clockSequence s + 1) else clockSequence s in
  ((timeNow, c, hardwareAddr s), mkStorage true c timeNow (hardwareAddr s)).

Definition PutUint16 (v : Z) : bytes := [u8 (Z.shiftr v 8); u8 v].
Definition PutUint32 (v : Z) : bytes := [u8 (Z.shiftr v 24); u8 (Z.shiftr v 16); u8 (Z.shiftr v 8); u8 v].

Definition NewV1 (e : environment) (now : Z) (s : storage) : UUID * storage :=
  let '((timeNow, clockSeq, addr), s) := getStorage e now s in
  (SetVariant (SetVersion 1 (PutUint32 (u32 timeNow) ++ PutUint16 (u16 (Z.shiftr timeNow 32)) ++
     PutUint16 (u16 (Z.shiftr timeNow 48)) ++ PutUint16 clockSeq ++ addr)), s).

Definition NewV2 (posixUID posixGID : Z) (domain : Z) (e : environment) (now : Z) (s : storage) : UUID * storage :=
  let '((timeNow, clockSeq, addr), s) := getStorage e now s in
  let id := if domain =? DomainPerson then PutUint32 posixUID
            else if domain =? DomainGroup then PutUint32 posixGID else replicate 4 0 in
  (SetVariant (SetVersion 2 (<[9%nat := domain]> (id ++ PutUint16 (u16 (Z.shiftr timeNow 32)) ++
     PutUint16 (u16 (Z.shiftr timeNow 48)) ++ PutUint16 clockSeq ++ addr))), s).

(** [newFromHash]: the first 16 bytes of the hash of the name space and the name. *)
Definition newFromHash (hash : bytes -> bytes) (ns : UUID) (name : bytes) : UUID := take 16 (hash (ns ++ name)).
Definition NewV3 (md5 : bytes -> bytes) (ns : UUID) (name : bytes) : UUID := SetVariant (SetVersion 3 (newFromHash md5 ns name)).
Definition NewV5 (sha1 : bytes -> bytes) (ns : UUID) (name : bytes) : UUID := SetVariant (SetVersion 5 (newFromHash sha1 ns name)).
Definition NewV4 (random : bytes) : UUID := SetVariant (SetVersion 4 random).

(** [utils/uuid/id.go] and [goetty/id.go]. *)
Definition NewID (random : bytes) : bytes := filter (λ c, c <> dash) (String (NewV4 random)).
Definition NewV4UUID (random : bytes) : bytes := String (NewV4 random).
Definition NewKey (random : bytes) : bytes := NewV4UUID random.
Definition NewV4Bytes (random : bytes) : bytes := Bytes (NewV4 random).
Definition NewV1UUID (e : environment) (now : Z) (s : storage) : bytes := String (NewV1 e now s).1.
Definition NewV1Bytes (e : environment) (now : Z) (s : storage) : bytes := Bytes (NewV1 e now s).1.

(** ** Bytes and digits *)

(** A property of bytes, decided by trying all of them. *)
Lemma forall_byte (P : Z -> bool) b : forallb P (seqZ 0 256) = true -> is_u8 b -> P b = true.
Proof. rewrite forallb_forall. intros H Hb. apply H, list_elem_of_In, elem_of_seqZ. unfold is_u8 in Hb. lia. Qed.

Definition lower (c : Z) : Z := if (65 <=? c) && (c <=? 90) then c + 32 else c.
Definition is_hex (c : Z) : bool := match fromHexChar c with Some _ => true | None => false end.

Lemma digits_decode b : is_u8 b ->
  fromHexChar (hexDigit (Z.shiftr b 4)) = Some (Z.shiftr b 4) /\ fromHexChar (hexDigit (Z.land b 15)) = Some (Z.land b 15) /\
  Z.lor (Z.shiftl (Z.shiftr b 4) 4) (Z.land b 15) = b.
Proof.
  intros Hb.
  pose proof (forall_byte (λ b, bool_decide (fromHexChar (hexDigit (Z.shiftr b 4)) = Some (Z.shiftr b 4)) &&
    bool_decide (fromHexChar (hexDigit (Z.land b 15)) = Some (Z.land b 15)) &&
    (Z.lor (Z.shiftl (Z.shiftr b 4) 4) (Z.land b 15) =? b)) b ltac:(by vm_compute) Hb) as H.
  rewrite !andb_true_iff, !bool_decide_eq_true, Z.eqb_eq in H. tauto.
Qed.

(** A hexadecimal character, and what it encodes to. *)
Lemma hex_char c a : fromHexChar c = Some a -> 0 <= a < 16 /\ hexDigit a = lower c.
Proof.
  unfold fromHexChar, hexDigit, lower. intros H.
  repeat match goal with H : context [if ?b then _ else _] |- _ => destruct b eqn:? end; simplify_eq;
    repeat match goal with H : _ && _ = true |- _ => apply andb_true_iff in H as [? ?] end;
    rewrite ?Z.leb_le in *; (split; [lia|]);
    destruct (Z.ltb_spec (c - 48) 10); destruct (Z.leb_spec 65 c); destruct (Z.leb_spec c 90); cbn; try lia;
    try (destruct (Z.ltb_spec (c - 87) 10); lia); destruct (Z.ltb_spec (c - 55) 10); lia.
Qed.

Lemma pair_byte a b : 0 <= a < 16 -> 0 <= b < 16 ->
  is_u8 (Z.lor (Z.shiftl a 4) b) /\ Z.shiftr (Z.lor (Z.shiftl a 4) b) 4 = a /\ Z.land (Z.lor (Z.shiftl a 4) b) 15 = b.
Proof.
  intros Ha Hb.
  assert (H : is_u8 (16 * a + b)) by (unfold is_u8; lia).
  pose proof (forall_byte (λ x, (Z.lor (Z.shiftl (x / 16) 4) (x mod 16) =? x) && (Z.shiftr x 4 =? x / 16) && (Z.land x 15 =? x mod 16))
    _ ltac:(by vm_compute) H) as E; cbn beta in E.
  replace ((16 * a + b) / 16) with a in E by (Z.to_euclidean_division_equations; lia).
  replace ((16 * a + b) mod 16) with b in E by (Z.to_euclidean_division_equations; lia).
  rewrite !andb_true_iff, !Z.eqb_eq in E. cbn beta in E. destruct E as [[-> ?] ?]. done.
Qed.

Lemma decode_encode bs : Forall is_u8 bs -> hex_Decode (hex_Encode bs) = (bs, None).
Proof.
  induction 1 as [|b bs Hb _ IH]; [done|]. cbn. destruct (digits_decode b Hb) as (-> & -> & ->).
  unfold hex_Encode in IH. by rewrite IH.
Qed.

Lemma length_encode bs : length (hex_Encode bs) = (2 * length bs)%nat.
Proof. unfold hex_Encode. induction bs as [|b bs IH]; [done|]. cbn [flat_map app length]. lia. Qed.

(** What is decoded is what encodes to the text in small letters. *)
Lemma decode_inv n s bs : length s = (2 * n)%nat -> hex_Decode s = (bs, None) ->
  length bs = n /\ Forall is_u8 bs /\ map lower s = hex_Encode bs.
Proof.
  revert s bs. induction n as [|n IH]; intros s bs Hl H.
  { destruct s; [|cbn in Hl; lia]. cbn in H. simplify_eq. auto. }
  destruct s as [|c [|d s]]; cbn in Hl; [lia..|]. cbn in H.
  destruct (fromHexChar c) as [a|] eqn:Hc; [|done]. destruct (fromHexChar d) as [b|] eqn:Hd; [|done].
  destruct (hex_Decode s) as [bs' e] eqn:E. simplify_eq.
  destruct (IH s bs' ltac:(lia) E) as (<- & Hf & Hs).
  destruct (hex_char c a Hc) as [Ha Hca], (hex_char d b Hd) as [Hb Hdb].
  destruct (pair_byte a b Ha Hb) as (Hu & H1 & H2).
  split; [done|]. split; [by constructor|]. cbn. by rewrite H1, H2, Hca, Hdb, Hs.
Qed.

Lemma decode_lower s bs : Forall is_u8 bs -> map lower s = hex_Encode bs -> hex_Decode s = (bs, None).
Proof.
  assert (Hd : ∀ c a, 0 <= a < 16 -> lower c = hexDigit a -> fromHexChar c = Some a).
  { intros c a Ha. unfold fromHexChar, hexDigit, lower.
    destruct (Z.ltb_spec a 10), (Z.leb_spec 65 c), (Z.leb_spec c 90); cbn; intros; repeat bcase; cbn; try lia; f_equal; lia. }
  intros Hb. revert s. induction Hb as [|b bs Hb _ IH]; intros s; [by destruct s|].
  destruct (digits_decode b Hb) as (_ & _ & E). cbn [hex_Encode flat_map app].
  assert (0 <= Z.shiftr b 4 < 16 /\ 0 <= Z.land b 15 < 16) as [H1 H2].
  { change 15 with (Z.ones 4). rewrite Z.shiftr_div_pow2, Z.land_ones by lia. unfold is_u8 in Hb. split; Z.to_euclidean_division_equations; lia. }
  destruct s as [|c [|d s]]; [done..|]. cbn [map]. intros H. injection H as Hc Hd' Hs.
  cbn. by rewrite (Hd c _ H1 Hc), (Hd d _ H2 Hd'), (IH s Hs), E.
Qed.

Lemma hex_version c a : fromHexChar c = Some a -> a <= 5 <-> 48 <= c <= 53.
Proof.
  unfold fromHexChar. intros H.
  repeat match goal with H : context [if ?b then _ else _] |- _ => destruct b eqn:? end; simplify_eq;
    repeat match goal with H : _ && _ = true |- _ => apply andb_true_iff in H as [? ?] end; rewrite ?Z.leb_le in *; lia.
Qed.

(** ** Groups *)

Definition separator (i : nat) : bytes := if (0 <? i)%nat then [dash] else [].

Lemma byte_at_first c (t : bytes) : byte_at (c :: t) 0 = Ret c.
Proof. done. Qed.
Lemma byte_at_none : byte_at [] 0 = Panic.
Proof. done. Qed.

(** A group is read when its characters are there, with the dash before it. *)
Lemma groups_cons braced i g gs u off t u' : (0 < g)%nat ->
  groups braced i (g :: gs) u off t = Ret (u', None) <->
  ∃ s r bs, t = separator i ++ s ++ r /\ length s = g /\ hex_Decode s = (bs, None) /\
    (i = 2%nat -> 48 <= nth 0 s 0 <= 53) /\ too_long braced i g (s ++ r) = false /\
    groups braced (S i) gs (write u off bs) (off + g / 2) r = Ret (u', None).
Proof.
  intros Hg.
  assert (Hsep : ∀ t', separated i t = Ret (inr t') <-> t = separator i ++ t').
  { intros t'. unfold separated, separator. destruct (0 <? i)%nat; [|cbn; naive_solver].
    destruct t as [|c t]; rewrite ?byte_at_none, ?byte_at_first; cbn; [naive_solver|].
    destruct (Z.eqb_spec c dash); cbn; naive_solver. }
  split.
  - cbn [groups]. destruct (separated i t) as [[e|t']| |] eqn:E; cbn [mbind outcome_mbind]; try done.
    pose proof (proj1 (Hsep t') eq_refl) as Htt. destruct (version_checked i t') as [[e|]| |] eqn:Ev; cbn [mbind outcome_mbind]; try done.
    destruct (Nat.ltb_spec (length t') g) as [|Hl]; [done|]. destruct (too_long braced i g t') eqn:Et; [done|].
    destruct (hex_Decode (take g t')) as [bs [c|]] eqn:Ed; [done|]. intros H.
    assert (Hver : i = 2%nat -> 48 <= nth 0 (take g t') 0 <= 53).
    { intros ->. revert Ev. unfold version_checked. cbn [Nat.eqb]. destruct t' as [|c t']; [cbn in Hl; lia|].
      destruct g; [lia|]. rewrite byte_at_first. cbn. repeat bcase; cbn; done || lia. }
    exists (take g t'), (drop g t'), bs. rewrite take_drop. repeat split; try done.
    + rewrite length_take. lia.
    + by apply Hver.
    + by apply Hver.
  - intros (s & r & bs & Ht & Hs & Hd & Hv & Htl & H). cbn [groups]. rewrite (proj2 (Hsep (s ++ r)) Ht). cbn [mbind outcome_mbind].
    assert (version_checked i (s ++ r) = Ret None) as ->.
    { unfold version_checked. destruct (Nat.eqb_spec i 2) as [->|]; [|done].
      destruct s as [|c s]; [cbn in Hs; lia|]. specialize (Hv eq_refl). cbn [app]. rewrite byte_at_first. cbn in *.
      repeat bcase; cbn; done || lia. }
    cbn [mbind outcome_mbind]. destruct (Nat.ltb_spec (length (s ++ r)) g) as [Hl|_]; [rewrite length_app in Hl; lia|].
    rewrite Htl, take_app_length', drop_app_length' by done. by rewrite Hd.
Qed.

Lemma write_app pre old bs : (length bs <= length old)%nat ->
  write (pre ++ old) (length pre) bs = (pre ++ bs) ++ drop (length bs) old.
Proof. intros H. unfold write. by rewrite take_app_length, drop_app_add, app_assoc. Qed.

Lemma String_parts b0 b1 b2 b3 b4 : length b0 = 4%nat -> length b1 = 2%nat -> length b2 = 2%nat -> length b3 = 2%nat -> length b4 = 6%nat ->
  String (b0 ++ b1 ++ b2 ++ b3 ++ b4) =
    hex_Encode b0 ++ [dash] ++ hex_Encode b1 ++ [dash] ++ hex_Encode b2 ++ [dash] ++ hex_Encode b3 ++ [dash] ++ hex_Encode b4.
Proof.
  intros. destruct b0 as [|? [|? [|? [|? []]]]]; try discriminate.
  destruct b1 as [|? [|? []]]; try discriminate. destruct b2 as [|? [|? []]]; try discriminate.
  destruct b3 as [|? [|? []]]; try discriminate. do 7 (destruct b4 as [|? b4]; try discriminate). done.
Qed.

Lemma lower_dash t : map lower t = [dash] -> t = [dash].
Proof.
  destruct t as [|c []]; try done. cbn. unfold lower, dash. chars. intros [= H].
  destruct (Z.leb_spec 65 c), (Z.leb_spec c 90); cbn in H; f_equal; lia.
Qed.

(** Writing the groups one after the other replaces the whole array. *)
Lemma write_groups old b0 b1 b2 b3 b4 : length old = 16%nat ->
  length b0 = 4%nat -> length b1 = 2%nat -> length b2 = 2%nat -> length b3 = 2%nat -> length b4 = 6%nat ->
  write (write (write (write (write old 0 b0) 4 b1) 6 b2) 8 b3) 10 b4 = b0 ++ b1 ++ b2 ++ b3 ++ b4.
Proof.
  intros Ho H0 H1 H2 H3 H4. do 17 (destruct old as [|? old]; try discriminate).
  destruct b0 as [|? [|? [|? [|? []]]]]; try discriminate.
  destruct b1 as [|? [|? []]]; try discriminate. destruct b2 as [|? [|? []]]; try discriminate.
  destruct b3 as [|? [|? []]]; try discriminate. do 7 (destruct b4 as [|? b4]; try discriminate). done.
Qed.

Lemma too_long_last braced s r : length s = 12%nat ->
  too_long braced 4 12 (s ++ r) = false <-> r = [] \/ braced = true /\ r = [ch "}"].
Proof.
  intros Hs. unfold too_long. rewrite length_app, Hs, drop_app_length', app_nth2, Hs by (done || lia). cbn [Nat.eqb andb Nat.sub].
  destruct r as [|c [|d r]]; cbn; destruct braced; cbn; try naive_solver.
  all: try (destruct (Z.eqb_spec c (ch "}")); cbn; naive_solver). 
Qed.

Lemma too_long_inner braced i g t : i <> 4%nat -> too_long braced i g t = false.
Proof. intros Hi. unfold too_long. by rewrite (proj2 (Nat.eqb_neq i 4) Hi). Qed.

Lemma Version_parts b0 b1 b v b3 : length b0 = 4%nat -> length b1 = 2%nat -> Version (b0 ++ b1 ++ (b :: v) ++ b3) = Z.shiftr b 4.
Proof.
  intros. destruct b0 as [|? [|? [|? [|? []]]]]; try discriminate. by destruct b1 as [|? [|? []]].
Qed.

(** The version of the text is the version of the array. *)
Lemma version_char s bs : length s = 4%nat -> hex_Decode s = (bs, None) ->
  ∃ b rest, bs = b :: rest /\ (Z.shiftr b 4 <= 5 <-> 48 <= nth 0 s 0 <= 53).
Proof.
  intros Hl H. destruct s as [|c [|d s]]; [done..|]. cbn in H.
  destruct (fromHexChar c) as [a|] eqn:Hc; [|done]. destruct (fromHexChar d) as [b|] eqn:Hd; [|done].
  destruct (hex_Decode s) as [bs' e]. simplify_eq. do 2 eexists. split; [done|].
  destruct (hex_char c a Hc) as [Ha _], (hex_char d b Hd) as [Hb _].
  destruct (pair_byte a b Ha Hb) as (_ & -> & _). cbn. by apply hex_version.
Qed.

Lemma split_uuid u : length u = 16%nat ->
  ∃ b0 b1 b2 b3 b4 : bytes, u = b0 ++ b1 ++ b2 ++ b3 ++ b4 /\
    length b0 = 4%nat /\ length b1 = 2%nat /\ length b2 = 2%nat /\ length b3 = 2%nat /\ length b4 = 6%nat.
Proof.
  intros H. exists (take 4 u), (take 2 (drop 4 u)), (take 2 (drop 6 u)), (take 2 (drop 8 u)), (drop 10 u).
  rewrite !length_take, !length_drop. split; [|lia]. do 17 (destruct u as [|? u]; try discriminate). done.
Qed.

Lemma piece s bs (n : nat) : map lower s = hex_Encode bs -> Forall is_u8 bs -> length bs = n ->
  length s = (2 * n)%nat /\ hex_Decode s = (bs, None).
Proof. intros H Hb Hn. split; [|by apply decode_lower]. by rewrite <- (length_map lower), H, length_encode, Hn. Qed.

(** The groups of a text that stands for a UUID. *)
Lemma text_pieces u t : is_uuid u -> map lower t = String u ->
  ∃ s0 s1 s2 s3 s4 b0 b1 b2 b3 b4 : bytes,
    u = b0 ++ b1 ++ b2 ++ b3 ++ b4 /\ t = s0 ++ [dash] ++ s1 ++ [dash] ++ s2 ++ [dash] ++ s3 ++ [dash] ++ s4 /\
    (length b0 = 4%nat /\ length b1 = 2%nat /\ length b2 = 2%nat /\ length b3 = 2%nat /\ length b4 = 6%nat) /\
    (length s0 = 8%nat /\ length s1 = 4%nat /\ length s2 = 4%nat /\ length s3 = 4%nat /\ length s4 = 12%nat) /\
    (hex_Decode s0 = (b0, None) /\ hex_Decode s1 = (b1, None) /\ hex_Decode s2 = (b2, None) /\
     hex_Decode s3 = (b3, None) /\ hex_Decode s4 = (b4, None)).
Proof.
  intros [Hu Hf] Ht.
  destruct (split_uuid u Hu) as (b0 & b1 & b2 & b3 & b4 & -> & N0 & N1 & N2 & N3 & N4).
  rewrite !Forall_app in Hf. destruct Hf as (F0 & F1 & F2 & F3 & F4). rewrite String_parts in Ht by done.
  apply map_eq_app in Ht as (s0 & t1 & -> & M0 & Ht). apply map_eq_app in Ht as (d0 & t2 & -> & ->%lower_dash & Ht).
  apply map_eq_app in Ht as (s1 & t3 & -> & M1 & Ht). apply map_eq_app in Ht as (d1 & t4 & -> & ->%lower_dash & Ht).
  apply map_eq_app in Ht as (s2 & t5 & -> & M2 & Ht). apply map_eq_app in Ht as (d2 & t6 & -> & ->%lower_dash & Ht).
  apply map_eq_app in Ht as (s3 & t7 & -> & M3 & Ht). apply map_eq_app in Ht as (d3 & s4 & -> & ->%lower_dash & M4).
  apply (piece _ _ 4) in M0 as [L0 D0]; [|done..]. apply (piece _ _ 2) in M1 as [L1 D1]; [|done..].
  apply (piece _ _ 2) in M2 as [L2 D2]; [|done..]. apply (piece _ _ 2) in M3 as [L3 D3]; [|done..].
  apply (piece _ _ 6) in M4 as [L4 D4]; [|done..].
  exists s0, s1, s2, s3, s4, b0, b1, b2, b3, b4. repeat split; done.
Qed.

Lemma groups_text braced old rest u : length old = 16%nat ->
  groups braced 0 byteGroups old 0 rest = Ret (u, None) <->
  is_uuid u /\ Version u <= 5 /\
  ∃ t r, rest = t ++ r /\ map lower t = String u /\ (r = [] \/ braced = true /\ r = [ch "}"]).
Proof.
  intros Ho. split.
  - unfold byteGroups. intros H.
    apply groups_cons in H as (s0 & r0 & b0 & -> & L0 & D0 & _ & _ & H); [|lia].
    apply groups_cons in H as (s1 & r1 & b1 & -> & L1 & D1 & _ & _ & H); [|lia].
    apply groups_cons in H as (s2 & r2 & b2 & -> & L2 & D2 & V & _ & H); [|lia].
    apply groups_cons in H as (s3 & r3 & b3 & -> & L3 & D3 & _ & _ & H); [|lia].
    apply groups_cons in H as (s4 & r4 & b4 & -> & L4 & D4 & _ & T & H); [|lia].
    apply (decode_inv 4) in D0 as (N0 & F0 & M0); [|done]. apply (decode_inv 2) in D1 as (N1 & F1 & M1); [|done].
    destruct (version_char s2 b2 L2 D2) as (b & rest & Hb & Hv).
    apply (decode_inv 2) in D2 as (N2 & F2 & M2); [|done]. apply (decode_inv 2) in D3 as (N3 & F3 & M3); [|done].
    apply (decode_inv 6) in D4 as (N4 & F4 & M4); [|done].
    assert (u = b0 ++ b1 ++ b2 ++ b3 ++ b4) as ->.
    { cbn [groups] in H. injection H as <-. by apply write_groups. }
    split; [|split].
    + split; [rewrite !length_app; lia|by rewrite !Forall_app].
    + subst b2. rewrite Version_parts by done. apply Hv. auto.
    + exists (s0 ++ [dash] ++ s1 ++ [dash] ++ s2 ++ [dash] ++ s3 ++ [dash] ++ s4), r4.
      rewrite String_parts by done. rewrite !map_app, M0, M1, M2, M3, M4. rewrite <- !app_assoc.
      split; [done|]. split; [done|]. by apply too_long_last in T.
  - intros ([Hu Hf] & Hver & t & r & -> & Ht & Hr).
    destruct (text_pieces u t (conj Hu Hf) Ht) as (s0 & s1 & s2 & s3 & s4 & b0 & b1 & b2 & b3 & b4 & -> & -> &
      (N0 & N1 & N2 & N3 & N4) & (L0 & L1 & L2 & L3 & L4) & (D0 & D1 & D2 & D3 & D4)). rewrite <- !app_assoc.
    unfold byteGroups. apply groups_cons; [lia|]. exists s0. do 2 eexists. repeat (split; [by first [apply too_long_inner|done]|]).
    apply groups_cons; [lia|]. exists s1. do 2 eexists. repeat (split; [by first [apply too_long_inner|done]|]).
    apply groups_cons; [lia|]. exists s2. do 2 eexists. do 3 (split; [done|]). split.
    { intros _. destruct (version_char s2 b2 L2 D2) as (b & rest & -> & Hv). rewrite Version_parts in Hver by done. by apply Hv. }
    split; [by apply too_long_inner|].
    apply groups_cons; [lia|]. exists s3. do 2 eexists. repeat (split; [by first [apply too_long_inner|done]|]).
    apply groups_cons; [lia|]. exists s4. do 2 eexists. do 4 (split; [done|]). split; [by apply too_long_last|].
    cbn [groups]. f_equal. f_equal. by apply write_groups.
Qed.

(** The forms of a text: bare, in braces, of which the closing one is optional, and behind the prefix. *)
Definition forms (t text : bytes) : Prop :=
  text = t \/ text = ch "{" :: t \/ text = ch "{" :: t ++ [ch "}"] \/ text = urnPrefix ++ t.

Lemma text_head u t : is_uuid u -> map lower t = String u ->
  length t = 36%nat /\ nth 0 t 0 <> ch "{" /\ take 9 t <> urnPrefix.
Proof.
  intros [Hu Hf] Ht.
  assert (Hl : length t = length (String u)) by (by rewrite <- Ht, length_map).
  destruct (split_uuid u Hu) as (b0 & b1 & b2 & b3 & b4 & -> & N0 & N1 & N2 & N3 & N4).
  rewrite String_parts in Ht, Hl by done. rewrite Forall_app in Hf. destruct Hf as [Hf _].
  split; [rewrite Hl; repeat (rewrite length_app || rewrite length_encode || cbn [length]); lia|].
  destruct b0 as [|b b0]; [done|]. apply Forall_cons in Hf as [Hb _]. destruct t as [|c t]; [done|].
  cbn [map hex_Encode flat_map app] in Ht. injection Ht as Hc _.
  assert (c <> 123 /\ c <> 117) as [H1 H2].
  { pose proof (forall_byte (λ b, (hexDigit (Z.shiftr b 4) <? 103)) b ltac:(by vm_compute) Hb) as E.
    apply Z.ltb_lt in E. unfold lower in Hc. split; intros ->; cbn in Hc; lia. }
  split; [done|]. cbn. intros [= ? _]. chars. done.
Qed.

Lemma uuid_text_of old u text : length old = 16%nat ->
  UnmarshalText text old = Ret (u, None) <->
  is_uuid u /\ Version u <= 5 /\ ∃ t, map lower t = String u /\ forms t text.
Proof.
  intros Hold. unfold UnmarshalText, forms. split.
  - destruct (Nat.ltb_spec (length text) 32) as [|Hl]; [done|].
    destruct (bytes_eqb (take 9 text) urnPrefix) eqn:Eu; cbn [negb andb].
    + intros (Hu & Hv & t & r & Hd & Ht & [->|[[=] _]])%groups_text; [|done]. rewrite app_nil_r in Hd.
      do 2 (split; [done|]). exists t. split; [done|]. do 3 right.
      apply bytes_eqb_eq in Eu. by rewrite <- Eu, <- Hd, take_drop.
    + destruct (Z.eqb_spec (nth 0 text 0) (ch "{")) as [E|E].
      * intros (Hu & Hv & t & r & Hd & Ht & Hr)%groups_text; [|done].
        do 2 (split; [done|]). exists t. split; [done|]. right.
        destruct text as [|c text]; [cbn in Hl; lia|]. cbn in E, Hd. rewrite drop_0 in Hd. subst c text.
        destruct Hr as [->|[_ ->]]; [left; by rewrite app_nil_r|right; by left].
      * intros (Hu & Hv & t & r & Hd & Ht & [->|[[=] _]])%groups_text; [|done]. rewrite app_nil_r in Hd.
        do 2 (split; [done|]). exists t. split; [done|]. by left.
  - intros (Hu & Hv & t & Ht & Hf). destruct (text_head u t Hu Ht) as (Hl & Hb & Hn).
    assert (Hgo : ∀ braced r, (r = [] \/ braced = true /\ r = [ch "}"]) -> groups braced 0 byteGroups old 0 (t ++ r) = Ret (u, None)).
    { intros braced r Hr. apply groups_text; [done|]. do 2 (split; [done|]). by exists t, r. }
    destruct Hf as [->|[->|[->| ->]]].
    + rewrite Hl. cbn [Nat.ltb Nat.leb]. rewrite (proj2 (bytes_eqb_neq _ _) Hn), (proj2 (Z.eqb_neq _ _) Hb).
      cbn [negb andb]. rewrite <- (app_nil_r t). apply Hgo. by left.
    + cbn [length]. rewrite Hl. cbn -[groups urnPrefix]. rewrite (proj2 (bytes_eqb_neq _ _)) by done.
      cbn [negb andb]. rewrite <- (app_nil_r t). apply Hgo. by left.
    + cbn [length]. rewrite length_app, Hl. cbn -[groups urnPrefix]. rewrite (proj2 (bytes_eqb_neq _ _)) by done.
      cbn [negb andb]. apply Hgo. by right.
    + rewrite length_app, Hl. rewrite take_app_length' by done. rewrite (proj2 (bytes_eqb_eq _ _) eq_refl).
      rewrite drop_app_length' by done. rewrite <- (app_nil_r t). apply Hgo. by left.
Qed.

(** C39: a text is read without an error as the UUID [u] exactly when [u] is of a version up to 5 and the text is the
    canonical text of [u] in letters of either case, in one of four forms: bare, behind an opening brace, between braces, or
    behind the prefix; whatever the receiver held before.  So what [String] writes of a version up to 5 is read back, and
    nothing that is accepted is ambiguous.  (A UUID of a later version is written but not read, see [UUIDSamples.version_7];
    the form with the brace left open is accepted though not documented.) *)
Theorem uuid_text old u text (Hold : length old = 16%nat) :
  UnmarshalText text old = Ret (u, None) <->
  is_uuid u /\ Version u <= 5 /\ ∃ t, map lower t = String u /\ forms t text.
Proof. by apply uuid_text_of. Qed.

(** ** The reader of [goetty] *)

Lemma decoded_head s bs c : hex_Decode s = (bs, None) -> (2 <= length s)%nat -> head s = Some c -> c <> dash.
Proof.
  intros Hd Hl Hh ->. destruct s as [|x [|y s]]; [done|cbn in Hl; lia|]. cbn in Hh. by simplify_eq.
Qed.

Lemma goetty_cons g gs u off pre s r bs : (2 <= g)%nat -> pre = [] \/ pre = [dash] ->
  length s = g -> hex_Decode s = (bs, None) ->
  goetty_groups (g :: gs) u off (pre ++ s ++ r) = goetty_groups gs (write u off bs) (off + g / 2) r.
Proof.
  intros Hg Hp Hs Hd. cbn [goetty_groups].
  assert (skipped (pre ++ s ++ r) = Ret (s ++ r)) as ->.
  { destruct s as [|c s]; [cbn in Hs; lia|]. assert (c <> dash) by (eapply decoded_head; [done|lia|done]).
    unfold skipped. destruct Hp as [->| ->]; cbn [app]; rewrite byte_at_first; cbn [mbind outcome_mbind].
    - by rewrite (proj2 (Z.eqb_neq c dash)).
    - by rewrite Z.eqb_refl. }
  cbn [mbind outcome_mbind]. rewrite (proj2 (Nat.ltb_ge _ _)) by (rewrite length_app; lia).
  rewrite take_app_length', drop_app_length' by done. by rewrite Hd.
Qed.

(** It reads the texts of the three forms, of any version, and what follows them is ignored. *)
Lemma goetty_text old u t text : length old = 16%nat -> is_uuid u -> map lower t = String u -> forms t text ->
  goetty_UnmarshalText text old = Ret (u, None).
Proof.
  intros Ho Hu Ht Hform. destruct (text_head u t Hu Ht) as (Hl & Hb & Hn).
  assert (Hgo : ∀ r, goetty_groups byteGroups old 0 (t ++ r) = Ret (u, None)).
  { intros r. destruct (text_pieces u t Hu Ht) as (s0 & s1 & s2 & s3 & s4 & b0 & b1 & b2 & b3 & b4 & -> & -> &
      (N0 & N1 & N2 & N3 & N4) & (L0 & L1 & L2 & L3 & L4) & (D0 & D1 & D2 & D3 & D4)).
    rewrite <- !app_assoc. unfold byteGroups.
    etransitivity; [apply (goetty_cons 8 _ _ _ [] s0 _ b0); auto with lia|]. etransitivity; [apply (goetty_cons 4 _ _ _ [dash] s1 _ b1); auto with lia|].
    etransitivity; [apply (goetty_cons 4 _ _ _ [dash] s2 _ b2); auto with lia|]. etransitivity; [apply (goetty_cons 4 _ _ _ [dash] s3 _ b3); auto with lia|].
    etransitivity; [apply (goetty_cons 12 _ _ _ [dash] s4 _ b4); auto with lia|].
    cbn [goetty_groups]. f_equal. f_equal. by apply write_groups. }
  unfold goetty_UnmarshalText. destruct Hform as [->|[->|[->| ->]]].
  - rewrite Hl. cbn [Nat.ltb Nat.leb]. rewrite (proj2 (bytes_eqb_neq _ _) Hn), (proj2 (Z.eqb_neq _ _) Hb).
    rewrite <- (app_nil_r t). apply Hgo.
  - cbn [length]. rewrite Hl. cbn -[goetty_groups urnPrefix]. rewrite (proj2 (bytes_eqb_neq _ _)) by done.
    rewrite <- (app_nil_r t). apply Hgo.
  - cbn [length]. rewrite length_app, Hl. cbn -[goetty_groups urnPrefix]. rewrite (proj2 (bytes_eqb_neq _ _)) by done. apply Hgo.
  - rewrite length_app, Hl. rewrite take_app_length' by done. rewrite (proj2 (bytes_eqb_eq _ _) eq_refl).
    rewrite drop_app_length' by done. rewrite <- (app_nil_r t). apply Hgo.
Qed.

(** ** The generators *)

Lemma is_uuid_length u : is_uuid u -> length u = 16%nat.
Proof. by intros []. Qed.
Lemma at_u8 u i : is_uuid u -> is_u8 (at_ u i).
Proof.
  intros [_ Hf]. unfold at_. rewrite nth_lookup. destruct (u !! i) as [b|] eqn:E; [exact (Forall_lookup_1 _ _ _ _ Hf E)|].
  unfold is_u8; cbn; lia.
Qed.
Lemma at_insert u i b : (i < length u)%nat -> at_ (<[i := b]> u) i = b.
Proof. intros. unfold at_. by rewrite nth_lookup, list_lookup_insert_eq. Qed.
Lemma at_insert_ne (u : UUID) i j b : i <> j -> at_ (<[i := b]> u) j = at_ u j.
Proof. intros. unfold at_. by rewrite !nth_lookup, list_lookup_insert_ne. Qed.
Lemma is_uuid_insert u i b : is_uuid u -> is_u8 b -> is_uuid (<[i := b]> u).
Proof. intros [H1 H2] Hb. split; [by rewrite length_insert|by apply Forall_insert]. Qed.
#[local] Hint Resolve is_uuid_length at_u8 is_uuid_insert : core.

(** What the version and the variant leave of their bytes. *)
Lemma version_byte v b : 1 <= v <= 5 -> is_u8 b ->
  is_u8 (Z.lor (Z.land b 15) (u8 (Z.shiftl v 4))) /\ Z.shiftr (Z.lor (Z.land b 15) (u8 (Z.shiftl v 4))) 4 = v /\
  Z.land (Z.lor (Z.land b 15) (u8 (Z.shiftl v 4))) 15 = Z.land b 15.
Proof.
  intros Hv Hb.
  pose proof (forall_byte (λ b, forallb (λ v, let x := Z.lor (Z.land b 15) (u8 (Z.shiftl v 4)) in
    (0 <=? x) && (x <? 256) && (Z.shiftr x 4 =? v) && (Z.land x 15 =? Z.land b 15)) [1; 2; 3; 4; 5]) b ltac:(by vm_compute) Hb) as E.
  rewrite forallb_forall in E. specialize (E v). cbn beta zeta in E.
  rewrite !andb_true_iff, Z.leb_le, Z.ltb_lt, !Z.eqb_eq in E. destruct E as [[? ?] ?]; [cbn; lia|done].
Qed.

Lemma variant_byte b : is_u8 b ->
  is_u8 (Z.lor (Z.land b 191) 128) /\ Z.land (Z.lor (Z.land b 191) 128) 128 <> 0 /\
  Z.lor (Z.land (Z.lor (Z.land b 191) 128) 192) 128 = 128 /\ Z.land (Z.lor (Z.land b 191) 128) 63 = Z.land b 63.
Proof.
  intros Hb.
  pose proof (forall_byte (λ b, let x := Z.lor (Z.land b 191) 128 in (0 <=? x) && (x <? 256) && negb (Z.land x 128 =? 0) &&
    (Z.lor (Z.land x 192) 128 =? 128) && (Z.land x 63 =? Z.land b 63)) b ltac:(by vm_compute) Hb) as E.
  cbn beta zeta in E. rewrite !andb_true_iff, negb_true_iff, Z.leb_le, Z.ltb_lt, Z.eqb_neq, !Z.eqb_eq in E. unfold is_u8. tauto.
Qed.

(** A generated UUID: its version and variant, and both readers read its text back. *)
Definition made (v : Z) (u : UUID) : Prop :=
  is_uuid u /\ Version u = v /\ Variant u = VariantRFC4122 /\
  FromString (String u) = Ret (u, None) /\ goetty_UnmarshalText (String u) Nil = Ret (u, None).

Lemma lower_String u : is_uuid u -> map lower (String u) = String u.
Proof.
  intros [Hu Hf].
  assert (He : ∀ bs, Forall is_u8 bs -> map lower (hex_Encode bs) = hex_Encode bs).
  { intros bs. induction 1 as [|b bs Hb _ IH]; [done|]. cbn [hex_Encode flat_map app map]. f_equal; [|f_equal; [|done]].
    - pose proof (forall_byte (λ b, lower (hexDigit (Z.shiftr b 4)) =? hexDigit (Z.shiftr b 4)) b ltac:(by vm_compute) Hb) as E.
      by apply Z.eqb_eq in E.
    - pose proof (forall_byte (λ b, lower (hexDigit (Z.land b 15)) =? hexDigit (Z.land b 15)) b ltac:(by vm_compute) Hb) as E.
      by apply Z.eqb_eq in E. }
  destruct (split_uuid u Hu) as (b0 & b1 & b2 & b3 & b4 & -> & N0 & N1 & N2 & N3 & N4).
  rewrite !Forall_app in Hf. rewrite String_parts by done. rewrite !map_app. by rewrite !He by tauto.
Qed.

Lemma made_set v u : 1 <= v <= 5 -> is_uuid u -> made v (SetVariant (SetVersion v u)).
Proof.
  intros Hv Hu. destruct (version_byte v (at_ u 6) Hv ltac:(auto)) as (H1 & H2 & _).
  assert (Hw : is_uuid (SetVersion v u)) by (unfold SetVersion; auto).
  destruct (variant_byte (at_ (SetVersion v u) 8) ltac:(auto)) as (H3 & H4 & H5 & _).
  assert (Hx : is_uuid (SetVariant (SetVersion v u))) by (unfold SetVariant; auto).
  assert (Hver : Version (SetVariant (SetVersion v u)) = v).
  { unfold Version, SetVariant. rewrite at_insert_ne by done. unfold SetVersion. rewrite at_insert; [done|].
    rewrite (is_uuid_length u Hu). lia. }
  split; [done|]. split; [done|]. split; [|split].
  - unfold Variant, SetVariant. rewrite at_insert by (rewrite (is_uuid_length _ Hw); lia).
    by rewrite (proj2 (Z.eqb_neq _ _) H4), H5.
  - apply uuid_text_of; [done|]. split; [done|]. split; [lia|]. exists (String (SetVariant (SetVersion v u))).
    split; [by apply lower_String|by left].
  - eapply goetty_text; [done..| |by left]. by apply lower_String.
Qed.

(** The state of the generators after the first call. *)
Definition storage_ok (s : storage) : Prop :=
  0 <= clockSequence s < 2^16 /\ length (hardwareAddr s) = 6%nat /\ Forall is_u8 (hardwareAddr s).
Definition usable (e : environment) (s : storage) : Prop := if once s then storage_ok s else env_ok e.

Lemma u16_range x : 0 <= u16 x < 2^16.
Proof. apply Z.mod_pos_bound. lia. Qed.
#[local] Hint Resolve u8_range u16_range : core.

Lemma initStorage_ok e s : env_ok e -> storage_ok (initStorage e s).
Proof.
  intros (Hc & Fc & Ha & Fa & Hi). split; [|split]; cbn.
  - unfold initClockSequence. destruct (clock_bytes e) as [|a [|b []]]; try done. cbn.
    rewrite !Forall_cons in Fc. unfold is_u8 in Fc. lia.
  - unfold initHardwareAddr. destruct (filter _ _) as [|a l] eqn:E; [by rewrite length_insert|].
    assert (a ∈ filter (λ a : bytes, (6 <= length a)%nat) (default [] (interfaces e))) as [? _]%list_elem_of_filter by (rewrite E; left).
    rewrite length_take. lia.
  - unfold initHardwareAddr. destruct (filter _ _) as [|a l] eqn:E.
    + apply Forall_insert; [done|]. destruct (address_bytes e) as [|a r]; [done|]. apply Forall_cons in Fa as [Fa _]. cbn.
      pose proof (forall_byte (λ b, (0 <=? Z.lor b 1) && (Z.lor b 1 <? 256)) a ltac:(by vm_compute) Fa) as E'.
      rewrite andb_true_iff, Z.leb_le, Z.ltb_lt in E'. done.
    + assert (a ∈ filter (λ a : bytes, (6 <= length a)%nat) (default [] (interfaces e))) as [_ Hl]%list_elem_of_filter by (rewrite E; left).
      destruct (interfaces e) as [l'|]; cbn in Hl; [|by apply not_elem_of_nil in Hl].
      rewrite Forall_forall in Hi. by apply Forall_take, Hi.
Qed.

(** The state a call of a generator works on. *)
Definition opened (e : environment) (s : storage) : storage := if once s then s else initStorage e s.
Lemma opened_ok e s : usable e s -> storage_ok (opened e s).
Proof. unfold usable, opened. destruct (once s); [done|apply initStorage_ok]. Qed.

Lemma getStorage_ok e now s : usable e s ->
  ∃ c, getStorage e now s = ((now, c, hardwareAddr (opened e s)), mkStorage true c now (hardwareAddr (opened e s))) /\
    0 <= c < 2^16 /\ c = if now <=? lastTime s then u16 (clockSequence (opened e s) + 1) else clockSequence (opened e s).
Proof.
  intros Hu. apply opened_ok in Hu as [Hc _]. unfold getStorage. fold (opened e s).
  assert (lastTime (opened e s) = lastTime s) as -> by (unfold opened; by destruct (once s)).
  eexists. split; [done|]. split; [bcase; auto|done].
Qed.

Lemma is_uuid_layout t1 t2 t3 c a : length a = 6%nat -> Forall is_u8 a ->
  is_uuid (PutUint32 t1 ++ PutUint16 t2 ++ PutUint16 t3 ++ PutUint16 c ++ a).
Proof.
  intros Hl Hf. split; [rewrite !length_app; cbn; lia|]. unfold PutUint32, PutUint16. cbn [app].
  repeat (constructor; [apply u8_range|]). done.
Qed.

Lemma filter_digits bs : Forall is_u8 bs -> filter (λ c, c <> dash) (hex_Encode bs) = hex_Encode bs.
Proof.
  induction 1 as [|b bs Hb _ IH]; [done|].
  pose proof (forall_byte (λ b, negb (hexDigit (Z.shiftr b 4) =? dash) && negb (hexDigit (Z.land b 15) =? dash)) b
    ltac:(by vm_compute) Hb) as E.
  rewrite andb_true_iff, !negb_true_iff, !Z.eqb_neq in E. destruct E as [E1 E2].
  cbn [hex_Encode flat_map app]. rewrite !filter_cons_True by done. unfold hex_Encode in IH. by rewrite IH.
Qed.

Lemma encode_app x y : hex_Encode (x ++ y) = hex_Encode x ++ hex_Encode y.
Proof. apply flat_map_app. Qed.

Lemma filter_String u : is_uuid u -> filter (λ c, c <> dash) (String u) = hex_Encode u.
Proof.
  intros [Hu Hf]. destruct (split_uuid u Hu) as (b0 & b1 & b2 & b3 & b4 & -> & N0 & N1 & N2 & N3 & N4).
  rewrite !Forall_app in Hf. rewrite String_parts, !filter_app, !filter_digits by tauto. by rewrite !encode_app.
Qed.

(** Whatever the clock, the random source, the interfaces, the name space and the name are, a generated UUID has 16 bytes, the
    version and the variant of its generator, and a text that both readers read back; [NewID] is its 32 digits. *)
Theorem generated e s now uid gid domain random md5 sha1 ns name
    (He : usable e s) (Hd : is_u8 domain) (Hr : is_uuid random)
    (Hm : is_uuid (take 16 (md5 (ns ++ name)))) (Hs : is_uuid (take 16 (sha1 (ns ++ name)))) :
  made 1 (NewV1 e now s).1 /\ made 2 (NewV2 uid gid domain e now s).1 /\ made 3 (NewV3 md5 ns name) /\
  made 4 (NewV4 random) /\ made 5 (NewV5 sha1 ns name) /\
  NewID random = hex_Encode (NewV4 random) /\ length (NewID random) = 32%nat.
Proof.
  destruct (getStorage_ok e now s He) as (c & Hg & _). destruct (opened_ok e s He) as (_ & Ha & Fa).
  assert (H4 : made 4 (NewV4 random)) by (by apply made_set).
  assert (Hn : NewID random = hex_Encode (NewV4 random)) by (apply filter_String, H4).
  split; [unfold NewV1; rewrite Hg; apply made_set; [lia|by apply is_uuid_layout]|].
  split.
  { unfold NewV2. rewrite Hg. apply made_set; [lia|]. apply is_uuid_insert; [|done].
    repeat case_match; [by apply is_uuid_layout..|]. apply (is_uuid_layout 0); done. }
  do 2 (split; [by apply made_set|]). split; [by apply made_set|]. split; [done|].
  rewrite Hn, length_encode. by destruct H4 as [[-> _] _].
Qed.

(** ** Generators by time *)

(** The UUIDs of calls of [NewV1] at these times. *)
Fixpoint NewV1s (e : environment) (times : list Z) (s : storage) : list UUID :=
  match times with [] => [] | t :: times => let (u, s) := NewV1 e t s in u :: NewV1s e times s end.

(** The time and the clock sequence a UUID shows. *)
Definition time_of (u : UUID) : Z :=
  at_ u 0 * 2^24 + at_ u 1 * 2^16 + at_ u 2 * 2^8 + at_ u 3 + (at_ u 4 * 2^8 + at_ u 5) * 2^32 +
  (Z.land (at_ u 6) 15 * 2^8 + at_ u 7) * 2^48.
Definition clock_of (u : UUID) : Z := Z.land (at_ u 8) 63 * 2^8 + at_ u 9.

(** What the calls take from the storage. *)
Fixpoint stamps (last c : Z) (times : list Z) : list (Z * Z) :=
  match times with
  | [] => []
  | t :: times => let c := if t <=? last then u16 (c + 1) else c in (t, c) :: stamps t c times
  end.

Lemma be32 v : 0 <= v < 2^32 -> u8 (Z.shiftr v 24) * 2^24 + u8 (Z.shiftr v 16) * 2^16 + u8 (Z.shiftr v 8) * 2^8 + u8 v = v.
Proof.
  intros Hv. rewrite !Z.shiftr_div_pow2 by lia. unfold u8.
  replace (v / 2^16) with (v / 2^8 / 2^8) by (by rewrite Z.div_div).
  replace (v / 2^24) with (v / 2^8 / 2^8 / 2^8) by (by rewrite !Z.div_div).
  rewrite (Z.mod_small (v / 2^8 / 2^8 / 2^8)) by (rewrite !Z.div_div by done; split; [by apply Z.div_pos; lia|apply Z.div_lt_upper_bound; lia]).
  pose proof (Z_div_mod_eq_full v (2^8)). pose proof (Z_div_mod_eq_full (v / 2^8) (2^8)).
  pose proof (Z_div_mod_eq_full (v / 2^8 / 2^8) (2^8)). lia.
Qed.

Lemma be16 v : 0 <= v < 2^16 -> u8 (Z.shiftr v 8) * 2^8 + u8 v = v.
Proof.
  intros Hv. rewrite Z.shiftr_div_pow2 by lia. unfold u8.
  rewrite (Z.mod_small (v / 2^8)) by (split; [by apply Z.div_pos; lia|apply Z.div_lt_upper_bound; lia]).
  pose proof (Z_div_mod_eq_full v (2^8)). lia.
Qed.

Lemma land_15 b : 0 <= b < 16 -> Z.land b 15 = b.
Proof. intros. change 15 with (Z.ones 4). rewrite Z.land_ones by lia. by apply Z.mod_small. Qed.

(** A UUID by time shows its time, and the lower 14 bits of the clock sequence. *)
Lemma NewV1_shows t c a : 0 <= t < 2^60 -> 0 <= c < 2^16 -> length a = 6%nat ->
  let u := SetVariant (SetVersion 1 (PutUint32 (u32 t) ++ PutUint16 (u16 (Z.shiftr t 32)) ++
    PutUint16 (u16 (Z.shiftr t 48)) ++ PutUint16 c ++ a)) in
  time_of u = t /\ clock_of u = c mod 2^14.
Proof.
  intros Ht Hc Ha. do 7 (destruct a as [|? a]; try discriminate). cbv zeta.
  set (w := PutUint32 _ ++ _). unfold time_of, clock_of, SetVariant, SetVersion, at_. subst w.
  unfold PutUint32, PutUint16. cbn -[Z.mul Z.add Z.pow u8 u16 u32 Z.land Z.lor Z.shiftl Z.shiftr Z.modulo].
  destruct (version_byte 1 (u8 (Z.shiftr (u16 (Z.shiftr t 48)) 8)) ltac:(lia) ltac:(auto)) as (_ & _ & ->).
  destruct (variant_byte (u8 (Z.shiftr c 8)) ltac:(auto)) as (_ & _ & _ & ->).
  assert (H48 : 0 <= t / 2^48 < 2^12) by (split; [apply Z.div_pos; lia|apply Z.div_lt_upper_bound; lia]).
  assert (u16 (Z.shiftr t 48) = t / 2^48) as ->.
  { rewrite Z.shiftr_div_pow2 by lia. apply Z.mod_small. lia. }
  rewrite land_15.
  2: { rewrite Z.shiftr_div_pow2 by lia. unfold u8. rewrite Z.mod_small.
       - split; [apply Z.div_pos; lia|apply Z.div_lt_upper_bound; lia].
       - split; [apply Z.div_pos; lia|]. apply Z.div_lt_upper_bound; lia. }
  rewrite be32, !be16 by (auto || lia || (apply Z.mod_pos_bound; lia)). split.
  - unfold u32, u16. rewrite Z.shiftr_div_pow2 by lia.
    replace (t / 2^48) with (t / 2^32 / 2^16) by (by rewrite Z.div_div).
    pose proof (Z_div_mod_eq_full t (2^32)). pose proof (Z_div_mod_eq_full (t / 2^32) (2^16)). lia.
  - change 63 with (Z.ones 6). rewrite Z.land_ones, Z.shiftr_div_pow2 by lia. unfold u8.
    rewrite (Z.mod_small (c / 2^8)) by (split; [apply Z.div_pos; lia|apply Z.div_lt_upper_bound; lia]).
    change (2^14) with (2^8 * 2^6). rewrite Z.rem_mul_r by lia. lia.
Qed.

Lemma NewV1s_shows e times s : usable e s -> Forall (λ t, 0 <= t < 2^60) times ->
  map (λ u, (time_of u, clock_of u)) (NewV1s e times s) =
  map (λ p, (p.1, p.2 mod 2^14)) (stamps (lastTime s) (clockSequence (opened e s)) times).
Proof.
  intros Hu Ht. revert s Hu. induction Ht as [|t times Ht _ IH]; intros s Hu; [done|]. cbn [NewV1s stamps map].
  destruct (getStorage_ok e t s Hu) as (c & Hg & Hc & ->). destruct (opened_ok e s Hu) as (_ & Ha & Fa).
  unfold NewV1. rewrite Hg. cbn [map]. destruct (NewV1_shows t _ (hardwareAddr (opened e s)) Ht Hc Ha) as [-> ->].
  cbn [fst snd]. f_equal. by rewrite IH.
Qed.

(** Later stamps: the clock has moved as often as the time did not, and no more often than calls were made. *)
Lemma stamps_later last c times t' c' : (t', c') ∈ stamps last c times ->
  ∃ k, 0 <= k <= len times /\ c' mod 2^16 = (c + k) mod 2^16 /\ (k = 0 -> last < t').
Proof.
  revert last c. induction times as [|t times IH]; intros last c Hin; [by apply not_elem_of_nil in Hin|].
  rewrite len_cons. cbn in Hin. pose proof (len_nonneg times). destruct (Z.leb_spec t last) as [Hl|Hl].
  - assert (Hk : ∃ k, 0 <= k <= len times /\ c' mod 2^16 = (u16 (c + 1) + k) mod 2^16).
    { apply elem_of_cons in Hin as [[= -> ->]|Hin]; [exists 0; rewrite Z.add_0_r; split; [lia|done]|].
      apply IH in Hin as (k & ? & ? & ?). by exists k. }
    destruct Hk as (k & Hk & E). exists (k + 1). split; [lia|]. split; [|lia].
    rewrite E. unfold u16. rewrite Zplus_mod_idemp_l. f_equal. lia.
  - apply elem_of_cons in Hin as [[= -> ->]|Hin]; [exists 0; rewrite Z.add_0_r; split; [lia|done]|].
    apply IH in Hin as (k & ? & ? & Hk). exists k. split; [lia|]. split; [done|]. intros ->. specialize (Hk eq_refl). lia.
Qed.

Lemma stamps_distinct last c times : len times <= 2^14 ->
  NoDup (map (λ p, (p.1, p.2 mod 2^14)) (stamps last c times)).
Proof.
  revert last c. induction times as [|t times IH]; intros last c Hl; [constructor|].
  rewrite len_cons in Hl. cbn [stamps map fst snd]. set (c1 := if t <=? last then u16 (c + 1) else c).
  apply NoDup_cons. split; [|apply IH; lia].
  intros ((t', c') & E & Hin)%list_elem_of_fmap. cbn in E. injection E as -> E.
  apply stamps_later in Hin as (k & Hk & Hc & Hz).
  assert (k <> 0) by (intros ->; specialize (Hz eq_refl); lia).
  assert (E2 : c' mod 2^14 = (c1 + k) mod 2^14).
  { rewrite <- (Z.mod_mod_divide c' (2^16)), <- (Z.mod_mod_divide (c1 + k) (2^16)) by (by exists (2^2)). by rewrite Hc. }
  rewrite E2 in E. assert (k mod 2^14 = 0) as Hk0.
  { rewrite <- (Z.add_simpl_l c1 k) at 1. rewrite Zminus_mod, <- E, Z.sub_diag. done. }
  rewrite Z.mod_small in Hk0 by lia. lia.
Qed.

(** The UUIDs by time of up to 2^14 calls in a row are different, however the clock runs - standing still, going back, or both -
    as long as it stays below 2^60, which it does for the next three thousand years. *)
Theorem v1_distinct e times s (Hu : usable e s) (Ht : Forall (λ t, 0 <= t < 2^60) times) (Hl : len times <= 2^14) :
  NoDup (NewV1s e times s).
Proof.
  apply (NoDup_fmap_1 (λ u, (time_of u, clock_of u))). change (NoDup (map (λ u, (time_of u, clock_of u)) (NewV1s e times s))).
  rewrite NewV1s_shows by done. by apply stamps_distinct.
Qed.

Module UUIDSamples.
Definition sample : bytes := str "3c55db41-026a-4264-9635-d8f75ba7c088".
Definition shouted : bytes := str "{3C55DB41-026a-4264-9635-D8F75BA7C088}".
Definition value : UUID := [60; 85; 219; 65; 2; 106; 66; 100; 150; 53; 216; 247; 91; 167; 192; 136].
Lemma value_uuid : is_uuid value.
Proof. split; [done|]. unfold value. repeat (constructor; [unfold is_u8; lia|]). constructor. Qed.

(** [uuid_text] on a text in braces and capitals. *)
Lemma uuid_text_witness : length Nil = 16%nat /\ UnmarshalText shouted Nil = Ret (value, None).
Proof.
  split; [done|]. apply (uuid_text Nil value shouted); [done|]. split; [apply value_uuid|]. split; [vm_compute; congruence|].
  exists (take 36 (drop 1 shouted)). split; [vm_compute; reflexivity|]. right. right. left. vm_compute. reflexivity.
Defined.

Definition env : environment := mkEnvironment [255; 255] (Some [[1; 2]; [2; 66; 172; 17; 0; 2]]) [1; 2; 3; 4; 5; 6].
Lemma env_usable : usable env fresh.
Proof. split; [done|]. repeat split; repeat (constructor; try (unfold is_u8; lia)). Qed.
Definition hash (b : bytes) : bytes := replicate 16 (len b mod 256) ++ [0; 0; 0; 0].
Lemma hash_uuid b : is_uuid (take 16 (hash b)).
Proof.
  split; [done|]. unfold hash. rewrite take_app_length' by done. apply Forall_replicate. unfold is_u8. apply Z.mod_pos_bound. lia.
Qed.

(** [generated] on this machine. *)
Lemma generated_witness : usable env fresh /\ made 4 (NewV4 value) /\ length (NewID value) = 32%nat.
Proof.
  split; [apply env_usable|].
  pose proof (generated env fresh 139000000000000000 1000 1000 DomainPerson value hash hash Nil (str "name")
    env_usable ltac:(unfold is_u8, DomainPerson; lia) value_uuid (hash_uuid _) (hash_uuid _)) as (_ & _ & _ & ? & _ & _ & ?).
  done.
Defined.

(** [v1_distinct]: the clock stands still, then goes back, then forth to a time it has shown. *)
Definition times : list Z := [5; 5; 5; 3; 4; 5].
Lemma v1_distinct_witness : len times <= 2^14 /\ NoDup (NewV1s env times fresh).
Proof.
  split; [vm_compute; congruence|]. apply v1_distinct; [apply env_usable| |vm_compute; congruence].
  unfold times. repeat (constructor; [lia|]). constructor.
Defined.

Example generated_v1 : String (NewV1 env 139000000000000000 fresh).1 = str "77c78000-d3c3-11ed-bfff-0242ac110002".
Proof. vm_compute. reflexivity. Qed.

(** The predefined name spaces are one. *)
Example one_name_space : NamespaceDNS = NamespaceURL /\ NamespaceURL = NamespaceOID /\ NamespaceOID = NamespaceX500.
Proof. done. Qed.

(** A text that stops after the fourth group behind the prefix is indexed beyond its end, by both readers. *)
Example read_past_end :
  FromString (str "urn:uuid:3c55db41-026a-4264-9635") = Panic /\
  goetty_UnmarshalText (str "urn:uuid:3c55db41-026a-4264-9635") Nil = Panic.
Proof. vm_compute. done. Qed.

(** A receiver is written as far as the text can be decoded. *)
Example half_read : FromString (str "3c55db41-026g-4264-9635-d8f75ba7c088") =
  Ret (SetVersion 0 ([60; 85; 219; 65; 2] ++ replicate 11 0), Some (ErrHex (ch "g"))) /\
  FromStringOrNil (str "3c55db41-026g-4264-9635-d8f75ba7c088") = Ret Nil.
Proof. vm_compute. done. Qed.

(** The reader of [goetty] takes any text behind a UUID, no dashes, and an open brace; that of [utils/uuid] an open brace only. *)
Example lenient :
  goetty_UnmarshalText (sample ++ str "garbage") Nil = Ret (value, None) /\
  goetty_UnmarshalText (str "3c55db41026a42649635d8f75ba7c088") Nil = Ret (value, None) /\
  FromString (sample ++ str "garbage") = Ret ([60; 85; 219; 65; 2; 106; 66; 100; 150; 53] ++ replicate 6 0, Some ErrTooLong) /\
  FromString (str "3c55db41026a42649635d8f75ba7c088") = Ret ([60; 85; 219; 65] ++ replicate 12 0, Some ErrFormat) /\
  FromString (str "{" ++ sample) = Ret (value, None).
Proof. vm_compute. done. Qed.

(** A UUID of version 7 is written but not read. *)
Example version_7 : FromString (String (SetVersion 7 value)) = Ret ([60; 85; 219; 65; 2; 106] ++ replicate 10 0, Some (ErrVersion (ch "7"))).
Proof. vm_compute. done. Qed.
End UUIDSamples.
