(* ===== verification/Task.v ===== *)
(** Model of the task runner [src/src/utils/task/task.go]: tasks that can be cancelled, and workers
    that run the jobs of a named queue one after the other.  Whatever holds the lock of the runner or
    of a job is one step, except that [Stop] waits with the lock of the runner in its hand.  A queue
    is what [Queue] shows the blocking queue to be. *)
From S2P Require Import Prelude.

Inductive state := running | stopping | stopped.
#[export] Instance state_eq_dec : EqDecision state.
Proof. solve_decision. Defined.

Inductive JobState := Pending | Running | Cancelling | Cancelled | Finished | Failed.
#[export] Instance JobState_eq_dec : EqDecision JobState.
Proof. solve_decision. Defined.

(** What the function of a job returns. *)
Inductive joberr := NoError | ErrJobCancelled | OtherError.
Inductive runerr := errUnavailable | errNoWorker (name : bytes) | errStopped | errNoTask (id : Z) | errTimeout.

Definition batch : nat := 64.
Definition defaultQueueName : bytes := str "__default__".

(** [fun_] is the call that made the job, which stands for its function; [None] in a job that is released. *)
Record Job := mkJob { desc : bytes; fun_ : option nat; jstate : JobState; result : option Z; needRelease : bool }.

Definition blank : Job := mkJob [] None Pending None false.
Definition init_job (d : bytes) (f : nat) (job : Job) : Job := mkJob d (Some f) Pending (result job) true.
Definition reset (job : Job) : Job := mkJob [] None Pending None true.
Definition IsNotComplete (job : Job) : bool := bool_decide (jstate job = Pending \/ jstate job = Running \/ jstate job = Cancelling).
Definition IsComplete (job : Job) : bool := negb (IsNotComplete job).
Definition setState (s : JobState) (job : Job) : Job := mkJob (desc job) (fun_ job) s (result job) (needRelease job).
Definition getState (job : Job) : JobState := jstate job.
Definition isSpecState (spec : JobState) (job : Job) : bool := bool_decide (jstate job = spec).
Definition IsRunning : Job -> bool := isSpecState Running.
Definition IsPending : Job -> bool := isSpecState Pending.
Definition IsFinished : Job -> bool := isSpecState Finished.
Definition IsCancelling : Job -> bool := isSpecState Cancelling.
Definition IsCancelled : Job -> bool := isSpecState Cancelled.
Definition IsFailed : Job -> bool := isSpecState Failed.
Definition SetResult (r : option Z) (job : Job) : Job := mkJob (desc job) (fun_ job) (jstate job) r (needRelease job).
Definition GetResult (job : Job) : option Z := result job.
Definition Cancel (job : Job) : Job := if bool_decide (jstate job = Pending) then setState Cancelling job else job.
Definition keep (job : Job) : Job := mkJob (desc job) (fun_ job) (jstate job) (result job) false.

(** The worker's two looks at a job: before its function, and after it. *)
Definition before (job : Job) : Job * bool :=
  match jstate job with
  | Pending => (setState Running job, true)
  | Cancelling => (setState Cancelled job, false)
  | _ => (job, false)
  end.
Definition after (err : joberr) (job : Job) : Job :=
  setState match err with
           | ErrJobCancelled => Cancelled
           | OtherError => Failed
           | NoError => if bool_decide (jstate job = Cancelling) then Cancelled else Finished
           end job.

(** A named queue holds the addresses of jobs. *)
Record queue := mkQueue { items : list nat; disposed : bool }.
Definition newQueue : queue := mkQueue [] false.
Definition Put (j : nat) (q : queue) : queue := if disposed q then q else mkQueue (items q ++ [j]) false.
Definition Dispose (q : queue) : queue := mkQueue [] true.

(** [Get]: waits ([None]), fails, or takes up to [batch] jobs. *)
Definition Get (q : queue) : option (option (list nat) * queue) :=
  if disposed q then Some (None, q)
  else match items q with [] => None | l => Some (Some (take batch l), mkQueue (drop batch l) false) end.

(** ** The runner *)

(** [cancels]: the tasks whose cancel function is kept; [stop]: the counter of the wait group. *)
Record Runner := mkRunner { rstate : state; lastID : Z; cancels : gset Z; namedQueue : gmap bytes queue; stop : Z }.

(** Where a worker is in its loop; [WTake]: the rest of the jobs it took. *)
Inductive wpc := WGet | WTake (l : list nat) | WRun (j : nat) (l : list nat) | WEnd (j : nat) (l : list nat).
Inductive task := Plain | Worker (name : bytes) (p : wpc).

(** A task that can be cancelled: its id, or the error. *)
Definition RunCancelableTask (r : Runner) : (runerr + Z) * Runner :=
  if bool_decide (rstate r = running) then
    let id := u64 (lastID r + 1) in
    (inr id, mkRunner (rstate r) id ({[id]} ∪ cancels r) (namedQueue r) (stop r + 1))
  else (inl errUnavailable, r).
Definition RunTask (r : Runner) : option runerr * Runner :=
  if bool_decide (rstate r = running) then (None, mkRunner (rstate r) (lastID r) (cancels r) (namedQueue r) (stop r + 1))
  else (Some errUnavailable, r).
Definition set_queue (name : bytes) (q : queue) (r : Runner) : Runner :=
  mkRunner (rstate r) (lastID r) (cancels r) (<[name := q]> (namedQueue r)) (stop r).
Definition startWorker (r : Runner) : (runerr + Z) * Runner := RunCancelableTask r.
(** The queue is made before the worker starts, or not. *)
Definition add_queue (name : bytes) (r : Runner) : Runner :=
  match namedQueue r !! name with Some _ => r | None => set_queue name newQueue r end.
Definition AddNamedWorker (name : bytes) (r : Runner) : (runerr + Z) * Runner := startWorker (add_queue name r).
Definition getNamedQueue (name : bytes) (r : Runner) : option queue := namedQueue r !! name.
Definition getDefaultQueue (r : Runner) : option queue := getNamedQueue defaultQueueName r.
Definition IsNamedWorkerBusy (name : bytes) (r : Runner) : outcome bool :=
  match getNamedQueue name r with Some q => Ret (0 <? len (items q)) | None => Panic end.
Definition StopCancelableTask (id : Z) (r : Runner) : option runerr * Runner :=
  if bool_decide (rstate r = running) then
    if bool_decide (id ∈ cancels r) then (None, mkRunner (rstate r) (lastID r) (cancels r ∖ {[id]}) (namedQueue r) (stop r))
    else (Some (errNoTask id), r)
  else (Some errStopped, r).
(** [Stop] up to its wait: the cancel functions that are called are those kept. *)
Definition Stop_begin (r : Runner) : Runner := mkRunner stopping (lastID r) (cancels r) (Dispose <$> namedQueue r) (stop r).
Definition Stop_end (r : Runner) : Runner := mkRunner stopped (lastID r) (cancels r) (namedQueue r) (stop r).
Definition Done (r : Runner) : Runner := mkRunner (rstate r) (lastID r) (cancels r) (namedQueue r) (stop r - 1).
Definition NewRunner : Runner := (AddNamedWorker defaultQueueName (mkRunner running 0 ∅ ∅ 0)).2.

(** ** The system

    [cells]: the jobs by address; [pool]: the addresses of released ones; [tasks]: those that run, by id; [others]: the tasks of
    [RunTask] that run; [holding]: a [Stop] waits, with the lock.  [calls]: how many jobs were made; [ran]: the calls whose
    function a worker has started; [dropped]: those cancelled before; [called]: the tasks whose cancel function was called. *)
Record system := mkSystem {
  runner : Runner; cells : list Job; pool : list nat; tasks : gmap Z task; others : nat; holding : bool;
  calls : nat; ran : list nat; dropped : list nat; called : gset Z }.

Definition set_runner r z := mkSystem r (cells z) (pool z) (tasks z) (others z) (holding z) (calls z) (ran z) (dropped z) (called z).
Definition set_cells c z := mkSystem (runner z) c (pool z) (tasks z) (others z) (holding z) (calls z) (ran z) (dropped z) (called z).
Definition set_pool p z := mkSystem (runner z) (cells z) p (tasks z) (others z) (holding z) (calls z) (ran z) (dropped z) (called z).
Definition set_tasks t z := mkSystem (runner z) (cells z) (pool z) t (others z) (holding z) (calls z) (ran z) (dropped z) (called z).
Definition set_others n z := mkSystem (runner z) (cells z) (pool z) (tasks z) n (holding z) (calls z) (ran z) (dropped z) (called z).
Definition set_holding b z := mkSystem (runner z) (cells z) (pool z) (tasks z) (others z) b (calls z) (ran z) (dropped z) (called z).
Definition set_called s z := mkSystem (runner z) (cells z) (pool z) (tasks z) (others z) (holding z) (calls z) (ran z) (dropped z) s.
Definition set_ran l z := mkSystem (runner z) (cells z) (pool z) (tasks z) (others z) (holding z) (calls z) l (dropped z) (called z).
Definition set_dropped l z := mkSystem (runner z) (cells z) (pool z) (tasks z) (others z) (holding z) (calls z) (ran z) l (called z).
Definition add_call z := mkSystem (runner z) (cells z) (pool z) (tasks z) (others z) (holding z) (S (calls z)) (ran z) (dropped z) (called z).
Definition set_cell j job z := set_cells (<[j := job]> (cells z)) z.
Definition job_at z (j : nat) : Job := nth j (cells z) blank.

Definition run_task (t : task) z : system :=
  match RunCancelableTask (runner z) with
  | (inr id, r) => set_tasks (<[id := t]> (tasks z)) (set_runner r z)
  | (inl _, r) => set_runner r z
  end.

(** [acquireJob] takes a released job or makes one. *)
Definition acquireJob (reuse : option nat) z : option (nat * system) :=
  match reuse with
  | None => Some (length (cells z), set_cells (cells z ++ [blank]) z)
  | Some j => if bool_decide (j ∈ pool z) then Some (j, set_pool (filter (λ k, k <> j) (pool z)) z) else None
  end.
Definition newJob (d : bytes) (reuse : option nat) z : option (nat * system) :=
  '(j, z) ← acquireJob reuse z; Some (j, add_call (set_cell j (init_job d (calls z) (job_at z j)) z)).
Definition RunJobWithNamedWorkerWithCB (d worker : bytes) (cb : bool) (reuse : option nat) z : option (option runerr * system) :=
  if bool_decide (rstate (runner z) = running) then
    '(j, z) ← newJob d reuse z;
    match getNamedQueue worker (runner z) with
    | None => Some (Some (errNoWorker worker), z)
    | Some q =>
        let z := if cb then set_cell j (keep (job_at z j)) z else z in
        Some (None, set_runner (set_queue worker (Put j q) (runner z)) z)
    end
  else Some (Some errUnavailable, z).
Definition RunJobWithNamedWorker (d worker : bytes) := RunJobWithNamedWorkerWithCB d worker false.
Definition RunJob (d : bytes) := RunJobWithNamedWorker d defaultQueueName.

(** A step of the worker [name] with id [id]; [err] is what the function it runs returns. *)
Definition put_pc (id : Z) name (p : wpc) z := set_tasks (<[id := Worker name p]> (tasks z)) z.
Definition exit_task (id : Z) z := set_runner (Done (runner z)) (set_tasks (delete id (tasks z)) z).
Definition work (id : Z) (name : bytes) (p : wpc) (err : joberr) z : option system :=
  match p with
  | WGet =>
      q ← namedQueue (runner z) !! name;
      '(got, q') ← Get q;
      let z := set_runner (set_queue name q' (runner z)) z in
      Some match got with None => exit_task id z | Some l => put_pc id name (WTake l) z end
  | WTake [] => Some (put_pc id name WGet z)
  | WTake (j :: l) =>
      let (job, run) := before (job_at z j) in
      let z := set_cell j job z in
      Some (if run then set_ran (ran z ++ option_list (fun_ job)) (put_pc id name (WRun j l) z)
            else put_pc id name (WEnd j l) z)
  | WRun j l => Some (put_pc id name (WEnd j l) (set_cell j (after err (job_at z j)) z))
  | WEnd j l =>
      Some (put_pc id name (WTake l)
        (if needRelease (job_at z j) then set_pool (j :: pool z) (set_cell j (reset (job_at z j)) z) else z))
  end.

(** The owner of a job cancels it; [Stop] starts to wait. *)
Definition cancel_job (j : nat) z : system :=
  set_dropped (dropped z ++ (if bool_decide (jstate (job_at z j) = Pending) then option_list (fun_ (job_at z j)) else []))
    (set_cell j (Cancel (job_at z j)) z).
Definition begin_stop z : system :=
  set_holding true (set_called (cancels (runner z) ∪ called z) (set_runner (Stop_begin (runner z)) z)).

Inductive step z : system -> Prop :=
| step_queue name : holding z = false -> step z (set_runner (add_queue name (runner z)) z)
| step_worker name q : holding z = false -> namedQueue (runner z) !! name = Some q -> lastID (runner z) + 1 < 2^64 ->
    step z (run_task (Worker name WGet) z)
| step_job d worker cb reuse e z' : holding z = false ->
    RunJobWithNamedWorkerWithCB d worker cb reuse z = Some (e, z') -> step z z'
| step_task : holding z = false -> lastID (runner z) + 1 < 2^64 -> step z (run_task Plain z)
| step_other : holding z = false -> rstate (runner z) = running ->
    step z (set_others (S (others z)) (set_runner (RunTask (runner z)).2 z))
| step_cancel_task id r : holding z = false -> StopCancelableTask id (runner z) = (None, r) ->
    step z (set_called ({[id]} ∪ called z) (set_runner r z))
| step_stop : holding z = false -> rstate (runner z) = running ->
    step z (begin_stop z)
| step_stopped : holding z = true -> stop (runner z) = 0 -> step z (set_holding false (set_runner (Stop_end (runner z)) z))
| step_stop_timeout : holding z = true -> step z (set_holding false z)
| step_plain id : tasks z !! id = Some Plain -> step z (exit_task id z)
| step_other_done n : others z = S n -> step z (set_others n (set_runner (Done (runner z)) z))
| step_work id name p err z' : tasks z !! id = Some (Worker name p) -> work id name p err z = Some z' -> step z z'
| step_cancel j : (j < length (cells z))%nat -> needRelease (job_at z j) = false ->
    step z (cancel_job j z)
| step_result j r : (j < length (cells z))%nat -> needRelease (job_at z j) = false -> step z (set_cell j (SetResult r (job_at z j)) z).

(** [NewRunner] has started the worker of the default queue. *)
Definition nothing : system := mkSystem (mkRunner running 0 ∅ ∅ 0) [] [] ∅ 0 false 0 [] [] ∅.
Definition start : system :=
  run_task (Worker defaultQueueName WGet) (set_runner (add_queue defaultQueueName (runner nothing)) nothing).
Definition reached z : Prop := rtc step start z.

(** ** What holds of a job *)

Definition job_ok (n : nat) (ran dropped : list nat) (job : Job) : Prop :=
  match fun_ job with
  | None => True
  | Some f =>
      (f < n)%nat /\
      match jstate job with
      | Pending => f ∉ ran /\ f ∉ dropped
      | Cancelling => f ∉ ran /\ f ∈ dropped
      | Running | Finished | Failed => f ∈ ran
      | Cancelled => f ∈ ran \/ f ∈ dropped
      end
  end.

(** Where the address of a job can be. *)
Inductive place := InPool | InQueue (name : bytes) | InTask (id : Z).
#[export] Instance place_eq_dec : EqDecision place.
Proof. solve_decision. Defined.
Definition hand (t : task) : list nat :=
  match t with Worker _ (WTake l) => l | Worker _ (WRun j l) | Worker _ (WEnd j l) => j :: l | _ => [] end.
Definition refs z (pl : place) : list nat :=
  match pl with
  | InPool => pool z
  | InQueue name => from_option items [] (namedQueue (runner z) !! name)
  | InTask id => from_option hand [] (tasks z !! id)
  end.

(** An address is at one place, and there once. *)
Definition placed (f : place -> list nat) : Prop :=
  (∀ pl, NoDup (f pl)) /\ ∀ pl pl' j, j ∈ f pl -> j ∈ f pl' -> pl = pl'.

(** The addresses [new] go to [pl2]; the others stay where they are, or go. *)
Lemma placed_step f f' pl2 (new : list nat) : placed f -> (∀ pl, NoDup (f' pl)) ->
  (∀ pl j, j ∈ f' pl -> pl = pl2 /\ j ∈ new \/ j ∈ f pl /\ j ∉ new) -> placed f'.
Proof.
  intros [_ Hd] Hn H. split; [done|]. intros pl pl' j Hj Hj'.
  destruct (H _ _ Hj) as [[-> ?]|[? ?]], (H _ _ Hj') as [[-> ?]|[? ?]]; try done. by eapply Hd.
Qed.

(** A job that waits in a queue or in the hand of a worker. *)
Definition waits (job : Job) : Prop := fun_ job <> None /\ (jstate job = Pending \/ jstate job = Cancelling).
Definition task_ok z (t : task) : Prop :=
  match t with
  | Plain => True
  | Worker name p =>
      match p with
      | WGet => True
      | WTake l => ∀ j, j ∈ l -> waits (job_at z j)
      | WRun j l => (fun_ (job_at z j) <> None /\ jstate (job_at z j) = Running) /\ ∀ k, k ∈ l -> waits (job_at z k)
      | WEnd j l => IsComplete (job_at z j) = true /\ ∀ k, k ∈ l -> waits (job_at z k)
      end
  end.

Record jobs_ok z : Prop := {
  ok_job : ∀ j, (j < length (cells z))%nat -> job_ok (calls z) (ran z) (dropped z) (job_at z j);
  ok_calls : ∀ j k f, (j < length (cells z))%nat -> (k < length (cells z))%nat ->
    fun_ (job_at z j) = Some f -> fun_ (job_at z k) = Some f -> j = k;
  ok_made : ∀ pl j, j ∈ refs z pl -> (j < length (cells z))%nat;
  ok_placed : placed (refs z);
  ok_pool : ∀ j, j ∈ pool z -> fun_ (job_at z j) = None /\ needRelease (job_at z j) = true;
  ok_queue : ∀ name q j, namedQueue (runner z) !! name = Some q -> j ∈ items q -> waits (job_at z j);
  ok_task : ∀ id t, tasks z !! id = Some t -> task_ok z t;
  ok_ran : NoDup (ran z) /\ NoDup (dropped z) /\ (∀ f, f ∈ ran z -> f ∈ dropped z -> False) /\
    (∀ f, f ∈ ran z ++ dropped z -> (f < calls z)%nat) }.

Record tasks_ok z : Prop := {
  ok_count : stop (runner z) = Z.of_nat (size (tasks z) + others z);
  ok_ids : ∀ id t, tasks z !! id = Some t -> 0 < id <= lastID (runner z);
  ok_kept : ∀ id, id ∈ cancels (runner z) -> 0 < id <= lastID (runner z);
  ok_range : 0 <= lastID (runner z) < 2^64;
  ok_cancel : ∀ id t, tasks z !! id = Some t ->
    id ∈ called z \/ rstate (runner z) = running /\ id ∈ cancels (runner z);
  ok_holding : holding z = true -> rstate (runner z) = stopping;
  ok_stopped : rstate (runner z) = stopped -> stop (runner z) = 0;
  ok_named : ∀ id name p, tasks z !! id = Some (Worker name p) -> is_Some (namedQueue (runner z) !! name);
  ok_disposed : rstate (runner z) <> running -> ∀ name q, namedQueue (runner z) !! name = Some q ->
    items q = [] /\ ∀ id p, tasks z !! id = Some (Worker name p) -> disposed q = true }.

(** ** The tasks are accounted for *)

Lemma running_not_stopping r : rstate r = running -> rstate r <> stopping /\ rstate r <> stopped.
Proof. intros ->. done. Qed.

Lemma run_task_ok t z : tasks_ok z -> (∀ name p, t = Worker name p -> is_Some (namedQueue (runner z) !! name)) ->
  holding z = false -> lastID (runner z) + 1 < 2^64 -> tasks_ok (run_task t z).
Proof.
  intros [C I K R A H S N D] Hw Hh Hb. unfold run_task, RunCancelableTask.
  case_bool_decide as Hr; [|by destruct z, runner].
  assert (u64 (lastID (runner z) + 1) = lastID (runner z) + 1) as -> by (apply Z.mod_small; lia).
  assert (Hn : tasks z !! (lastID (runner z) + 1) = None).
  { apply eq_None_not_Some. intros [t' Ht]. apply I in Ht. lia. }
  split; cbn; try done.
  - rewrite map_size_insert_None by done. lia.
  - intros id t'. rewrite lookup_insert. case_decide; [intros _; lia|intros ?%I; lia].
  - intros id [->%elem_of_singleton|?%K]%elem_of_union; lia.
  - lia.
  - intros id t'. rewrite lookup_insert. case_decide as Hid; [intros _; right; split; [done|set_solver]|].
    intros [?|[? ?]]%A; [by left|right]. split; [done|set_solver].
  - congruence.
  - intros id name p. rewrite lookup_insert. case_decide; [intros [= ->]; by eapply Hw|apply N].
Qed.

Lemma exit_ok id t z : tasks_ok z -> tasks z !! id = Some t -> tasks_ok (exit_task id z).
Proof.
  intros [C I K R A H S N D] Ht.
  assert (Hs : Z.of_nat (size (delete id (tasks z))) = Z.of_nat (size (tasks z)) - 1).
  { rewrite map_size_delete, Ht. cbn.
    assert (size (tasks z) <> 0)%nat by (intros E%map_size_empty_inv; rewrite E in Ht; done). lia. }
  split; cbn; try done.
  - lia.
  - intros k t' [_ ?]%lookup_delete_Some. by eapply I.
  - intros k t' [_ ?]%lookup_delete_Some. by eapply A.
  - intros E. specialize (S E). assert (size (tasks z) <> 0)%nat by (intros E'%map_size_empty_inv; rewrite E' in Ht; done). lia.
  - intros k name p [_ ?]%lookup_delete_Some. by eapply N.
  - intros Hr name q Hq. destruct (D Hr name q Hq) as [? Hw]. split; [done|]. intros k p [_ ?]%lookup_delete_Some. by eapply Hw.
Qed.

Lemma tasks_ok_same z z' : tasks_ok z -> runner z' = runner z -> tasks z' = tasks z -> others z' = others z ->
  holding z' = holding z -> called z' = called z -> tasks_ok z'.
Proof. intros [C I K R A H S N D] E1 E2 E3 E4 E5. split; rewrite ?E1, ?E2, ?E3, ?E4, ?E5; done. Qed.

(** A queue changes, and nothing else of the runner. *)
Lemma set_queue_ok name q z : tasks_ok z ->
  rstate (runner z) = running \/ items q = [] /\ (∀ id p, tasks z !! id = Some (Worker name p) -> disposed q = true) ->
  tasks_ok (set_runner (set_queue name q (runner z)) z).
Proof.
  intros [C I K R A H S N D] Hq. split; cbn; try done.
  - intros id n p Ht. rewrite lookup_insert. case_decide; [by eexists|by eapply N].
  - intros Hr n q'. rewrite lookup_insert. case_decide; [|by apply D]. intros [= <-]. subst n. by destruct Hq.
Qed.

Lemma put_pc_ok id name p p0 z : tasks_ok z -> tasks z !! id = Some (Worker name p0) -> tasks_ok (put_pc id name p z).
Proof.
  intros [C I K R A H S N D] Ht. split; cbn; try done.
  - rewrite map_size_insert, Ht. done.
  - intros k t. rewrite lookup_insert. case_decide; subst; [intros _; by eapply I|apply I].
  - intros k t. rewrite lookup_insert. case_decide; subst; [intros _; by eapply A|apply A].
  - intros k n p'. rewrite lookup_insert. case_decide; subst; [intros [= <- _]; by eapply N|apply N].
  - intros Hr n q Hq. destruct (D Hr n q Hq) as [? Hw]. split; [done|]. intros k p'.
    rewrite lookup_insert. case_decide; subst; [intros [= <- _]; by eapply Hw|apply Hw].
Qed.

Lemma work_tasks_ok id name p err z z' : tasks_ok z -> tasks z !! id = Some (Worker name p) ->
  work id name p err z = Some z' -> tasks_ok z'.
Proof.
  intros T Ht H. destruct p as [|[|j l]|j l|j l]; cbn in H.
  - destruct (namedQueue (runner z) !! name) as [q|] eqn:Hq; [|done]. cbn in H. unfold Get in H.
    destruct (disposed q) eqn:Hd; cbn in H; simplify_eq.
    + eapply exit_ok; [|done]. apply set_queue_ok; [done|].
      destruct (decide (rstate (runner z) = running)) as [?|Hr]; [by left|right]. by apply (ok_disposed _ T).
    + destruct (items q) as [|j l] eqn:Hi; cbn in H; simplify_eq.
      eapply put_pc_ok; [|done]. apply set_queue_ok; [done|].
      destruct (decide (rstate (runner z) = running)) as [?|Hr]; [by left|].
      destruct (ok_disposed _ T Hr _ _ Hq) as [? _]. congruence.
  - simplify_eq. by eapply put_pc_ok.
  - destruct (before (job_at z j)) as [job []]; simplify_eq.
    + eapply tasks_ok_same; [eapply (put_pc_ok id name (WRun j l)); [exact T|exact Ht]|done..].
    + eapply tasks_ok_same; [eapply (put_pc_ok id name (WEnd j l)); [exact T|exact Ht]|done..].
  - simplify_eq. eapply tasks_ok_same; [eapply (put_pc_ok id name (WEnd j l)); [exact T|exact Ht]|done..].
  - simplify_eq. destruct (needRelease _); (eapply tasks_ok_same; [eapply (put_pc_ok id name (WTake l)); [exact T|exact Ht]|done..]).
Qed.

Lemma job_tasks_ok d worker cb reuse e z z' : tasks_ok z ->
  RunJobWithNamedWorkerWithCB d worker cb reuse z = Some (e, z') -> tasks_ok z'.
Proof.
  intros T. unfold RunJobWithNamedWorkerWithCB. case_bool_decide as Hr; [|by intros [= _ <-]].
  unfold newJob. destruct (acquireJob reuse z) as [[j z1]|] eqn:Ha; [|done]. cbn.
  assert (E : runner z1 = runner z /\ tasks z1 = tasks z /\ others z1 = others z /\ holding z1 = holding z /\ called z1 = called z).
  { unfold acquireJob in Ha. destruct reuse; [case_bool_decide|]; by simplify_eq. }
  destruct E as (E1 & E2 & E3 & E4 & E5).
  assert (T1 : tasks_ok z1) by by eapply tasks_ok_same.
  unfold getNamedQueue. rewrite E1. destruct (namedQueue (runner z) !! worker) as [q|]; intros [= _ <-].
  - destruct cb; (eapply tasks_ok_same; [eapply (set_queue_ok worker (Put j q) z1); [done|left; congruence]|done..]).
  - by eapply tasks_ok_same.
Qed.

Lemma tasks_step z z' : tasks_ok z -> step z z' -> tasks_ok z'.
Proof.
  intros T H. pose proof T as [C I K R A Hh S N D]. destruct H as
    [name Hf|name q Hf Hq Hl|d worker cb reuse e z' Hf H|Hf Hl|Hf Hr|id r Hf H|Hf Hr|Hf H|Hf|id Ht|n Hn|id name p err z' Ht H|j Hj Hn|j r Hj Hn].
  - unfold add_queue. destruct (namedQueue (runner z) !! name) as [q|] eqn:Hq; [by destruct z|].
    apply set_queue_ok; [done|]. right. split; [done|]. intros id p Ht. destruct (N _ _ _ Ht). congruence.
  - apply run_task_ok; try done. intros ? ? [= <- _]. by eexists.
  - by eapply job_tasks_ok.
  - by apply run_task_ok.
  - unfold RunTask. rewrite bool_decide_true by done. split; cbn; try done; [lia|congruence].
  - unfold StopCancelableTask in H. case_bool_decide as Hr; [|done]. case_bool_decide as Hi; [|done]. simplify_eq.
    split; cbn; try done.
    + intros k [? _]%elem_of_difference. auto.
    + intros k t Ht. destruct (decide (k = id)) as [->|]; [left; set_solver|].
      destruct (A k t Ht) as [?|[? ?]]; [left; set_solver|right; set_solver].
  - split; cbn; try done.
    + intros k t Ht. left. destruct (A k t Ht) as [?|[? ?]]; set_solver.
    + intros id name p Ht. rewrite lookup_fmap. by destruct (N _ _ _ Ht) as [q ->].
    + intros _ name q. rewrite lookup_fmap. destruct (namedQueue (runner z) !! name); [|done]. by intros [= <-].
  - split; cbn; try done.
    + intros k t Ht. destruct (A k t Ht) as [?|[? _]]; [by left|]. specialize (Hh Hf). congruence.
    + intros _. apply D. rewrite (Hh Hf). done.
  - split; cbn; done.
  - by eapply exit_ok.
  - split; cbn; try done; [lia|]. intros E. specialize (S E). lia.
  - by eapply work_tasks_ok.
  - by eapply tasks_ok_same.
  - by eapply tasks_ok_same.
Qed.

(** ** The jobs are accounted for *)

Lemma job_at_set j job z k : (j < length (cells z))%nat -> job_at (set_cell j job z) k = if decide (j = k) then job else job_at z k.
Proof.
  intros ?. unfold job_at; cbn. rewrite !nth_lookup. case_decide; subst.
  - by rewrite list_lookup_insert_eq.
  - by rewrite list_lookup_insert_ne.
Qed.

Lemma task_frame z z' t : task_ok z t -> (∀ k, k ∈ hand t -> job_at z' k = job_at z k) -> task_ok z' t.
Proof.
  intros Ht H. destruct t as [|name [|l|j l|j l]]; cbn in *; try done.
  - intros k Hk. rewrite H by done. auto.
  - rewrite H by (by left). destruct Ht as [? Hw]. split; [done|]. intros k Hk. rewrite H by (by right). auto.
  - rewrite H by (by left). destruct Ht as [? Hw]. split; [done|]. intros k Hk. rewrite H by (by right). auto.
Qed.

(** Only addresses move. *)
Lemma jobs_refs z z' : jobs_ok z -> cells z' = cells z -> calls z' = calls z -> ran z' = ran z -> dropped z' = dropped z ->
  (∀ pl j, j ∈ refs z' pl -> ∃ pl0, j ∈ refs z pl0) -> placed (refs z') ->
  (∀ j, j ∈ pool z' -> j ∈ pool z) ->
  (∀ name q j, namedQueue (runner z') !! name = Some q -> j ∈ items q -> waits (job_at z j)) ->
  (∀ id t, tasks z' !! id = Some t -> task_ok z t) -> jobs_ok z'.
Proof.
  intros [J C M P O Q T R] Ec En Er Ed Hm Hp Hpool Hq Ht.
  assert (Hj : ∀ k, job_at z' k = job_at z k) by (intros k; unfold job_at; by rewrite Ec).
  split; try rewrite Ec; try rewrite En; try rewrite Er; try rewrite Ed; try done.
  - intros j Hl. rewrite Hj. by apply J.
  - intros j k f. rewrite !Hj. apply C.
  - intros pl j [pl0 H]%Hm. by eapply M.
  - intros j ?%Hpool. rewrite Hj. auto.
  - intros name q j. rewrite Hj. apply Hq.
  - intros id t H. eapply task_frame; [by eapply Ht|]. done.
Qed.

(** One job changes. *)
Lemma jobs_cell z z' j job lr ld : jobs_ok z -> (j < length (cells z))%nat ->
  cells z' = <[j := job]> (cells z) -> calls z' = calls z -> ran z' = ran z ++ lr -> dropped z' = dropped z ++ ld ->
  fun_ job = fun_ (job_at z j) \/ fun_ job = None -> (∀ f, f ∈ lr ++ ld -> fun_ (job_at z j) = Some f) ->
  job_ok (calls z) (ran z') (dropped z') job ->
  (NoDup (ran z') /\ NoDup (dropped z') /\ ∀ f, f ∈ ran z' -> f ∈ dropped z' -> False) ->
  (∀ pl k, k ∈ refs z' pl -> ∃ pl0, k ∈ refs z pl0) -> placed (refs z') ->
  (∀ k, k ∈ pool z' -> fun_ (job_at z' k) = None /\ needRelease (job_at z' k) = true) ->
  (∀ name q k, namedQueue (runner z') !! name = Some q -> k ∈ items q -> waits (job_at z' k)) ->
  (∀ id t, tasks z' !! id = Some t -> task_ok z' t) -> jobs_ok z'.
Proof.
  intros [J C M P O Q T R] Hl Ec En Er Ed Hf Hnew Hj Hr Hm Hp Hpool Hq Ht.
  assert (Hat : ∀ k, job_at z' k = if decide (j = k) then job else job_at z k).
  { intros k. unfold job_at. rewrite Ec. apply (job_at_set j job z k Hl). }
  split; try rewrite Ec; rewrite ?length_insert; try done.
  - intros k Hk. rewrite Hat, En. case_decide as Hjk; [done|].
    specialize (J k Hk). unfold job_ok in *. destruct (fun_ (job_at z k)) as [f|] eqn:Ef; [|done].
    assert (Hn : f ∉ lr ++ ld) by (intros Hin%Hnew; by apply Hjk, (C j k f)).
    apply not_elem_of_app in Hn as [Hn1 Hn2]. destruct J as [? J]. split; [done|]. rewrite Er, Ed.
    destruct (jstate (job_at z k)); rewrite ?elem_of_app; tauto.
  - intros k k' f Hk Hk'. rewrite !Hat. assert (Hjf : ∀ k, (k < length (cells z))%nat -> fun_ job = Some f -> fun_ (job_at z k) = Some f -> j = k).
    { intros i Hi E Ei. destruct Hf as [Hf|Hf]; [|congruence]. apply (C j i f); congruence. }
    repeat case_decide; subst; try done; intros; eauto. symmetry. eauto.
  - intros pl k [pl0 H]%Hm. by eapply M.
  - destruct Hr as (? & ? & ?). repeat (split; [done|]). intros f. rewrite Er, Ed, En, !elem_of_app.
    destruct R as (_ & _ & _ & R). specialize (R f). rewrite elem_of_app in R.
    assert (f ∈ lr \/ f ∈ ld -> (f < calls z)%nat) by (rewrite <- elem_of_app; intros Hin%Hnew; specialize (J j Hl); unfold job_ok in J; rewrite Hin in J; by destruct J).
    tauto.
Qed.

(** Addresses only go. *)
Lemma placed_less f f' : placed f -> (∀ pl, f' pl = f pl \/ f' pl = []) -> placed f'.
Proof.
  intros Hp H. apply (placed_step f f' InPool []); [done|..].
  - intros pl. destruct (H pl) as [->| ->]; [by apply Hp|constructor].
  - intros pl j Hj. right. split; [|apply not_elem_of_nil]. destruct (H pl) as [E|E]; rewrite E in Hj; [done|by apply not_elem_of_nil in Hj].
Qed.

Lemma less_refs f f' : (∀ pl, f' pl = f pl \/ f' pl = []) -> ∀ (pl : place) (j : nat), j ∈ f' pl -> ∃ pl0, j ∈ f pl0.
Proof. intros H pl j Hj. destruct (H pl) as [E|E]; rewrite E in Hj; [by exists pl|by apply not_elem_of_nil in Hj]. Qed.

Lemma jobs_less z z' : jobs_ok z -> cells z' = cells z -> calls z' = calls z -> ran z' = ran z -> dropped z' = dropped z ->
  (∀ pl, refs z' pl = refs z pl \/ refs z' pl = []) -> (∀ id t, tasks z' !! id = Some t -> task_ok z t) -> jobs_ok z'.
Proof.
  intros J Ec En Er Ed H Ht. eapply jobs_refs; try done.
  - by apply less_refs.
  - eapply placed_less; [apply (ok_placed _ J)|done].
  - intros j Hj. destruct (H InPool) as [E|E]; cbn in E; rewrite E in Hj; [done|by apply not_elem_of_nil in Hj].
  - intros name q j Hq Hj. specialize (H (InQueue name)). cbn in H. rewrite Hq in H. cbn in H.
    destruct H as [E|E]; rewrite E in Hj; [|by apply not_elem_of_nil in Hj].
    destruct (namedQueue (runner z) !! name) as [q0|] eqn:E0; cbn in Hj; [|by apply not_elem_of_nil in Hj].
    by eapply (ok_queue _ J).
Qed.

Lemma add_queue_jobs name z : jobs_ok z -> jobs_ok (set_runner (add_queue name (runner z)) z).
Proof.
  intros J. apply (jobs_less z); try done; [|apply (ok_task _ J)].
  intros [|n|id]; cbn; try by left. unfold add_queue. destruct (namedQueue (runner z) !! name) eqn:E; [by left|].
  cbn. rewrite lookup_insert. case_decide; [by right|by left].
Qed.

Lemma run_task_jobs t z : jobs_ok z -> hand t = [] -> task_ok z t -> jobs_ok (run_task t z).
Proof.
  intros J Hh Ht. unfold run_task, RunCancelableTask. case_bool_decide; [|by destruct z, runner0].
  apply (jobs_less z); try done; cbn.
  - intros [|n|id]; cbn; try by left. rewrite lookup_insert. case_decide; [by right|by left].
  - intros id t'. rewrite lookup_insert. case_decide; [by intros [= <-]|apply (ok_task _ J)].
Qed.

Lemma Stop_begin_jobs z : jobs_ok z -> jobs_ok (set_runner (Stop_begin (runner z)) z).
Proof.
  intros J. apply (jobs_less z); try done; [|apply (ok_task _ J)].
  intros [|n|id]; cbn; try by left. rewrite lookup_fmap. destruct (namedQueue (runner z) !! n); by right.
Qed.

Lemma exit_jobs id z : jobs_ok z -> jobs_ok (exit_task id z).
Proof.
  intros J. apply (jobs_less z); try done; cbn.
  - intros [|n|k]; cbn; try by left. rewrite lookup_delete. case_decide; [by right|by left].
  - intros k t [_ ?]%lookup_delete_Some. by apply (ok_task _ J k).
Qed.

(** What does not touch jobs or where they are. *)
Lemma jobs_same z z' : jobs_ok z -> cells z' = cells z -> calls z' = calls z -> ran z' = ran z -> dropped z' = dropped z ->
  pool z' = pool z -> tasks z' = tasks z -> namedQueue (runner z') = namedQueue (runner z) -> jobs_ok z'.
Proof.
  intros J Ec En Er Ed Ep Et Eq. apply (jobs_less z); try done; [|rewrite Et; apply (ok_task _ J)].
  intros [|n|id]; cbn; left; congruence.
Qed.

Lemma task_soft z z' t : task_ok z t -> (∀ k, waits (job_at z k) -> waits (job_at z' k)) ->
  (∀ k, fun_ (job_at z k) <> None /\ jstate (job_at z k) = Running -> fun_ (job_at z' k) <> None /\ jstate (job_at z' k) = Running) ->
  (∀ k, IsComplete (job_at z k) = true -> IsComplete (job_at z' k) = true) -> task_ok z' t.
Proof. intros Ht H1 H2 H3. destruct t as [|name []]; cbn in *; try done; auto; destruct Ht; split; auto. Qed.

(** The jobs of a caller: he cancels them and sets their results. *)
Lemma owner_jobs z z' j job ld : jobs_ok z -> (j < length (cells z))%nat -> needRelease (job_at z j) = false ->
  cells z' = <[j := job]> (cells z) -> calls z' = calls z -> ran z' = ran z -> dropped z' = dropped z ++ ld ->
  pool z' = pool z -> tasks z' = tasks z -> runner z' = runner z ->
  fun_ job = fun_ (job_at z j) -> needRelease job = false ->
  (jstate job = jstate (job_at z j) /\ ld = [] \/
   jstate (job_at z j) = Pending /\ jstate job = Cancelling /\ ld = option_list (fun_ (job_at z j))) -> jobs_ok z'.
Proof.
  intros J Hl Hn Ec En Er Ed Ep Et Eq Ef Hnr Hs.
  assert (Hat : ∀ k, job_at z' k = if decide (j = k) then job else job_at z k).
  { intros k. unfold job_at. rewrite Ec. apply (job_at_set j job z k Hl). }
  assert (Hld : ∀ f, f ∈ ld -> fun_ (job_at z j) = Some f /\ jstate (job_at z j) = Pending /\ ld = [f]).
  { intros f. destruct Hs as [[_ ->]|(Hp & _ & ->)]; [by intros ?%not_elem_of_nil|].
    destruct (fun_ (job_at z j)); cbn; [intros ->%list_elem_of_singleton|intros ?%not_elem_of_nil]; done. }
  assert (Hwt : waits (job_at z j) -> waits job).
  { unfold waits. rewrite Ef. destruct Hs as [[-> _]|(_ & -> & _)]; tauto. }
  pose proof (ok_job _ J j Hl) as Hj. unfold job_ok in Hj.
  assert (Hrefs : refs z' = refs z \/ True) by by right.
  assert (Hr : ∀ pl, refs z' pl = refs z pl) by (intros [|n|id]; cbn; congruence).
  eapply (jobs_cell z z' j job [] ld); try done; rewrite ?app_nil_r; try done.
  - by left.
  - intros f Hf. by apply Hld in Hf as [? _].
  - unfold job_ok. rewrite Ef, Er, Ed. destruct (fun_ (job_at z j)) as [f|]; [|done]. destruct Hj as [? Hj]. split; [done|].
    destruct Hs as [[-> ->]|(Hp & -> & ->)].
    + rewrite app_nil_r. done.
    + rewrite Hp in Hj. cbn. set_solver.
  - rewrite Er, Ed. destruct (ok_ran _ J) as (R1 & R2 & R3 & _). split; [done|].
    destruct ld as [|f ld]; [by rewrite app_nil_r|]. destruct (Hld f) as (Hf & Hp & [= ->]); [by left|].
    rewrite Hf, Hp in Hj. destruct Hj as (_ & Hj1 & Hj2). split.
    + apply NoDup_app. split; [done|]. split; [|apply NoDup_singleton]. intros x Hx ->%list_elem_of_singleton. done.
    + intros x Hx [Hx'| ->%list_elem_of_singleton]%elem_of_app; [by eapply R3|done].
  - intros pl k. rewrite Hr. by exists pl.
  - eapply placed_less; [apply (ok_placed _ J)|]. intros pl. left. apply Hr.
  - intros k. rewrite Ep, Hat. intros Hk%(ok_pool _ J). case_decide; subst; [|done]. destruct Hk. congruence.
  - intros name q k. rewrite Eq, Hat. intros Hq Hk. pose proof (ok_queue _ J _ _ _ Hq Hk). case_decide; subst; auto.
  - intros id t. rewrite Et. intros Ht%(ok_task _ J). apply (task_soft z); [done|..]; intros k; rewrite Hat; case_decide; subst; auto.
    + rewrite Ef. destruct Hs as [[-> _]|(-> & _)]; [done|]. by intros [_ ?].
    + unfold IsComplete, IsNotComplete. destruct Hs as [[-> _]|(-> & _)]; done.
Qed.

(** ** Jobs are made *)

(** An address nobody has. *)
Definition free_at z (j : nat) : Prop := (j < length (cells z))%nat /\ ∀ pl, j ∉ refs z pl.

Lemma job_at_app z k : job_at (set_cells (cells z ++ [blank]) z) k = job_at z k.
Proof.
  unfold job_at; cbn. rewrite !nth_lookup. destruct (decide (k < length (cells z))%nat) as [Hk|Hk].
  - by rewrite lookup_app_l.
  - rewrite lookup_app_r by lia. rewrite (lookup_ge_None_2 (cells z)) by lia. by destruct (k - length (cells z))%nat as [|[]].
Qed.

(** A new job. *)
Lemma grow_jobs z z' : jobs_ok z -> cells z' = cells z ++ [blank] -> calls z' = calls z -> ran z' = ran z -> dropped z' = dropped z ->
  pool z' = pool z -> tasks z' = tasks z -> runner z' = runner z -> jobs_ok z'.
Proof.
  intros [J C M P O Q T R] Ec En Er Ed Ep Et Eq.
  assert (Hat : ∀ k, job_at z' k = job_at z k) by (intros k; unfold job_at; rewrite Ec; apply job_at_app).
  assert (Hr : ∀ pl, refs z' pl = refs z pl) by (intros [|n|id]; cbn; congruence).
  assert (Hb : ∀ k, (length (cells z) <= k)%nat -> fun_ (job_at z k) = None) by (intros; unfold job_at; by rewrite nth_overflow).
  split; rewrite ?Ec, ?En, ?Er, ?Ed, ?Ep, ?Et, ?Eq, ?length_app; cbn; try done.
  - intros k Hk. rewrite Hat. destruct (decide (k < length (cells z))%nat) as [?|?]; [by apply J|].
    unfold job_ok. by rewrite Hb by lia.
  - intros i k f Hi Hk. rewrite !Hat. intros H1 H2.
    apply (C i k f); try done; apply Nat.nle_gt; intros ?%Hb; congruence.
  - intros pl i. rewrite Hr. intros ?%M. lia.
  - eapply placed_less; [done|]. intros pl. left. apply Hr.
  - intros i. rewrite Hat. apply O.
  - intros n q i. rewrite Hat. apply Q.
  - intros id t Ht%T. eapply task_frame; [done|]. intros k _. apply Hat.
Qed.

Lemma acquire_jobs reuse z j z' : jobs_ok z -> acquireJob reuse z = Some (j, z') ->
  jobs_ok z' /\ free_at z' j /\ fun_ (job_at z' j) = None /\ runner z' = runner z /\ calls z' = calls z.
Proof.
  intros J. destruct reuse as [k|]; cbn.
  - case_bool_decide as Hk; [|done]. intros [= -> <-].
    assert (Hf : ∀ pl, j ∉ refs (set_pool (filter (λ k, k <> j) (pool z)) z) pl).
    { intros pl Hj. destruct pl as [|n|id].
      - cbn in Hj. by apply list_elem_of_filter in Hj as [? _].
      - by pose proof (proj2 (ok_placed _ J) InPool (InQueue n) j Hk Hj).
      - by pose proof (proj2 (ok_placed _ J) InPool (InTask id) j Hk Hj). }
    split; [|split; [split; [by eapply (ok_made _ J InPool)|done]|split; [by apply (ok_pool _ J)|done]]].
    assert (Hsub : ∀ pl i, i ∈ refs (set_pool (filter (λ k, k <> j) (pool z)) z) pl -> i ∈ refs z pl).
    { intros [|n|id] i; cbn; try done. by intros [_ ?]%list_elem_of_filter. }
    apply (jobs_refs z); try done.
    + intros pl i Hi. exists pl. auto.
    + apply (placed_step (refs z) _ InPool []); [apply (ok_placed _ J)|..].
      * intros [|n|id]; cbn; [apply NoDup_filter, (proj1 (ok_placed _ J) InPool)|apply (proj1 (ok_placed _ J) (InQueue n))|apply (proj1 (ok_placed _ J) (InTask id))].
      * intros pl i Hi. right. split; [auto|apply not_elem_of_nil].
    + intros i. cbn. by intros [_ ?]%list_elem_of_filter.
    + apply (ok_queue _ J).
    + apply (ok_task _ J).
  - intros [= <- <-].
    assert (Hfree : ∀ pl, length (cells z) ∉ refs z pl) by (intros pl Hj%(ok_made _ J); lia).
    split; [|split; [split; [cbn; rewrite length_app; cbn; lia|done]|split; [|done]]].
    + by apply (grow_jobs z).
    + rewrite job_at_app. unfold job_at. by rewrite nth_overflow.
Qed.

Lemma init_jobs z z' j job : jobs_ok z -> free_at z j -> fun_ job = Some (calls z) -> jstate job = Pending ->
  cells z' = <[j := job]> (cells z) -> calls z' = S (calls z) -> ran z' = ran z -> dropped z' = dropped z ->
  pool z' = pool z -> tasks z' = tasks z -> runner z' = runner z -> jobs_ok z'.
Proof.
  intros [J C M P O Q T (R1 & R2 & R3 & R4)] [Hl Hf] Ef Es Ec En Er Ed Ep Et Eq.
  assert (Hat : ∀ k, job_at z' k = if decide (j = k) then job else job_at z k).
  { intros k. unfold job_at. rewrite Ec. apply (job_at_set j job z k Hl). }
  assert (Hr : ∀ pl, refs z' pl = refs z pl) by (intros [|n|id]; cbn; congruence).
  assert (Hlt : ∀ k f, (k < length (cells z))%nat -> fun_ (job_at z k) = Some f -> (f < calls z)%nat).
  { intros k f Hk Hkf. specialize (J k Hk). unfold job_ok in J. rewrite Hkf in J. by destruct J. }
  split; rewrite ?Ec, ?En, ?Er, ?Ed, ?Ep, ?Et, ?Eq, ?length_insert; try done.
  - intros k Hk. rewrite Hat. unfold job_ok. case_decide as Hjk; [rewrite Ef, Es|].
    + split; [lia|]. split; intros Hc; (assert (calls z < calls z)%nat by (apply R4, elem_of_app; auto)); lia.
    + specialize (J k Hk). unfold job_ok in J. destruct (fun_ (job_at z k)); [|done]. destruct J. split; [lia|done].
  - intros k k' f Hk Hk'. rewrite !Hat. repeat case_decide; subst; rewrite ?Ef; try done; intros H1 H2; simplify_eq; eauto.
    + apply Hlt in H2; [lia|done].
    + apply Hlt in H1; [lia|done].
  - intros pl k. rewrite Hr. apply M.
  - eapply placed_less; [done|]. intros pl. left. apply Hr.
  - intros k Hk. rewrite Hat. rewrite decide_False by (intros ->; by apply (Hf InPool)). auto.
  - intros n q k Hq Hk. rewrite Hat. rewrite decide_False; [eauto|]. intros ->. apply (Hf (InQueue n)). cbn. by rewrite Hq.
  - intros id t Ht. eapply task_frame; [by eapply T|]. intros k Hk. rewrite Hat. rewrite decide_False; [done|].
    intros ->. apply (Hf (InTask id)). cbn. by rewrite Ht.
  - repeat (split; [done|]). intros f Hx%R4. lia.
Qed.

Lemma put_jobs worker q j z : jobs_ok z -> free_at z j -> waits (job_at z j) -> namedQueue (runner z) !! worker = Some q ->
  jobs_ok (set_runner (set_queue worker (Put j q) (runner z)) z).
Proof.
  intros J [Hl Hf] Hw Hq. unfold Put. destruct (disposed q) eqn:Hd.
  { apply (jobs_less z); try done; [|apply (ok_task _ J)]. intros [|n|id]; cbn; try by left.
    rewrite lookup_insert. case_decide; subst; [left; by rewrite Hq|by left]. }
  set (q' := mkQueue (items q ++ [j]) false).
  assert (Hr : ∀ pl, refs (set_runner (set_queue worker q' (runner z)) z) pl =
    if decide (pl = InQueue worker) then items q ++ [j] else refs z pl).
  { intros [|n|id]; cbn; try done. rewrite lookup_insert. repeat case_decide; simplify_eq; done. }
  assert (Hqi : items q = refs z (InQueue worker)) by (cbn; by rewrite Hq).
  destruct J as [J C M P O Q T R]. split; cbn; try done.
  - intros pl k. rewrite Hr. case_decide; [|apply M]. rewrite Hqi. intros [?%M| ->%list_elem_of_singleton]%elem_of_app; done.
  - apply (placed_step (refs z) _ (InQueue worker) [j]); [done|..].
    + intros pl. rewrite Hr. case_decide; [|apply P]. rewrite Hqi. apply NoDup_app. split; [apply P|].
      split; [|apply NoDup_singleton]. intros x Hx ->%list_elem_of_singleton. by eapply Hf.
    + intros pl k. rewrite Hr, list_elem_of_singleton. case_decide as Hp; [subst|].
      * rewrite Hqi. intros [Hk| ->%list_elem_of_singleton]%elem_of_app; [right|left; done]. split; [done|]. intros ->. by eapply Hf.
      * intros Hk. right. split; [done|]. intros ->. by eapply Hf.
  - intros n q0 k. rewrite lookup_insert. case_decide; [|by apply Q]. intros [= <-] [Hk| ->%list_elem_of_singleton]%elem_of_app; [by eapply Q|done].
Qed.

Lemma job_jobs d worker cb reuse e z z' : jobs_ok z ->
  RunJobWithNamedWorkerWithCB d worker cb reuse z = Some (e, z') -> jobs_ok z'.
Proof.
  intros J. unfold RunJobWithNamedWorkerWithCB. case_bool_decide; [|by intros [= _ <-]].
  unfold newJob. destruct (acquireJob reuse z) as [[j z1]|] eqn:Ha; [|done]. cbn.
  destruct (acquire_jobs _ _ _ _ J Ha) as (J1 & F1 & N1 & E1 & Ec1). set (job := init_job d (calls z1) (job_at z1 j)).
  assert (Hz : ∀ z2 job2, fun_ job2 = fun_ job -> jstate job2 = Pending -> cells z2 = <[j := job2]> (cells z1) -> calls z2 = S (calls z1) ->
    ran z2 = ran z1 -> dropped z2 = dropped z1 -> pool z2 = pool z1 -> tasks z2 = tasks z1 -> runner z2 = runner z1 ->
    jobs_ok z2 /\ free_at z2 j /\ waits (job_at z2 j)).
  { intros z2 job2 Hf2 Hs2 H1 H2 H3 H4 H5 H6 H7. split; [by eapply (init_jobs z1 z2 j job2)|].
    destruct F1 as [Fl Fr]. split; [split; [by rewrite H1, length_insert|]|].
    - intros pl Hj. apply (Fr pl). revert Hj. destruct pl; cbn; rewrite ?H5, ?H6, ?H7; done.
    - unfold job_at. rewrite H1. pose proof (job_at_set j job2 z1 j Fl) as E. unfold job_at in E; cbn in E.
      rewrite E, decide_True by done. split; [by rewrite Hf2|by left]. }
  unfold getNamedQueue. cbn. destruct (namedQueue (runner z1) !! worker) as [q|] eqn:Hq; intros [= _ <-].
  - destruct cb.
    + set (z2 := set_cell j _ _). destruct (Hz z2 (keep job)) as (J2 & F2 & W2); try done.
      { subst z2. cbn. unfold job_at; cbn. rewrite list_insert_insert_eq. f_equal. rewrite nth_lookup, list_lookup_insert_eq; [done|apply F1]. }
      by apply (put_jobs worker q j z2).
    + set (z2 := add_call _). destruct (Hz z2 job) as (J2 & F2 & W2); try done. by apply (put_jobs worker q j z2).
  - set (z2 := add_call _). by destruct (Hz z2 job).
Qed.

(** ** Workers *)

Lemma hand_made id t z j : jobs_ok z -> tasks z !! id = Some t -> j ∈ hand t -> (j < length (cells z))%nat.
Proof. intros J Ht Hj. apply (ok_made _ J (InTask id)). cbn. by rewrite Ht. Qed.

(** What a worker has in its hand is nowhere else. *)
Lemma hand_only id t z j pl : jobs_ok z -> tasks z !! id = Some t -> j ∈ hand t -> j ∈ refs z pl -> pl = InTask id.
Proof. intros J Ht Hj Hp. eapply (proj2 (ok_placed _ J)); [done|]. cbn. by rewrite Ht. Qed.

(** The worker goes on with what it has, or less. *)
Lemma hand_placed id t t' z z' : jobs_ok z -> tasks z !! id = Some t -> hand t' `sublist_of` hand t ->
  tasks z' = <[id := t']> (tasks z) -> pool z' = pool z -> runner z' = runner z ->
  placed (refs z') /\ ∀ pl k, k ∈ refs z' pl -> ∃ pl0, k ∈ refs z pl0.
Proof.
  intros J Ht Hs Et Ep Er.
  assert (Hr : ∀ pl, refs z' pl `sublist_of` refs z pl).
  { intros [|n|k]; cbn; rewrite ?Et, ?Ep, ?Er; try done. rewrite lookup_insert. case_decide; subst; [by rewrite Ht|done]. }
  split; [|intros pl k Hk; exists pl; by eapply elem_of_sublist].
  apply (placed_step (refs z) _ InPool []); [apply (ok_placed _ J)|..].
  - intros pl. eapply sublist_NoDup; [apply (ok_placed _ J)|apply Hr].
  - intros pl k Hk. right. split; [by eapply elem_of_sublist|apply not_elem_of_nil].
Qed.

(** It takes jobs out of its queue. *)
Lemma take_jobs id name q z : jobs_ok z -> tasks z !! id = Some (Worker name WGet) -> namedQueue (runner z) !! name = Some q ->
  jobs_ok (put_pc id name (WTake (take batch (items q))) (set_runner (set_queue name (mkQueue (drop batch (items q)) false) (runner z)) z)).
Proof.
  intros J Ht Hq. set (z' := put_pc _ _ _ _).
  assert (Hqi : refs z (InQueue name) = items q) by (cbn; by rewrite Hq).
  assert (Hid : refs z (InTask id) = []) by (cbn; by rewrite Ht).
  assert (Hr : ∀ pl, refs z' pl = if decide (pl = InQueue name) then drop batch (items q)
    else if decide (pl = InTask id) then take batch (items q) else refs z pl).
  { intros [|n|k]; cbn; try done; rewrite lookup_insert; repeat case_decide; simplify_eq; done. }
  assert (Hn : NoDup (take batch (items q) ++ drop batch (items q))) by (rewrite take_drop, <- Hqi; apply (ok_placed _ J)).
  apply NoDup_app in Hn as (Hn1 & Hn2 & Hn3).
  assert (Hback : ∀ j, j ∈ take batch (items q) \/ j ∈ drop batch (items q) -> j ∈ refs z (InQueue name)).
  { intros j. rewrite Hqi. rewrite <- (take_drop batch (items q)) at 3. by rewrite elem_of_app. }
  apply (jobs_refs z); try done.
  - intros pl j. rewrite Hr. repeat case_decide; intros Hj; eauto.
  - apply (placed_step (refs z) _ (InTask id) (take batch (items q))); [apply (ok_placed _ J)|..].
    + intros pl. rewrite Hr. repeat case_decide; try done. apply (ok_placed _ J).
    + intros pl j. rewrite Hr. case_decide as H1; [subst|case_decide as H2; [by left|]]; intros Hj; right.
      * split; [auto|]. intros Hj'. by eapply Hn2.
      * split; [done|]. intros Hj'. apply H1. eapply (proj2 (ok_placed _ J)); [exact Hj|auto].
  - cbn. intros n q' j. rewrite lookup_insert. case_decide; [|by eapply (ok_queue _ J)]. intros [= <-] Hj.
    eapply (ok_queue _ J); [done|]. rewrite <- Hqi. auto.
  - cbn. intros k t. rewrite lookup_insert. case_decide; [|by eapply (ok_task _ J)]. intros [= <-] j Hj.
    eapply (ok_queue _ J); [done|]. rewrite <- Hqi. auto.
Qed.

(** It changes a job it has in its hand. *)
Lemma work_cell id t t' j job lr z z' : jobs_ok z -> tasks z !! id = Some t -> j ∈ hand t -> hand t' `sublist_of` hand t ->
  cells z' = <[j := job]> (cells z) -> calls z' = calls z -> ran z' = ran z ++ lr -> dropped z' = dropped z ->
  pool z' = pool z -> runner z' = runner z -> tasks z' = <[id := t']> (tasks z) ->
  fun_ job = fun_ (job_at z j) -> (∀ f, f ∈ lr -> fun_ (job_at z j) = Some f) ->
  job_ok (calls z) (ran z') (dropped z') job ->
  NoDup (ran z') /\ (∀ f, f ∈ ran z' -> f ∈ dropped z -> False) -> task_ok z' t' -> jobs_ok z'.
Proof.
  intros J Ht Hj Hs Ec En Er Ed Ep Eq Et Ef Hlr Hok [Hn Hd] Hto.
  pose proof (hand_made _ _ _ _ J Ht Hj) as Hl.
  assert (Hat : ∀ k, job_at z' k = if decide (j = k) then job else job_at z k).
  { intros k. unfold job_at. rewrite Ec. apply (job_at_set j job z k Hl). }
  destruct (hand_placed id t t' z z' J Ht Hs Et Ep Eq) as [Hp Hm].
  eapply (jobs_cell z z' j job lr []); rewrite ?app_nil_r; try done.
  - by left.
  - rewrite Ed. destruct (ok_ran _ J) as (_ & ? & _). done.
  - rewrite Ep. intros k Hk. rewrite Hat. rewrite decide_False; [by apply (ok_pool _ J)|].
    intros <-. by pose proof (hand_only id t z j InPool J Ht Hj Hk).
  - rewrite Eq. intros n q k Hq Hk. rewrite Hat. rewrite decide_False; [by eapply (ok_queue _ J)|].
    intros <-. pose proof (hand_only id t z j (InQueue n) J Ht Hj) as H. cbn in H. rewrite Hq in H. by specialize (H Hk).
  - rewrite Et. intros k t0. rewrite lookup_insert. case_decide as Hk; [by intros [= <-]|]. intros Ht0.
    eapply task_frame; [by eapply (ok_task _ J)|]. intros i Hi. rewrite Hat, decide_False; [done|]. intros <-.
    pose proof (hand_only id t z j (InTask k) J Ht Hj) as H. cbn in H. rewrite Ht0 in H. specialize (H Hi). congruence.
Qed.

(** It releases a job. *)
Lemma release_jobs id name j l z : jobs_ok z -> tasks z !! id = Some (Worker name (WEnd j l)) ->
  jobs_ok (put_pc id name (WTake l) (set_pool (j :: pool z) (set_cell j (reset (job_at z j)) z))).
Proof.
  intros J Ht. assert (Hj : j ∈ hand (Worker name (WEnd j l))) by (cbn; left).
  pose proof (hand_made _ _ _ _ J Ht Hj) as Hl. set (z' := put_pc _ _ _ _).
  assert (Hat : ∀ k, job_at z' k = if decide (j = k) then reset (job_at z j) else job_at z k).
  { intros k. apply (job_at_set j (reset (job_at z j)) z k Hl). }
  assert (Hid : refs z (InTask id) = j :: l) by (cbn; by rewrite Ht).
  pose proof (proj1 (ok_placed _ J) (InTask id)) as Hn. rewrite Hid in Hn. apply NoDup_cons in Hn as [Hjl Hn].
  assert (Hr : ∀ pl, refs z' pl = match pl with InPool => j :: pool z | _ => if decide (pl = InTask id) then l else refs z pl end).
  { intros [|n|k]; cbn; try done. rewrite lookup_insert. repeat case_decide; simplify_eq; done. }
  assert (Hother : ∀ pl, j ∈ refs z pl -> pl = InTask id) by (intros pl; by eapply hand_only).
  assert (Hjp : j ∉ pool z) by (intros Hp; by specialize (Hother InPool Hp)).
  eapply (jobs_cell z z' j (reset (job_at z j)) [] []); rewrite ?app_nil_r; try done.
  - by right.
  - by intros f ?%not_elem_of_nil.
  - destruct (ok_ran _ J) as (? & ? & ? & _). done.
  - intros pl k. rewrite Hr. destruct pl as [|n|i].
    + intros [->|Hk]%elem_of_cons; [exists (InTask id); rewrite Hid; left|by exists InPool].
    + case_decide; [done|]. intros Hk. by exists (InQueue n).
    + case_decide as Hi; intros Hk; [exists (InTask id); rewrite Hid; by right|by exists (InTask i)].
  - apply (placed_step (refs z) _ InPool [j]); [apply (ok_placed _ J)|..].
    + intros pl. rewrite Hr. destruct pl as [|n|i]; [|case_decide; [done|apply (ok_placed _ J)]..].
      apply NoDup_cons. split; [done|]. apply (proj1 (ok_placed _ J) InPool).
    + intros pl k. rewrite Hr, list_elem_of_singleton. destruct pl as [|n|i].
      * intros [->|Hk]%elem_of_cons; [by left|right; split; [done|by intros ->]].
      * case_decide; [done|]. intros Hk. right. split; [done|]. intros ->. by apply Hother in Hk.
      * case_decide as Hi; intros Hk; right.
        -- rewrite Hi, Hid. split; [by right|by intros ->].
        -- split; [done|]. intros ->. by apply Hother in Hk.
  - intros k Hk. rewrite Hat. case_decide; [done|]. cbn in Hk. apply elem_of_cons in Hk as [->|Hk]; [done|by apply (ok_pool _ J)].
  - intros n q k Hq Hk. rewrite Hat, decide_False; [by eapply (ok_queue _ J)|]. intros <-.
    specialize (Hother (InQueue n)). cbn in Hother, Hq. rewrite Hq in Hother. by specialize (Hother Hk).
  - intros k t0. cbn. rewrite lookup_insert. case_decide as Hk.
    + intros [= <-] i Hi. rewrite Hat, decide_False by (by intros ->). destruct (ok_task _ J _ _ Ht) as [_ Hw]. auto.
    + intros Ht0. eapply task_frame; [by eapply (ok_task _ J)|]. intros i Hi. rewrite Hat, decide_False; [done|]. intros <-.
      specialize (Hother (InTask k)). cbn in Hother. rewrite Ht0 in Hother. specialize (Hother Hi). congruence.
Qed.

Lemma put_pc_jobs id name p p' z : jobs_ok z -> tasks z !! id = Some (Worker name p) ->
  hand (Worker name p') `sublist_of` hand (Worker name p) -> task_ok z (Worker name p') -> jobs_ok (put_pc id name p' z).
Proof.
  intros J Ht Hs Hto. destruct (hand_placed id _ _ z (put_pc id name p' z) J Ht Hs) as [Hp Hm]; [done..|].
  apply (jobs_refs z); try done; [apply (ok_queue _ J)|]. cbn. intros k t. rewrite lookup_insert.
  case_decide; [by intros [= <-]|apply (ok_task _ J)].
Qed.

Lemma job_self z z1 j job : (j < length (cells z))%nat -> cells z1 = <[j := job]> (cells z) -> job_at z1 j = job.
Proof. intros Hl E. unfold job_at. by rewrite E, nth_lookup, list_lookup_insert_eq. Qed.

(** The rest of the hand waits on. *)
Lemma rest_waits id j l z t job z1 : jobs_ok z -> tasks z !! id = Some t -> hand t = j :: l ->
  (∀ k, k ∈ l -> waits (job_at z k)) -> cells z1 = <[j := job]> (cells z) -> ∀ k, k ∈ l -> waits (job_at z1 k).
Proof.
  intros J Ht Hh Hw E k Hk. pose proof (proj1 (ok_placed _ J) (InTask id)) as Hn. cbn in Hn. rewrite Ht in Hn. cbn in Hn.
  rewrite Hh in Hn. apply NoDup_cons in Hn as [Hjl _].
  unfold job_at. rewrite E, nth_lookup, list_lookup_insert_ne by (by intros ->). rewrite <- nth_lookup. by apply Hw.
Qed.

Lemma work_jobs id name p err z z' : jobs_ok z -> tasks z !! id = Some (Worker name p) -> work id name p err z = Some z' -> jobs_ok z'.
Proof.
  intros J Ht H. destruct p as [|[|j l]|j l|j l]; cbn in H.
  - destruct (namedQueue (runner z) !! name) as [q|] eqn:Hq; [|done]. cbn in H. unfold Get in H.
    destruct (disposed q); cbn in H; simplify_eq.
    + apply exit_jobs. apply (jobs_less z); try done; [|apply (ok_task _ J)].
      intros [|n|k]; cbn; left; try done. by rewrite insert_id.
    + destruct (items q) as [|j l] eqn:Hi; cbn in H; simplify_eq. 
      pose proof (take_jobs id name q z J Ht Hq) as H. by rewrite Hi in H.
  - simplify_eq. by eapply put_pc_jobs.
  - pose proof (ok_task _ J _ _ Ht) as Hw. cbn in Hw.
    assert (Hj : waits (job_at z j)) by (apply Hw; left). assert (Hjh : j ∈ j :: l) by left.
    pose proof (hand_made _ _ _ j J Ht Hjh) as Hl. pose proof (ok_job _ J j Hl) as Hok. unfold job_ok in Hok.
    destruct Hj as [Hf Hs]. destruct (fun_ (job_at z j)) as [f|] eqn:Ef; [|done].
    destruct (ok_ran _ J) as (R1 & R2 & R3 & _).
    unfold before in H. destruct Hs as [Hs|Hs]; rewrite Hs in H, Hok; cbn in H; simplify_eq.
    + rewrite Ef. cbn. eapply (work_cell id _ (Worker name (WRun j l)) j (setState Running (job_at z j)) [f]); try done.
      * intros f' ->%list_elem_of_singleton. done.
      * unfold job_ok. cbn. rewrite Ef. split; [tauto|]. set_solver.
      * cbn. split; [apply NoDup_app; split; [done|]; split; [|apply NoDup_singleton]; intros x Hx ->%list_elem_of_singleton; tauto|].
        intros x [Hx| ->%list_elem_of_singleton]%elem_of_app; [by apply R3|tauto].
      * split; [|eapply (rest_waits id j l z); [done|done|done| |done]; intros k Hk; apply Hw; by right]. rewrite (job_self z _ j (setState Running (job_at z j))) by done. cbn. by rewrite Ef.
    + eapply (work_cell id _ (Worker name (WEnd j l)) j (setState Cancelled (job_at z j)) []); rewrite ?app_nil_r; try done.
      * by intros f0 ?%not_elem_of_nil.
      * unfold job_ok. cbn. rewrite Ef. tauto.
      * split; [|eapply (rest_waits id j l z); [done|done|done| |done]; intros k Hk; apply Hw; by right]. by rewrite (job_self z _ j (setState Cancelled (job_at z j))) by done.
  - simplify_eq. destruct (ok_task _ J _ _ Ht) as [[Hf Hs] Hw]. assert (Hjh : j ∈ j :: l) by left.
    pose proof (hand_made _ _ _ j J Ht Hjh) as Hl. pose proof (ok_job _ J j Hl) as Hok. unfold job_ok in Hok. rewrite Hs in Hok.
    destruct (ok_ran _ J) as (R1 & R2 & R3 & _).
    eapply (work_cell id _ (Worker name (WEnd j l)) j (after err (job_at z j)) []); rewrite ?app_nil_r; try done.
    + by intros f0 ?%not_elem_of_nil.
    + unfold job_ok, after. cbn. destruct (fun_ (job_at z j)); [|done]. rewrite Hs. cbn. destruct err; tauto.
    + split; [|eapply (rest_waits id j l z); done].
      rewrite (job_self z _ j (after err (job_at z j))) by done. unfold after. rewrite Hs. by destruct err.
  - simplify_eq. destruct (ok_task _ J _ _ Ht) as [Hc Hw]. destruct (needRelease (job_at z j)); [by apply release_jobs|].
    eapply put_pc_jobs; [done|done| |done]. cbn. by apply sublist_cons.
Qed.

(** ** Reachable states *)

Lemma jobs_step z z' : tasks_ok z -> jobs_ok z -> step z z' -> jobs_ok z'.
Proof.
  intros T J H. destruct H as
    [name Hf|name q Hf Hq Hl|d worker cb reuse e z' Hf H|Hf Hl|Hf Hr|id r Hf H|Hf Hr|Hf H|Hf|id Ht|n Hn|id name p err z' Ht H|j Hj Hn|j r Hj Hn].
  - by apply add_queue_jobs.
  - by apply run_task_jobs.
  - by eapply job_jobs.
  - by apply run_task_jobs.
  - unfold RunTask. rewrite bool_decide_true by done. by eapply jobs_same.
  - unfold StopCancelableTask in H. repeat case_bool_decide; simplify_eq. by eapply jobs_same.
  - eapply jobs_same; [by apply (Stop_begin_jobs z)|done..].
  - by eapply jobs_same.
  - by eapply jobs_same.
  - by apply exit_jobs.
  - by eapply jobs_same.
  - by eapply work_jobs.
  - unfold cancel_job. eapply (owner_jobs z _ j (Cancel (job_at z j))); try done; unfold Cancel; case_bool_decide; auto.
  - eapply (owner_jobs z _ j (SetResult r (job_at z j)) []); rewrite ?app_nil_r; auto.
Qed.

Lemma start_runner : runner start = NewRunner.
Proof. reflexivity. Qed.

Lemma start_ok : tasks_ok start /\ jobs_ok start.
Proof.
  assert (T : tasks_ok nothing).
  { split; try done; cbn; lia. }
  assert (J : jobs_ok nothing).
  { assert (Hr : ∀ pl, refs nothing pl = []) by (by intros []).
    split; try done; cbn; try lia; try (by intros ? ?%not_elem_of_nil).
    - intros pl j. rewrite Hr. by intros ?%not_elem_of_nil.
    - split; [intros pl; rewrite Hr; constructor|]. intros pl pl' j. rewrite Hr. by intros ?%not_elem_of_nil.
    - repeat split; try constructor; by intros ? ?%not_elem_of_nil. }
  split.
  - apply run_task_ok; [|intros ? ? [= <- _]; by eexists|done|done]. apply set_queue_ok; [done|by left].
  - apply run_task_jobs; [|done|done]. by apply add_queue_jobs.
Qed.

Lemma reached_step z z' : reached z -> step z z' -> reached z'.
Proof. apply rtc_r. Qed.

Lemma reached_state z : reached z -> tasks_ok z /\ jobs_ok z.
Proof.
  revert z. apply (rtc_ind_r (λ z, tasks_ok z /\ jobs_ok z) start); [apply start_ok|].
  intros z z' _ H [T J]. split; [by eapply tasks_step|by eapply jobs_step].
Qed.

(** ** What holds in every reachable state *)

(** Whatever the callers, the workers and the release of jobs do, the function of a job is started once at most and never after
    its job was cancelled; no two workers run the same job, one that runs is marked so, one that waits can only be pending or
    cancelling; and a job in the pool is blank and in no queue and no worker's hand. *)
Theorem jobs_once z (Hz : reached z) :
  NoDup (ran z) /\ (∀ f, f ∈ ran z -> f ∉ dropped z) /\
  (∀ id name j l, tasks z !! id = Some (Worker name (WRun j l)) ->
     jstate (job_at z j) = Running /\ (∃ f, fun_ (job_at z j) = Some f /\ f ∈ ran z) /\
     ∀ id' name' j' l', tasks z !! id' = Some (Worker name' (WRun j' l')) ->
       fun_ (job_at z j) = fun_ (job_at z j') -> id = id') /\
  (∀ name q j, namedQueue (runner z) !! name = Some q -> j ∈ items q ->
     jstate (job_at z j) = Pending \/ jstate (job_at z j) = Cancelling) /\
  (∀ j, j ∈ pool z -> fun_ (job_at z j) = None /\ ∀ pl, j ∈ refs z pl -> pl = InPool).
Proof.
  apply reached_state in Hz as [_ J]. destruct (ok_ran _ J) as (R1 & _ & R3 & _).
  split; [done|]. split; [intros f H1 H2; by eapply R3|]. split; [|split].
  - intros id name j l Ht. destruct (ok_task _ J _ _ Ht) as [[Hf Hs] _].
    assert (Hl : (j < length (cells z))%nat) by (eapply hand_made; [done|done|cbn; left]).
    split; [done|]. split.
    + pose proof (ok_job _ J j Hl) as Hj. unfold job_ok in Hj. rewrite Hs in Hj.
      destruct (fun_ (job_at z j)) as [f|]; [|done]. exists f. by destruct Hj.
    + intros id' name' j' l' Ht' E.
      assert (Hl' : (j' < length (cells z))%nat) by (eapply hand_made; [done|done|cbn; left]).
      destruct (fun_ (job_at z j)) as [f|] eqn:Ef; [|done].
      assert (j = j') as <- by by apply (ok_calls _ J j j' f).
      assert (Hp : InTask id' = InTask id) by (eapply (hand_only id _ z j); [done|done|cbn; left|cbn; rewrite Ht'; left]). congruence.
  - intros name q j Hq Hj. by apply (ok_queue _ J _ _ _ Hq Hj).
  - intros j Hj. split; [by apply (ok_pool _ J)|]. intros pl Hp. symmetry. by apply (proj2 (ok_placed _ J) InPool pl j).
Qed.

(** The work a worker has before it asks for jobs again. *)
Definition work_left (p : wpc) : nat :=
  match p with WGet => 0 | WTake l => 3 * length l + 1 | WRun j l => 3 * length l + 3 | WEnd j l => 3 * length l + 2 end.

(** A worker whose queue is disposed ends. *)
Lemma worker_ends n : ∀ z id name p, work_left p = n -> reached z -> holding z = true -> tasks z !! id = Some (Worker name p) ->
  ∃ z', rtc step z z' /\ tasks z' = delete id (tasks z) /\ others z' = others z /\ holding z' = true.
Proof.
  induction n as [n IH] using lt_wf_ind. intros z id name p Hn Hz Hh Ht.
  assert (Hgo : ∀ p' z1, work id name p NoError z = Some z1 -> (work_left p' < work_left p)%nat ->
    tasks z1 = <[id := Worker name p']> (tasks z) -> others z1 = others z -> holding z1 = true ->
    ∃ z', rtc step z z' /\ tasks z' = delete id (tasks z) /\ others z' = others z /\ holding z' = true).
  { intros p' z1 Hw Hlt Et Eo Eh. assert (Hs : step z z1) by by eapply step_work.
    destruct (IH (work_left p') ltac:(lia) z1 id name p') as (z2 & H1 & H2 & H3 & H4); try done.
    - by eapply rtc_r.
    - by rewrite Et, lookup_insert_eq.
    - exists z2. split; [by eapply rtc_l|]. rewrite H2, H3, Et, Eo. by rewrite delete_insert_eq. }
  destruct p as [|[|j l]|j l|j l].
  - pose proof (reached_state z Hz) as [T _]. destruct (ok_named _ T _ _ _ Ht) as [q Hq].
    assert (Hr : rstate (runner z) <> running) by (rewrite (ok_holding _ T Hh); done).
    destruct (ok_disposed _ T Hr _ _ Hq) as [_ Hd].
    exists (exit_task id (set_runner (set_queue name q (runner z)) z)). split; [|done].
    apply rtc_once. eapply (step_work _ id name WGet NoError); [done|]. cbn. rewrite Hq. cbn. unfold Get.
    by rewrite (Hd _ _ Ht).
  - eapply (Hgo WGet); done || (cbn; lia).
  - destruct (before (job_at z j)) as [job []] eqn:E.
    + eapply (Hgo (WRun j l)); [cbn; rewrite E; done|cbn; lia|done..].
    + eapply (Hgo (WEnd j l)); [cbn; rewrite E; done|cbn; lia|done..].
  - eapply (Hgo (WEnd j l)); [done|cbn; lia|done..].
  - eapply (Hgo (WTake l)); [done|cbn; lia|by destruct (needRelease _)..].
Qed.

(** All workers end. *)
Lemma workers_end n : ∀ z, size (tasks z) = n -> reached z -> holding z = true -> (∀ id t, tasks z !! id = Some t -> t <> Plain) ->
  ∃ z', rtc step z z' /\ tasks z' = ∅ /\ others z' = others z /\ holding z' = true.
Proof.
  induction n as [|n IH]; intros z Hn Hz Hh Hp.
  { exists z. apply map_size_empty_inv in Hn. done. }
  destruct (map_choose (tasks z)) as (id & t & Ht); [intros E; rewrite E, map_size_empty in Hn; done|].
  destruct t as [|name p]; [by apply Hp in Ht|].
  destruct (worker_ends _ z id name p eq_refl Hz Hh Ht) as (z1 & H1 & H2 & H3 & H4).
  destruct (IH z1) as (z2 & ? & ? & ? & ?); try done.
  - rewrite H2, map_size_delete, Ht. cbn. lia.
  - by eapply rtc_trans.
  - intros k t. rewrite H2. intros [_ ?]%lookup_delete_Some. by eapply Hp.
  - exists z2. split; [by eapply rtc_trans|]. split; [done|]. split; [congruence|done].
Qed.

(** A step of a worker keeps the state of the runner, and starts no task. *)
Lemma work_keeps id name p err z z' : tasks z !! id = Some (Worker name p) -> work id name p err z = Some z' ->
  rstate (runner z') = rstate (runner z) /\ dom (tasks z') ⊆ dom (tasks z) /\ others z' = others z.
Proof.
  intros Ht H.
  assert (Hd : ∀ t, dom (<[id := t]> (tasks z)) ⊆ dom (tasks z)).
  { intros t. rewrite dom_insert_lookup_L; [done|by eexists]. }
  destruct p as [|[|j l]|j l|j l]; cbn in H.
  - destruct (namedQueue (runner z) !! name) as [q|]; [|done]. cbn in H. destruct (Get q) as [[[l|] q']|]; cbn in H; simplify_eq; cbn.
    + auto.
    + split; [done|]. split; [|done]. rewrite dom_delete; set_solver.
  - simplify_eq. cbn. auto.
  - destruct (before (job_at z j)) as [job []]; simplify_eq; cbn; auto.
  - simplify_eq. cbn. auto.
  - simplify_eq. destruct (needRelease _); cbn; auto.
Qed.

Lemma run_task_stopped t z : rstate (runner z) <> running -> run_task t z = z.
Proof. intros Hr. unfold run_task, RunCancelableTask. rewrite bool_decide_false by done. by destruct z. Qed.

Lemma step_not_running z z' : rstate (runner z) <> running -> step z z' ->
  rstate (runner z') <> running /\ dom (tasks z') ⊆ dom (tasks z) /\ (others z' <= others z)%nat.
Proof.
  intros Hr H. destruct H as
    [name Hf|name q Hf Hq Hl|d worker cb reuse e z' Hf H|Hf Hl|Hf Hr'|id r Hf H|Hf Hr'|Hf H|Hf|id Ht|n Hn|id name p err z' Ht H|j Hj Hn|j r Hj Hn];
    try done; try (cbn; auto; fail).
  - cbn. unfold add_queue. by destruct (namedQueue (runner z) !! name).
  - by rewrite run_task_stopped.
  - unfold RunJobWithNamedWorkerWithCB in H. rewrite bool_decide_false in H by done. by simplify_eq.
  - by rewrite run_task_stopped.
  - unfold StopCancelableTask in H. by rewrite bool_decide_false in H by done.
  - cbn. split; [done|]. split; [rewrite dom_delete; set_solver|done].
  - cbn. split; [done|]. split; [done|lia].
  - destruct (work_keeps _ _ _ _ _ _ Ht H) as (-> & ? & ->). done.
Qed.

(** C34: [Stop]: once the runner is not running it stays so and starts nothing, every task has been told to stop and every queue with a
    worker is disposed; it is stopped only when no task runs; and when the tasks other than workers have ended, the workers can
    end and [Stop] return, whatever they have in their hands. *)
Theorem stop_waits z (Hz : reached z) :
  (rstate (runner z) = stopped -> tasks z = ∅ /\ others z = 0%nat) /\
  (rstate (runner z) <> running ->
     (∀ id t, tasks z !! id = Some t -> id ∈ called z) /\
     (∀ id name p q, tasks z !! id = Some (Worker name p) -> namedQueue (runner z) !! name = Some q -> q = mkQueue [] true) /\
     ∀ z', step z z' -> rstate (runner z') <> running /\ dom (tasks z') ⊆ dom (tasks z) /\ (others z' <= others z)%nat) /\
  (holding z = true -> (∀ id t, tasks z !! id = Some t -> t <> Plain) -> others z = 0%nat ->
     ∃ z', rtc step z z' /\ rstate (runner z') = stopped).
Proof.
  pose proof (reached_state z Hz) as [T J]. split; [|split].
  - intros Hr. pose proof (ok_count _ T) as Hc. rewrite (ok_stopped _ T Hr) in Hc.
    split; [apply map_size_empty_inv|]; lia.
  - intros Hr. split; [|split].
    + intros id t Ht. by destruct (ok_cancel _ T _ _ Ht) as [?|[? _]].
    + intros id name p q Ht Hq. destruct (ok_disposed _ T Hr _ _ Hq) as [Hi Hd]. destruct q as [l d]. cbn in *. subst l.
      by rewrite (Hd _ _ Ht).
    + intros z' H. by apply step_not_running.
  - intros Hh Hp Ho. destruct (workers_end _ z eq_refl Hz Hh Hp) as (z1 & H1 & H2 & H3 & H4).
    exists (set_holding false (set_runner (Stop_end (runner z1)) z1)). split; [|done].
    eapply rtc_r; [done|]. apply step_stopped; [done|].
    assert (reached z1) as [T1 _]%reached_state by by eapply rtc_trans.
    rewrite (ok_count _ T1), H2, H3, Ho. done.
Qed.

Module TaskSamples.
(** A job is made with a callback, its owner cancels nothing; a second one is cancelled; the worker takes both and starts the first. *)
Definition after_job (cb : bool) z : system :=
  match RunJobWithNamedWorkerWithCB (str "job") defaultQueueName cb None z with Some (_, z') => z' | None => z end.
Definition after_work (p : wpc) (err : joberr) z : system := default z (work 1 defaultQueueName p err z).
Definition two_jobs : system := after_job true (after_job true start).
Definition one_cancelled : system := cancel_job 1 two_jobs.
Definition taken : system := after_work WGet NoError one_cancelled.
Definition first_runs : system := after_work (WTake [0; 1]%nat) NoError taken.
Definition first_ran : system := after_work (WRun 0 [1%nat]) OtherError first_runs.
Definition both_done : system :=
  after_work (WTake [1%nat]) NoError (after_work (WEnd 0 [1%nat]) NoError first_ran).

Lemma after_job_reached cb z : reached z -> holding z = false -> reached (after_job cb z).
Proof.
  intros Hz Hh. unfold after_job. destruct (RunJobWithNamedWorkerWithCB _ _ _ _ z) as [[e z']|] eqn:E; [|done].
  eapply rtc_r; [done|]. by eapply step_job.
Qed.
Lemma after_work_reached p err z : reached z -> tasks z !! 1 = Some (Worker defaultQueueName p) -> reached (after_work p err z).
Proof.
  intros Hz Ht. unfold after_work. destruct (work _ _ _ _ z) as [z'|] eqn:E; [|done]. eapply rtc_r; [done|]. by eapply step_work.
Qed.

Lemma first_runs_reached : reached first_runs.
Proof.
  apply after_work_reached; [|vm_compute; reflexivity]. apply after_work_reached; [|vm_compute; reflexivity].
  apply (reached_step two_jobs); [|apply step_cancel; [apply Nat.ltb_lt; vm_compute; reflexivity|vm_compute; reflexivity]].
  apply after_job_reached; [|vm_compute; reflexivity]. apply after_job_reached; [apply rtc_refl|vm_compute; reflexivity].
Qed.

(** [jobs_once] while the first job runs. *)
Lemma jobs_once_witness : reached first_runs /\ ran first_runs = [0%nat] /\ NoDup (ran first_runs).
Proof. split; [apply first_runs_reached|]. split; [reflexivity|]. apply (jobs_once first_runs), first_runs_reached. Defined.

(** The first job failed, the second is cancelled without having run. *)
Example ended : jstate (job_at both_done 0) = Failed /\ jstate (job_at both_done 1) = Cancelled /\ ran both_done = [0%nat].
Proof. vm_compute. done. Qed.

(** [Stop] while the first job runs: the worker finishes it and what else it has taken. *)
Definition stopping_ : system := begin_stop first_runs.
Lemma stopping_reached : reached stopping_.
Proof. apply (reached_step first_runs); [apply first_runs_reached|]. apply step_stop; vm_compute; reflexivity. Qed.

(** [stop_waits] on it. *)
Lemma stop_waits_witness : reached stopping_ /\ rstate (runner stopping_) <> running /\ ∃ z', rtc step stopping_ z' /\ rstate (runner z') = stopped.
Proof.
  split; [apply stopping_reached|]. split; [vm_compute; done|].
  apply (stop_waits stopping_ stopping_reached); [vm_compute; reflexivity| |vm_compute; reflexivity].
  assert (Hw : map_Forall (λ _ t, match t with Plain => false | _ => true end = true) (tasks stopping_)).
  { apply (bool_decide_eq_true_1 _). vm_compute. reflexivity. }
  intros id t Ht%Hw ->. done.
Defined.

(** A job still in the queue when the runner stops is forgotten, and stays pending. *)
Example left_pending :
  let z := set_runner (Stop_begin (runner two_jobs)) two_jobs in
  namedQueue (runner z) !! defaultQueueName = Some (mkQueue [] true) /\ jstate (job_at z 0) = Pending /\
  IsNotComplete (job_at z 0) = true.
Proof. vm_compute. done. Qed.

(** A job that runs cannot be cancelled. *)
Example running_stays : Cancel (setState Running blank) = setState Running blank.
Proof. done. Qed.

(** A job for a queue without a worker is made and lost; asking whether an unknown worker is busy panics. *)
Example no_worker : match RunJobWithNamedWorkerWithCB (str "job") (str "w") false None start with
  | Some (Some (errNoWorker w), z) => bytes_eqb w (str "w") && (length (cells z) =? 1)%nat | _ => false end = true /\
  IsNamedWorkerBusy (str "w") NewRunner = Panic.
Proof. vm_compute. done. Qed.
End TaskSamples.
