(* ===== verification/Runtime.v ===== *)
(** Model of the runtime objects of [src/src/proxy/dispatcher_runtime.go] that the
    dispatcher keeps for clusters, servers, APIs and routings, with the circuit of a
    protected resource. *)
From stdpp Require Import sorting.
From S2P Require Import Prelude Meta JsonGet Matching Expr RateLimit Lbs Counters.
From S2P Require TimeWheel.

(** ** The surroundings

    Go's [regexp], and the shuffled source [utils.createRandSourceByBase] caches for a base. *)
Class Env := {
  (** [regexp.MatchString]; [None] is a pattern that does not compile *)
  MatchString : bytes -> bytes -> option bool;
  (** [regexp.MustCompile] and [Match]; [None] is the panic *)
  MustCompile : bytes -> option (bytes -> bool);
  createRandSourceByBase : Z -> list Z
}.

(** What the dispatcher needs of package [lbs]: a balancer for every name. *)
Class Balancers (L : Type) := {
  balancers :: Balancer L;
  newLB : LoadBalance -> L;
  newLB_ok name : balance_ok (newLB name)
}.

(** ** Protected resources *)
Record protected := mkProtected {
  p_id : Z;
  p_activeQPS : Z;
  p_limiter : option rateLimiter;
  p_circuit : CircuitStatus;
  p_cb : option CircuitBreaker;
  p_barrier : option Barrier.RateBarrier
}.

Definition set_circuit (c : CircuitStatus) (s : protected) : protected :=
  mkProtected (p_id s) (p_activeQPS s) (p_limiter s) c (p_cb s) (p_barrier s).

Definition getCircuitStatus (s : protected) : CircuitStatus := p_circuit s.

(** The interval of the dispatcher's timer wheel. *)
Definition wheelTick : Z := 1000000000.

(** [circuitToClose]: the resource, and the delay after which [circuitToHalf] is scheduled.  The
    wheel calls a function at once when its delay is no tick ([TimeWheel.Schedule]); here the
    function waits for the lock the caller holds, for ever. *)
Definition circuitToClose (s : protected) : outcome (protected * option Z) :=
  match p_cb s with
  | None => Ret (s, None)
  | Some cb =>
      if bool_decide (p_circuit s = Close) then Ret (s, None)
      else if TimeWheel.dTicks wheelTick (CircuitBreaker_CloseTimeout cb) <=? 0 then Hang
      else Ret (set_circuit Close s, Some (CircuitBreaker_CloseTimeout cb))
  end.

Definition circuitToOpen (s : protected) : protected :=
  match p_cb s with
  | None => s
  | Some _ =>
      if bool_decide (p_circuit s = Open) || negb (bool_decide (p_circuit s = Half)) then s
      else set_circuit Open s
  end.

Definition circuitToHalf (s : protected) : protected :=
  match p_cb s with Some _ => set_circuit Half s | None => s end.

(** ** Clusters *)
Record clusterRuntime {L : Type} := mkClusterRuntime { c_meta : Cluster; c_lb : L }.
Arguments clusterRuntime L : clear implicits.
Arguments mkClusterRuntime {L}.

Section Clusters.
Context {L : Type} `{!Balancers L}.

Definition newClusterRuntime (meta : Cluster) : clusterRuntime L :=
  mkClusterRuntime meta (newLB (Cluster_LoadBalance meta)).

(** The copy goes through the wire format and back, which is the message itself. *)
Definition clusterRuntime_clone (c : clusterRuntime L) : clusterRuntime L :=
  newClusterRuntime (c_meta c).

Definition clusterRuntime_updateMeta (c : clusterRuntime L) (meta : Cluster) : clusterRuntime L :=
  mkClusterRuntime meta (newLB (Cluster_LoadBalance meta)).

Definition selectServer (c : clusterRuntime L) (req : RequestCtx) (svrs : list Server)
    : outcome (Z * clusterRuntime L) :=
  '(id, lb) ← balance (c_lb c) req svrs; Ret (id, mkClusterRuntime (c_meta c) lb).

End Clusters.

Section Runtimes.
Context {env : Env}.

Definition NewRateBarrier (rate : Z) : Barrier.RateBarrier :=
  Barrier.NewRateBarrierBase (createRandSourceByBase 100) rate 100.

Definition newBarrier (cb : option CircuitBreaker) : option Barrier.RateBarrier :=
  (λ cb, NewRateBarrier (CircuitBreaker_HalfTrafficRate cb)) <$> cb.

(** ** Servers *)
Record serverRuntime := mkServerRuntime {
  svr_p : protected;
  svr_meta : Server;
  heathTimeout : option Z;
  checkFailCount : Z;
  useCheckDuration : Z
}.

(** [newServerRuntime], and [updateMeta] after it has stopped the timer: everything but the
    wheel and the rate is set anew. *)
Definition newServerRuntime (meta : Server) (activeQPS now : Z) : outcome serverRuntime :=
  limiter ← newRateLimiter activeQPS (Server_RateLimitOption meta) now;
  let cb := Server_CircuitBreaker meta in
  Ret (mkServerRuntime (mkProtected (Server_ID meta) activeQPS (Some limiter) Open cb (newBarrier cb))
         meta None 0 0).

Definition serverRuntime_clone (s : serverRuntime) (now : Z) : outcome serverRuntime :=
  newServerRuntime (svr_meta s) (p_activeQPS (svr_p s)) now.

(** [s.activeQPS = activeQPS; s.updateMeta(meta)] *)
Definition serverRuntime_updateMeta (s : serverRuntime) (activeQPS : Z) (meta : Server) (now : Z)
    (ts : timers) : outcome (serverRuntime * timers) :=
  rt ← newServerRuntime meta activeQPS now; Ret (rt, Timeout_Stop (heathTimeout s) ts).

Definition fail (s : serverRuntime) : serverRuntime :=
  mkServerRuntime (svr_p s) (svr_meta s) (heathTimeout s) (i64 (checkFailCount s + 1))
    (i64 (useCheckDuration s + Z.quot (useCheckDuration s) 2)).

Definition reset (s : serverRuntime) : outcome serverRuntime :=
  match Server_HeathCheck (svr_meta s) with
  | None => Panic
  | Some hc =>
      Ret (mkServerRuntime (svr_p s) (svr_meta s) (heathTimeout s) 0 (HeathCheck_CheckInterval hc))
  end.

(** ** Dispatch nodes *)
Record apiValidation := mkAPIValidation { v_meta : Validation; v_rules : list (bytes -> bool) }.

Record apiNode := mkAPINode {
  node_meta : DispatchNode;
  validations : list apiValidation;
  parsedExprs : list expr
}.

(** [strings.TrimSpace] on ASCII. *)
Definition is_space (c : Z) : bool := (c =? 32) || ((9 <=? c) && (c <=? 13)).
Fixpoint TrimLeft (s : bytes) : bytes :=
  match s with [] => [] | c :: t => if is_space c then TrimLeft t else s end.
Definition TrimSpace (s : bytes) : bytes := rev (TrimLeft (rev (TrimLeft s))).

(** A rule is compiled whatever its type. *)
Fixpoint compileRules (rules : list ValidationRule) : outcome (list (bytes -> bool)) :=
  match rules with
  | [] => Ret []
  | r :: rules =>
      match MustCompile (Rule_Expression r) with
      | None => Panic
      | Some p => ps ← compileRules rules; Ret (p :: ps)
      end
  end.

Fixpoint newValidations (vs : list Validation) : outcome (list apiValidation) :=
  match vs with
  | [] => Ret []
  | v :: vs =>
      rules ← compileRules (Validation_Rules v);
      rest ← newValidations vs; Ret (mkAPIValidation v rules :: rest)
  end.

Definition newAPINode (meta : DispatchNode) : outcome apiNode :=
  exprs ← (if bytes_eqb (DispatchNode_URLRewrite meta) [] then Ret []
           else r ← Parse (TrimSpace (DispatchNode_URLRewrite meta));
                match r with inl _ => Panic | inr exprs => Ret exprs end);
  vs ← newValidations (DispatchNode_Validations meta);
  Ret (mkAPINode meta vs exprs).

Definition apiRule_validate (r : bytes -> bool) (value : bytes) : bool := r value.

Definition apiValidation_validate (v : apiValidation) (req : Request) : outcome bool :=
  let required := Validation_Required (v_meta v) in
  if (len (v_rules v) =? 0) && negb required then Ret true
  else
    value ← paramValue (Validation_Param (v_meta v)) req;
    if bytes_eqb value [] && required then Ret false
    else if bytes_eqb value [] && negb required then Ret true
    else Ret (forallb (λ r, apiRule_validate r value) (v_rules v)).

Fixpoint validateAll (vs : list apiValidation) (req : Request) : outcome bool :=
  match vs with
  | [] => Ret true
  | v :: vs => ok ← apiValidation_validate v req; if negb ok then Ret false else validateAll vs req
  end.

Definition apiNode_validate (n : apiNode) (req : Request) : outcome bool :=
  if len (validations n) =? 0 then Ret true else validateAll (validations n) req.

(** ** APIs *)
Record renderAttr := mkRenderAttrRT { ra_meta : RenderAttr; extracts : list (list bytes) }.
Record renderObject := mkRenderObjectRT { ro_meta : RenderObject; attrs : list renderAttr }.

Record apiRuntime := mkAPIRuntime {
  a_p : protected;
  a_meta : API;
  a_nodes : list apiNode;
  parsedWhitelist : list (list bytes);
  parsedBlacklist : list (list bytes);
  parsedRenderObjects : list renderObject
}.

(** The part of [init] about the render template. *)
Definition newRenderObjects (meta : API) : list renderObject :=
  match API_RenderTemplate meta with
  | None => []
  | Some t =>
      map (λ obj, mkRenderObjectRT obj
        (map (λ attr, mkRenderAttrRT attr
           (map (λ extract, Split extract (ch ".")) (Split (RenderAttr_ExtractExp attr) (ch ","))))
           (RenderObject_Attrs obj))) (RenderTemplate_Objects t)
  end.

Definition batchIndex (n : apiNode) : Z := DispatchNode_BatchIndex (node_meta n).

(** [compare]: the subtraction is on [int32]. *)
Definition compare (x y : apiNode) : bool := i32 (batchIndex x - batchIndex y) <? 0.

(** [sort.Slice(a.nodes, a.compare)]: a permutation, in the order of the batch indices when
    [compare] is their order. *)
Class NodeSort := {
  sortNodes : list apiNode -> list apiNode;
  sortNodes_perm l : sortNodes l ≡ₚ l;
  sortNodes_sorted l :
    (∀ x y, x ∈ l -> y ∈ l -> compare x y = (batchIndex x <? batchIndex y)) ->
    Sorted Z.le (map batchIndex (sortNodes l))
}.

Context {node_sort : NodeSort}.

Fixpoint newAPINodes (nodes : list DispatchNode) : outcome (list apiNode) :=
  match nodes with
  | [] => Ret []
  | n :: nodes => rn ← newAPINode n; rest ← newAPINodes nodes; Ret (rn :: rest)
  end.

(** [newAPIRuntime], that is [init] on the fresh value. *)
Definition newAPIRuntime (meta : API) (activeQPS now : Z) : outcome apiRuntime :=
  nodes ← newAPINodes (API_Nodes meta);
  let acl := API_IPAccessControl meta in
  let whitelist := default [] (IPAccessControl_Whitelist <$> acl) in
  let blacklist := default [] (IPAccessControl_Blacklist <$> acl) in
  let cb := API_CircuitBreaker meta in
  limiter ← (if 0 <? API_MaxQPS meta
             then l ← newRateLimiter activeQPS (API_RateLimitOption meta) now; Ret (Some l)
             else Ret None);
  Ret (mkAPIRuntime (mkProtected (API_ID meta) activeQPS limiter Open cb (newBarrier cb)) meta
         (sortNodes nodes) (map parseFrom whitelist) (map parseFrom blacklist) (newRenderObjects meta)).

Definition apiRuntime_clone (a : apiRuntime) (now : Z) : outcome apiRuntime :=
  newAPIRuntime (a_meta a) (p_activeQPS (a_p a)) now.

(** [a.activeQPS = activeQPS; a.updateMeta(meta)] *)
Definition apiRuntime_updateMeta (a : apiRuntime) (activeQPS : Z) (meta : API) (now : Z)
    : outcome apiRuntime :=
  newAPIRuntime meta activeQPS now.

(** The loop over the patterns: whether one accepts the address. *)
Fixpoint anyMatches (patterns : list (list bytes)) (ip : bytes) : outcome bool :=
  match patterns with
  | [] => Ret false
  | p :: patterns => b ← ipSegment_matches p ip; if b : bool then Ret true else anyMatches patterns ip
  end.

Definition allowWithBlacklist (a : apiRuntime) (ip : bytes) : outcome bool :=
  match API_IPAccessControl (a_meta a) with
  | None => Ret true
  | Some _ => b ← anyMatches (parsedBlacklist a) ip; Ret (negb b)
  end.

Definition allowWithWhitelist (a : apiRuntime) (ip : bytes) : outcome bool :=
  match API_IPAccessControl (a_meta a) with
  | None => Ret true
  | Some acl =>
      if len (IPAccessControl_Whitelist acl) =? 0 then Ret true
      else anyMatches (parsedWhitelist a) ip
  end.

Definition apiRuntime_isUp (a : apiRuntime) : bool := bool_decide (API_Status (a_meta a) = Up).

Definition isMethodMatches (a : apiRuntime) (req : Request) : bool :=
  bytes_eqb (API_Method (a_meta a)) (str "*") ||
  bytes_eqb (ToUpper (Req_Method req)) (API_Method (a_meta a)).

Definition isDomainMatches (a : apiRuntime) (req : Request) : bool :=
  negb (bytes_eqb (API_Domain (a_meta a)) []) && bytes_eqb (Req_Host req) (API_Domain (a_meta a)).

Definition apiRuntime_matches (a : apiRuntime) (req : Request) : bool :=
  if negb (apiRuntime_isUp a) then false
  else match API_MatchRule (a_meta a) with
       | MatchAll => isDomainMatches a req && isMethodMatches a req
       | MatchAny => isDomainMatches a req || isMethodMatches a req
       | _ => isDomainMatches a req || isMethodMatches a req
       end.

(** ** Routings *)
Record routingRuntime := mkRoutingRuntime { r_meta : Routing; r_barrier : Barrier.RateBarrier }.

Definition newRoutingRuntime (meta : Routing) : routingRuntime :=
  mkRoutingRuntime meta (NewRateBarrier (Routing_TrafficRate meta)).

Definition routingRuntime_clone (r : routingRuntime) : routingRuntime := newRoutingRuntime (r_meta r).

Definition routingRuntime_updateMeta (r : routingRuntime) (meta : Routing) : routingRuntime :=
  newRoutingRuntime meta.

Definition routingRuntime_isUp (r : routingRuntime) : bool :=
  bool_decide (Routing_Status (r_meta r) = Up).

(** All conditions, in order, stopping at the first that fails. *)
Fixpoint conditionsAll (cs : list Condition) (req : Request) : outcome bool :=
  match cs with
  | [] => Ret true
  | c :: cs =>
      ok ← conditionsMatches MatchString c req; if negb ok then Ret false else conditionsAll cs req
  end.

Definition routingRuntime_matches (r : routingRuntime) (apiID : Z) (req : Request)
    : outcome (bool * routingRuntime) :=
  if (0 <? Routing_API (r_meta r)) && negb (apiID =? Routing_API (r_meta r)) then Ret (false, r)
  else
    ok ← conditionsAll (Routing_Conditions (r_meta r)) req;
    if negb ok then Ret (false, r)
    else '(value, b) ← Barrier.Allow (r_barrier r); Ret (value, mkRoutingRuntime (r_meta r) b).

End Runtimes.
