(* ===== verification/Dispatcher.v ===== *)
(** Model of the dispatcher: its state and the event handlers that change it
    ([src/src/proxy/dispatcher.go], [dispatcher_meta.go], [dispatcher_copy_on_write.go],
    [dispatcher_event.go]), the health checker ([checker.go]) and the selection of servers
    for a request.

    Each handler is one step on the state.  A [for range] over a Go map visits the keys in
    an order Go does not fix: where the order can be observed it is an argument [order]. *)
From S2P Require Import Prelude Meta RouteTable Matching Expr RateLimit Lbs Counters Runtime.

Record bindInfo := mkBindInfo { svrID : Z; status : Status }.
Record binds := mkBinds { servers : list bindInfo; actives : list Server }.

(** The dispatcher.  [checkerC] is the queue of the health checker, [timers_] the pending
    timers of the wheel with the next unused handle. *)
Record dispatcher {L : Type} := mkDispatcher {
  routings : gmap Z routingRuntime;
  route : Route;
  apis : gmap Z apiRuntime;
  clusters : gmap Z (clusterRuntime L);
  servers_ : gmap Z serverRuntime;
  binds_ : gmap Z binds;
  proxies : gmap bytes Proxy;
  checkerC : list Z;
  analysiser : Analysis.t;
  timers_ : timers;
  nextTimer : Z
}.
Arguments dispatcher L : clear implicits.
Arguments mkDispatcher {L}.

Inductive error :=
| errServerExists | errClusterExists | errAPIExists | errProxyExists | errRoutingExists
| errServerNotFound | errClusterNotFound | errProxyNotFound | errAPINotFound | errRoutingNotFound
| errRoute (e : addError).

(** The message a changed health status is announced with. *)
Record statusChanged := mkStatusChanged { sc_meta : Server; sc_status : Status }.

(** [utils.GetAddrFormat]: padded with zeros on the left to 21 characters. *)
Definition GetAddrFormat (addr : bytes) : bytes :=
  replicate (21 - length addr) (ch "0") ++ addr.

Section Updates.
Context {L : Type}.

Definition set_routings x (r : dispatcher L) : dispatcher L := mkDispatcher x (route r) (apis r) (clusters r) (servers_ r) (binds_ r)
  (proxies r) (checkerC r) (analysiser r) (timers_ r) (nextTimer r).
Definition set_apis rt x (r : dispatcher L) : dispatcher L := mkDispatcher (routings r) rt x (clusters r) (servers_ r) (binds_ r)
  (proxies r) (checkerC r) (analysiser r) (timers_ r) (nextTimer r).
Definition set_clusters x (r : dispatcher L) : dispatcher L := mkDispatcher (routings r) (route r) (apis r) x (servers_ r) (binds_ r)
  (proxies r) (checkerC r) (analysiser r) (timers_ r) (nextTimer r).
Definition set_servers x (r : dispatcher L) : dispatcher L := mkDispatcher (routings r) (route r) (apis r) (clusters r) x (binds_ r)
  (proxies r) (checkerC r) (analysiser r) (timers_ r) (nextTimer r).
Definition set_binds x (r : dispatcher L) : dispatcher L := mkDispatcher (routings r) (route r) (apis r) (clusters r) (servers_ r) x
  (proxies r) (checkerC r) (analysiser r) (timers_ r) (nextTimer r).
Definition set_proxies x (r : dispatcher L) : dispatcher L := mkDispatcher (routings r) (route r) (apis r) (clusters r) (servers_ r)
  (binds_ r) x (checkerC r) (analysiser r) (timers_ r) (nextTimer r).
Definition set_checkerC x (r : dispatcher L) : dispatcher L := mkDispatcher (routings r) (route r) (apis r) (clusters r) (servers_ r)
  (binds_ r) (proxies r) x (analysiser r) (timers_ r) (nextTimer r).
Definition set_analysiser x (r : dispatcher L) : dispatcher L := mkDispatcher (routings r) (route r) (apis r) (clusters r) (servers_ r)
  (binds_ r) (proxies r) (checkerC r) x (timers_ r) (nextTimer r).
Definition set_timers x n (r : dispatcher L) : dispatcher L := mkDispatcher (routings r) (route r) (apis r) (clusters r) (servers_ r)
  (binds_ r) (proxies r) (checkerC r) (analysiser r) x n.

End Updates.

(** ** Copying

    The copy of a map whose values are cloned, but for one key. *)
Definition copyMap {A} (clone : A -> outcome A) (exclude : Z) (m : gmap Z A) : outcome (gmap Z A) :=
  fold_right (λ '(key, value) values,
    values ← values;
    if key =? exclude then Ret values
    else value ← clone value; Ret (<[key := value]> values)) (Ret ∅) (map_to_list m).

Section Dispatcher.
Context {L : Type} `{!Balancers L} {env : Env} {node_sort : NodeSort} {sort : SortSlice}.
Implicit Type r : dispatcher L.

Definition copyServers r (exclude now : Z) : outcome (gmap Z serverRuntime) :=
  copyMap (λ s, serverRuntime_clone s now) exclude (servers_ r).

Definition copyClusters r (exclude : Z) : outcome (gmap Z (clusterRuntime L)) :=
  copyMap (λ c, Ret (clusterRuntime_clone c)) exclude (clusters r).

Definition copyRoutings r (exclude : Z) : outcome (gmap Z routingRuntime) :=
  copyMap (λ c, Ret (routingRuntime_clone c)) exclude (routings r).

(** [route.Add(meta)] with the error ignored. *)
Definition addIgnoring (rt : Route) (meta : API) : outcome Route :=
  res ← Add rt meta; match res with inl _ => Ret rt | inr rt => Ret rt end.

Fixpoint copyAPIsLoop (m : gmap Z apiRuntime) (exclude excludeToRoute now : Z) (order : list Z)
    (rt : Route) (values : gmap Z apiRuntime) : outcome (Route * gmap Z apiRuntime) :=
  match order with
  | [] => Ret (rt, values)
  | key :: order =>
      match m !! key with
      | None => copyAPIsLoop m exclude excludeToRoute now order rt values
      | Some value =>
          if key =? exclude then copyAPIsLoop m exclude excludeToRoute now order rt values
          else
            v ← apiRuntime_clone value now;
            rt ← (if negb (key =? excludeToRoute) && apiRuntime_isUp value
                  then addIgnoring rt (a_meta v) else Ret rt);
            copyAPIsLoop m exclude excludeToRoute now order rt (<[key := v]> values)
      end
  end.

Definition copyAPIs r (exclude excludeToRoute now : Z) (order : list Z)
    : outcome (Route * gmap Z apiRuntime) :=
  copyAPIsLoop (apis r) exclude excludeToRoute now order NewRoute ∅.

(** The entries [copyBinds] keeps: those of other servers or other clusters.  An exclusion
    with no cluster is for every cluster. *)
Definition kept (exclude : Bind) (key svr : Z) : bool :=
  negb (svr =? Bind_ServerID exclude) ||
  negb ((if Bind_ClusterID exclude =? 0 then key else Bind_ClusterID exclude) =? key).

Definition copyBinds r (exclude : Bind) : gmap Z binds :=
  map_imap (λ key b, Some (mkBinds (filter (λ i, kept exclude key (svrID i)) (servers b))
                             (filter (λ s, kept exclude key (Server_ID s)) (actives b)))) (binds_ r).

(** ** Analysis and health-check queue *)

Definition addAnalysis (id : Z) (cb : option CircuitBreaker) r : dispatcher L :=
  let a := Analysis.AddTarget id second (Analysis.RemoveTarget id (analysiser r)) in
  set_analysiser match cb with
                 | Some cb => Analysis.AddTarget id (CircuitBreaker_RateCheckPeriod cb) a
                 | None => a
                 end r.

(** [addToCheck]: the server (changed in place), and the dispatcher with the queue. *)
Definition addToCheck (s : serverRuntime) r : serverRuntime * dispatcher L :=
  let d := match Server_HeathCheck (svr_meta s) with
           | Some hc => HeathCheck_CheckInterval hc
           | None => useCheckDuration s
           end in
  (mkServerRuntime (set_circuit Open (svr_p s)) (svr_meta s) (heathTimeout s) (checkFailCount s) d,
   set_checkerC (checkerC r ++ [Server_ID (svr_meta s)])
     (set_timers (Timeout_Stop (heathTimeout s) (timers_ r)) (nextTimer r) r)).

(** ** Rates *)

Definition refreshQPS r (value : Z) : Z :=
  let n := Z.of_nat (size (proxies r)) in
  let activeQPS := if 0 <? n then i64 (Z.quot value n) else value in
  if activeQPS <=? 0 then 1 else activeQPS.

Fixpoint refreshServers (order : list Z) (now : Z) r : outcome (dispatcher L) :=
  match order with
  | [] => Ret r
  | id :: order =>
      match servers_ r !! id with
      | None => refreshServers order now r
      | Some svr =>
          '(svr, ts) ← serverRuntime_updateMeta svr (refreshQPS r (Server_MaxQPS (svr_meta svr)))
                         (svr_meta svr) now (timers_ r);
          let '(svr, r) := addToCheck svr (set_timers ts (nextTimer r) r) in
          refreshServers order now (set_servers (<[id := svr]> (servers_ r)) r)
      end
  end.

Fixpoint refreshAPIs (order : list Z) (now : Z) r : outcome (dispatcher L) :=
  match order with
  | [] => Ret r
  | id :: order =>
      match apis r !! id with
      | None => refreshAPIs order now r
      | Some api =>
          api ← apiRuntime_updateMeta api (refreshQPS r (API_MaxQPS (a_meta api))) (a_meta api) now;
          refreshAPIs order now (set_apis (route r) (<[id := api]> (apis r)) r)
      end
  end.

Definition refreshAllQPS (svrOrder apiOrder : list Z) (now : Z) r : outcome (dispatcher L) :=
  r ← refreshServers svrOrder now r; refreshAPIs apiOrder now r.

(** ** Routings *)

Definition addRouting (meta : Routing) r : outcome (option error * dispatcher L) :=
  match routings r !! Routing_ID meta with
  | Some _ => Ret (Some errRoutingExists, r)
  | None =>
      newValues ← copyRoutings r 0;
      Ret (None, set_routings (<[Routing_ID meta := newRoutingRuntime meta]> newValues) r)
  end.

Definition updateRouting (meta : Routing) r : outcome (option error * dispatcher L) :=
  match routings r !! Routing_ID meta with
  | None => Ret (Some errRoutingNotFound, r)
  | Some _ =>
      newValues ← copyRoutings r 0;
      match newValues !! Routing_ID meta with
      | None => Panic
      | Some rt =>
          Ret (None, set_routings (<[Routing_ID meta := routingRuntime_updateMeta rt meta]> newValues) r)
      end
  end.

Definition removeRouting (id : Z) r : outcome (option error * dispatcher L) :=
  match routings r !! id with
  | None => Ret (Some errRoutingNotFound, r)
  | Some _ => newValues ← copyRoutings r id; Ret (None, set_routings newValues r)
  end.

(** ** Proxies *)

Definition addProxy (meta : Proxy) (svrOrder apiOrder : list Z) (now : Z) r
    : outcome (option error * dispatcher L) :=
  let key := GetAddrFormat (Proxy_Addr meta) in
  match proxies r !! key with
  | Some _ => Ret (Some errProxyExists, r)
  | None =>
      r ← refreshAllQPS svrOrder apiOrder now (set_proxies (<[key := meta]> (proxies r)) r);
      Ret (None, r)
  end.

Definition removeProxy (addr : bytes) (svrOrder apiOrder : list Z) (now : Z) r
    : outcome (option error * dispatcher L) :=
  match proxies r !! addr with
  | None => Ret (Some errProxyNotFound, r)
  | Some _ =>
      r ← refreshAllQPS svrOrder apiOrder now (set_proxies (delete addr (proxies r)) r);
      Ret (None, r)
  end.

(** ** APIs *)

Definition addAPI (api : API) (order : list Z) (now : Z) r : outcome (option error * dispatcher L) :=
  match apis r !! API_ID api with
  | Some _ => Ret (Some errAPIExists, r)
  | None =>
      a ← newAPIRuntime api (refreshQPS r (API_MaxQPS api)) now;
      '(newRoute, newValues) ← copyAPIs r 0 0 now order;
      let newValues := <[API_ID api := a]> newValues in
      res ← (if apiRuntime_isUp a then Add newRoute (a_meta a) else Ret (inr newRoute));
      match res with
      | inl e => Ret (Some (errRoute e), r)
      | inr newRoute =>
          let r := match p_cb (a_p a) with
                   | Some cb => addAnalysis (API_ID api) (Some cb) r
                   | None => r
                   end in
          Ret (None, set_apis newRoute newValues r)
      end
  end.

(** The route gets the API whatever its status. *)
Definition updateAPI (api : API) (order : list Z) (now : Z) r : outcome (option error * dispatcher L) :=
  match apis r !! API_ID api with
  | None => Ret (Some errAPINotFound, r)
  | Some _ =>
      '(newRoute, newValues) ← copyAPIs r 0 (API_ID api) now order;
      match newValues !! API_ID api with
      | None => Panic
      | Some rt =>
          rt ← apiRuntime_updateMeta rt (refreshQPS r (API_MaxQPS api)) api now;
          res ← Add newRoute (a_meta rt);
          match res with
          | inl e => Ret (Some (errRoute e), r)
          | inr newRoute =>
              let r := match p_cb (a_p rt) with
                       | Some _ => addAnalysis (API_ID (a_meta rt)) (API_CircuitBreaker (a_meta rt)) r
                       | None => r
                       end in
              Ret (None, set_apis newRoute (<[API_ID api := rt]> newValues) r)
          end
      end
  end.

Definition removeAPI (id : Z) (order : list Z) (now : Z) r : outcome (option error * dispatcher L) :=
  match apis r !! id with
  | None => Ret (Some errAPINotFound, r)
  | Some _ =>
      '(newRoute, newValues) ← copyAPIs r id 0 now order;
      Ret (None, set_apis newRoute newValues r)
  end.

(** ** Servers *)

Definition addServer (svr : Server) (now : Z) r : outcome (option error * dispatcher L) :=
  match servers_ r !! Server_ID svr with
  | Some _ => Ret (Some errServerExists, r)
  | None =>
      newValues ← copyServers r 0 now;
      rt ← newServerRuntime svr (refreshQPS r (Server_MaxQPS svr)) now;
      let r := addAnalysis (Server_ID (svr_meta rt)) (Server_CircuitBreaker (svr_meta rt)) r in
      let '(rt, r) := addToCheck rt r in
      Ret (None, set_servers (<[Server_ID svr := rt]> newValues) r)
  end.

Definition updateServer (meta : Server) (now : Z) r : outcome (option error * dispatcher L) :=
  match servers_ r !! Server_ID meta with
  | None => Ret (Some errServerNotFound, r)
  | Some rt =>
      let r := set_timers (Timeout_Stop (heathTimeout rt) (timers_ r)) (nextTimer r) r in
      newValues ← copyServers r 0 now;
      match newValues !! Server_ID meta with
      | None => Panic
      | Some rt =>
          '(rt, ts) ← serverRuntime_updateMeta rt (refreshQPS r (Server_MaxQPS meta)) meta now (timers_ r);
          let r := set_timers ts (nextTimer r) r in
          let r := addAnalysis (Server_ID (svr_meta rt)) (Server_CircuitBreaker (svr_meta rt)) r in
          let '(rt, r) := addToCheck rt r in
          Ret (None, set_servers (<[Server_ID meta := rt]> newValues) r)
      end
  end.

Definition removeServer (id now : Z) r : outcome (option error * dispatcher L) :=
  match servers_ r !! id with
  | None => Ret (Some errServerNotFound, r)
  | Some rt =>
      let r := set_timers (Timeout_Stop (heathTimeout rt) (timers_ r)) (nextTimer r) r in
      newValues ← copyServers r id now;
      let newBinds := copyBinds r (mkBind 0 id) in
      Ret (None, set_binds newBinds (set_servers newValues r))
  end.

(** ** Clusters *)

Definition addCluster (cluster : Cluster) r : outcome (option error * dispatcher L) :=
  match clusters r !! Cluster_ID cluster with
  | Some _ => Ret (Some errClusterExists, r)
  | None =>
      newValues ← copyClusters r 0;
      Ret (None, set_clusters (<[Cluster_ID cluster := newClusterRuntime cluster]> newValues) r)
  end.

Definition updateCluster (meta : Cluster) r : outcome (option error * dispatcher L) :=
  match clusters r !! Cluster_ID meta with
  | None => Ret (Some errClusterNotFound, r)
  | Some _ =>
      newValues ← copyClusters r 0;
      match newValues !! Cluster_ID meta with
      | None => Panic
      | Some rt =>
          Ret (None, set_clusters (<[Cluster_ID meta := clusterRuntime_updateMeta rt meta]> newValues) r)
      end
  end.

Definition removeCluster (id : Z) r : outcome (option error * dispatcher L) :=
  match clusters r !! id with
  | None => Ret (Some errClusterNotFound, r)
  | Some _ =>
      newValues ← copyClusters r id;
      Ret (None, set_clusters newValues (set_binds (copyBinds r (mkBind id 0)) r))
  end.

(** ** Binds *)

Definition addBind (bind : Bind) r : outcome (option error * dispatcher L) :=
  match servers_ r !! Bind_ServerID bind with
  | None => Ret (Some errServerNotFound, r)
  | Some server =>
      match clusters r !! Bind_ClusterID bind with
      | None => Ret (Some errClusterNotFound, r)
      | Some _ =>
          let status := match Server_HeathCheck (svr_meta server) with None => Up | Some _ => Unknown end in
          let newValues := copyBinds r (mkBind 0 0) in
          let infos := default (mkBinds [] []) (newValues !! Bind_ClusterID bind) in
          let infos := mkBinds (servers infos ++ [mkBindInfo (Bind_ServerID bind) status])
                         (if bool_decide (status = Up) then actives infos ++ [svr_meta server]
                          else actives infos) in
          Ret (None, set_binds (<[Bind_ClusterID bind := infos]> newValues) r)
      end
  end.

Definition removeBind (bind : Bind) r : outcome (option error * dispatcher L) :=
  match servers_ r !! Bind_ServerID bind with
  | None => Ret (Some errServerNotFound, r)
  | Some _ =>
      match clusters r !! Bind_ClusterID bind with
      | None => Ret (Some errClusterNotFound, r)
      | Some _ => Ret (None, set_binds (copyBinds r bind) r)
      end
  end.

(** The first entry for the server in the order the clusters are visited. *)
Fixpoint getServerStatus (bs : gmap Z binds) (order : list Z) (id : Z) : Status :=
  match order with
  | [] => Unknown
  | key :: order =>
      match bs !! key with
      | None => getServerStatus bs order id
      | Some b =>
          match list_find (λ i, svrID i = id) (servers b) with
          | Some (_, i) => status i
          | None => getServerStatus bs order id
          end
      end
  end.

(** The entry of one cluster when a server's status changes. *)
Definition changeStatus (value : statusChanged) (b : binds) : binds :=
  let id := Server_ID (sc_meta value) in
  let hasServer := existsb (λ i, svrID i =? id) (servers b) in
  let servers := map (λ i, if svrID i =? id then mkBindInfo (svrID i) (sc_status value) else i) (servers b) in
  if hasServer then
    mkBinds servers
      (filter (λ a, negb (Server_ID a =? id) || bool_decide (sc_status value = Up))
         (actives b ++ [sc_meta value]))
  else mkBinds servers (actives b).

Definition doStatusChangedEvent (value : statusChanged) (order : list Z) r : dispatcher L :=
  if bool_decide (getServerStatus (binds_ r) order (Server_ID (sc_meta value)) = sc_status value) then r
  else set_binds (changeStatus value <$> copyBinds r (mkBind 0 0)) r.

(** ** Health checks *)

(** [heathCheckTimeout], when the timer [h] expires. *)
Definition heathCheckTimeout (h id : Z) r : dispatcher L :=
  let r := set_timers (delete h (timers_ r)) (nextTimer r) r in
  match servers_ r !! id with
  | Some _ => set_checkerC (checkerC r ++ [id]) r
  | None => r
  end.

(** The deferred part of [check]: the next check is scheduled. *)
Definition scheduleCheck (limit id : Z) (svr : serverRuntime) r : dispatcher L :=
  match Server_HeathCheck (svr_meta svr) with
  | None => set_servers (<[id := svr]> (servers_ r)) r
  | Some hc =>
      let d := if limit <? useCheckDuration svr then limit else useCheckDuration svr in
      let d := if d =? 0 then HeathCheck_CheckInterval hc else d in
      let h := nextTimer r in
      let svr := mkServerRuntime (svr_p svr) (svr_meta svr) (Some h) (checkFailCount svr) d in
      set_timers (<[h := id]> (timers_ r)) (h + 1) (set_servers (<[id := svr]> (servers_ r)) r)
  end.

(** [doCheck]: [resp] is what the HTTP client answers, a status code and a body or an error.
    The server, changed in place, comes back with the verdict. *)
Definition doCheck (resp : option (Z * bytes)) (svr : serverRuntime) : outcome (bool * serverRuntime) :=
  match Server_HeathCheck (svr_meta svr) with
  | None => Panic
  | Some hc =>
      match resp with
      | None => Ret (false, fail svr)
      | Some (code, body) =>
          if negb (200 =? code) then Ret (false, fail svr)
          else if negb (bytes_eqb (HeathCheck_Body hc) []) && negb (bytes_eqb (HeathCheck_Body hc) body)
          then Ret (false, fail svr)
          else svr ← reset svr; Ret (true, svr)
      end
  end.

(** [check], given what the server answers and [LimitIntervalHeathCheck]: the event it
    sends, and the dispatcher. *)
Definition check (id : Z) (resp : option (Z * bytes)) (limit : Z) (order : list Z) r
    : outcome (option statusChanged * dispatcher L) :=
  match servers_ r !! id with
  | None => Ret (None, r)
  | Some svr =>
      let prev := getServerStatus (binds_ r) order (Server_ID (svr_meta svr)) in
      match Server_HeathCheck (svr_meta svr) with
      | None => Ret (Some (mkStatusChanged (svr_meta svr) Up), scheduleCheck limit id svr r)
      | Some _ =>
          '(ok, svr) ← doCheck resp svr;
          let status := if (ok : bool) then Up else Down in
          Ret (if bool_decide (prev = status) then None else Some (mkStatusChanged (svr_meta svr) status),
               scheduleCheck limit id svr r)
      end
  end.

(** ** Selecting servers *)

Definition selectServerFromCluster (ctx : RequestCtx) (id : Z) r
    : outcome (option serverRuntime * dispatcher L) :=
  match clusters r !! id with
  | None => Ret (None, r)
  | Some cluster =>
      match binds_ r !! id with
      | None => Ret (None, r)
      | Some infos =>
          '(svr, cluster) ← selectServer cluster ctx (actives infos);
          Ret (servers_ r !! svr, set_clusters (<[id := cluster]> (clusters r)) r)
      end
  end.

Record dispatchNode := mkDispatchNodeRT {
  dn_idx : Z;
  dn_node : apiNode;
  dn_dest : option serverRuntime;
  dn_copyTo : option serverRuntime
}.

Fixpoint adjustByRouting (order : list Z) (apiID : Z) (ctx : RequestCtx) (req : Request)
    (dn : dispatchNode) r : outcome (dispatchNode * dispatcher L) :=
  match order with
  | [] => Ret (dn, r)
  | key :: order =>
      match routings r !! key with
      | None => adjustByRouting order apiID ctx req dn r
      | Some routing =>
          if negb (routingRuntime_isUp routing) then adjustByRouting order apiID ctx req dn r
          else
            '(m, routing) ← routingRuntime_matches routing apiID req;
            let r := set_routings (<[key := routing]> (routings r)) r in
            if negb m then adjustByRouting order apiID ctx req dn r
            else
              '(svr, r) ← selectServerFromCluster ctx (Routing_ClusterID (r_meta routing)) r;
              Ret (match Routing_Strategy (r_meta routing) with
                   | Meta.Split => mkDispatchNodeRT (dn_idx dn) (dn_node dn) svr (dn_copyTo dn)
                   | Meta.Copy => mkDispatchNodeRT (dn_idx dn) (dn_node dn) (dn_dest dn) svr
                   | RoutingStrategy_other _ => dn
                   end, r)
      end
  end.

Definition dispatcher_selectServer (order : list Z) (apiID : Z) (ctx : RequestCtx) (req : Request)
    (dn : dispatchNode) r : outcome (dispatchNode * dispatcher L) :=
  '(dest, r) ← selectServerFromCluster ctx (DispatchNode_ClusterID (node_meta (dn_node dn))) r;
  adjustByRouting order apiID ctx req (mkDispatchNodeRT (dn_idx dn) (dn_node dn) dest (dn_copyTo dn)) r.

Fixpoint dispatchNodes (order : list Z) (apiID : Z) (ctx : RequestCtx) (req : Request)
    (idx : Z) (nodes : list apiNode) r : outcome (list dispatchNode * dispatcher L) :=
  match nodes with
  | [] => Ret ([], r)
  | node :: nodes =>
      '(dn, r) ← dispatcher_selectServer order apiID ctx req (mkDispatchNodeRT idx node None None) r;
      '(dns, r) ← dispatchNodes order apiID ctx req (idx + 1) nodes r;
      Ret (dn :: dns, r)
  end.

(** The API a request is for. *)
Definition targetAPI (req : Request) r : outcome (option apiRuntime * list (bytes * bytes)) :=
  '(res, params) ← Find (route r) (Req_Path req) (Req_Method req) true;
  Ret (match res with
       | None => None
       | Some id =>
           match apis r !! id with
           | Some api => if apiRuntime_matches api req then Some api else None
           | None => None
           end
       end, params).

(** [dispatch]: the API, the nodes with their servers, and the path parameters. *)
Definition dispatch (order : list Z) (ctx : RequestCtx) (req : Request) r
    : outcome (option apiRuntime * list dispatchNode * list (bytes * bytes) * dispatcher L) :=
  '(target, params) ← targetAPI req r;
  match target with
  | None => Ret (None, [], params, r)
  | Some api =>
      if API_UseDefault (a_meta api) then Ret (Some api, [], params, r)
      else
        '(dns, r) ← dispatchNodes order (API_ID (a_meta api)) ctx req 0 (a_nodes api) r;
        Ret (Some api, dns, params, r)
  end.

End Dispatcher.

(** ** Events *)
Inductive EvtType := EventTypeNew | EventTypeUpdate | EventTypeDelete.

(** An event of the store with the message it carries; a delete event of the kinds with an
    id carries it as its key. *)
Inductive Evt :=
| EvtRouting (t : EvtType) (key : Z) (value : Routing)
| EvtProxy (t : EvtType) (key : bytes) (value : Proxy)
| EvtAPI (t : EvtType) (key : Z) (value : API)
| EvtCluster (t : EvtType) (key : Z) (value : Cluster)
| EvtServer (t : EvtType) (key : Z) (value : Server)
| EvtBind (t : EvtType) (value : Bind)
| EvtStatusChanged (value : statusChanged).

(** The orders in which the maps of servers, APIs and binds are visited. *)
Record orders := mkOrders { svrOrder : list Z; apiOrder : list Z; bindOrder : list Z }.

Section Events.
Context {L : Type} `{!Balancers L} {env : Env} {node_sort : NodeSort} {sort : SortSlice}.
Implicit Type r : dispatcher L.

Definition newDispatcher : dispatcher L := mkDispatcher ∅ NewRoute ∅ ∅ ∅ ∅ ∅ [] Analysis.NewAnalysis ∅ 0.

Definition doRoutingEvent (t : EvtType) (key : Z) (value : Routing) r :=
  match t with
  | EventTypeNew => addRouting value r
  | EventTypeDelete => removeRouting key r
  | EventTypeUpdate => updateRouting value r
  end.

Definition doProxyEvent (t : EvtType) (key : bytes) (value : Proxy) (o : orders) (now : Z) r :=
  match t with
  | EventTypeNew => addProxy value (svrOrder o) (apiOrder o) now r
  | EventTypeDelete => removeProxy key (svrOrder o) (apiOrder o) now r
  | EventTypeUpdate => Ret (None, r)
  end.

Definition doAPIEvent (t : EvtType) (key : Z) (value : API) (o : orders) (now : Z) r :=
  match t with
  | EventTypeNew => addAPI value (apiOrder o) now r
  | EventTypeDelete => removeAPI key (apiOrder o) now r
  | EventTypeUpdate => updateAPI value (apiOrder o) now r
  end.

Definition doClusterEvent (t : EvtType) (key : Z) (value : Cluster) r :=
  match t with
  | EventTypeNew => addCluster value r
  | EventTypeDelete => removeCluster key r
  | EventTypeUpdate => updateCluster value r
  end.

Definition doServerEvent (t : EvtType) (key : Z) (value : Server) (now : Z) r :=
  match t with
  | EventTypeNew => addServer value now r
  | EventTypeDelete => removeServer key now r
  | EventTypeUpdate => updateServer value now r
  end.

Definition doBindEvent (t : EvtType) (value : Bind) r :=
  match t with
  | EventTypeNew => addBind value r
  | EventTypeDelete => removeBind value r
  | EventTypeUpdate => Ret (None, r)
  end.

(** One turn of [readyToReceiveWatchEvent]; the handlers drop the errors. *)
Definition handle (evt : Evt) (o : orders) (now : Z) r : outcome (option error * dispatcher L) :=
  match evt with
  | EvtCluster t key value => doClusterEvent t key value r
  | EvtServer t key value => doServerEvent t key value now r
  | EvtBind t value => doBindEvent t value r
  | EvtAPI t key value => doAPIEvent t key value o now r
  | EvtRouting t key value => doRoutingEvent t key value r
  | EvtProxy t key value => doProxyEvent t key value o now r
  | EvtStatusChanged value => Ret (None, doStatusChangedEvent value (bindOrder o) r)
  end.

End Events.
