(* ===== verification/Store.v ===== *)
(** Model of the store [src/src/store/store_etcd.go]: the metadata of the gateway as messages
    under keys of etcd.  An operation takes the state of an [EtcdStore] and answers with a
    value or an error and the state after it; the locks make an operation one step of its
    own store, and the allocation of ids, which other stores race with, is split further in
    [StoreIds]. *)
From S2P Require Import Prelude Meta JsonEscape Format Matching RouteTable Expr Dispatcher Validation Etcd.

Module EtcdStore.

Inductive error :=
| ErrStaleOP
| errRequest  (** a request to etcd failed *)
| errMarshal | errUnmarshal | errBytes
| errNotFound (key : bytes)
| errInvalid (e : invalid)
| errRoute (e : addError)
| errApplied (id : Z)
| errRemote.  (** a request to another gateway failed *)

Inductive result A := Ok (a : A) | Err (e : error).
Arguments Ok {A} a.
Arguments Err {A} e.

(** The batches of [rpcpb.BatchReq] that [Batch] reads, and its answer: the ids given to the
    messages that came without one. *)
Record BatchReq := mkBatchReq {
  PutServers : list Server;
  PutClusters : list Cluster;
  AddBinds : list Bind;
  PutAPIs : list API;
  PutRoutings : list Routing;
  PutPlugins : list Plugin;
  ApplyPlugins_ : option AppliedPlugins
}.
Record BatchRsp := mkBatchRsp {
  rsp_PutServers : list Z;
  rsp_PutClusters : list Z;
  rsp_AddBinds : Z;
  rsp_PutAPIs : list Z;
  rsp_PutRoutings : list Z;
  rsp_PutPlugins : list Z
}.

(** The message [System]: the counts. *)
Record CountMetric := mkCountMetric {
  Count_Cluster : Z; Count_Server : Z; Count_API : Z; Count_Routing : Z; Count_Plugin : Z; Count_AppliedPlugin : Z
}.

Definition DefaultRequestTimeout : Z := 10 * 1000000000.
Definition batch : Z := 1000.
Definition endID : Z := 2^64 - 1.

(** The ids of the messages. *)
#[export] Program Instance Cluster_ident : Ident Cluster :=
  {| GetID := Cluster_ID; SetID id v := mkCluster id (Cluster_Name v) (Cluster_LoadBalance v) |}.
Next Obligation. done. Qed.
#[export] Program Instance Server_ident : Ident Server :=
  {| GetID := Server_ID; SetID id v := mkServer id (Server_Addr v) (Server_MaxQPS v) (Server_HeathCheck v)
       (Server_CircuitBreaker v) (Server_Weight v) (Server_RateLimitOption v) (Server_Protocol v) |}.
Next Obligation. done. Qed.
#[export] Program Instance API_ident : Ident API :=
  {| GetID := API_ID; SetID id v := mkAPI id (API_Name v) (API_URLPattern v) (API_Method v) (API_Domain v) (API_Status v)
       (API_IPAccessControl v) (API_DefaultValue v) (API_Nodes v) (API_UseDefault v) (API_MatchRule v) (API_MaxQPS v)
       (API_CircuitBreaker v) (API_RateLimitOption v) (API_RenderTemplate v) (API_WebSocketOptions v)
       (API_Perms v) (API_AuthFilter v) (API_Position v) (API_Tags v) (API_UseTLS v) (API_TlsEmbedCert v) |}.
Next Obligation. done. Qed.
#[export] Program Instance Routing_ident : Ident Routing :=
  {| GetID := Routing_ID; SetID id v := mkRouting id (Routing_ClusterID v) (Routing_Conditions v) (Routing_Strategy v)
       (Routing_TrafficRate v) (Routing_Status v) (Routing_API v) (Routing_Name v) |}.
Next Obligation. done. Qed.
#[export] Program Instance Plugin_ident : Ident Plugin :=
  {| GetID := Plugin_ID; SetID id v := mkPlugin id (Plugin_Name v) (Plugin_Author v) (Plugin_Email v) (Plugin_Status v)
       (Plugin_UpdateAt v) (Plugin_Version v) (Plugin_Type v) (Plugin_Content v) (Plugin_Cfg v) |}.
Next Obligation. done. Qed.

(** [getKey] and [getAddrKey]. *)
Definition getKey (prefix : bytes) (id : Z) : bytes := prefix ++ str "/" ++ padded 20 (UInt64ToString id).
Definition getAddrKey (prefix addr : bytes) : bytes := prefix ++ str "/" ++ GetAddrFormat addr.

Section Store.
Context `{Etcd} (prefix : bytes) {checks : Checks} {sort : SortSlice}
  `{!Pb Cluster, !Pb Server, !Pb API, !Pb Routing, !Pb Plugin, !Message AppliedPlugins, !Message Bind, !Message Proxy}.

(** The ids it may give out are those above [base] to [end_]. *)
Record EtcdStore := mkStore { base : Z; end_ : Z; rawClient : etcd }.
Implicit Types e : EtcdStore.

Definition NewEtcdStore (cli : etcd) : EtcdStore := mkStore 100 100 cli.

Definition clustersDir : bytes := prefix ++ str "/clusters".
Definition serversDir : bytes := prefix ++ str "/servers".
Definition bindsDir : bytes := prefix ++ str "/binds".
Definition apisDir : bytes := prefix ++ str "/apis".
Definition proxiesDir : bytes := prefix ++ str "/proxies".
Definition routingsDir : bytes := prefix ++ str "/routings".
Definition pluginsDir : bytes := prefix ++ str "/plugins".
Definition appliedPluginDir : bytes := prefix ++ str "/applied/plugins".
Definition idPath : bytes := prefix ++ str "/id".

Definition set_client c e : EtcdStore := mkStore (base e) (end_ e) c.
Definition set_ids b n e : EtcdStore := mkStore b n (rawClient e).

(** ** Operations that can fail *)
Definition M A : Type := EtcdStore -> outcome (result A * EtcdStore).

#[global] Instance M_ret : MRet M := λ A a e, Ret (Ok a, e).
#[global] Instance M_bind : MBind M := λ A B f m e,
  '(r, e) ← m e; match r with Ok a => f a e | Err err => Ret (Err err, e) end.

Definition throw {A} (err : error) : M A := λ e, Ret (Err err, e).
Definition lift {A} (m : outcome A) : M A := λ e, a ← m; Ret (Ok a, e).
Definition check (err : option invalid) : M unit := match err with Some err => throw (errInvalid err) | None => mret () end.
Definition ofOption {A} (err : error) (x : option A) : M A := match x with Some a => mret a | None => throw err end.

(** ** Requests *)

Definition commit (cmps : list Cmp) (ops : list Op) : M bool := λ e,
  let '(r, c) := Commit cmps ops (rawClient e) in
  Ret (match r with Some ok => Ok ok | None => Err errRequest end, set_client c e).

Definition put (key value : bytes) (lease : option Z) : M unit := _ ← commit [] [OpPut key value lease]; mret ().
Definition op (key value : bytes) : Op := OpPut key value None.
Definition putBatch (ops : list Op) : M unit :=
  if len ops =? 0 then mret () else _ ← commit [] ops; mret ().
Definition delete_ (ks : keyset) : M unit := _ ← commit [] [OpDelete ks]; mret ().

Definition grant (ttl : Z) : M Z := λ e,
  let '(r, c) := Grant ttl (rawClient e) in
  Ret (match r with Some id => Ok id | None => Err errRequest end, set_client c e).
Definition keepAlive (lease : Z) : M unit := λ e,
  let '(ok, c) := KeepAlive lease (rawClient e) in
  Ret (if (ok : bool) then Ok () else Err errRequest, set_client c e).
Definition putTTL (key value : bytes) (ttl : Z) : M unit := lease ← grant ttl; put key value (Some lease).

Definition get (ks : keyset) (limit : Z) : M (list (bytes * bytes)) := λ e,
  Ret (match Get ks limit (rawClient e) with Some l => Ok l | None => Err errRequest end, e).

(** No value is the empty value. *)
Definition getValue (key : bytes) : M bytes :=
  l ← get (KOne key) 0; mret (match l with [] => [] | (_, v) :: _ => v end).

Definition getPBWithKey {A} `{Message A} (key : bytes) (zero : A) (allowNotFound : bool) : M A :=
  data ← getValue key;
  if len data =? 0 then if allowNotFound then mret zero else throw (errNotFound key)
  else ofOption errUnmarshal (Unmarshal A data).

Definition getPB {A} `{Message A} (dir : bytes) (id : Z) (zero : A) : M A := getPBWithKey (getKey dir id) zero false.

(** ** Ids *)

Definition getID : M Z :=
  value ← getValue idPath;
  if len value =? 0 then mret 0 else ofOption errBytes (BytesToUint64 value).

Definition createID (value : Z) : M unit :=
  ok ← commit [CmpAbsent idPath] [op idPath (Uint64ToBytes value)]; if (ok : bool) then mret () else throw ErrStaleOP.

Definition updateID (old value : Z) : M unit :=
  ok ← commit [CmpValue idPath (Uint64ToBytes old)] [op idPath (Uint64ToBytes value)];
  if (ok : bool) then mret () else throw ErrStaleOP.

(** A turn of [generate]'s loop: the new end, or again. *)
Definition reserve (value : Z) : M unit :=
  let max := u64 (value + batch) in if value =? 0 then createID max else updateID value max.
Definition generate_turn e : outcome (EtcdStore + result Z * EtcdStore) :=
  '(r, e) ← getID e;
  match r with
  | Err err => Ret (inr (Err err, e))
  | Ok value =>
      '(r, e) ← reserve value e;
      Ret (match r with
           | Ok _ => inr (Ok (u64 (value + batch)), e)
           | Err ErrStaleOP => inl e
           | Err err => inr (Err err, e)
           end)
  end.

(** Within one step no other store changes the counter: a turn that is stale once is so for
    ever ([StoreIds.generate_ends]). *)
Definition generate : M Z := loop generate_turn 2.

Definition setIDs (b n : Z) : M unit := λ e, Ret (Ok (), set_ids b n e).
Definition nextID : M Z := λ e, let b := u64 (base e + 1) in Ret (Ok b, set_ids b (end_ e) e).
Definition refill : M unit := n ← generate; setIDs (u64 (n - batch)) n.
Definition ensureRange : M unit := λ e, (if base e =? end_ e then refill else mret ()) e.
Definition allocID : M Z := _ ← ensureRange; nextID.

Definition SetID_ (id : Z) : M unit :=
  ok ← commit [] [op idPath (Uint64ToBytes id)];
  if (ok : bool) then setIDs 0 0 else throw ErrStaleOP.

(** ** Messages *)

(** The message with its id, and the ids it was given: none or one. *)
Definition ensureID {A} `{Pb A} (value : A) : M (A * list Z) :=
  if GetID value =? 0 then id ← allocID; mret (SetID id value, [id]) else mret (value, []).

Definition putPB {A} `{Pb A} (dir : bytes) (value : A) : M Z :=
  '(value, _) ← ensureID value; data ← ofOption errMarshal (Marshal value);
  _ ← put (getKey dir (GetID value)) data None; mret (GetID value).

Definition putPBKeyWithOp {A} `{!Message A} (key : bytes) (value : A) : M Op :=
  data ← ofOption errMarshal (Marshal value); mret (op key data).

Definition putPBWithOp {A} `{Pb A} (dir : bytes) (value : A) : M (Op * list Z) :=
  '(value, ids) ← ensureID value; o ← putPBKeyWithOp (getKey dir (GetID value)) value; mret (o, ids).

(** The values of a page, and where the next one starts.  What [fn] reports is not looked at. *)
Fixpoint visit {A Acc X} `{Pb A} (fn : A -> Acc -> outcome (X * Acc)) (l : list (bytes * bytes))
    (start : Z) (acc : Acc) : outcome (option error * (Z * Acc)) :=
  match l with
  | [] => Ret (None, (start, acc))
  | (_, data) :: l =>
      match Unmarshal A data with
      | None => Ret (Some errUnmarshal, (start, acc))
      | Some value => '(_, acc) ← fn value acc; visit fn l (u64 (GetID value + 1)) acc
      end
  end.

Definition getValuesTurn {A Acc X} `{Pb A} (dir : bytes) (limit : Z) (fn : A -> Acc -> outcome (X * Acc))
    (c : etcd) (s : Z * Acc) : outcome (Z * Acc + option error * Acc) :=
  let '(start, acc) := s in
  match Get (KRange (getKey dir start) (getKey dir endID)) limit c with
  | None => Ret (inr (Some errRequest, acc))
  | Some l =>
      '(err, (start, acc)) ← visit fn l start acc;
      Ret (match err with
           | Some err => inr (Some err, acc)
           | None => if len l <? limit then inr (None, acc) else inl (start, acc)
           end)
  end.

(** A turn that is not the last reads a key more. *)
Definition getValues {A Acc X} `{Pb A} (dir : bytes) (limit : Z) (fn : A -> Acc -> outcome (X * Acc))
    (acc : Acc) e : outcome (option error * Acc) :=
  loop (getValuesTurn dir limit fn (rawClient e)) (S (S (size (kvs (rawClient e))))) (0, acc).

(** ** Binds *)

Definition getClusterBindPrefix (id : Z) : bytes := getKey bindsDir id.
Definition getBindKey (bind : Bind) : bytes := getKey (getClusterBindPrefix (Bind_ClusterID bind)) (Bind_ServerID bind).

Definition AddBind (bind : Bind) : M unit :=
  data ← ofOption errMarshal (Marshal bind); put (getBindKey bind) data None.
Definition RemoveBind (bind : Bind) : M unit := delete_ (KOne (getBindKey bind)).
Definition RemoveClusterBind (id : Z) : M unit := delete_ (KPrefix (getClusterBindPrefix id)).

Fixpoint bindServers (l : list (bytes * bytes)) : M (list Z) :=
  match l with
  | [] => mret []
  | (_, data) :: l => v ← ofOption errUnmarshal (Unmarshal Bind data); values ← bindServers l; mret (Bind_ServerID v :: values)
  end.
Definition doGetBindServers (id : Z) : M (list Z) := l ← get (KPrefix (getClusterBindPrefix id)) 0; bindServers l.
Definition GetBindServers (id : Z) : M (list Z) := doGetBindServers id.

(** ** Clusters, servers, routings *)

Definition PutCluster (value : Cluster) : M Z := _ ← check (ValidateCluster value); putPB clustersDir value.
Definition RemoveCluster (id : Z) : M unit :=
  _ ← commit [] [OpDelete (KOne (getKey clustersDir id)); OpDelete (KPrefix (getClusterBindPrefix id))]; mret ().
Definition GetClusters {Acc X} (limit : Z) (fn : Cluster -> Acc -> outcome (X * Acc)) (acc : Acc) e :=
  getValues clustersDir limit fn acc e.
Definition GetCluster (id : Z) (zero : Cluster) : M Cluster := getPB clustersDir id zero.

Definition PutServer (value : Server) : M Z := _ ← check (ValidateServer value); putPB serversDir value.
Definition RemoveServer (id : Z) : M unit := delete_ (KOne (getKey serversDir id)).
Definition GetServers {Acc X} (limit : Z) (fn : Server -> Acc -> outcome (X * Acc)) (acc : Acc) e :=
  getValues serversDir limit fn acc e.
Definition GetServer (id : Z) (zero : Server) : M Server := getPB serversDir id zero.

Definition PutRouting (value : Routing) : M Z := _ ← check (ValidateRouting value); putPB routingsDir value.
Definition RemoveRouting (id : Z) : M unit := delete_ (KOne (getKey routingsDir id)).
Definition GetRoutings {Acc X} (limit : Z) (fn : Routing -> Acc -> outcome (X * Acc)) (acc : Acc) e :=
  getValues routingsDir limit fn acc e.
Definition GetRouting (id : Z) (zero : Routing) : M Routing := getPB routingsDir id zero.

(** ** APIs *)

Definition isUp (v : API) : bool := bool_decide (API_Status v = Up).

(** The closure that fills the routing table with the other APIs that are up. *)
Definition addOther (value v : API) (r : Route) : outcome (option error * Route) :=
  if negb (API_ID v =? API_ID value) && isUp v
  then res ← RouteTable.Add r v; Ret (None, match res with inl _ => r | inr r => r end)
  else Ret (None, r).

(** The part under the lock.  That the APIs could not all be read is not looked at. *)
Definition putAPILocked (value : API) : M Z := λ e,
  '(_, apiRoute) ← getValues apisDir 64 (addOther value) NewRoute e;
  res ← (if isUp value then RouteTable.Add apiRoute value else Ret (inr apiRoute));
  match res with
  | inl err => Ret (Err (errRoute err), e)
  | inr _ => putPB apisDir value e
  end.
Definition PutAPI (value : API) : M Z := err ← lift (ValidateAPI value); _ ← check err; putAPILocked value.
Definition RemoveAPI (id : Z) : M unit := delete_ (KOne (getKey apisDir id)).
Definition GetAPIs {Acc X} (limit : Z) (fn : API -> Acc -> outcome (X * Acc)) (acc : Acc) e :=
  getValues apisDir limit fn acc e.
Definition GetAPI (id : Z) (zero : API) : M API := getPB apisDir id zero.

(** ** Plugins *)

Definition set_UpdateAt (now : Z) (v : Plugin) : Plugin :=
  mkPlugin (Plugin_ID v) (Plugin_Name v) (Plugin_Author v) (Plugin_Email v) (Plugin_Status v) now
    (Plugin_Version v) (Plugin_Type v) (Plugin_Content v) (Plugin_Cfg v).

Definition doGetAppliedPlugins : M AppliedPlugins := getPBWithKey appliedPluginDir (mkAppliedPlugins 0 []) true.
Definition GetAppliedPlugins : M AppliedPlugins := doGetAppliedPlugins.

Definition PutPlugin (now : Z) (value : Plugin) : M Z :=
  _ ← check (ValidatePlugin value); putPB pluginsDir (set_UpdateAt now value).
Definition RemovePlugin (id : Z) : M unit :=
  applied ← doGetAppliedPlugins;
  if existsb (λ appliedID, id =? appliedID) (AppliedIDs applied) then throw (errApplied id)
  else delete_ (KOne (getKey pluginsDir id)).
Definition GetPlugins {Acc X} (limit : Z) (fn : Plugin -> Acc -> outcome (X * Acc)) (acc : Acc) e :=
  getValues pluginsDir limit fn acc e.
Definition GetPlugin (id : Z) (zero : Plugin) : M Plugin := getPB pluginsDir id zero.

Definition ApplyPlugins (value : AppliedPlugins) : M unit :=
  data ← ofOption errMarshal (Marshal value); put appliedPluginDir data None.

(** ** Proxies *)

Definition RegistryProxy (proxy : Proxy) (ttl : Z) : M unit :=
  data ← ofOption errMarshal (Marshal proxy);
  lease ← grant ttl;
  _ ← keepAlive lease;
  put (getAddrKey proxiesDir (Proxy_Addr proxy)) data (Some lease).

Fixpoint visitProxies {Acc X} (fn : Proxy -> Acc -> outcome (X * Acc)) (l : list (bytes * bytes))
    (start : bytes) (acc : Acc) : outcome (option error * (bytes * Acc)) :=
  match l with
  | [] => Ret (None, (start, acc))
  | (_, data) :: l =>
      match Unmarshal Proxy data with
      | None => Ret (Some errUnmarshal, (start, acc))
      | Some value => '(_, acc) ← fn value acc; next ← GetAddrNextFormat (Proxy_Addr value); visitProxies fn l next acc
      end
  end.

Definition getProxiesTurn {Acc X} (limit : Z) (fn : Proxy -> Acc -> outcome (X * Acc)) (c : etcd)
    (s : bytes * Acc) : outcome (bytes * Acc + option error * Acc) :=
  let '(start, acc) := s in
  match Get (KRange (getAddrKey proxiesDir start) (getAddrKey proxiesDir MaxAddrFormat)) limit c with
  | None => Ret (inr (Some errRequest, acc))
  | Some l =>
      '(err, (start, acc)) ← visitProxies fn l start acc;
      Ret (match err with
           | Some err => inr (Some err, acc)
           | None => if len l <? limit then inr (None, acc) else inl (start, acc)
           end)
  end.
Definition GetProxies {Acc X} (limit : Z) (fn : Proxy -> Acc -> outcome (X * Acc)) (acc : Acc) e :
    outcome (option error * Acc) :=
  loop (getProxiesTurn limit fn (rawClient e)) (S (S (size (kvs (rawClient e))))) (MinAddrFormat, acc).

(** ** The whole store *)

Definition Clean : M unit := delete_ (KPrefix prefix).

Definition count (dir : bytes) : M Z := l ← get (KPrefix dir) 0; mret (len l).
Definition System : M CountMetric :=
  api ← count apisDir; cluster ← count clustersDir; server ← count serversDir;
  routing ← count routingsDir; plugin ← count pluginsDir; applied ← doGetAppliedPlugins;
  mret (mkCountMetric cluster server api routing plugin (len (AppliedIDs applied))).

(** The operations of one kind in a batch, checked and encoded in order. *)
Fixpoint batchOps {A} `{Pb A} (dir : bytes) (validate : A -> outcome (option invalid)) (values : list A) :
    M (list Op * list Z) :=
  match values with
  | [] => mret ([], [])
  | v :: values =>
      err ← lift (validate v); _ ← check err;
      '(o, ids) ← putPBWithOp dir v; '(ops, rest) ← batchOps dir validate values; mret (o :: ops, ids ++ rest)
  end.

Fixpoint bindOps (values : list Bind) : M (list Op) :=
  match values with
  | [] => mret []
  | v :: values => o ← putPBKeyWithOp (getBindKey v) v; ops ← bindOps values; mret (o :: ops)
  end.

Definition pluginCheck (v : Plugin) : outcome (option invalid) := Ret (if NewRuntime v then None else Some error_plugin).

Definition Batch (req : BatchReq) : M BatchRsp :=
  '(ops, servers) ← batchOps serversDir (λ v, Ret (ValidateServer v)) (PutServers req); _ ← putBatch ops;
  '(ops, clusters) ← batchOps clustersDir (λ v, Ret (ValidateCluster v)) (PutClusters req); _ ← putBatch ops;
  ops ← bindOps (AddBinds req); _ ← putBatch ops;
  '(ops, apis) ← batchOps apisDir ValidateAPI (PutAPIs req); _ ← putBatch ops;
  '(ops, routings) ← batchOps routingsDir (λ v, Ret (ValidateRouting v)) (PutRoutings req); _ ← putBatch ops;
  '(ops, plugins) ← batchOps pluginsDir pluginCheck (PutPlugins req);
  applied ← (match ApplyPlugins_ req with Some a => o ← putPBKeyWithOp appliedPluginDir a; mret [o] | None => mret [] end);
  _ ← putBatch (ops ++ applied);
  mret (mkBatchRsp servers clusters (len (AddBinds req)) apis routings plugins).

End Store.

Arguments EtcdStore {_}.
Arguments mkStore {_}.
Arguments base {_}.
Arguments end_ {_}.
Arguments rawClient {_}.

End EtcdStore.
