(* ===== verification/Client.v ===== *)
(** Model of the client of the admin interface, [src/src/client]: the calls of [client.go] over a
    remote service, and what the builders send ([Commit], [Build]); the connections of
    [grpcx/client.go]. *)
From S2P Require Import Prelude Meta Validation Store Builders.

(** ** The service

    [rpcpb.MetaServiceClient]: a call answers or fails, and may change the state of the other
    side.  A stream of values ends with [io.EOF] ([None]) or with an error. *)
Class Resource (W E A : Type) := {
  rpc_Put : A -> W -> (E + Z) * W;
  rpc_Remove : Z -> W -> option E * W;
  rpc_Get : Z -> W -> E + A;
  rpc_List : W -> E + (list A * option E)
}.
Class MetaService (W E : Type) := {
  service_clusters :: Resource W E Cluster;
  service_servers :: Resource W E Server;
  service_apis :: Resource W E API;
  service_routings :: Resource W E Routing;
  service_plugins :: Resource W E Plugin;
  rpc_AddBind : Bind -> W -> option E * W;
  rpc_RemoveBind : Bind -> W -> option E * W;
  rpc_RemoveClusterBind : Z -> W -> option E * W;
  rpc_GetBindServers : Z -> W -> E + list Z;
  rpc_ApplyPlugins : AppliedPlugins -> W -> option E * W;
  rpc_GetAppliedPlugins : W -> E + option AppliedPlugins;
  rpc_Clean : W -> option E * W;
  rpc_SetID : Z -> W -> option E * W;
  rpc_Batch : EtcdStore.BatchReq -> W -> (E + EtcdStore.BatchRsp) * W
}.

(** ** Connections

    The clients of services by their names, made on the first use; [Dial] connects. *)
Section Connections.
Context {Conn E : Type} (Dial : bytes -> E + Conn) (CloseConn : Conn -> option E).

Record GRPCClient := mkGRPCClient { clients : gmap bytes Conn; conns : gmap bytes Conn; opts_prefix : bytes }.

Definition NewGRPCClient (prefix : bytes) : GRPCClient := mkGRPCClient ∅ ∅ prefix.

(** Two callers may both see no client: [createClient] looks again under the lock. *)
Definition createClient (name : bytes) (c : GRPCClient) : (E + Conn) * GRPCClient :=
  match clients c !! name with
  | Some cli => (inr cli, c)
  | None =>
      match Dial (opts_prefix c ++ str "/" ++ name) with
      | inl err => (inl err, c)
      | inr conn => (inr conn, mkGRPCClient (<[name := conn]> (clients c)) (conns c) (opts_prefix c))
      end
  end.
Definition GetServiceClient (name : bytes) (c : GRPCClient) : (E + Conn) * GRPCClient :=
  match clients c !! name with Some cli => (inr cli, c) | None => createClient name c end.

(** The error of the last connection of a map; [order] is that of the iteration. *)
Definition Close (order : gmap bytes Conn -> list (bytes * Conn)) (c : GRPCClient) : option E * list Conn :=
  foldl (λ '(err, closed) '(_, conn), (CloseConn conn, closed ++ [conn])) (None, []) (order (conns c)).
End Connections.

(** ** The client

    [meta]: what [getMetaClient] answers. *)
Section Client.
Context {W E : Type} `{!MetaService W E} (meta : option E).
Implicit Types w : W.

Definition put {A} `{!Resource W E A} (value : A) w : (E + Z) * W :=
  match meta with Some err => (inl err, w) | None => rpc_Put value w end.
Definition remove A `{!Resource W E A} (id : Z) w : option E * W :=
  match meta with Some err => (Some err, w) | None => rpc_Remove (A := A) id w end.
Definition get_ {A} `{!Resource W E A} (id : Z) w : E + A :=
  match meta with Some err => inl err | None => rpc_Get id w end.

(** The loop on [stream.Recv]: until the stream ends, fails, or [fn] asks to stop. *)
Fixpoint recv {A V} (fn : A -> V -> bool * V) (l : list A) (last : option E) (v : V) : option E * V :=
  match l with
  | [] => (last, v)
  | a :: l => let '(next, v) := fn a v in if next : bool then recv fn l last v else (None, v)
  end.
Definition list_ {A V} `{!Resource W E A} (fn : A -> V -> bool * V) w (v : V) : option E * V :=
  match meta with
  | Some err => (Some err, v)
  | None =>
      match rpc_List w with
      | inl err => (Some err, v)
      | inr (l, last) => recv fn l last v
      end
  end.
Definition ask (f : W -> option E * W) w : option E * W := match meta with Some err => (Some err, w) | None => f w end.

Definition client_putCluster : Cluster -> W -> (E + Z) * W := put.
Definition client_RemoveCluster : Z -> W -> option E * W := remove Cluster.
Definition client_GetCluster : Z -> W -> E + Cluster := get_.
Definition client_GetClusterList {V} : (Cluster -> V -> bool * V) -> W -> V -> option E * V := list_.
Definition client_putServer : Server -> W -> (E + Z) * W := put.
Definition client_RemoveServer : Z -> W -> option E * W := remove Server.
Definition client_GetServer : Z -> W -> E + Server := get_.
Definition client_GetServerList {V} : (Server -> V -> bool * V) -> W -> V -> option E * V := list_.
Definition client_putAPI : API -> W -> (E + Z) * W := put.
Definition client_RemoveAPI : Z -> W -> option E * W := remove API.
Definition client_GetAPI : Z -> W -> E + API := get_.
Definition client_GetAPIList {V} : (API -> V -> bool * V) -> W -> V -> option E * V := list_.
Definition client_putRouting : Routing -> W -> (E + Z) * W := put.
Definition client_RemoveRouting : Z -> W -> option E * W := remove Routing.
Definition client_GetRouting : Z -> W -> E + Routing := get_.
Definition client_GetRoutingList {V} : (Routing -> V -> bool * V) -> W -> V -> option E * V := list_.
Definition client_putPlugin : Plugin -> W -> (E + Z) * W := put.
Definition client_RemovePlugin : Z -> W -> option E * W := remove Plugin.
Definition client_GetPlugin : Z -> W -> E + Plugin := get_.
Definition client_GetPluginList {V} : (Plugin -> V -> bool * V) -> W -> V -> option E * V := list_.

Definition client_AddBind (cluster server : Z) : W -> option E * W := ask (rpc_AddBind (mkBind cluster server)).
Definition client_RemoveBind (cluster server : Z) : W -> option E * W := ask (rpc_RemoveBind (mkBind cluster server)).
Definition client_RemoveClusterBind (cluster : Z) : W -> option E * W := ask (rpc_RemoveClusterBind cluster).
Definition client_GetBindServers (cluster : Z) w : E + list Z :=
  match meta with Some err => inl err | None => rpc_GetBindServers cluster w end.
Definition client_ApplyPlugins (ids : list Z) : W -> option E * W := ask (rpc_ApplyPlugins (mkAppliedPlugins 0 ids)).
Definition client_GetAppliedPlugins w : E + list Z :=
  match meta with
  | Some err => inl err
  | None =>
      match rpc_GetAppliedPlugins w with
      | inl err => inl err
      | inr None => inr []
      | inr (Some applied) => inr (AppliedIDs applied)
      end
  end.
Definition client_Clean : W -> option E * W := ask rpc_Clean.
Definition client_SetID (id : Z) : W -> option E * W := ask (rpc_SetID id).
Definition client_Batch (batch : EtcdStore.BatchReq) w : (E + EtcdStore.BatchRsp) * W :=
  match meta with Some err => (inl err, w) | None => rpc_Batch batch w end.

(** ** What the builders send *)

(** The error of a commit: the message is invalid, or that of the call. *)
Inductive commit_error := Invalid (err : invalid) | Failed (err : E).

Definition commit_ {A} `{!Resource W E A} (err : option invalid) (value : A) w : (commit_error + Z) * W :=
  match err with
  | Some err => (inl (Invalid err), w)
  | None => let '(r, w) := put value w in (match r with inl err => inl (Failed err) | inr id => inr id end, w)
  end.
Definition build_ {A} (err : option invalid) (value : A) : invalid + A := match err with Some err => inl err | None => inr value end.

Context {checks : Checks}.

Definition ClusterBuilder_Commit (cb : ClusterBuilder) : W -> (commit_error + Z) * W := commit_ (ValidateCluster cb) cb.
Definition ClusterBuilder_Build (cb : ClusterBuilder) : invalid + Cluster := build_ (ValidateCluster cb) cb.
Definition ServerBuilder_Commit (sb : ServerBuilder) : W -> (commit_error + Z) * W := commit_ (ValidateServer sb) sb.
Definition ServerBuilder_Build (sb : ServerBuilder) : invalid + Server := build_ (ValidateServer sb) sb.
Definition RoutingBuilder_Commit (rb : RoutingBuilder) : W -> (commit_error + Z) * W := commit_ (ValidateRouting rb) rb.
Definition RoutingBuilder_Build (rb : RoutingBuilder) : invalid + Routing := build_ (ValidateRouting rb) rb.
Definition PluginBuilder_Commit (sb : PluginBuilder) : W -> (commit_error + Z) * W := commit_ (ValidatePlugin sb) sb.
Definition PluginBuilder_Build (sb : PluginBuilder) : invalid + Plugin := build_ (ValidatePlugin sb) sb.
Definition APIBuilder_Commit (ab : APIBuilder) w : outcome ((commit_error + Z) * W) := err ← ValidateAPI ab; Ret (commit_ err ab w).
Definition APIBuilder_Build (ab : APIBuilder) : outcome (invalid + API) := err ← ValidateAPI ab; Ret (build_ err ab).
End Client.
