(* ===== verification/Codec.v ===== *)
(** An encoding of the messages that satisfies the interface of [Etcd]: every message is
    countable, and its number in binary is its text. *)
From stdpp Require Import countable.
From S2P Require Import Prelude Meta Etcd.

(** A record is countable as the tuple of its fields. *)
Ltac tuple f g := apply (inj_countable' f g); by intros [].

#[export] Instance Status_countable : Countable Status.
Proof. apply (inj_countable' (λ s, match s with Down => 0 | Up => 1 | Unknown => 2 end) (λ n, if n =? 0 then Down else if n =? 1 then Up else Unknown)). by intros []. Defined.
#[export] Instance RateLimitOption_countable : Countable RateLimitOption.
Proof. apply (inj_countable' (λ s, match s with Wait => false | Reject => true end) (λ b : bool, if b then Reject else Wait)). by intros []. Defined.
#[export] Instance LoadBalance_countable : Countable LoadBalance.
Proof.
  apply (inj_countable' (λ x, match x with RoundRobin => inl 0 | IPHash => inl 1 | WightRobin => inl 2 | Rand => inl 3 | LoadBalance_other v => inr v end)
    (λ y : Z + Z, match y with inl 0 => RoundRobin | inl 1 => IPHash | inl 2 => WightRobin | inl _ => Rand | inr v => LoadBalance_other v end)). by intros [].
Defined.
#[export] Instance Source_countable : Countable Source.
Proof.
  apply (inj_countable' (λ x, match x with QueryString => inl 0 | FormData => inl 1 | JSONBody => inl 2 | Header => inl 3 | Cookie => inl 4 | PathValue => inl 5 | Source_other v => inr v end)
    (λ y : Z + Z, match y with inl 0 => QueryString | inl 1 => FormData | inl 2 => JSONBody | inl 3 => Header | inl 4 => Cookie | inl _ => PathValue | inr v => Source_other v end)). by intros [].
Defined.
#[export] Instance CMP_countable : Countable CMP.
Proof.
  apply (inj_countable' (λ x, match x with CMPEQ => inl 0 | CMPLT => inl 1 | CMPLE => inl 2 | CMPGT => inl 3 | CMPGE => inl 4 | CMPIn => inl 5 | CMPMatch => inl 6 | CMP_other v => inr v end)
    (λ y : Z + Z, match y with inl 0 => CMPEQ | inl 1 => CMPLT | inl 2 => CMPLE | inl 3 => CMPGT | inl 4 => CMPGE | inl 5 => CMPIn | inl _ => CMPMatch | inr v => CMP_other v end)). by intros [].
Defined.
#[export] Instance RoutingStrategy_countable : Countable RoutingStrategy.
Proof.
  apply (inj_countable' (λ x, match x with Copy => inl 0 | Split => inl 1 | RoutingStrategy_other v => inr v end)
    (λ y : Z + Z, match y with inl 0 => Copy | inl _ => Split | inr v => RoutingStrategy_other v end)). by intros [].
Defined.
#[export] Instance MatchRule_countable : Countable MatchRule.
Proof.
  apply (inj_countable' (λ x, match x with MatchDefault => inl 0 | MatchAll => inl 1 | MatchAny => inl 2 | MatchRule_other v => inr v end)
    (λ y : Z + Z, match y with inl 0 => MatchDefault | inl 1 => MatchAll | inl _ => MatchAny | inr v => MatchRule_other v end)). by intros [].
Defined.
#[export] Instance HostType_countable : Countable HostType.
Proof.
  apply (inj_countable' (λ x, match x with HostOrigin => inl 0 | HostServerAddress => inl 1 | HostCustom => inl 2 | HostType_other v => inr v end)
    (λ y : Z + Z, match y with inl 0 => HostOrigin | inl 1 => HostServerAddress | inl _ => HostCustom | inr v => HostType_other v end)). by intros [].
Defined.

#[export] Instance Protocol_countable : Countable Protocol.
Proof.
  apply (inj_countable' (λ x, match x with HTTP => inl 0 | Grpc => inl 1 | Dubbo => inl 2 | SpringCloud => inl 3 | Protocol_other v => inr v end)
    (λ y : Z + Z, match y with inl 0 => HTTP | inl 1 => Grpc | inl 2 => Dubbo | inl _ => SpringCloud | inr v => Protocol_other v end)). by intros [].
Defined.

#[export] Instance HeathCheck_eq_dec : EqDecision HeathCheck. Proof. solve_decision. Defined.
#[export] Instance HeathCheck_countable : Countable HeathCheck.
Proof. tuple (λ r, (HeathCheck_Path r, HeathCheck_Body r, HeathCheck_CheckInterval r, HeathCheck_Timeout r)) (λ '(x0, x1, x2, x3), mkHeathCheck x0 x1 x2 x3). Defined.

#[export] Instance CircuitBreaker_eq_dec : EqDecision CircuitBreaker. Proof. solve_decision. Defined.
#[export] Instance CircuitBreaker_countable : Countable CircuitBreaker.
Proof. tuple (λ r, (CircuitBreaker_CloseTimeout r, CircuitBreaker_HalfTrafficRate r, CircuitBreaker_RateCheckPeriod r, CircuitBreaker_FailureRateToClose r, CircuitBreaker_SucceedRateToOpen r)) (λ '(x0, x1, x2, x3, x4), mkCircuitBreaker x0 x1 x2 x3 x4). Defined.

#[export] Instance Cluster_eq_dec : EqDecision Cluster. Proof. solve_decision. Defined.
#[export] Instance Cluster_countable : Countable Cluster.
Proof. tuple (λ r, (Cluster_ID r, Cluster_Name r, Cluster_LoadBalance r)) (λ '(x0, x1, x2), mkCluster x0 x1 x2). Defined.

#[export] Instance Server_eq_dec : EqDecision Server. Proof. solve_decision. Defined.
#[export] Instance Server_countable : Countable Server.
Proof. tuple (λ r, (Server_ID r, Server_Addr r, Server_MaxQPS r, Server_HeathCheck r, Server_CircuitBreaker r, Server_Weight r, Server_RateLimitOption r, Server_Protocol r)) (λ '(x0, x1, x2, x3, x4, x5, x6, x7), mkServer x0 x1 x2 x3 x4 x5 x6 x7). Defined.

#[export] Instance Bind_eq_dec : EqDecision Bind. Proof. solve_decision. Defined.
#[export] Instance Bind_countable : Countable Bind.
Proof. tuple (λ r, (Bind_ClusterID r, Bind_ServerID r)) (λ '(x0, x1), mkBind x0 x1). Defined.

#[export] Instance IPAccessControl_eq_dec : EqDecision IPAccessControl. Proof. solve_decision. Defined.
#[export] Instance IPAccessControl_countable : Countable IPAccessControl.
Proof. tuple (λ r, (IPAccessControl_Whitelist r, IPAccessControl_Blacklist r)) (λ '(x0, x1), mkIPAccessControl x0 x1). Defined.

#[export] Instance Param_eq_dec : EqDecision Param. Proof. solve_decision. Defined.
#[export] Instance Param_countable : Countable Param.
Proof. tuple (λ r, (Param_Name r, Param_Source r, Param_Index r)) (λ '(x0, x1, x2), mkParam x0 x1 x2). Defined.

#[export] Instance Condition_eq_dec : EqDecision Condition. Proof. solve_decision. Defined.
#[export] Instance Condition_countable : Countable Condition.
Proof. tuple (λ r, (Condition_Param r, Condition_Cmp r, Condition_Expect r)) (λ '(x0, x1, x2), mkCondition x0 x1 x2). Defined.

#[export] Instance Routing_eq_dec : EqDecision Routing. Proof. solve_decision. Defined.
#[export] Instance Routing_countable : Countable Routing.
Proof. tuple (λ r, (Routing_ID r, Routing_ClusterID r, Routing_Conditions r, Routing_Strategy r, Routing_TrafficRate r, Routing_Status r, Routing_API r, Routing_Name r)) (λ '(x0, x1, x2, x3, x4, x5, x6, x7), mkRouting x0 x1 x2 x3 x4 x5 x6 x7). Defined.

#[export] Instance HTTPResult_eq_dec : EqDecision HTTPResult. Proof. solve_decision. Defined.
#[export] Instance HTTPResult_countable : Countable HTTPResult.
Proof. tuple (λ r, (HTTPResult_Body r, HTTPResult_Headers r, HTTPResult_Cookies r, HTTPResult_Code r)) (λ '(x0, x1, x2, x3), mkHTTPResult x0 x1 x2 x3). Defined.

#[export] Instance RuleType_countable : Countable RuleType.
Proof. refine (inj_countable' (λ r, match r with RuleRegexp => inl () | RuleType_other v => inr v end) (λ x, match x with inl _ => RuleRegexp | inr v => RuleType_other v end) _); by intros []. Defined.
#[export] Instance ValidationRule_eq_dec : EqDecision ValidationRule. Proof. solve_decision. Defined.
#[export] Instance ValidationRule_countable : Countable ValidationRule.
Proof. tuple (λ r, (Rule_Type r, Rule_Expression r)) (λ '(x0, x1), mkValidationRule x0 x1). Defined.

#[export] Instance Validation_eq_dec : EqDecision Validation. Proof. solve_decision. Defined.
#[export] Instance Validation_countable : Countable Validation.
Proof. tuple (λ r, (Validation_Param r, Validation_Required r, Validation_Rules r)) (λ '(x0, x1, x2), mkValidation x0 x1 x2). Defined.

#[export] Instance RetryStrategy_eq_dec : EqDecision RetryStrategy. Proof. solve_decision. Defined.
#[export] Instance RetryStrategy_countable : Countable RetryStrategy.
Proof. tuple (λ r, (RetryStrategy_Interval r, RetryStrategy_MaxTimes r, RetryStrategy_Codes r)) (λ '(x0, x1, x2), mkRetryStrategy x0 x1 x2). Defined.

#[export] Instance CacheOption_eq_dec : EqDecision CacheOption. Proof. solve_decision. Defined.
#[export] Instance CacheOption_countable : Countable CacheOption.
Proof. tuple (λ r, (Cache_Keys r, Cache_Deadline r, Cache_Conditions r)) (λ '(x0, x1, x2), mkCacheOption x0 x1 x2). Defined.

#[export] Instance RenderAttr_eq_dec : EqDecision RenderAttr. Proof. solve_decision. Defined.
#[export] Instance RenderAttr_countable : Countable RenderAttr.
Proof. tuple (λ r, (RenderAttr_Name r, RenderAttr_ExtractExp r)) (λ '(x0, x1), mkRenderAttr x0 x1). Defined.

#[export] Instance RenderObject_eq_dec : EqDecision RenderObject. Proof. solve_decision. Defined.
#[export] Instance RenderObject_countable : Countable RenderObject.
Proof. tuple (λ r, (RenderObject_Name r, RenderObject_Attrs r, RenderObject_FlatAttrs r)) (λ '(x0, x1, x2), mkRenderObject x0 x1 x2). Defined.

#[export] Instance RenderTemplate_eq_dec : EqDecision RenderTemplate. Proof. solve_decision. Defined.
#[export] Instance RenderTemplate_countable : Countable RenderTemplate.
Proof. tuple (λ r, RenderTemplate_Objects r) (λ x0, mkRenderTemplate x0). Defined.

#[export] Instance WebSocketOptions_eq_dec : EqDecision WebSocketOptions. Proof. solve_decision. Defined.
#[export] Instance WebSocketOptions_countable : Countable WebSocketOptions.
Proof. tuple (λ r, WebSocketOptions_Origin r) (λ x0, mkWebSocketOptions x0). Defined.

#[export] Instance DispatchNode_eq_dec : EqDecision DispatchNode. Proof. solve_decision. Defined.
#[export] Instance DispatchNode_countable : Countable DispatchNode.
Proof. tuple (λ r, (DispatchNode_ClusterID r, DispatchNode_URLRewrite r, DispatchNode_AttrName r, DispatchNode_Validations r, DispatchNode_DefaultValue r, DispatchNode_UseDefault r, DispatchNode_BatchIndex r, DispatchNode_RetryStrategy r, DispatchNode_Cache r, DispatchNode_HostType r, DispatchNode_CustemHost r, DispatchNode_WriteTimeout r, DispatchNode_ReadTimeout r)) (λ '(x0, x1, x2, x3, x4, x5, x6, x7, x8, x9, x10, x11, x12), mkDispatchNode x0 x1 x2 x3 x4 x5 x6 x7 x8 x9 x10 x11 x12). Defined.

#[export] Instance TLSEmbedCert_eq_dec : EqDecision TLSEmbedCert. Proof. solve_decision. Defined.
#[export] Instance TLSEmbedCert_countable : Countable TLSEmbedCert.
Proof. tuple (λ r, (CertData r, KeyData r)) (λ '(x0, x1), mkTLSEmbedCert x0 x1). Defined.

#[export] Instance API_eq_dec : EqDecision API. Proof. solve_decision. Defined.
#[export] Instance API_countable : Countable API.
Proof. tuple (λ r, (API_ID r, API_Name r, API_URLPattern r, API_Method r, API_Domain r, API_Status r, API_IPAccessControl r, API_DefaultValue r, API_Nodes r, API_UseDefault r, API_MatchRule r, API_MaxQPS r, API_CircuitBreaker r, API_RateLimitOption r, API_RenderTemplate r, API_WebSocketOptions r, API_Perms r, API_AuthFilter r, API_Position r, API_Tags r, API_UseTLS r, API_TlsEmbedCert r)) (λ '(x0, x1, x2, x3, x4, x5, x6, x7, x8, x9, x10, x11, x12, x13, x14, x15, x16, x17, x18, x19, x20, x21), mkAPI x0 x1 x2 x3 x4 x5 x6 x7 x8 x9 x10 x11 x12 x13 x14 x15 x16 x17 x18 x19 x20 x21). Defined.

#[export] Instance Proxy_eq_dec : EqDecision Proxy. Proof. solve_decision. Defined.
#[export] Instance Proxy_countable : Countable Proxy.
Proof. tuple (λ r, (Proxy_Addr r, Proxy_AddrRPC r)) (λ '(x0, x1), mkProxy x0 x1). Defined.

#[export] Instance Plugin_eq_dec : EqDecision Plugin. Proof. solve_decision. Defined.
#[export] Instance Plugin_countable : Countable Plugin.
Proof. tuple (λ r, (Plugin_ID r, Plugin_Name r, Plugin_Author r, Plugin_Email r, Plugin_Status r, Plugin_UpdateAt r, Plugin_Version r, Plugin_Type r, Plugin_Content r, Plugin_Cfg r)) (λ '(x0, x1, x2, x3, x4, x5, x6, x7, x8, x9), mkPlugin x0 x1 x2 x3 x4 x5 x6 x7 x8 x9). Defined.

#[export] Instance AppliedPlugins_eq_dec : EqDecision AppliedPlugins. Proof. solve_decision. Defined.
#[export] Instance AppliedPlugins_countable : Countable AppliedPlugins.
Proof. tuple (λ r, (AppliedPlugins_ID r, AppliedIDs r)) (λ '(x0, x1), mkAppliedPlugins x0 x1). Defined.

(** ** The texts *)
Fixpoint text_of (p : positive) : bytes :=
  match p with xH => [1] | xO p => 0 :: text_of p | xI p => 1 :: text_of p end.
Fixpoint number_of (b : bytes) : positive :=
  match b with
  | [] => 1
  | c :: b => if bool_decide (b = []) then 1 else if c =? 0 then xO (number_of b) else xI (number_of b)
  end.

Lemma text_nonempty p : text_of p <> [].
Proof. by destruct p. Qed.

Lemma number_text p : number_of (text_of p) = p.
Proof.
  induction p as [p IH|p IH|]; cbn; [..|done]; rewrite bool_decide_false by apply text_nonempty; by rewrite IH.
Qed.

Module Countables.
Program Definition message A `{Countable A} : Message A :=
  {| Marshal v := Some (text_of (encode v)); Unmarshal data := decode (number_of data) |}.
Next Obligation. intros A ? ? v. eexists. split; [done|]. cbn. by rewrite number_text, decode_encode. Qed.

(** A message with an id. *)
Program Definition pb A `{Countable A, Ident A} : Pb A := {| pb_message := message A |}.
Next Obligation. intros A ? ? ? v _ [= E]. by destruct (text_nonempty (encode v)). Qed.
End Countables.
