(* ===== verification/Filters.v ===== *)
(** Model of the filters of the gateway: the interface and the base filter of
    [src/src/filter/filter.go], the chains and the context of [src/src/proxy/filters.go], and
    the built-in filters of [filter_*.go].

    A filter is a record of its methods, so that filters of plugins are further values of the
    same type.  The context is what one request holds: the API and the server it uses, the
    requests, its attributes, and the shared statistics and cache. *)
From S2P Require Import Prelude Meta Matching Expr RateLimit Lbs Counters ByteBuf Caching Runtime.

(** ** Errors, attributes and replies *)
Inductive ferror :=
| ErrCircuitClose | ErrCircuitHalfLimited | ErrBlacklist | ErrWhitelist | errOverLimit
| ErrValidationFailure | ErrNoServer | ErrRewriteNotMatch | errResponseAttr
| errOther (message : bytes).

(** [err.Error()] of an error of a client or a plugin. *)
Definition message (e : ferror) : bytes := match e with errOther m => m | _ => [] end.

(** A response: its status code, headers and body. *)
Record reply := mkReply { rp_code : Z; rp_resp : response }.

(** What attributes hold: a text, the cached value of an id, or a response. *)
Inductive attr := AttrString (s : bytes) | AttrCached (id : bytes) (value : Buf.ByteBuf) | AttrReply (r : reply).

Definition BreakFilterChainCode : Z := -1.
Definition StatusOK : Z := 200.
Definition StatusBadRequest : Z := 400.
Definition StatusForbidden : Z := 403.
Definition StatusTooManyRequests : Z := 429.
Definition StatusInternalServerError : Z := 500.
Definition StatusServiceUnavailable : Z := 503.

Definition AttrClientRealIP : bytes := str "__internal_real_ip__".
Definition AttrUsingCachingValue : bytes := str "__internal_using_cache_value__".
Definition AttrUsingResponse : bytes := str "__internal_using_response__".

(** The resource a circuit belongs to. *)
Inductive resource := OfAPI | OfServer.
#[export] Instance resource_eq_dec : EqDecision resource.
Proof. solve_decision. Defined.

(** ** The HTTP library

    What the filters and the proxy change in requests and responses through fasthttp. *)
Class Http := {
  RequestURI : Request -> bytes;
  SetRequestURI : bytes -> Request -> Request;
  SetHost : bytes -> Request -> Request;
  SetHeader : bytes -> bytes -> Request -> Request;
  DelRequestHeader : bytes -> Request -> Request;
  DelHeader : bytes -> list (bytes * bytes) -> list (bytes * bytes);
  AddHeader : bytes -> bytes -> list (bytes * bytes) -> list (bytes * bytes)
}.

Section Filters.
Context {P : Type} `{!Pool P} {env : Env} {http : Http}.

(** The context of a request.  [pc_halves] are the timers that will call [circuitToHalf], with
    their delays, [pc_removals] the timers that will remove an entry of the cache. *)
Record proxyContext := mkContext {
  pc_api : apiRuntime;
  pc_dest : serverRuntime;
  pc_node : apiNode;
  pc_origin : Request;
  pc_remoteIP : bytes;
  pc_forward : Request;
  pc_attrs : gmap bytes attr;
  pc_res : reply;
  pc_out : list (bytes * bytes);
  pc_now : Z;
  pc_cost : Z;
  pc_analysis : Analysis.t;
  pc_halves : list (resource * Z);
  pc_cache : Lru.Cache bytes Buf.ByteBuf;
  pc_pool : P;
  pc_removals : list (bytes * Z)
}.
Implicit Types c : proxyContext.

Definition with_attrs (x : gmap bytes attr) c : proxyContext :=
  mkContext (pc_api c) (pc_dest c) (pc_node c) (pc_origin c) (pc_remoteIP c) (pc_forward c) x (pc_res c)
    (pc_out c) (pc_now c) (pc_cost c) (pc_analysis c) (pc_halves c) (pc_cache c) (pc_pool c) (pc_removals c).
Definition with_forward (x : Request) c : proxyContext :=
  mkContext (pc_api c) (pc_dest c) (pc_node c) (pc_origin c) (pc_remoteIP c) x (pc_attrs c) (pc_res c)
    (pc_out c) (pc_now c) (pc_cost c) (pc_analysis c) (pc_halves c) (pc_cache c) (pc_pool c) (pc_removals c).
Definition with_res (x : reply) (out : list (bytes * bytes)) c : proxyContext :=
  mkContext (pc_api c) (pc_dest c) (pc_node c) (pc_origin c) (pc_remoteIP c) (pc_forward c) (pc_attrs c) x
    out (pc_now c) (pc_cost c) (pc_analysis c) (pc_halves c) (pc_cache c) (pc_pool c) (pc_removals c).
Definition with_analysis (x : Analysis.t) c : proxyContext :=
  mkContext (pc_api c) (pc_dest c) (pc_node c) (pc_origin c) (pc_remoteIP c) (pc_forward c) (pc_attrs c) (pc_res c)
    (pc_out c) (pc_now c) (pc_cost c) x (pc_halves c) (pc_cache c) (pc_pool c) (pc_removals c).
Definition with_cache (x : Lru.Cache bytes Buf.ByteBuf) (p : P) (rm : list (bytes * Z)) c : proxyContext :=
  mkContext (pc_api c) (pc_dest c) (pc_node c) (pc_origin c) (pc_remoteIP c) (pc_forward c) (pc_attrs c) (pc_res c)
    (pc_out c) (pc_now c) (pc_cost c) (pc_analysis c) (pc_halves c) x p rm.
Definition with_now (x : Z) c : proxyContext :=
  mkContext (pc_api c) (pc_dest c) (pc_node c) (pc_origin c) (pc_remoteIP c) (pc_forward c) (pc_attrs c) (pc_res c)
    (pc_out c) x (pc_cost c) (pc_analysis c) (pc_halves c) (pc_cache c) (pc_pool c) (pc_removals c).
Definition with_dest (s : serverRuntime) c : proxyContext :=
  mkContext (pc_api c) s (pc_node c) (pc_origin c) (pc_remoteIP c) (pc_forward c) (pc_attrs c) (pc_res c)
    (pc_out c) (pc_now c) (pc_cost c) (pc_analysis c) (pc_halves c) (pc_cache c) (pc_pool c) (pc_removals c).

(** The protected part of the API or of the server, and the timers. *)
Definition api_p (p : protected) (a : apiRuntime) : apiRuntime :=
  mkAPIRuntime p (a_meta a) (a_nodes a) (parsedWhitelist a) (parsedBlacklist a) (parsedRenderObjects a).
Definition server_p (p : protected) (s : serverRuntime) : serverRuntime :=
  mkServerRuntime p (svr_meta s) (heathTimeout s) (checkFailCount s) (useCheckDuration s).
Definition with_circuits (a : protected) (s : protected) (hs : list (resource * Z)) c : proxyContext :=
  mkContext (api_p a (pc_api c)) (server_p s (pc_dest c)) (pc_node c) (pc_origin c) (pc_remoteIP c) (pc_forward c)
    (pc_attrs c) (pc_res c) (pc_out c) (pc_now c) (pc_cost c) (pc_analysis c) hs (pc_cache c) (pc_pool c)
    (pc_removals c).

Definition SetAttr (key : bytes) (value : attr) c : proxyContext := with_attrs (<[key := value]> (pc_attrs c)) c.
Definition GetAttr c (key : bytes) : option attr := pc_attrs c !! key.

(** [filter.StringValue]: the type assertion panics. *)
Definition StringValue (key : bytes) c : outcome bytes :=
  match GetAttr c key with Some (AttrString s) => Ret s | _ => Panic end.

(** *** The protected resource of a request: the API if it has a circuit breaker or a limiter
    of its own, or else the server. *)

Definition apiP c : protected := a_p (pc_api c).
Definition destP c : protected := svr_p (pc_dest c).

Definition circuitResourceID c : Z := match p_cb (apiP c) with Some _ => p_id (apiP c) | None => p_id (destP c) end.

Definition circuitBreaker c : option CircuitBreaker * option Barrier.RateBarrier :=
  match p_cb (apiP c) with
  | Some cb => (Some cb, p_barrier (apiP c))
  | None => (p_cb (destP c), p_barrier (destP c))
  end.

Definition circuitStatus c : CircuitStatus :=
  match p_cb (apiP c) with Some _ => getCircuitStatus (apiP c) | None => getCircuitStatus (destP c) end.

(** A protected resource closed, and the timer that was scheduled. *)
Definition closeP (who : resource) (p : protected) : outcome (protected * list (resource * Z)) :=
  '(p, d) ← circuitToClose p; Ret (p, match d with Some d => [(who, d)] | None => [] end).

Definition changeCircuitStatusToClose c : outcome proxyContext :=
  '(a, h1) ← match p_cb (apiP c) with Some _ => closeP OfAPI (apiP c) | None => Ret (apiP c, []) end;
  '(s, h2) ← closeP OfServer (destP c);
  Ret (with_circuits a s (pc_halves c ++ h1 ++ h2) c).

Definition changeCircuitStatusToOpen c : proxyContext :=
  let a := match p_cb (apiP c) with Some _ => circuitToOpen (apiP c) | None => apiP c end in
  with_circuits a (circuitToOpen (destP c)) (pc_halves c) c.

(** ** The interface *)

(** A status code with or without an error, and the context. *)
Abbreviation verdict := (outcome (Z * option ferror * proxyContext)).

Record Filter := mkFilter {
  Name : bytes;
  Pre : proxyContext -> verdict;
  Post : proxyContext -> verdict;
  PostErr : Z -> option ferror -> proxyContext -> outcome proxyContext
}.

Definition Base_Pre c : verdict := Ret (StatusOK, None, c).
Definition Base_Post c : verdict := Ret (StatusOK, None, c).
Definition Base_PostErr (code : Z) (err : option ferror) c : outcome proxyContext := Ret c.

(** ** The filters *)

(** [utils.ClientIP] *)
Definition IndexByte (s : bytes) (b : Z) : option nat := fst <$> list_find (λ x, x = b) s.

Definition ClientIP (origin : Request) (remoteIP : bytes) : bytes :=
  let ip := Req_Header origin (str "X-Forwarded-For") in
  let ip := match IndexByte ip (ch ",") with Some i => firstn i ip | None => ip end in
  let ip := TrimSpace ip in
  if 0 <? len ip then ip
  else
    let ip := TrimSpace (Req_Header origin (str "X-Real-Ip")) in
    if 0 <? len ip then ip else remoteIP.

Definition PrepareFilter : Filter := mkFilter (str "PREPARE")
  (λ c, Base_Pre (SetAttr AttrClientRealIP (AttrString (ClientIP (pc_origin c) (pc_remoteIP c))) c))
  Base_Post Base_PostErr.

Definition BlackListFilter : Filter := mkFilter (str "BLACKLIST")
  (λ c, ip ← StringValue AttrClientRealIP c;
        ok ← allowWithBlacklist (pc_api c) ip;
        if negb ok then Ret (StatusForbidden, Some ErrBlacklist, c) else Base_Pre c)
  Base_Post Base_PostErr.

Definition WhiteListFilter : Filter := mkFilter (str "WHITELIST")
  (λ c, ip ← StringValue AttrClientRealIP c;
        ok ← allowWithWhitelist (pc_api c) ip;
        if negb ok then Ret (StatusForbidden, Some ErrWhitelist, c) else Base_Pre c)
  Base_Post Base_PostErr.

Definition ValidationFilter : Filter := mkFilter (str "VALIDATION")
  (λ c, ok ← apiNode_validate (pc_node c) (pc_forward c);
        if ok : bool then Base_Pre c else Ret (StatusBadRequest, Some ErrValidationFailure, c))
  Base_Post Base_PostErr.

Definition set_limiter (l : option rateLimiter) (p : protected) : protected :=
  mkProtected (p_id p) (p_activeQPS p) l (p_circuit p) (p_cb p) (p_barrier p).

(** [c.rateLimiter().do(1)]: a limiter that waits moves the clock. *)
Definition limit c : outcome (bool * proxyContext) :=
  match p_limiter (apiP c) with
  | Some l => '(ok, at_, l) ← do_ l (pc_now c) 1;
      Ret (ok, with_now at_ (with_circuits (set_limiter (Some l) (apiP c)) (destP c) (pc_halves c) c))
  | None =>
      match p_limiter (destP c) with
      | None => Panic
      | Some l => '(ok, at_, l) ← do_ l (pc_now c) 1;
          Ret (ok, with_now at_ (with_circuits (apiP c) (set_limiter (Some l) (destP c)) (pc_halves c) c))
      end
  end.

Definition RateLimitingFilter : Filter := mkFilter (str "RATE-LIMITING")
  (λ c, '(ok, c) ← limit c;
        if negb ok then Ret (StatusTooManyRequests, Some errOverLimit, c) else Base_Pre c)
  Base_Post Base_PostErr.

Definition AnalysisFilter : Filter := mkFilter (str "ANALYSIS")
  (λ c, Base_Pre (with_analysis (Analysis.Request (circuitResourceID c) (pc_analysis c)) c))
  (λ c, Base_Post (with_analysis (Analysis.Response (circuitResourceID c) (pc_cost c) (pc_analysis c)) c))
  (λ _ _ c, Ret (with_analysis (Analysis.Failure (circuitResourceID c) (pc_analysis c)) c)).

(** *** Circuit breaker *)

Definition set_barrier (b : Barrier.RateBarrier) (p : protected) : protected :=
  mkProtected (p_id p) (p_activeQPS p) (p_limiter p) (p_circuit p) (p_cb p) (Some b).

(** [barrier.Allow()] of the barrier of the request's resource. *)
Definition allow c : outcome (bool * proxyContext) :=
  match (circuitBreaker c).2 with
  | None => Panic
  | Some b => '(ok, b) ← Barrier.Allow b;
      Ret (ok, match p_cb (apiP c) with
               | Some _ => with_circuits (set_barrier b (apiP c)) (destP c) (pc_halves c) c
               | None => with_circuits (apiP c) (set_barrier b (destP c)) (pc_halves c) c
               end)
  end.

Definition reject c : proxyContext := with_analysis (Analysis.Reject (circuitResourceID c) (pc_analysis c)) c.

Definition failureRate (cb : CircuitBreaker) c : Z :=
  Analysis.GetRecentlyRequestFailureRate (circuitResourceID c) (CircuitBreaker_RateCheckPeriod cb) (pc_analysis c).
Definition successRate (cb : CircuitBreaker) c : Z :=
  Analysis.GetRecentlyRequestSuccessedRate (circuitResourceID c) (CircuitBreaker_RateCheckPeriod cb) (pc_analysis c).

Definition CircuitBreake_Pre c : verdict :=
  match (circuitBreaker c).1 with
  | None => Base_Pre c
  | Some cb =>
      match circuitStatus c with
      | Open =>
          if CircuitBreaker_FailureRateToClose cb <=? failureRate cb c
          then c ← changeCircuitStatusToClose c; Ret (StatusServiceUnavailable, Some ErrCircuitClose, reject c)
          else Ret (StatusOK, None, c)
      | Half =>
          '(ok, c) ← allow c;
          if ok : bool then Base_Pre c
          else Ret (StatusServiceUnavailable, Some ErrCircuitHalfLimited, reject c)
      | _ => Ret (StatusServiceUnavailable, Some ErrCircuitClose, reject c)
      end
  end.

Definition CircuitBreake_Post c : verdict :=
  match (circuitBreaker c).1 with
  | None => Base_Post c
  | Some cb =>
      if bool_decide (circuitStatus c = Half) && (CircuitBreaker_SucceedRateToOpen cb <=? successRate cb c)
      then Base_Post (changeCircuitStatusToOpen c) else Base_Post c
  end.

Definition ErrPrefixRequestCancel : bytes := str "request canceled".

Definition CircuitBreake_PostErr (code : Z) (err : option ferror) c : outcome proxyContext :=
  if match err with Some e => HasPrefix (message e) ErrPrefixRequestCancel | None => false end then Ret c
  else
    match (circuitBreaker c).1 with
    | None => Ret c
    | Some cb =>
        if bool_decide (circuitStatus c = Half) && (CircuitBreaker_FailureRateToClose cb <=? failureRate cb c)
        then changeCircuitStatusToClose c else Ret c
    end.

Definition CircuitBreakeFilter : Filter := mkFilter (str "CIRCUIT-BREAKER")
  CircuitBreake_Pre CircuitBreake_Post CircuitBreake_PostErr.

(** *** Caching *)

(** [getCachingID]: the id, if the conditions of the node match. *)
Definition getCachingID (cache : CacheOption) c : outcome (option bytes) :=
  if len (Cache_Conditions cache) =? 0 then
    id ← getID (RequestURI (pc_forward c)) (pc_forward c) (Cache_Keys cache); Ret (Some id)
  else
    matches ← conditionsAll (Cache_Conditions cache) (pc_forward c);
    if negb matches then Ret None
    else id ← getID (RequestURI (pc_forward c)) (pc_forward c) (Cache_Keys cache); Ret (Some id).

Definition Caching_Pre c : verdict :=
  match DispatchNode_Cache (node_meta (pc_node c)) with
  | None => Base_Post c
  | Some cache =>
      id ← getCachingID cache c;
      match id with
      | None => Base_Post c
      | Some id =>
          let '(value, m) := Lru.Get id (pc_cache c) in
          let c := with_cache m (pc_pool c) (pc_removals c) c in
          Base_Post (match value with Some value => SetAttr AttrUsingCachingValue (AttrCached id value) c | None => c end)
      end
  end.

Definition Caching_Post c : verdict :=
  match DispatchNode_Cache (node_meta (pc_node c)) with
  | None => Base_Post c
  | Some cache =>
      id ← getCachingID cache c;
      match id with
      | None => Base_Post c
      | Some id =>
          '(value, p) ← NewCachedValue (rp_resp (pc_res c)) (pc_pool c);
          let m := Lru.Add Buf.Readable id value (pc_cache c) in
          let rm := if 0 <? Cache_Deadline cache then pc_removals c ++ [(id, Cache_Deadline cache)]
                    else pc_removals c in
          Base_Post (with_cache m p rm c)
      end
  end.

Definition CachingFilter : Filter := mkFilter (str "CACHING") Caching_Pre Caching_Post Base_PostErr.

(** [removeCache], when a timer of [pc_removals] expires. *)
Definition removeCache (id : bytes) (m : Lru.Cache bytes Buf.ByteBuf) : Lru.Cache bytes Buf.ByteBuf :=
  Lru.Remove Buf.Readable id m.

(** *** Headers *)

Definition hopHeaders : list bytes :=
  [str "Connection"; str "Keep-Alive"; str "Proxy-Authenticate"; str "Proxy-Authorization"; str "Te";
   str "Trailers"; str "Transfer-Encoding"].

Definition HeadersFilter : Filter := mkFilter (str "HEADER")
  (λ c, let req := fold_left (λ req h, DelRequestHeader h req) hopHeaders (pc_forward c) in
        Base_Pre (with_forward (SetHost (Server_Addr (svr_meta (pc_dest c))) req) c))
  (λ c, let r := pc_res c in
        let hs := fold_left (λ hs h, DelHeader h hs) hopHeaders (headers (rp_resp r)) in
        Base_Post (with_res (mkReply (rp_code r) (mkResponse hs (body (rp_resp r))))
          (if len (API_Nodes (a_meta (pc_api c))) =? 1 then hs else pc_out c) c))
  Base_PostErr.

Definition headerName : bytes := str "X-Forwarded-For".

Definition XForwardForFilter : Filter := mkFilter (str "XFORWARD")
  (λ c, let prevForward := Req_Header (pc_origin c) headerName in
        Base_Pre (with_forward
          (SetHeader headerName
             (if len prevForward =? 0 then pc_remoteIP c else prevForward ++ str ", " ++ pc_remoteIP c)
             (pc_forward c)) c))
  Base_Post Base_PostErr.

(** The filter answers a preflight request itself, with the headers of its configuration. *)
Definition CrossDomainFilter (cfg : list (bytes * bytes)) : Filter := mkFilter (str "CROSS")
  (λ c, if negb (bytes_eqb (Req_Method (pc_origin c)) (str "OPTIONS")) then Base_Pre c
        else
          let hs := fold_left (λ hs h, AddHeader h.1 h.2 hs) cfg [] in
          Ret (BreakFilterChainCode, None,
               SetAttr AttrUsingResponse (AttrReply (mkReply StatusOK (mkResponse hs []))) c))
  Base_Post Base_PostErr.

(** The access log; [info] is whether the level is enabled. *)
Definition AccessFilter (info : bool) : Filter := mkFilter (str "HTTP-ACCESS")
  Base_Pre
  (λ c, if info then _ ← StringValue AttrClientRealIP c; Base_Post c else Base_Post c)
  Base_PostErr.

(** ** The chains *)

Fixpoint doPreFilters c (filters : list Filter) : outcome (bytes * Z * option ferror * proxyContext) :=
  match filters with
  | [] => Ret ([], StatusOK, None, c)
  | f :: filters =>
      '(statusCode, err, c) ← Pre f c;
      match err with
      | Some _ => Ret (Name f, statusCode, err, c)
      | None =>
          if statusCode =? BreakFilterChainCode then Ret (Name f, statusCode, err, c)
          else doPreFilters c filters
      end
  end.

(** The name of the filter stays empty. *)
Fixpoint doPostLoop c (filters : list Filter) : outcome (bytes * Z * option ferror * proxyContext) :=
  match filters with
  | [] => Ret ([], StatusOK, None, c)
  | f :: filters =>
      '(statusCode, err, c) ← Post f c;
      match err with
      | Some _ => Ret ([], statusCode, err, c)
      | None =>
          if statusCode =? BreakFilterChainCode then Ret ([], statusCode, err, c)
          else doPostLoop c filters
      end
  end.

Definition doPostFilters c (filters : list Filter) := doPostLoop c (rev filters).

Fixpoint doPostErrLoop c (code : Z) (err : option ferror) (filters : list Filter) : outcome proxyContext :=
  match filters with
  | [] => Ret c
  | f :: filters => c ← PostErr f code err c; doPostErrLoop c code err filters
  end.

Definition doPostErrFilters c (code : Z) (err : option ferror) (filters : list Filter) : outcome proxyContext :=
  doPostErrLoop c code err (rev filters).

End Filters.

(** ** Samples for the examples *)
Module Samples.

#[export] Instance sample_env : Env := {|
  MatchString _ _ := None; MustCompile _ := None;
  createRandSourceByBase n := map Z.of_nat (seq 0 (Z.to_nat n)) |}.

#[export] Instance sample_http : Http := {|
  RequestURI := Req_Path;
  SetRequestURI uri r := mkRequest (Req_Method r) (Req_Host r) uri (Req_QueryString r) (Req_Body r) (Req_Header r)
    (Req_Cookie r) (Req_QueryArg r) (Req_PostArg r);
  SetHost host r := mkRequest (Req_Method r) host (Req_Path r) (Req_QueryString r) (Req_Body r) (Req_Header r)
    (Req_Cookie r) (Req_QueryArg r) (Req_PostArg r);
  SetHeader k v r := mkRequest (Req_Method r) (Req_Host r) (Req_Path r) (Req_QueryString r) (Req_Body r)
    (λ k', if bytes_eqb k' k then v else Req_Header r k') (Req_Cookie r) (Req_QueryArg r) (Req_PostArg r);
  DelRequestHeader k r := mkRequest (Req_Method r) (Req_Host r) (Req_Path r) (Req_QueryString r) (Req_Body r)
    (λ k', if bytes_eqb k' k then [] else Req_Header r k') (Req_Cookie r) (Req_QueryArg r) (Req_PostArg r);
  DelHeader k hs := filter (λ h, h.1 <> k) hs;
  AddHeader k v hs := hs ++ [(k, v)] |}.

Definition sample_request : Request :=
  mkRequest (str "GET") (str "h") (str "/a") [] [] (λ _, []) (λ _, []) (λ _, []) (λ _, []).

Definition sample_breaker : CircuitBreaker := mkCircuitBreaker 1000000000 50 1000000000 50 50.

Definition sample_protected (id : Z) (cb : option CircuitBreaker) (s : CircuitStatus) : protected :=
  mkProtected id 10 None s cb (newBarrier cb).

Definition sample_server (id : Z) (s : CircuitStatus) : serverRuntime :=
  mkServerRuntime (sample_protected id (Some sample_breaker) s)
    (mkServer id (str "b") 10 None (Some sample_breaker) 1 Reject HTTP) None 0 0.

(** A node that tries three times, with no codes. *)
Definition sample_node (retry : option RetryStrategy) : apiNode :=
  mkAPINode (mkDispatchNode 1 [] (str "x") [] None false 0 retry None HostServerAddress [] 0 0) [] [].

Definition sample_api (template : option RenderTemplate) : apiRuntime :=
  let meta := mkAPI 1 (str "a") (str "/a") (str "GET") [] Up None None [node_meta (sample_node None)] false MatchAny 0
                None Reject template None [] [] 0 [] false None in
  mkAPIRuntime (sample_protected 1 None Open) meta [sample_node None] [] [] (newRenderObjects meta).

End Samples.
