(* ===== verification/Jwt.v ===== *)
(** Model of the authentication filter [src/src/proxy/filter_jwt.go]: where the token of a
    request is looked up, what it must satisfy, and the actions on an admitted token, on a Redis
    server whose keys outlive the request. *)
From S2P Require Import Prelude Meta Matching Lbs Counters ByteBuf Caching Runtime Codec Filters.

(** ** The library of tokens

    [jwt.Parse] gives the claims and whether the token is valid, once the key function has
    chosen a key for the signing method in the token's header. *)
Inductive SigningMethod := SigningMethodHS256 | SigningMethodHS384 | SigningMethodHS512 | OtherMethod (alg : bytes).

Definition hmac (alg : SigningMethod) : bool := match alg with OtherMethod _ => false | _ => true end.

Class Tokens := {
  claim : Type;
  Int64 : Z -> claim;
  (** [fmt.Sprintf("%v", v)]; [None] is nil *)
  Sprint : option claim -> bytes;
  Parse : Z -> bytes -> (SigningMethod -> ferror + bytes) -> ferror + (option (gmap bytes claim) * bool);
  SignedString : SigningMethod -> gmap bytes claim -> bytes -> ferror + bytes
}.
Abbreviation MapClaims := (gmap bytes claim).

(** What the library documents: a token that parses without an error carries a signature that
    verifies under the key of the key function, and signing makes a token with the claims that
    were signed, as their JSON text reads back, which parses until it expires ([exp], in seconds). *)
Class TokensLaws (T : Tokens) := {
  signed : SigningMethod -> bytes -> bytes -> Prop;
  reread : MapClaims -> MapClaims;
  expires : MapClaims -> option Z;
  expires_exp claims e : expires (<[str "exp" := Int64 e]> claims) = Some e;
  Parse_signed now tok kf claims : Parse now tok kf = inr (Some claims, true) ->
    ∃ alg key, kf alg = inr key /\ signed alg key tok;
  Parse_SignedString now kf alg claims key tok : SignedString alg claims key = inr tok -> kf alg = inr key ->
    match expires claims with Some e => now < e | None => True end ->
    Parse now tok kf = inr (Some (reread claims), true)
}.

(** ** Redis, as the filter uses it: [redis.Int] of a TTL command and so on. *)
Class Redis (R : Type) := {
  do_TTL : bytes -> R -> ferror + Z;
  do_EXISTS : bytes -> R -> ferror + bool;
  do_GET : bytes -> R -> ferror + bytes;
  do_SETEX : bytes -> Z -> bytes -> R -> option ferror * R;
  (** [redis.ErrNil.Error()] *)
  ErrNil : bytes
}.

(** The values of its keys, and what the commands tell of them. *)
Class RedisLaws (R : Type) `{Redis R} := {
  stored : R -> bytes -> option bytes;
  TTL_stored k r n : do_TTL k r = inr n -> (n = -2 <-> stored r k = None);
  EXISTS_stored k r b : do_EXISTS k r = inr b -> (b = true <-> stored r k <> None);
  GET_stored k r v : do_GET k r = inr v -> stored r k = Some v;
  SETEX_stored k ttl v r r' : do_SETEX k ttl v r = (None, r') -> stored r' k = Some v;
  SETEX_other k ttl v r err r' k' : do_SETEX k ttl v r = (err, r') -> k' <> k -> stored r' k' = stored r k'
}.

(** What the filter changes in the forwarded request. *)
Class Forward := {
  AddRequestHeader : bytes -> bytes -> Request -> Request;
  SetCookie : bytes -> bytes -> Request -> Request
}.

(** ** The configuration

    [Params] are values of a JSON text; of a number the filter uses the integer part. *)
#[warnings="-register-all"]
Inductive param := PNull | PString (s : bytes) | PNumber (n : Z) | PList (l : list param) | PObject.

Record Action := mkAction { Method : bytes; Params : gmap bytes param }.
Record JWTCfg := mkJWTCfg {
  Secret : bytes;
  cfg_Method : bytes;
  TokenLookup : bytes;
  CSRFHeaderName : bytes;
  AuthSchema : bytes;
  RenewTokenHeaderName : bytes;
  cfg_Redis : bool;
  cfg_Actions : list Action
}.

Definition actionTokenInRedis : bytes := str "token_in_redis".
Definition actionTokenAndCSRFInRedis : bytes := str "token_and_csrf_in_redis".
Definition actionRenewByRaw : bytes := str "renew_by_raw".
Definition actionRenewByRedis : bytes := str "renew_by_redis".
Definition actionFetchToHeader : bytes := str "fetch_to_header".
Definition actionFetchToCookie : bytes := str "fetch_to_cookie".
Definition ctxRenewTokenAttr : bytes := str "__jwt_renew_token__".
Definition jwtClaimsFieldExp : bytes := str "exp".

Definition errOperationFail : ferror := errOther (str "jwt filter operation fail").
Definition errJWTMissing : ferror := errOther (str "missing jwt token").
Definition errJWTInvalid : ferror := errOther (str "invalid jwt token").
Definition errCSRFMissing : ferror := errOther (str "missing csrf token").
Definition errCSRFInvalid : ferror := errOther (str "invalid csrf token").
Definition StatusUnauthorized : Z := 401.

Definition FilterJWT : bytes := str "JWT".

(** The actions of the configuration, by their methods. *)
Inductive action := TokenInRedis | TokenAndCSRFInRedis | RenewByRaw | RenewByRedis | FetchToHeader | FetchToCookie.

(** [tokenGetter] *)
Definition tokenGetter : Type := Request -> ferror + bytes.

Record JWTFilter := mkJWTFilter {
  cfg : JWTCfg;
  secretBytes : bytes;
  getter : tokenGetter;
  csrfGetter : tokenGetter;
  signing : SigningMethod;
  actions : list action;
  actionArgs : list (gmap bytes param)
}.

(** ** Where tokens are *)
Definition jwtFromQuery (p : bytes) : tokenGetter := λ req,
  let token := Req_QueryArg req p in
  if bytes_eqb token [] then inl errJWTMissing else inr token.
Definition jwtFromCookie (name : bytes) : tokenGetter := λ req,
  let value := Req_Cookie req name in
  if len value =? 0 then inl errJWTMissing else inr value.
Definition jwtFromHeader (header authScheme : bytes) : tokenGetter := λ req,
  let auth := Req_Header req header in
  let l := len authScheme in
  if (l + 1 <? len auth) && bytes_eqb (take (Z.to_nat l) auth) authScheme then inr (drop (Z.to_nat (l + 1)) auth)
  else inl errJWTMissing.
Definition csrfFromHeader (header : bytes) : tokenGetter := λ req,
  let value := Req_Header req header in
  if len value =? 0 then inl errCSRFMissing else inr value.

(** ** A new filter *)
Definition initSigningMethod (c : JWTCfg) : ferror + SigningMethod :=
  if bytes_eqb (cfg_Method c) (str "HS256") then inr SigningMethodHS256
  else if bytes_eqb (cfg_Method c) (str "HS384") then inr SigningMethodHS384
  else if bytes_eqb (cfg_Method c) (str "HS512") then inr SigningMethodHS512
  else inl (errOther (str "unsupported method: " ++ cfg_Method c)).

Fixpoint initActions (l : list Action) : ferror + (list action * list (gmap bytes param)) :=
  match l with
  | [] => inr ([], [])
  | c :: l =>
      let add act := match initActions l with
        | inr (acts, args) => inr (act :: acts, Params c :: args) | inl e => inl e end in
      if bytes_eqb (Method c) actionTokenInRedis then add TokenInRedis
      else if bytes_eqb (Method c) actionTokenAndCSRFInRedis then add TokenAndCSRFInRedis
      else if bytes_eqb (Method c) actionRenewByRaw then add RenewByRaw
      else if bytes_eqb (Method c) actionRenewByRedis then add RenewByRedis
      else if bytes_eqb (Method c) actionFetchToHeader then add FetchToHeader
      else if bytes_eqb (Method c) actionFetchToCookie then add FetchToCookie
      else inl (errOther (str "not support action method: " ++ Method c))
  end.

(** [parts[1]] panics without a colon. *)
Definition initTokenLookup (c : JWTCfg) : outcome (tokenGetter * tokenGetter) :=
  match Matching.Split (TokenLookup c) (ch ":") with
  | where_ :: name :: _ =>
      let getter :=
        if bytes_eqb where_ (str "query") then jwtFromQuery name
        else if bytes_eqb where_ (str "cookie") then jwtFromCookie name
        else jwtFromHeader name (AuthSchema c) in
      Ret (getter, csrfFromHeader (CSRFHeaderName c))
  | _ => Panic
  end.

(** [c] is what [parseCfg] read from the file. *)
Definition newJWTFilter (c : ferror + JWTCfg) : outcome (ferror + JWTFilter) :=
  match c with
  | inl err => Ret (inl err)
  | inr c =>
      match initSigningMethod c with
      | inl err => Ret (inl err)
      | inr signing =>
          match initActions (cfg_Actions c) with
          | inl err => Ret (inl err)
          | inr (actions, args) =>
              '(getter, csrf) ← initTokenLookup c;
              Ret (inr (mkJWTFilter c (Secret c) getter csrf signing actions args))
          end
      end
  end.

(** ** A token *)
Section Jwt.
Context {P : Type} `{!Pool P} {env : Env} {http : Http} {T : Tokens} {fwd : Forward} {R : Type} {rd : Redis R}.
Implicit Types (f : JWTFilter) (c : @proxyContext P) (r : R) (args : gmap bytes param) (claims : MapClaims).

(** The key function of [parseJWTToken]. *)
Definition keyFunc f (alg : SigningMethod) : ferror + bytes :=
  match alg with
  | OtherMethod name => inl (errOther (str "Unexpected signing method: " ++ name))
  | _ => inr (secretBytes f)
  end.

Definition Unix (now : Z) : Z := now / 1000000000.

Definition parseJWTToken f (now : Z) (tokenString : bytes) : ferror + MapClaims :=
  match Parse (Unix now) tokenString (keyFunc f) with
  | inl err => inl err
  | inr (Some claims, true) => inr claims
  | inr _ => inl (errOther (str "error jwt token"))
  end.

Definition renewToken f claims : ferror + bytes := SignedString (signing f) claims (secretBytes f).

(** ** The actions

    What they give: whether to go on, an error, and what they changed: the claims, which later
    actions see, the context, and Redis. *)
Definition done_ : Type := bool * option ferror * MapClaims * @proxyContext P * R.

(** [args[k]], nil when there is none, and the type assertions on it. *)
Definition arg args (k : bytes) : param := default PNull (args !! k).
Definition as_string (p : param) : outcome bytes := match p with PString s => Ret s | _ => Panic end.
Definition as_number (p : param) : outcome Z := match p with PNumber n => Ret n | _ => Panic end.
Definition as_list (p : param) : outcome (list param) := match p with PList l => Ret l | _ => Panic end.

(** [prefix] and the token. *)
Definition token_key args (token : bytes) : outcome bytes := prefix ← as_string (arg args (str "prefix")); Ret (prefix ++ token).
Definition errNoRedis : ferror := errOther (str "redis not setting").

Definition renewByRawAction f args claims c r : outcome done_ :=
  match claims !! jwtClaimsFieldExp with
  | Some _ =>
      ttl ← as_number (arg args (str "ttl"));
      let claims := <[jwtClaimsFieldExp := Int64 (Unix (pc_now c + i64 (1000000000 * ttl)))]> claims in
      match renewToken f claims with
      | inl err => Ret (false, Some err, claims, c, r)
      | inr newToken => Ret (true, None, claims, SetAttr ctxRenewTokenAttr (AttrString newToken) c, r)
      end
  | None => Ret (true, None, claims, c, r)
  end.

Definition renewByRedisAction f args (token : bytes) claims c r : outcome done_ :=
  if negb (cfg_Redis (cfg f)) then Ret (false, Some errNoRedis, claims, c, r)
  else
    key ← token_key args token;
    match do_TTL key r with
    | inl err => Ret (false, Some err, claims, c, r)
    | inr value =>
        if (value =? -2) || (value =? 0) then Ret (false, None, claims, c, r)
        else if value =? -1 then Ret (true, None, claims, c, r)
        else
          ttl ← as_number (arg args (str "ttl"));
          let '(err, r) := do_SETEX key ttl token r in
          match err with
          | Some err => Ret (false, Some err, claims, c, r)
          | None => Ret (true, None, claims, c, r)
          end
    end.

Definition tokenInRedisAction f args (token : bytes) claims c r : outcome done_ :=
  if negb (cfg_Redis (cfg f)) then Ret (false, Some errNoRedis, claims, c, r)
  else
    key ← token_key args token;
    match do_EXISTS key r with
    | inl err => Ret (false, Some err, claims, c, r)
    | inr value => Ret (value, None, claims, c, r)
    end.

(** Whether [value] is one of the values of the comma separated text in [args[k]]. *)
Definition white args (k value : bytes) : outcome bool :=
  match arg args k with
  | PNull => Ret false
  | p => l ← as_string p;
      Ret (existsb (λ v, negb (bytes_eqb v []) && bytes_eqb (ToUpper v) value) (Matching.Split l (ch ",")))
  end.

Definition actionTokenAndCSRF f args (token : bytes) claims c r : outcome done_ :=
  if negb (cfg_Redis (cfg f)) then Ret (false, Some errNoRedis, claims, c, r)
  else
    key ← token_key args token;
    match do_GET key r with
    | inl err => Ret (false, Some err, claims, c, r)
    | inr value =>
        by_method ← white args (str "csrf_white_method") (ToUpper (Req_Method (pc_origin c)));
        if by_method : bool then Ret (true, None, claims, c, r)
        else
          by_path ← white args (str "csrf_white_path") (ToUpper (Req_Path (pc_origin c)));
          if by_path : bool then Ret (true, None, claims, c, r)
          else
            match csrfGetter f (pc_origin c) with
            | inl err =>
                let err := if bytes_eqb (message err) (message errJWTMissing) then errCSRFMissing else err in
                Ret (false, Some err, claims, c, r)
            | inr csrfToken =>
                if bytes_eqb value csrfToken then Ret (true, None, claims, c, r)
                else Ret (false, Some errCSRFInvalid, claims, c, r)
            end
    end.

(** One field of the claims after another, to the forwarded request. *)
Fixpoint fetch (add : bytes -> bytes -> Request -> Request) (prefix : bytes) (fields : list param) claims c
  : outcome (@proxyContext P) :=
  match fields with
  | [] => Ret c
  | fd :: fields =>
      field ← as_string fd;
      fetch add prefix fields claims (with_forward (add (prefix ++ field) (Sprint (claims !! field)) (pc_forward c)) c)
  end.

Definition fetchTo (add : bytes -> bytes -> Request -> Request) args claims c r : outcome done_ :=
  prefix ← as_string (arg args (str "prefix"));
  fields ← as_list (arg args (str "fields"));
  c ← fetch add prefix fields claims c;
  Ret (true, None, claims, c, r).

Definition act f (a : action) args (token : bytes) claims c r : outcome done_ :=
  match a with
  | TokenInRedis => tokenInRedisAction f args token claims c r
  | TokenAndCSRFInRedis => actionTokenAndCSRF f args token claims c r
  | RenewByRaw => renewByRawAction f args claims c r
  | RenewByRedis => renewByRedisAction f args token claims c r
  | FetchToHeader => fetchTo AddRequestHeader args claims c r
  | FetchToCookie => fetchTo SetCookie args claims c r
  end.

(** ** The filter *)
Definition customErrMaps (text : bytes) : option Z :=
  if bytes_eqb text (message errJWTMissing) || bytes_eqb text (message errJWTInvalid) then Some StatusUnauthorized
  else if bytes_eqb text (message errCSRFMissing) || bytes_eqb text (message errCSRFInvalid) || bytes_eqb text ErrNil
  then Some StatusForbidden
  else None.

(** [f.actions] with [f.actionArgs]; the loop ends at the first action that fails or refuses. *)
Fixpoint doActions f (l : list (action * gmap bytes param)) (token : bytes) claims c r
  : outcome (Z * option ferror * @proxyContext P * R) :=
  match l with
  | [] => Ret (StatusOK, None, c, r)
  | (a, args) :: l =>
      '(ok, err, claims, c, r) ← act f a args token claims c r;
      match err with
      | Some e =>
          match customErrMaps (message e) with
          | Some code => Ret (code, Some e, c, r)
          | None => Ret (StatusInternalServerError, Some e, c, r)
          end
      | None => if negb ok then Ret (StatusForbidden, Some errOperationFail, c, r) else doActions f l token claims c r
      end
  end.

Definition JWT_Pre f c r : outcome (Z * option ferror * @proxyContext P * R) :=
  if negb (bytes_eqb (ToUpper (API_AuthFilter (a_meta (pc_api c)))) FilterJWT) then Ret (StatusOK, None, c, r)
  else
    match getter f (pc_origin c) with
    | inl err => Ret (StatusForbidden, Some err, c, r)
    | inr token =>
        match parseJWTToken f (pc_now c) token with
        | inl err => Ret (StatusForbidden, Some err, c, r)
        | inr claims => doActions f (zip (actions f) (actionArgs f)) token claims c r
        end
    end.

(** [value.(string)] panics on another attribute. *)
Definition JWT_Post f c : outcome (Z * option ferror * @proxyContext P) :=
  match GetAttr c ctxRenewTokenAttr with
  | Some (AttrString value) =>
      let rep := pc_res c in
      let hs := AddHeader (RenewTokenHeaderName (cfg f)) value (headers (rp_resp rep)) in
      Base_Post (with_res (mkReply (rp_code rep) (mkResponse hs (body (rp_resp rep)))) (pc_out c) c)
  | Some _ => Panic
  | None => Base_Post c
  end.

(** The filter of one request, on the Redis it finds. *)
Definition JWT_Filter f r : Filter :=
  mkFilter FilterJWT (λ c, '(code, err, c, _) ← JWT_Pre f c r; Ret (code, err, c)) (JWT_Post f) Base_PostErr.
End Jwt.

(** ** Who is admitted *)
Section Admission.
Context {P : Type} `{!Pool P} {env : Env} {http : Http} {T : Tokens} {fwd : Forward} {R : Type} {rd : Redis R}
  {tl : TokensLaws T} {rl : RedisLaws R}.
Implicit Types (f : JWTFilter) (c : @proxyContext P) (r : R) (args : gmap bytes param).

(** The request is exempt from the check of the second token. *)
Definition exempt args (origin : Request) : Prop :=
  white args (str "csrf_white_method") (ToUpper (Req_Method origin)) = Ret true \/
  white args (str "csrf_white_path") (ToUpper (Req_Path origin)) = Ret true.

(** What an action demands of the keys Redis had when the request came; [renewed] is whether an
    earlier action wrote the token into its key. *)
Definition granted f (origin : Request) (token : bytes) r (renewed : bool) (a : action) args : Prop :=
  match a with
  | TokenInRedis | RenewByRedis => ∃ p, arg args (str "prefix") = PString p /\ stored r (p ++ token) <> None
  | TokenAndCSRFInRedis => ∃ p, arg args (str "prefix") = PString p /\ stored r (p ++ token) <> None /\
      (exempt args origin \/ ∃ v, csrfGetter f origin = inr v /\
         (stored r (p ++ token) = Some v \/ renewed = true /\ v = token))
  | RenewByRaw | FetchToHeader | FetchToCookie => True
  end.

Fixpoint all_granted f (origin : Request) (token : bytes) r (renewed : bool) (l : list (action * gmap bytes param)) : Prop :=
  match l with
  | [] => True
  | (a, args) :: l => granted f origin token r renewed a args /\
      all_granted f origin token r (match a with RenewByRedis => true | _ => renewed end) l
  end.

(** What renewals may have changed. *)
Definition keeps (renewed : bool) (token : bytes) (r0 r : R) : Prop :=
  ∀ k, stored r k = stored r0 k \/ renewed = true /\ stored r0 k <> None /\ stored r k = Some token.

Lemma keeps_stored b token r0 r k : keeps b token r0 r -> stored r k <> None -> stored r0 k <> None.
Proof. intros K N; destruct (K k) as [<-|(_ & ? & _)]; done. Qed.

Lemma token_key_inv args token k : token_key args token = Ret k -> ∃ p, arg args (str "prefix") = PString p /\ k = p ++ token.
Proof. unfold token_key; destruct (arg args _); simpl; intros H; try done. injection H as <-; eauto. Qed.

Lemma fetch_origin add prefix fields claims : ∀ c c', fetch add prefix fields claims c = Ret c' -> pc_origin c' = pc_origin c.
Proof.
  induction fields as [|fd fields IH]; simpl; intros c c' H; [by injection H as <-|].
  destruct (as_string fd); simpl in H; try done. by rewrite (IH _ _ H).
Qed.

(** Each action that lets the request go on. *)
Lemma tokenInRedis_inv f args token claims c r claims' c' r' :
  tokenInRedisAction f args token claims c r = Ret (true, None, claims', c', r') ->
  c' = c /\ r' = r /\ ∃ p, arg args (str "prefix") = PString p /\ stored r (p ++ token) <> None.
Proof.
  unfold tokenInRedisAction; destruct (negb (cfg_Redis (cfg f))); [done|]. intros H. bind_inv H.
  apply token_key_inv in E as (p & Hp & ->). destruct (do_EXISTS _ r) eqn:X; simplify_eq/=.
  apply EXISTS_stored in X. split; [done|]. split; [done|]. exists p; split; [done|]. by apply X.
Qed.

Lemma csrf_inv f args token claims c r claims' c' r' :
  actionTokenAndCSRF f args token claims c r = Ret (true, None, claims', c', r') ->
  c' = c /\ r' = r /\ ∃ p v, arg args (str "prefix") = PString p /\ stored r (p ++ token) = Some v /\
    (exempt args (pc_origin c) \/ csrfGetter f (pc_origin c) = inr v).
Proof.
  unfold actionTokenAndCSRF, exempt; destruct (negb (cfg_Redis (cfg f))); [done|]. intros H. bind_inv H.
  apply token_key_inv in E as (p & Hp & ->). destruct (do_GET _ r) as [|v] eqn:X; [done|].
  apply GET_stored in X. bind_inv H. destruct a; [simplify_eq/=; eauto 10|].
  bind_inv H. destruct a; [simplify_eq/=; eauto 10|].
  destruct (csrfGetter f (pc_origin c)) as [|w]; [done|].
  destruct (bytes_eqb v w) eqn:W; [|done]. apply bytes_eqb_eq in W; subst w. simplify_eq/=; eauto 10.
Qed.

Lemma renewByRedis_inv f args token claims c r claims' c' r' :
  renewByRedisAction f args token claims c r = Ret (true, None, claims', c', r') ->
  c' = c /\ ∃ p, arg args (str "prefix") = PString p /\ stored r (p ++ token) <> None /\
  (r' = r \/ stored r' (p ++ token) = Some token /\ ∀ k, k <> p ++ token -> stored r' k = stored r k).
Proof.
  unfold renewByRedisAction; destruct (negb (cfg_Redis (cfg f))); [done|]. intros H. bind_inv H.
  apply token_key_inv in E as (p & Hp & ->). destruct (do_TTL _ r) as [|n] eqn:X; [done|].
  destruct ((n =? -2) || (n =? 0)) eqn:N; [done|]. apply orb_false_iff in N as [N%Z.eqb_neq _].
  assert (stored r (p ++ token) <> None) as S by (rewrite <- (TTL_stored _ _ _ X); done).
  destruct (n =? -1); [simplify_eq/=; eauto 10|]. bind_inv H.
  destruct (do_SETEX _ _ _ r) as [[|] r1] eqn:W; simplify_eq/=. split; [done|]. exists p. split; [done|]. split; [done|].
  right; split; [by eapply SETEX_stored|]. intros k ?; by eapply SETEX_other.
Qed.

Lemma renewByRaw_inv f args claims c r claims' c' r' :
  renewByRawAction f args claims c r = Ret (true, None, claims', c', r') -> pc_origin c' = pc_origin c /\ r' = r.
Proof.
  unfold renewByRawAction; destruct (claims !! jwtClaimsFieldExp); [|by intros [= <- <- <-]]. intros H. bind_inv H.
  destruct (renewToken _ _); simplify_eq/=; done.
Qed.

Lemma fetchTo_inv add args claims c r claims' c' r' :
  fetchTo add args claims c r = Ret (true, None, claims', c', r') -> pc_origin c' = pc_origin c /\ r' = r.
Proof.
  unfold fetchTo; intros H; do 3 bind_inv H. simplify_eq/=. split; [by eapply fetch_origin|done].
Qed.

Lemma act_granted f a args token claims c r claims' c' r' b r0 : keeps b token r0 r ->
  act f a args token claims c r = Ret (true, None, claims', c', r') ->
  granted f (pc_origin c) token r0 b a args /\ pc_origin c' = pc_origin c /\
  keeps (match a with RenewByRedis => true | _ => b end) token r0 r'.
Proof.
  intros K; destruct a; simpl; intros H.
  - apply tokenInRedis_inv in H as (-> & -> & p & ? & N). split; [|done]. eauto using keeps_stored.
  - apply csrf_inv in H as (-> & -> & p & v & ? & S & X). split; [|done]. exists p; split; [done|].
    split; [eapply keeps_stored; [done|congruence]|]. destruct X as [|X]; [by left|]. right; exists v; split; [done|].
    destruct (K (p ++ token)) as [E|(-> & _ & E)]; [left; congruence|right; split; congruence].
  - by apply renewByRaw_inv in H as (-> & ->).
  - apply renewByRedis_inv in H as (-> & p & ? & N & X). pose proof (keeps_stored _ _ _ _ _ K N).
    split; [eauto|]. split; [done|]. intros k. destruct X as [->|[X Y]]; [destruct (K k) as [?|(_ & ?)]; auto|].
    destruct (decide (k = p ++ token)) as [->|D]; [auto|]. rewrite (Y k D). destruct (K k) as [?|(_ & ?)]; auto.
  - by apply fetchTo_inv in H as (-> & ->).
  - by apply fetchTo_inv in H as (-> & ->).
Qed.

Lemma doActions_granted f token r0 l : ∀ b claims c r code c' r', keeps b token r0 r ->
  doActions f l token claims c r = Ret (code, None, c', r') ->
  code = StatusOK /\ all_granted f (pc_origin c) token r0 b l.
Proof.
  induction l as [|[a args] l IH]; simpl; intros b claims c r code c' r' K H; [by injection H as <- _ _|].
  bind_inv H. destruct a0 as [[[[ok err] claims1] c1] r1]. destruct err as [e|]; [by destruct (customErrMaps _)|].
  destruct ok; [|done]. simpl in H.
  apply (act_granted _ _ _ _ _ _ _ _ _ _ _ _ K) in E as (G & O & K'). rewrite <- O.
  destruct (IH _ _ _ _ _ _ _ K' H) as [? ?]. rewrite O at 1. auto.
Qed.

(** C16: a request to an API that asks for authentication is let through only with a token, found
    where the configuration says, whose signature verifies under the secret with an HMAC method,
    and only if every configured action granted it: its key was in Redis, and the second token of
    the request is the value of that key, or the token itself once an earlier action renewed the
    key, or the request is exempt from that check. *)
Theorem jwt_admits f c r code c' r' : JWT_Pre f c r = Ret (code, None, c', r') ->
  ToUpper (API_AuthFilter (a_meta (pc_api c))) = FilterJWT ->
  code = StatusOK /\ ∃ token claims, getter f (pc_origin c) = inr token /\ parseJWTToken f (pc_now c) token = inr claims /\
    (∃ alg, hmac alg = true /\ signed alg (secretBytes f) token) /\
    all_granted f (pc_origin c) token r false (zip (actions f) (actionArgs f)).
Proof.
  unfold JWT_Pre; intros H A; rewrite A in H. change (negb (bytes_eqb FilterJWT FilterJWT)) with false in H. cbv iota in H.
  destruct (getter f (pc_origin c)) as [|token]; [done|].
  destruct (parseJWTToken f (pc_now c) token) as [|claims] eqn:Hp; [done|].
  destruct (doActions_granted f token r _ false _ _ _ _ _ _ ltac:(by left) H) as [-> G].
  split; [done|]. exists token, claims. repeat (split; [done|]). split; [|done].
  unfold parseJWTToken in Hp. destruct (Parse _ _ _) as [|[[?|] []]] eqn:Pa; simplify_eq.
  apply Parse_signed in Pa as (alg & key & Hk & S). exists alg.
  destruct alg; simpl in Hk; simplify_eq; done.
Qed.

(** The token that [renew_by_raw] puts into the answer is accepted by the same filter, with the
    claims of the old one, until the new time to live is over. *)
Theorem renewed_accepted f args claims c r claims' c' r' : hmac (signing f) = true ->
  renewByRawAction f args claims c r = Ret (true, None, claims', c', r') -> claims !! jwtClaimsFieldExp <> None ->
  ∃ ttl token, arg args (str "ttl") = PNumber ttl /\ GetAttr c' ctxRenewTokenAttr = Some (AttrString token) /\
  (∀ k, k <> jwtClaimsFieldExp -> claims' !! k = claims !! k) /\
  ∀ now, Unix now < Unix (pc_now c + i64 (1000000000 * ttl)) -> parseJWTToken f now token = inr (reread claims').
Proof.
  unfold renewByRawAction; intros S H N. destruct (claims !! jwtClaimsFieldExp); [|done].
  destruct (arg args (str "ttl")) as [| |ttl| |]; simpl in H; try done.
  destruct (renewToken f _) as [|token] eqn:E; [done|]. injection H as <- <- <-. exists ttl, token. split; [done|].
  split; [apply lookup_insert_eq|]. split; [intros k ?; by apply lookup_insert_ne|]. intros now Hn.
  unfold parseJWTToken. erewrite Parse_SignedString; [done|exact E| |].
  - destruct (signing f); done.
  - by rewrite expires_exp.
Qed.
End Admission.

(** ** Samples *)
Module JwtSamples.
Import Filters.Samples Codec Codec.Countables.

#[export] Instance method_eq_dec : EqDecision SigningMethod.
Proof. solve_decision. Defined.
#[export] Instance method_countable : Countable SigningMethod.
Proof.
  apply (inj_countable'
    (λ m, match m with SigningMethodHS256 => (1, []) | SigningMethodHS384 => (2, []) | SigningMethodHS512 => (3, [])
          | OtherMethod a => (4, a) end)
    (λ '(n, a), if n =? 1 then SigningMethodHS256 else if n =? 2 then SigningMethodHS384
                else if n =? 3 then SigningMethodHS512 else OtherMethod a)). by intros [].
Defined.

(** Claims are numbers; a token is the text of its method, its key and its claims. *)
Definition expired (now : Z) (claims : gmap bytes Z) : bool :=
  match claims !! str "exp" with Some e => e <=? now | None => false end.
Definition token_of (alg : SigningMethod) (claims : gmap bytes Z) (key : bytes) : bytes :=
  text_of (encode (alg, key, claims)).
#[export] Instance sample_tokens : Tokens := {|
  claim := Z; Int64 n := n; Sprint _ := [];
  Parse now tok kf :=
    match decode (A := SigningMethod * bytes * gmap bytes Z) (number_of tok) with
    | Some (alg, key, claims) =>
        match kf alg with
        | inl e => inl e
        | inr key' => if bytes_eqb key key' && negb (expired now claims) then inr (Some claims, true) else inl errJWTInvalid
        end
    | None => inl errJWTInvalid
    end;
  SignedString alg claims key := inr (token_of alg claims key) |}.

#[export] Program Instance sample_laws : TokensLaws sample_tokens := {|
  signed alg key tok := ∃ claims : gmap bytes Z, decode (number_of tok) = Some (alg, key, claims);
  reread claims := claims; expires claims := claims !! str "exp" |}.
Next Obligation. intros claims e. apply (lookup_insert_eq (M := gmap bytes)). Qed.
Next Obligation.
  simpl. intros now tok kf claims H. destruct (decode (number_of tok)) as [[[alg key] cl]|] eqn:D; [|done].
  destruct (kf alg) as [|key'] eqn:K; [done|]. destruct (bytes_eqb key key') eqn:B; [|done].
  apply bytes_eqb_eq in B; subst key'. exists alg, key. split; [done|]. by exists cl.
Qed.
Next Obligation.
  simpl. intros now kf alg claims key tok [= <-] K E. unfold token_of. rewrite number_text, decode_encode, K, bytes_eqb_refl.
  unfold expired. destruct (claims !! str "exp") as [e|]; [|done]. rewrite (proj2 (Z.leb_gt e now)) by done. done.
Qed.

(** Redis: values, all with a time to live. *)
#[export] Instance sample_redis : Redis (gmap bytes bytes) := {|
  do_TTL k r := inr (match r !! k with Some _ => 60 | None => -2 end);
  do_EXISTS k r := inr (bool_decide (is_Some (r !! k)));
  do_GET k r := match r !! k with Some v => inr v | None => inl (errOther (str "redigo: nil returned")) end;
  do_SETEX k _ v r := (None, <[k := v]> r);
  ErrNil := str "redigo: nil returned" |}.
#[export] Program Instance sample_redis_laws : RedisLaws (gmap bytes bytes) := {| stored r k := r !! k |}.
Next Obligation. simpl; intros k r n H; injection H as <-. by destruct (r !! k). Qed.
Next Obligation. simpl; intros k r b H; injection H as <-. rewrite bool_decide_eq_true. destruct (r !! k); split; try done; intros [? [=]]. Qed.
Next Obligation. simpl; intros k r v H. destruct (r !! k); simplify_eq; done. Qed.
Next Obligation. simpl; intros k ttl v r r' [= <-]. apply (lookup_insert_eq (M := gmap bytes)). Qed.
Next Obligation. simpl; intros k ttl v r err r' k' [= <- <-] ?. by apply (lookup_insert_ne (M := gmap bytes)). Qed.
#[export] Instance sample_forward : Forward := {| AddRequestHeader := SetHeader; SetCookie _ _ r := r |}.

(** A filter that takes the token from the header, checks it and the second token in Redis, and
    renews the key. *)
Definition prefix_args : gmap bytes param := {[ str "prefix" := PString (str "t_"); str "ttl" := PNumber 60 ]}.
Definition sample_cfg (l : list bytes) : JWTCfg :=
  mkJWTCfg (str "key") (str "HS256") (str "header:Authorization") (str "X-Csrf") (str "Bearer") (str "X-Renew") true
    ((λ method, mkAction method prefix_args) <$> l).
Definition sample_filter : JWTFilter :=
  match newJWTFilter (inr (sample_cfg [actionTokenAndCSRFInRedis; actionRenewByRedis])) with
  | Ret (inr f) => f
  | _ => mkJWTFilter (sample_cfg []) [] (λ _, inl errJWTMissing) (λ _, inl errJWTMissing) SigningMethodHS256 [] []
  end.
Definition sample_token : bytes := token_of SigningMethodHS256 {[ str "exp" := 100 ]} (str "key").
Definition asking : Request :=
  mkRequest (str "GET") (str "h") (str "/a") [] []
    (λ k, if bytes_eqb k (str "Authorization") then str "Bearer " ++ sample_token
          else if bytes_eqb k (str "X-Csrf") then str "c" else []) (λ _, []) (λ _, []) (λ _, []).
Definition authenticated (a : API) : API :=
  mkAPI (API_ID a) (API_Name a) (API_URLPattern a) (API_Method a) (API_Domain a) (API_Status a) (API_IPAccessControl a)
    (API_DefaultValue a) (API_Nodes a) (API_UseDefault a) (API_MatchRule a) (API_MaxQPS a) (API_CircuitBreaker a)
    (API_RateLimitOption a) (API_RenderTemplate a) (API_WebSocketOptions a) (API_Perms a) (str "jwt") (API_Position a)
    (API_Tags a) (API_UseTLS a) (API_TlsEmbedCert a).
Definition asked : @proxyContext Slab.SyncPool :=
  let a := sample_api None in
  mkContext (mkAPIRuntime (a_p a) (authenticated (a_meta a)) (a_nodes a) [] [] (parsedRenderObjects a))
    (sample_server 2 Open) (sample_node None) asking (str "1.2.3.4") asking ∅ (mkReply StatusOK (mkResponse [] [])) []
    (5 * 1000000000) 0 Analysis.NewAnalysis [] (Lru.NewLRUCache 1000) ByteBuf.Sample.small_pool [].
Definition keys : gmap bytes bytes := {[ str "t_" ++ sample_token := str "c" ]}.

Definition code_of {A} (o : outcome (Z * option ferror * A * gmap bytes bytes)) : option (Z * option ferror) :=
  match o with Ret (code, err, _, _) => Some (code, err) | _ => None end.
Definition keys_of {A} (o : outcome (Z * option ferror * A * gmap bytes bytes)) : gmap bytes bytes :=
  match o with Ret (_, _, _, r) => r | _ => ∅ end.

Definition token_in (x : ferror + bytes) : bytes := match x with inr t => t | inl _ => [] end.

(** The first request is admitted and renews the key, which loses the second token: the same
    request again is refused. *)
Example renewal_loses_csrf :
  code_of (JWT_Pre sample_filter asked keys) = Some (StatusOK, None) /\
  code_of (JWT_Pre sample_filter asked (keys_of (JWT_Pre sample_filter asked keys))) = Some (StatusForbidden, Some errCSRFInvalid).
Proof. split; vm_compute; reflexivity. Qed.

Lemma jwt_admits_witness : ∃ c' r', JWT_Pre sample_filter asked keys = Ret (StatusOK, None, c', r') /\
  ∃ alg, signed alg (str "key") sample_token.
Proof.
  destruct (JWT_Pre sample_filter asked keys) as [[[[code err] c'] r']| |] eqn:E;
    pose proof (proj1 renewal_loses_csrf) as X; rewrite E in X; try discriminate X.
  cbn [code_of] in X. injection X as -> ->. exists c', r'. split; [reflexivity|].
  destruct (jwt_admits sample_filter asked keys StatusOK c' r' E eq_refl) as (_ & token & claims & G & _ & (alg & _ & S) & _).
  assert (token = sample_token) as <- by (apply (f_equal token_in) in G; simpl in G; rewrite <- G; vm_compute; reflexivity).
  exists alg. exact S.
Defined.

Definition old_claims : @gmap bytes _ _ (@claim sample_tokens) := {[ str "exp" := 10 ]}.
Definition new_claims : @gmap bytes _ _ (@claim sample_tokens) := <[str "exp" := 65]> old_claims.

Lemma renewed_accepted_witness : ∃ ttl token, arg prefix_args (str "ttl") = PNumber ttl /\
  parseJWTToken sample_filter (20 * 1000000000) token = inr (A := ferror) new_claims.
Proof.
  destruct (renewed_accepted sample_filter prefix_args old_claims asked keys new_claims
    (SetAttr ctxRenewTokenAttr (AttrString (token_of SigningMethodHS256 new_claims (str "key"))) asked) keys)
    as (ttl & token & A & _ & _ & F); [reflexivity|reflexivity|done|].
  exists ttl, token. split; [exact A|]. injection A as <-. apply (F (20 * 1000000000)). reflexivity.
Defined.
End JwtSamples.
