(* ===== verification/Render.v ===== *)
(** Model of the answer to a request: the aggregation of the nodes' parts
    ([src/src/proxy/multi.go]), what a dispatched node contributes
    ([src/src/proxy/dispatcher.go]), and the rendering of the response
    ([src/src/proxy/render.go]). *)
From S2P Require Import Prelude Meta JsonScan JsonGet JsonTotal JsonText JsonSet Matching ByteBuf Caching Runtime Filters.

Definition emptyString : bytes := [dquote; dquote].
Definition emptyObject : bytes := str "{}".
Definition emptyArray : bytes := str "[]".

(** ** The aggregation

    [multiContext] is its data.  [emptyObject] is a slice with no room, so [Set] never writes
    in it, and appending to the data leaves what was read from it. *)
Module Multi.

Definition init : bytes := emptyObject.
Definition reset : bytes := init.

(** The error of [Set] is dropped, with the data it returns. *)
Definition completePart (attr part data : bytes) : outcome bytes :=
  if (0 <? len part) && negb (bytes_eqb attr []) then
    '(data, _) ← Set_ data part [attr]; Ret data
  else Ret data.

Definition getAttr (paths : list bytes) (data : bytes) : outcome bytes :=
  '(value, _, _, err) ← Get data paths;
  match err with Some _ => Ret [] | None => Ret value end.

End Multi.

(** ** Dispatched nodes

    A node with what [doProxy] leaves in it. *)
Record dispatched := mkDispatched {
  d_node : apiNode;
  d_res : option reply;
  d_err : option ferror;
  d_code : Z
}.

Definition hasError (dn : dispatched) : bool :=
  bool_decide (d_err dn <> None) || (StatusBadRequest <=? d_code dn).

Definition defaultValue (dn : dispatched) : option HTTPResult := DispatchNode_DefaultValue (node_meta (d_node dn)).
Definition hasDefaultValue (dn : dispatched) : bool := bool_decide (defaultValue dn <> None).
Definition useDefault (dn : dispatched) : bool := DispatchNode_UseDefault (node_meta (d_node dn)).

(** A node forced to its default value must have one. *)
Definition getResponseBody (dn : dispatched) : outcome bytes :=
  if useDefault dn || (hasError dn && hasDefaultValue dn) then
    match defaultValue dn with Some d => Ret (HTTPResult_Body d) | None => Panic end
  else Ret (default [] ((λ r, body (rp_resp r)) <$> d_res dn)).

Section Render.
Context {http : Http}.

(** The response to the client. *)
Record output := mkOutput { o_code : Z; o_headers : list (bytes * bytes); o_body : bytes }.

(** fasthttp's accessors of special headers. *)
Class SpecialHeaders := {
  SetContentType : bytes -> list (bytes * bytes) -> list (bytes * bytes);
  SetCookie : bytes * bytes -> list (bytes * bytes) -> list (bytes * bytes);
  ContentType : list (bytes * bytes) -> bytes
}.
Context {special : SpecialHeaders}.

Definition SetStatusCode (code : Z) (o : output) : output := mkOutput code (o_headers o) (o_body o).
Definition set_headers (f : list (bytes * bytes) -> list (bytes * bytes)) (o : output) : output :=
  mkOutput (o_code o) (f (o_headers o)) (o_body o).
Definition ctx_Write (s : bytes) (o : output) : output := mkOutput (o_code o) (o_headers o) (o_body o ++ s).

Definition getResponseContentType (dn : dispatched) : bytes :=
  default [] ((λ r, ContentType (headers (rp_resp r))) <$> d_res dn).

Definition MultiResultsContentType : bytes := str "application/json; charset=utf-8".
Definition MultiResultsRemoveHeaders : list bytes := [str "Content-Length"; str "Content-Type"; str "Date"].

(** [Header.CopyTo] copies the status code too. *)
Definition copyHeaderTo (dn : dispatched) (o : output) : outcome output :=
  if useDefault dn || (hasError dn && hasDefaultValue dn) then
    match defaultValue dn with
    | None => Panic
    | Some d =>
        let hs := fold_left (λ hs h, AddHeader h.1 h.2 hs) (HTTPResult_Headers d) (o_headers o) in
        Ret (mkOutput (o_code o) (fold_left (λ hs ck, SetCookie ck hs) (HTTPResult_Cookies d) hs) (o_body o))
    end
  else
    match d_res dn with
    | None => Ret o
    | Some r =>
        Ret (mkOutput (rp_code r)
               (fold_left (λ hs h, DelHeader h hs) MultiResultsRemoveHeaders (headers (rp_resp r))) (o_body o))
    end.

(** [maybeDone]: the part of a node goes into the aggregation, if there is one. *)
Definition maybeDone (multiCtx : option bytes) (dn : dispatched) : outcome (option bytes) :=
  match multiCtx with
  | None => Ret None
  | Some data =>
      part ← getResponseBody dn;
      data ← Multi.completePart (DispatchNode_AttrName (node_meta (d_node dn))) part data; Ret (Some data)
  end.

(** ** Templates *)

Definition extractAttrValue (src : bytes) (paths : list bytes) : outcome (bytes * option jsonError) :=
  '(value, vt, _, err) ← Get src paths;
  match err with
  | Some e => Ret ([], Some e)
  | None =>
      let size := len value in
      if bool_decide (vt = String) && (0 <? size) then Ret (dquote :: value ++ [dquote], None)
      else if bool_decide (vt = String) && (size =? 0) then Ret (emptyString, None)
      else if bool_decide (vt = Array) && (size =? 0) then Ret (emptyArray, None)
      else if bool_decide (vt = UnknownType) then Ret (emptyString, None)
      else if bool_decide (vt = NotExist) then Ret (emptyString, None)
      else if bool_decide (vt = Null) then Ret (emptyString, None)
      else Ret (value, None)
  end.

(** Several expressions: an object with the last key of each. *)
Fixpoint extractObject (exps : list (list bytes)) (src obj : bytes) : outcome (bytes * option jsonError) :=
  match exps with
  | [] => Ret (obj, None)
  | exp :: exps =>
      '(data, err) ← extractAttrValue src exp;
      match err with
      | Some e => Ret ([], Some e)
      | None =>
          match last exp with
          | Some key =>
              if 0 <? len data then
                '(obj, err) ← Set_ obj data [key];
                match err with Some e => Ret ([], Some e) | None => extractObject exps src obj end
              else extractObject exps src obj
          | None => extractObject exps src obj
          end
      end
  end.

Definition extractValue (attr : renderAttr) (src : bytes) : outcome (bytes * option jsonError) :=
  match extracts attr with
  | [exp] => extractAttrValue src exp
  | exps => extractObject exps src emptyObject
  end.

(** A value added to an object under a name, unless one of them is empty. *)
Definition addAttr (value name obj : bytes) : outcome (bytes * option jsonError) :=
  if (0 <? len value) && negb (bytes_eqb name []) then Set_ obj value [name] else Ret (obj, None).

(** The attributes of an object: flat ones go to [data], others to [tmp]. *)
Fixpoint extractAttrs (isFlat : bool) (l : list renderAttr) (src data tmp : bytes)
    : outcome (bytes * bytes * option jsonError) :=
  match l with
  | [] => Ret (data, tmp, None)
  | attr :: l =>
      '(value, err) ← extractValue attr src;
      match err with
      | Some e => Ret ([], [], Some e)
      | None =>
          '(obj, err) ← addAttr value (RenderAttr_Name (ra_meta attr)) (if isFlat then data else tmp);
          match err with
          | Some e => Ret ([], [], Some e)
          | None => if isFlat then extractAttrs isFlat l src obj tmp else extractAttrs isFlat l src data obj
          end
      end
  end.

Fixpoint extractObjects (objs : list renderObject) (src data : bytes) : outcome (bytes * option jsonError) :=
  match objs with
  | [] => Ret (data, None)
  | obj :: objs =>
      let isFlat := RenderObject_FlatAttrs (ro_meta obj) in
      '(data, tmp, err) ← extractAttrs isFlat (attrs obj) src data emptyObject;
      match err with
      | Some e => Ret ([], Some e)
      | None =>
          '(data, err) ← (if isFlat then Ret (data, None) else addAttr tmp (RenderObject_Name (ro_meta obj)) data);
          match err with Some e => Ret ([], Some e) | None => extractObjects objs src data end
      end
  end.

Definition extract (api : apiRuntime) (src : bytes) : outcome (bytes * option jsonError) :=
  extractObjects (parsedRenderObjects api) src emptyObject.

(** ** Rendering *)

Definition hasRenderTemplate (api : apiRuntime) : bool := bool_decide (API_RenderTemplate (a_meta api) <> None).

Definition renderTemplate (api : apiRuntime) (context : bytes) (o : output) : outcome output :=
  '(data, err) ← extract api context;
  match err with
  | Some _ => Ret (SetStatusCode StatusInternalServerError o)
  | None => Ret (ctx_Write data o)
  end.

(** [renderDefault]: the API must have a default value. *)
Definition renderDefault (api : apiRuntime) (o : output) : outcome output :=
  match API_DefaultValue (a_meta api) with
  | None => Panic
  | Some d =>
      let o := set_headers (fold_left (λ hs h, if bytes_eqb h.1 (str "Content-Type") then SetContentType h.2 hs
                                               else AddHeader h.1 h.2 hs) (HTTPResult_Headers d)) o in
      let o := set_headers (fold_left (λ hs ck, SetCookie ck hs) (HTTPResult_Cookies d)) o in
      let o := SetStatusCode (if 0 <? HTTPResult_Code d then HTTPResult_Code d else StatusOK) o in
      Ret (ctx_Write (HTTPResult_Body d) o)
  end.

Definition hasAPIDefault (api : apiRuntime) : bool := bool_decide (API_DefaultValue (a_meta api) <> None).

Definition renderRaw (dn : dispatched) (o : output) : outcome output :=
  let o := set_headers (SetContentType (getResponseContentType dn)) o in
  src ← getResponseBody dn; Ret (ctx_Write src o).

Definition renderSingle (api : apiRuntime) (dn : dispatched) (o : output) : outcome output :=
  let o := match d_res dn with Some r => SetStatusCode (rp_code r) o | None => o end in
  if hasError dn then
    if hasAPIDefault api then renderDefault api o else Ret (SetStatusCode (d_code dn) o)
  else if negb (hasRenderTemplate api) then renderRaw dn o
  else src ← getResponseBody dn; renderTemplate api src o.

(** The headers of the nodes up to the first that failed, with its code. *)
Fixpoint copyHeaders (nodes : list dispatched) (o : output) : outcome (option Z * output) :=
  match nodes with
  | [] => Ret (None, o)
  | dn :: nodes =>
      if hasError dn && negb (hasDefaultValue dn) then Ret (Some (d_code dn), o)
      else o ← copyHeaderTo dn o; copyHeaders nodes o
  end.

Definition renderMulti (api : apiRuntime) (nodes : list dispatched) (multiContext : bytes) (o : output) : outcome output :=
  '(failed, o) ← copyHeaders nodes o;
  match failed with
  | Some code => if hasAPIDefault api then renderDefault api o else Ret (SetStatusCode code o)
  | None =>
      if negb (hasRenderTemplate api) then Ret (ctx_Write multiContext o)
      else renderTemplate api multiContext o
  end.

Definition render (api : apiRuntime) (nodes : list dispatched) (multiCtx : option bytes) (o : output) : outcome output :=
  let o := SetStatusCode StatusOK (set_headers (SetContentType MultiResultsContentType) o) in
  match nodes with
  | [] => renderDefault api o
  | [dn] => renderSingle api dn o
  | nodes => renderMulti api nodes (default [] multiCtx) o
  end.

End Render.

(** ** Aggregations and templates as JSON values *)
Module Aggregate.

(** Names that can be members of an aggregation, and new ones. *)
Definition fresh (k : bytes) (ms : members) : bool :=
  negb (bytes_eqb k []) && negb (is_index k) &&
  forallb (λ c, negb (c =? dquote) && negb (c =? backslash)) k &&
  match member k ms with None => true | Some _ => false end.

Lemma fresh_spec k ms : fresh k ms = true -> plain_key k /\ member k ms = None.
Proof.
  unfold fresh. rewrite !andb_true_iff, !negb_true_iff. intros [[[Hk Hi] Hc] Hm]. split; [split_and!|].
  - intros ->. done.
  - done.
  - apply Forall_forall. intros c Hin. rewrite forallb_forall in Hc. apply list_elem_of_In in Hin.
    specialize (Hc c Hin). apply andb_true_iff in Hc as [H1 H2]. apply negb_true_iff, Z.eqb_neq in H1, H2. done.
  - by destruct (member k ms).
Qed.

(** *** What a template means *)

(** The value shown for one extracted: [null] is an empty string. *)
Definition shown (v : cst) : cst := match v with CLit _ Null => CStr [] | _ => v end.

(** A value added under a name; [None] where a name is repeated or needs escaping. *)
Definition add (k : bytes) (v : cst) (ms : members) : option members :=
  if bytes_eqb k [] then Some ms else if fresh k ms then Some (snoc ms k v) else None.

(** The value of an expression. *)
Definition valueAt (v : cst) (path : list bytes) : option cst :=
  if forallb (λ k, negb (bytes_eqb k [])) path then shown <$> lookup_path v path else None.

Fixpoint meanObject (v : cst) (exps : list (list bytes)) (ms : members) : option members :=
  match exps with
  | [] => Some ms
  | exp :: exps =>
      u ← valueAt v exp; k ← last exp;
      if fresh k ms then meanObject v exps (snoc ms k u) else None
  end.

Definition meanValue (v : cst) (exps : list (list bytes)) : option cst :=
  match exps with [exp] => valueAt v exp | exps => CObj [] <$> meanObject v exps MNil end.

Fixpoint meanAttrs (v : cst) (l : list renderAttr) (ms : members) : option members :=
  match l with
  | [] => Some ms
  | attr :: l => u ← meanValue v (extracts attr); ms ← add (RenderAttr_Name (ra_meta attr)) u ms; meanAttrs v l ms
  end.

Fixpoint meanObjects (v : cst) (objs : list renderObject) (ms : members) : option members :=
  match objs with
  | [] => Some ms
  | obj :: objs =>
      if RenderObject_FlatAttrs (ro_meta obj) then ms ← meanAttrs v (attrs obj) ms; meanObjects v objs ms
      else
        tmp ← meanAttrs v (attrs obj) MNil;
        ms ← add (RenderObject_Name (ro_meta obj)) (CObj [] tmp) ms; meanObjects v objs ms
  end.

(** *** Building objects *)

Abbreviation obj ms := (print (CObj [] ms)).

Definition well (ms : members) : Prop := wf (CObj [] ms).

Lemma well_nil : well MNil.
Proof. split; [constructor|done]. Qed.

Lemma well_snoc ms k v : well ms -> wf v -> plain_key k -> well (snoc ms k v).
Proof. intros [_ Hms] Hv Hk. split; [constructor|by apply wf_snoc]. Qed.

Lemma Set_fresh k v ms : well ms -> wf v -> fresh k ms = true ->
  Set_ (obj ms) (print v) [k] = Ret (obj (snoc ms k v), None) /\ well (snoc ms k v).
Proof.
  intros Hms Hv Hf. apply fresh_spec in Hf as [Hk Hm]. split; [|by apply well_snoc].
  by destruct (Set_new_key [] ms k v Hms Hv Hk Hm) as [-> _].
Qed.

Lemma wf_shown v : wf v -> wf (shown v).
Proof. destruct v as [t []| | |]; cbn; try done. intros _. by apply raw_plain. Qed.

Lemma literalType_known c t ty : literalType c t = Some ty -> ty = Boolean \/ ty = Null \/ ty = Number.
Proof. unfold literalType. repeat case_match; intros [= <-]; auto. Qed.

(** The text of a value is the one extracted. *)
Lemma extractAttrValue_ok v path u : wf v -> valueAt v path = Some u ->
  extractAttrValue (print v) path = Ret (print u, None) /\ wf u.
Proof.
  intros Hv Hu. unfold valueAt in Hu. destruct (forallb _ path) eqn:Hp; [|done].
  assert (Hok : keys_ok path).
  { apply Forall_forall. intros k Hk ->. rewrite forallb_forall in Hp. apply list_elem_of_In in Hk. by specialize (Hp _ Hk). }
  destruct (lookup_path v path) as [w|] eqn:Hl; [|done]. injection Hu as <-.
  destruct (internalGet_text [] v [] path w Hv ltac:(constructor) I Hok Hl) as (l & r & _ & Hw & Hg).
  cbn [app] in Hg. rewrite app_nil_r in Hg. split; [|by apply wf_shown].
  unfold extractAttrValue, Get. rewrite Hg. cbn [mbind outcome_mbind g_value g_type g_end g_err].
  destruct w as [t ty|t|wh es|wh ms]; cbn [type_of inner shown].
  - destruct Hw as [Hw _]. destruct t as [|c t]; [done|].
    destruct (literalType_known _ _ _ Hw) as [->|[->| ->]]; done.
  - rewrite !bool_decide_true by done. destruct t; [done|]. by rewrite len_cons, (proj2 (Z.ltb_lt _ _)) by (pose proof (len_nonneg t); lia).
  - rewrite !bool_decide_false by done. cbn [andb]. change (bool_decide (Array = Array)) with true. cbn [andb].
    pose proof (print_len _ Hw). destruct (Z.eqb_spec (len (print (CArr wh es))) 0); [lia|done].
  - rewrite !bool_decide_false by done. done.
Qed.

Lemma len_print_pos v : wf v -> (0 <? len (print v)) = true.
Proof. intros Hv. apply Z.ltb_lt. by apply print_len. Qed.

Lemma extractObject_ok v exps : ∀ ms ms', wf v -> well ms -> meanObject v exps ms = Some ms' ->
  extractObject exps (print v) (obj ms) = Ret (obj ms', None) /\ well ms'.
Proof.
  induction exps as [|exp exps IH]; intros ms ms' Hv Hms H; cbn [meanObject extractObject] in *.
  { by injection H as <-. }
  destruct (valueAt v exp) as [u|] eqn:Hu; [|done]. destruct (last exp) as [k|]; [|done]. cbn [mbind option_bind] in H.
  destruct (fresh k ms) eqn:Hf; [|done].
  destruct (extractAttrValue_ok v exp u Hv Hu) as [-> Hwu]. cbn [mbind outcome_mbind].
  rewrite (len_print_pos u Hwu). destruct (Set_fresh k u ms Hms Hwu Hf) as [-> Hw]. cbn [mbind outcome_mbind]. eauto.
Qed.

Lemma extractValue_ok v attr u : wf v -> meanValue v (extracts attr) = Some u ->
  extractValue attr (print v) = Ret (print u, None) /\ wf u.
Proof.
  intros Hv. unfold meanValue, extractValue. pose proof well_nil as Hn.
  destruct (extracts attr) as [|exp [|exp' exps]].
  - intros [= <-]. done.
  - apply extractAttrValue_ok, Hv.
  - intros H. destruct (meanObject v _ MNil) as [ms|] eqn:Hm; [|done]. injection H as <-.
    change emptyObject with (obj MNil). by destruct (extractObject_ok v _ MNil ms Hv Hn Hm) as [-> Hw].
Qed.

Lemma addAttr_ok k u ms ms' : well ms -> wf u -> add k u ms = Some ms' ->
  addAttr (print u) k (obj ms) = Ret (obj ms', None) /\ well ms'.
Proof.
  intros Hms Hu. unfold add, addAttr. rewrite (len_print_pos u Hu). destruct (bytes_eqb k []); cbn [negb andb].
  - by intros [= <-].
  - destruct (fresh k ms) eqn:Hf; [|done]. intros [= <-]. by apply Set_fresh.
Qed.

Lemma extractAttrs_ok v isFlat l : ∀ ms ms' other, wf v -> well ms -> meanAttrs v l ms = Some ms' ->
  extractAttrs isFlat l (print v) (if isFlat then obj ms else other) (if isFlat then other else obj ms) =
    Ret (if isFlat then obj ms' else other, if isFlat then other else obj ms', None) /\ well ms'.
Proof.
  induction l as [|attr l IH]; intros ms ms' other Hv Hms H; cbn [meanAttrs extractAttrs] in *.
  { by injection H as <-. }
  destruct (meanValue v (extracts attr)) as [u|] eqn:Hu; [|done]. cbn [mbind option_bind] in H.
  destruct (add _ u ms) as [ms1|] eqn:Ha; [|done]. cbn [mbind option_bind] in H.
  destruct (extractValue_ok v attr u Hv Hu) as [-> Hwu]. cbn [mbind outcome_mbind].
  destruct (addAttr_ok _ u ms ms1 Hms Hwu Ha) as [Hadd Hw].
  specialize (IH ms1 ms' other Hv Hw H). destruct isFlat; rewrite Hadd; exact IH.
Qed.

Lemma extractObjects_ok v objs : ∀ ms ms', wf v -> well ms -> meanObjects v objs ms = Some ms' ->
  extractObjects objs (print v) (obj ms) = Ret (obj ms', None) /\ well ms'.
Proof.
  induction objs as [|o objs IH]; intros ms ms' Hv Hms H; cbn [meanObjects extractObjects] in *.
  { by injection H as <-. }
  destruct (RenderObject_FlatAttrs (ro_meta o)) eqn:Hflat.
  - destruct (meanAttrs v _ ms) as [ms1|] eqn:Ha; [|done]. cbn [mbind option_bind] in H.
    destruct (extractAttrs_ok v true _ ms ms1 emptyObject Hv Hms Ha) as [-> Hw]. cbn [mbind outcome_mbind]. eauto.
  - destruct (meanAttrs v _ MNil) as [tmp|] eqn:Ha; [|done]. cbn [mbind option_bind] in H.
    destruct (add _ _ ms) as [ms1|] eqn:Hadd; [|done]. cbn [mbind option_bind] in H.
    change emptyObject with (obj MNil).
    destruct (extractAttrs_ok v false _ MNil tmp (obj ms) Hv well_nil Ha) as [-> Hw]. cbn [mbind outcome_mbind].
    destruct (addAttr_ok _ (CObj [] tmp) ms ms1 Hms Hw Hadd) as [-> Hw1]. cbn [mbind outcome_mbind]. eauto.
Qed.

Section Templates.
Context {http : Http}.

(** C24: a template is rendered as the object it means: when the body of the answer is the text
    of a JSON value, every path of the template leads to a value in it and the names of an
    object are new and plain, what is written is the text of the object that has, in the
    order of the template, every attribute with the value at its path, or with an object of
    the values at its paths, flat attributes at the top and others in the object of their
    name; a [null] shows as an empty string. *)
Theorem template_rendered : ∀ api v ms o, wf v -> meanObjects v (parsedRenderObjects api) MNil = Some ms ->
  renderTemplate api (print v) o = Ret (ctx_Write (obj ms) o).
Proof.
  intros api v ms o Hv Hm. unfold renderTemplate, extract. change emptyObject with (obj MNil).
  by destruct (extractObjects_ok v _ MNil ms Hv well_nil Hm) as [-> _].
Qed.

End Templates.

(** A flat attribute [b] at [a.\[1\].b], and an object [o] of the attribute [l] at [a.\[0\]]. *)
Definition sample_template : RenderTemplate := mkRenderTemplate [
  mkRenderObject [] [mkRenderAttr (str "b") (str "a.[1].b")] true;
  mkRenderObject (str "o") [mkRenderAttr (str "l") (str "a.[0]")] false].

(** A text with single quotes for its quotes. *)
Definition quoted_text (s : string) : bytes := map (λ c, if c =? ch "'" then dquote else c) (str s).

Lemma template_rendered_witness :
  renderTemplate (Samples.sample_api (Some sample_template)) (print sample) (mkOutput 200 [] []) =
    Ret (ctx_Write (quoted_text "{'b':'x','o':{'l':1}}") (mkOutput 200 [] [])).
Proof.
  assert (Hm : meanObjects sample (parsedRenderObjects (Samples.sample_api (Some sample_template))) MNil =
    Some (snoc (snoc MNil (str "b") (CStr (str "x"))) (str "o") (CObj [] (snoc MNil (str "l") (CLit (str "1") Number)))))
    by (vm_compute; reflexivity).
  exact (template_rendered _ sample _ (mkOutput 200 [] []) sample_wf Hm).
Defined.

End Aggregate.
