(* ===== verification/Proxy.v ===== *)
(** Model of the proxy's treatment of one dispatched node, [doProxy] of
    [src/src/proxy/proxy.go]: the rewritten request, the filters around the exchange with the
    server, the cached and prepared responses, and the retries. *)
From S2P Require Import Prelude Meta Matching Expr RateLimit Lbs Counters ByteBuf Caching Runtime Dispatcher Filters Render.

(** ** The surroundings *)

(** What the servers answer: the [n]-th exchange of a node, the request and the address give a
    response, an error, when it ended, and how long after the start.  A response of an
    exchange with an error is a fresh one. *)
Record answer := mkAnswer { ans_reply : reply; ans_err : option ferror; ans_at : Z; ans_cost : Z }.
Class Network := { client_Do : nat -> Request -> bytes -> answer; onWebsocket : nat -> Request -> bytes -> answer }.

(** What the proxy needs of the dispatcher: another server for a node.  The server in use goes
    back to the dispatcher, which shares it. *)
Class Selector (W : Type) := { reselect : serverRuntime -> W -> outcome (option serverRuntime * W) }.

Section Proxy.
Context {P W : Type} `{!Pool P} {env : Env} {http : Http} {net : Network} `{!Selector W}.
Implicit Types (c : proxyContext (P := P)) (w : W) (fs : list (Filter (P := P))).

(** What requests share through the filters. *)
Record shared := mkShared {
  sh_out : list (bytes * bytes);
  sh_now : Z;
  sh_analysis : Analysis.t;
  sh_halves : list (resource * Z);
  sh_cache : Lru.Cache bytes Buf.ByteBuf;
  sh_pool : P;
  sh_removals : list (bytes * Z)
}.

Definition no_reply : reply := mkReply 0 (mkResponse [] []).

(** [init]: the response is none yet, and neither is the end; the duration up to the zero time
    is the least one. *)
Definition init (api : apiRuntime) (dest : serverRuntime) (node : apiNode) (origin : Request)
    (remoteIP : bytes) (forwardReq : Request) (sh : shared) : proxyContext :=
  mkContext api dest node origin remoteIP forwardReq ∅ no_reply (sh_out sh) (sh_now sh) (- 2^63)
    (sh_analysis sh) (sh_halves sh) (sh_cache sh) (sh_pool sh) (sh_removals sh).

Definition retryStrategy c : option RetryStrategy := DispatchNode_RetryStrategy (node_meta (pc_node c)).
Definition matchRetryStrategy (s : RetryStrategy) (target : Z) : bool :=
  existsb (λ code, code =? target) (RetryStrategy_Codes s).
Definition matchAllRetryStrategy (s : RetryStrategy) : bool := len (RetryStrategy_Codes s) =? 0.

Definition setHost c : proxyContext :=
  let meta := node_meta (pc_node c) in
  match DispatchNode_HostType meta with
  | HostOrigin => with_forward (SetHost (Req_Host (pc_origin c)) (pc_forward c)) c
  | HostServerAddress => with_forward (SetHost (Server_Addr (svr_meta (pc_dest c))) (pc_forward c)) c
  | HostCustom => with_forward (SetHost (DispatchNode_CustemHost meta) (pc_forward c)) c
  | HostType_other _ => c
  end.

Definition isWebSocket (a : apiRuntime) : bool := bool_decide (API_WebSocketOptions (a_meta a) <> None).

(** [setEndAt] *)
Definition setEndAt (a : answer) c : proxyContext :=
  mkContext (pc_api c) (pc_dest c) (pc_node c) (pc_origin c) (pc_remoteIP c) (pc_forward c) (pc_attrs c) (pc_res c)
    (pc_out c) (ans_at a) (ans_cost a) (pc_analysis c) (pc_halves c) (pc_cache c) (pc_pool c) (pc_removals c).

(** One exchange. *)
Definition send (times : nat) c : answer * proxyContext :=
  if negb (isWebSocket (pc_api c)) then
    let c := setHost c in
    let a := client_Do times (pc_forward c) (Server_Addr (svr_meta (pc_dest c))) in (a, setEndAt a c)
  else
    let a := onWebsocket times (pc_forward c) (Server_Addr (svr_meta (pc_dest c))) in (a, setEndAt a c).

Definition succeed (a : answer) : bool :=
  bool_decide (ans_err a = None) && (rp_code (ans_reply a) <? StatusBadRequest).

(** Whether the strategy of the node wants another exchange after [times] of them. *)
Definition retries (s : RetryStrategy) (a : answer) (times : Z) : bool :=
  (matchAllRetryStrategy s || matchRetryStrategy s (i32 (rp_code (ans_reply a)))) &&
  (times <? RetryStrategy_MaxTimes s).

(** The loop of exchanges, from the state of the node: how many were made, with the answers
    so far.  [None] is a node that has no server any more. *)
Definition exchanges := list answer.
Definition sendStep (s : exchanges * proxyContext * W)
    : outcome ((exchanges * proxyContext * W) + (option answer * exchanges * proxyContext * W)) :=
  let '(log, c, w) := s in
  let '(a, c) := send (length log) c in
  let log := log ++ [a] in
  if succeed a then Ret (inr (Some a, log, c, w))
  else
    match retryStrategy c with
    | None => Ret (inr (Some a, log, c, w))
    | Some retry =>
        if negb (retries retry a (len log)) then Ret (inr (Some a, log, c, w))
        else
          let c := if 0 <? RetryStrategy_Interval retry
                   then with_now (pc_now c + RetryStrategy_Interval retry * 1000000) c else c in
          '(dest, w) ← reselect (pc_dest c) w;
          match dest with
          | None => Ret (inr (None, log, c, w))
          | Some svr => Ret (inl (log, with_dest svr c, w))
          end
    end.

Definition maxTimes (n : apiNode) : nat :=
  match DispatchNode_RetryStrategy (node_meta n) with
  | Some s => Z.to_nat (Z.max 1 (RetryStrategy_MaxTimes s))
  | None => 1%nat
  end.

Definition sendLoop c w : outcome (option answer * exchanges * proxyContext * W) :=
  loop sendStep (S (maxTimes (pc_node c))) ([], c, w).

(** The buffer of a cached value that was read. *)
Definition putCached (id : bytes) (b : Buf.ByteBuf) c : proxyContext :=
  let m := pc_cache c in
  with_cache (Lru.mkCache (Lru.MaxBytes m) (Lru.current m)
                (map (λ e, if bytes_eqb e.1 id then (id, b) else e) (Lru.ll m)) (Lru.evicted m))
    (pc_pool c) (pc_removals c) c.

(** The answer of a node after its Pre filters: of the cache, of a filter, or of a server.
    An error ends the node with its code. *)
Inductive obtained :=
| Got (res : reply) (err : option ferror)
| Ended (code : Z) (err : ferror).

Definition obtain c w : outcome (obtained * exchanges * proxyContext * W) :=
  match GetAttr c AttrUsingCachingValue with
  | Some (AttrCached id value) =>
      '(resp, b) ← ReadCachedValueTo value;
      Ret (Got (mkReply StatusOK resp) None, [], putCached id b c, w)
  | Some _ => Panic
  | None =>
      match GetAttr c AttrUsingResponse with
      | Some (AttrReply specRes) => Ret (Got specRes None, [], c, w)
      | Some _ => Ret (Ended StatusInternalServerError errResponseAttr, [], c, w)
      | None =>
          '(a, log, c, w) ← sendLoop c w;
          match a with
          | Some a => Ret (Got (ans_reply a) (ans_err a), log, c, w)
          | None => Ret (Ended StatusServiceUnavailable ErrNoServer, log, c, w)
          end
      end
  end.

(** What is left of a node: its result, the exchanges, and the context if one was made. *)
Record proxied := mkProxied {
  px_node : dispatched;
  px_log : exchanges;
  px_ctx : option (proxyContext (P := P));
  px_world : W
}.

Definition failed (n : apiNode) (code : Z) (err : ferror) : dispatched := mkDispatched n None (Some err) code.

(** [adjustH] changes the context of a web socket. *)
Definition afterPre fs (n : apiNode) c w : outcome proxied :=
  '(o, log, c, w) ← obtain c w;
  match o with
  | Ended code err => Ret (mkProxied (failed n code err) log (Some c) w)
  | Got res err =>
      let c := with_res res (pc_out c) c in
      if bool_decide (err <> None) || (StatusBadRequest <=? rp_code res) then
        let resCode := match err with Some _ => StatusInternalServerError | None => rp_code res end in
        c ← doPostErrFilters c resCode err fs;
        Ret (mkProxied (mkDispatched n (Some (pc_res c)) err resCode) log (Some c) w)
      else
        '(_, code, err, c) ← doPostFilters c fs;
        match err with
        | Some e => Ret (mkProxied (mkDispatched n (Some (pc_res c)) (Some e) code) log (Some c) w)
        | None => Ret (mkProxied (mkDispatched n (Some (pc_res c)) None 0) log (Some c) w)
        end
  end.

Definition doNode fs (adjustH : proxyContext -> proxyContext) (api : apiRuntime) (dn : dispatchNode)
    (origin : Request) (remoteIP : bytes) (exprCtx : Ctx) (sh : shared) w : outcome proxied :=
  let n := dn_node dn in
  if DispatchNode_UseDefault (node_meta n) then Ret (mkProxied (mkDispatched n None None 0) [] None w)
  else
    match dn_dest dn with
    | None => Ret (mkProxied (failed n StatusServiceUnavailable ErrNoServer) [] None w)
    | Some svr =>
        let needRewrite := negb (bytes_eqb (DispatchNode_URLRewrite (node_meta n)) []) in
        realPath ← (if needRewrite then Exec exprCtx (parsedExprs n) else Ret []);
        if needRewrite && (len realPath =? 0) then
          Ret (mkProxied (failed n StatusBadRequest ErrRewriteNotMatch) [] None w)
        else
          let forwardReq := if needRewrite then SetRequestURI realPath origin else origin in
          let c := adjustH (init api svr n origin remoteIP forwardReq sh) in
          '(_, code, err, c) ← doPreFilters c fs;
          match err with
          | Some e => Ret (mkProxied (failed n code e) [] (Some c) w)
          | None => afterPre fs n c w
          end
    end.

(** Every way out goes through [maybeDone]. *)
Definition doProxy fs (adjustH : proxyContext -> proxyContext) (api : apiRuntime) (dn : dispatchNode)
    (origin : Request) (remoteIP : bytes) (exprCtx : Ctx) (multiCtx : option bytes) (sh : shared) w
    : outcome (proxied * option bytes) :=
  p ← doNode fs adjustH api dn origin remoteIP exprCtx sh w;
  data ← maybeDone multiCtx (px_node p); Ret (p, data).

(** *** Copies

    [prepare] and [doCopy]: the request that is sent to the server a routing copies to.
    [exprCtx] has the copied parameters and no body of other nodes. *)
Definition prepare (n : apiNode) (params : option (gmap bytes bytes)) (to : serverRuntime) (origin : Request)
    : outcome Request :=
  if negb (bytes_eqb (DispatchNode_URLRewrite (node_meta n)) []) then
    realPath ← Exec (mkCtx origin None params) (parsedExprs n);
    if bytes_eqb realPath [] then Ret origin
    else Ret (SetHost (Server_Addr (svr_meta to)) (SetRequestURI realPath origin))
  else Ret origin.

Definition doCopy (n : apiNode) (params : option (gmap bytes bytes)) (to : option serverRuntime) (origin : Request)
    : outcome (option answer) :=
  match to with
  | None => Ret None
  | Some svr =>
      req ← prepare n params svr origin;
      Ret (Some (client_Do 0 req (Server_Addr (svr_meta svr))))
  end.

(** ** The exchanges of a node *)

Definition node_of (s : exchanges * proxyContext (P := P) * W) : apiNode := pc_node s.1.2.
Definition strategy (n : apiNode) : option RetryStrategy := DispatchNode_RetryStrategy (node_meta n).

(** An exchange that failed and that the strategy repeats, after [times] of them. *)
Definition repeated (n : apiNode) (a : answer) (times : nat) : Prop :=
  succeed a = false /\ ∃ s, strategy n = Some s /\ retries s a (Z.of_nat times) = true.

(** All exchanges but the last were repeated. *)
Definition repeated_until (n : apiNode) (log : exchanges) (k : nat) : Prop :=
  ∀ i a, log !! i = Some a -> (S i <= k)%nat -> repeated n a (S i).

Lemma send_node times c a c' : send times c = (a, c') -> pc_node c' = pc_node c.
Proof.
  unfold send, setHost. destruct (negb _); [|by intros [= _ <-]].
  by destruct (DispatchNode_HostType _); intros [= _ <-].
Qed.

Lemma repeated_snoc n log a :
  repeated_until n log (length log) -> repeated n a (S (length log)) ->
  repeated_until n (log ++ [a]) (length (log ++ [a])).
Proof.
  intros Hlog Ha i b Hi _. apply lookup_app_Some in Hi as [Hi|[Hge Hi]].
  - apply (Hlog i); [done|]. by apply lookup_lt_Some in Hi.
  - destruct (i - length log)%nat as [|k] eqn:E; cbn in Hi; [|done]. injection Hi as <-.
    by replace i with (length log) by lia.
Qed.

Lemma repeated_until_app n log a : repeated_until n log (length log) ->
  repeated_until n (log ++ [a]) (length log).
Proof.
  intros Hlog i b Hi Hle. apply lookup_app_Some in Hi as [Hi|[Hge Hi]]; [by apply (Hlog i)|lia].
Qed.

Lemma repeated_max n a times : repeated n a times -> (times < maxTimes n)%nat.
Proof.
  intros (_ & s & Hs & Hr). unfold maxTimes. unfold strategy in Hs. rewrite Hs. unfold retries in Hr.
  apply andb_true_iff in Hr as [_ Hr]. apply Z.ltb_lt in Hr. lia.
Qed.

(** How the loop ends: with the last answer, which is a success or is not repeated, or with a
    failure that is to be repeated and no server. *)
Definition last_exchange (n : apiNode) (a : option answer) (log : exchanges) : Prop :=
  ∃ b, last log = Some b /\
    match a with
    | Some a => a = b /\ (succeed a = true \/ ~ repeated n a (length log))
    | None => repeated n b (length log)
    end.

(** One turn: the invariant of the loop, and its end. *)
Definition going (n : apiNode) (s : exchanges * proxyContext (P := P) * W) : Prop :=
  node_of s = n /\ repeated_until n s.1.1 (length s.1.1) /\ (length s.1.1 < maxTimes n)%nat.

Definition gone (n : apiNode) (r : option answer * exchanges * proxyContext (P := P) * W) : Prop :=
  let '(a, log, _, _) := r in
  (1 <= length log <= maxTimes n)%nat /\ repeated_until n log (length log - 1) /\ last_exchange n a log.

Definition total_selector : Prop := ∀ svr w, ∃ d w', reselect svr w = Ret (d, w').

Lemma gone_intro n log b a : repeated_until n log (length log) -> (length log < maxTimes n)%nat ->
  match a with
  | Some a => a = b /\ (succeed a = true \/ ~ repeated n a (S (length log)))
  | None => repeated n b (S (length log))
  end ->
  ∀ c w, gone n (a, log ++ [b], c, w).
Proof.
  intros Hlog Hlen Ha c w. unfold gone. rewrite length_app, Nat.add_1_r. split_and!; [lia|lia| |].
  - replace (S (length log) - 1)%nat with (length log) by lia. by apply repeated_until_app.
  - exists b. rewrite length_app, Nat.add_1_r. split; [by rewrite last_snoc|done].
Qed.

Lemma sendStep_ok (Hsel : total_selector) n s : going n s ->
  ∃ r, sendStep s = Ret r /\
    match r with
    | inl s' => going n s' /\ length s'.1.1 = S (length s.1.1)
    | inr r => gone n r
    end.
Proof.
  destruct s as [[log c] w]. intros (Hn & Hlog & Hlen). cbn in Hn, Hlog, Hlen. unfold node_of in Hn. cbn in Hn.
  unfold sendStep. destruct (send (length log) c) as [a c1] eqn:Es. apply send_node in Es.
  assert (Hl : len (log ++ [a]) = Z.of_nat (S (length log))) by (unfold len; rewrite length_app, Nat.add_1_r; done).
  destruct (succeed a) eqn:Esucc.
  { eexists. split; [done|]. apply gone_intro; auto. }
  unfold retryStrategy. rewrite Es, Hn. change (DispatchNode_RetryStrategy (node_meta n)) with (strategy n).
  destruct (strategy n) as [s|] eqn:Estr.
  2:{ eexists. split; [done|]. apply gone_intro; [done|done|]. split; [done|]. right. intros (_ & s & Hs & _). congruence. }
  destruct (retries s a (len (log ++ [a]))) eqn:Er; cbn [negb]; rewrite Hl in Er.
  2:{ eexists. split; [done|]. apply gone_intro; [done|done|]. split; [done|]. right.
      intros (_ & s' & Hs & Hr). rewrite Estr in Hs. injection Hs as <-. congruence. }
  assert (Hrep : repeated n a (S (length log))) by (split; [done|eauto]).
  assert (Hc2 : pc_node (if 0 <? RetryStrategy_Interval s
    then with_now (pc_now c1 + RetryStrategy_Interval s * 1000000) c1 else c1) = n)
    by (destruct (0 <? _); cbn; congruence).
  set (c2 := if 0 <? RetryStrategy_Interval s then _ else _) in *.
  destruct (Hsel (pc_dest c2) w) as (d & w' & ->). cbn [mbind outcome_mbind]. destruct d as [svr|].
  - eexists. split; [done|]. split; [|cbn; by rewrite length_app, Nat.add_1_r].
    split_and!; cbn.
    + unfold node_of. cbn. done.
    + by apply repeated_snoc.
    + rewrite length_app, Nat.add_1_r. by apply (repeated_max n a).
  - eexists. split; [done|]. by apply gone_intro.
Qed.

Lemma sendLoop_ok (Hsel : total_selector) n fuel : ∀ s, going n s -> (maxTimes n - length s.1.1 < fuel)%nat ->
  ∃ r, loop sendStep fuel s = Ret r /\ gone n r.
Proof.
  induction fuel as [|fuel IH]; intros s Hs Hf; [lia|]. cbn [loop].
  destruct (sendStep_ok Hsel n s Hs) as (r & -> & Hr). destruct r as [s'|r]; [|eauto].
  destruct Hr as [Hs' Hlen]. apply IH; [done|]. destruct Hs as (_ & _ & ?). lia.
Qed.

(** C14: the exchanges of a node end, whatever servers and clients do: at least one and at most
    [MaxTimes] of the strategy of the node are made, one without a strategy.  Every exchange
    but the last failed with an error or a status from 400 on, and the strategy has no codes
    or has its status.  The result is the answer of the last exchange, which is a success or
    not to be repeated, or there is no server left for an exchange to be repeated. *)
Theorem exchanges_bounded : ∀ c w, total_selector ->
  ∃ a log c' w', sendLoop c w = Ret (a, log, c', w') /\
    (1 <= length log <= maxTimes (pc_node c))%nat /\
    repeated_until (pc_node c) log (length log - 1) /\ last_exchange (pc_node c) a log.
Proof.
  intros c w Hsel. unfold sendLoop.
  destruct (sendLoop_ok Hsel (pc_node c) (S (maxTimes (pc_node c))) ([], c, w)) as (r & Hr & Hg).
  - split_and!; [done|by intros ? ? ?|]. unfold maxTimes. cbn. case_match; lia.
  - cbn. lia.
  - destruct r as [[[a log] c'] w']. exists a, log, c', w'. by split.
Qed.

End Proxy.

(** ** Examples *)
Module ProxySamples.
Export Samples.

(** The first exchange fails, the others succeed. *)
#[export] Instance sample_network : Network := {|
  client_Do n _ _ := mkAnswer (mkReply (match n with O => 500 | _ => 200 end) (mkResponse [] (str "{}"))) None 5 5;
  onWebsocket _ _ _ := mkAnswer (mkReply 200 (mkResponse [] [])) None 5 5 |}.

(** The servers a node gets one after another. *)
#[export] Instance sample_selector : Selector (list serverRuntime) := {|
  reselect _ l := Ret (match l with [] => (None, []) | s :: l => (Some s, l) end) |}.

Lemma sample_selector_total : total_selector (W := list serverRuntime).
Proof. intros svr [|s l]; by eexists _, _. Qed.

Definition sample_shared : shared (P := Slab.SyncPool) :=
  mkShared [] 0 Analysis.NewAnalysis [] (Lru.NewLRUCache 1000) ByteBuf.Sample.small_pool [].

Definition sample_context : proxyContext (P := Slab.SyncPool) :=
  init (sample_api None) (sample_server 2 Open) (sample_node (Some (mkRetryStrategy 1 3 []))) sample_request (str "1.2.3.4")
    sample_request sample_shared.

Lemma exchanges_bounded_witness : ∃ a log c' w', sendLoop sample_context [sample_server 3 Open] = Ret (a, log, c', w') /\
  (1 <= length log <= 3)%nat /\ repeated_until (pc_node sample_context) log (length log - 1) /\
  last_exchange (pc_node sample_context) a log.
Proof. exact (exchanges_bounded sample_context [sample_server 3 Open] sample_selector_total). Defined.

Example sample_exchanges : ∃ r, sendLoop sample_context [sample_server 3 Open] = Ret r /\ length r.1.1.2 = 2%nat.
Proof. eexists. split; [vm_compute; reflexivity|]. reflexivity. Qed.

End ProxySamples.
