(* ===== verification/Gateway.v ===== *)
(** Model of what is around the requests of the gateway: the configuration of filters ([cfg.go],
    [factory.go], [proxy.go]), the script engines that are replaced ([proxy_gc.go]), the workers and
    the choice among them, the figures of requests ([metric.go]), the entry for web sockets
    ([proxy_websocket.go]) and the stop ([proxy_start.go]). *)
From S2P Require Import Prelude.
From S2P Require Import Task.
From S2P Require Import Meta Matching Expr RateLimit Lbs Counters ByteBuf Caching Runtime Dispatcher Filters Jwt Render Proxy.

(** ** The configuration *)

Record FilterSpec := mkSpec { SpecName : bytes; External : bool; ExternalPluginFile : bytes; ExternalCfg : bytes }.

(** [ParseFilter]: a name, or a name, a file and a configuration, between colons. *)
Definition ParseFilter (filter : bytes) : option FilterSpec :=
  match Split filter (ch ":") with
  | [n] => Some (mkSpec n false [] [])
  | [n; file] => Some (mkSpec n true file [])
  | [n; file; cfg] => Some (mkSpec n true file cfg)
  | _ => None
  end.
Definition AddFilter (f : FilterSpec) (filers : list FilterSpec) : list FilterSpec := filers ++ [f].

Definition FilterPrepare := str "PREPARE".
Definition FilterHTTPAccess := str "HTTP-ACCESS".
Definition FilterHeader := str "HEADER".
Definition FilterXForward := str "XFORWARD".
Definition FilterBlackList := str "BLACKLIST".
Definition FilterWhiteList := str "WHITELIST".
Definition FilterAnalysis := str "ANALYSIS".
Definition FilterRateLimiting := str "RATE-LIMITING".
Definition FilterCircuitBreake := str "CIRCUIT-BREAKER".
Definition FilterValidation := str "VALIDATION".
Definition FilterCaching := str "CACHING".
Definition FilterJWT := str "JWT".
Definition FilterCross := str "CROSS".
Definition FilterJSPlugin := str "JS-ENGINE".

(** A filter is one of the constructed ones, by its name, a script engine, or an external one.  Engines are numbered in the order
    they are made. *)
Inductive gfilter := Builtin (name : bytes) | JSEngine (engine : nat) | ExternalFilter (name : bytes).
Definition Name (f : gfilter) : bytes := match f with Builtin n => n | JSEngine _ => FilterJSPlugin | ExternalFilter n => n end.

(** What lies outside: what the file of the JWT filter holds, whether that of the cross-domain filter can be read, what an external
    plugin makes (its name, an error, or the panic of a function of another type), and whether it takes its configuration. *)
Class Files := {
  jwt_cfg : ferror + JWTCfg;
  cross_file : bool;
  open_plugin : bytes -> outcome (option bytes);
  init_external : bytes -> bytes -> bool
}.

Definition without_file : list bytes :=
  [FilterPrepare; FilterHTTPAccess; FilterHeader; FilterXForward; FilterAnalysis; FilterBlackList; FilterWhiteList;
   FilterRateLimiting; FilterCircuitBreake; FilterValidation; FilterCaching].

Section Filters.
Context {files : Files}.

(** [None] is an error.  Names are read as ASCII. *)
Definition newExternalFilter (spec : FilterSpec) : outcome (option gfilter) :=
  o ← open_plugin (ExternalPluginFile spec); Ret (option_map ExternalFilter o).

Definition newFilter (jsEngine : nat) (spec : FilterSpec) : outcome (option gfilter) :=
  if External spec then newExternalFilter spec
  else
    let input := ToUpper (SpecName spec) in
    if bool_decide (input ∈ without_file) then Ret (Some (Builtin input))
    else if bytes_eqb input FilterJWT then
      f ← newJWTFilter jwt_cfg; Ret (match f with inr _ => Some (Builtin FilterJWT) | inl _ => None end)
    else if bytes_eqb input FilterCross then Ret (if cross_file then Some (Builtin FilterCross) else None)
    else if bytes_eqb input FilterJSPlugin then Ret (Some (JSEngine jsEngine))
    else Ret None.

(** [Init] of the filters of the gateway does nothing. *)
Definition Init (f : gfilter) (cfg : bytes) : bool := match f with ExternalFilter n => init_external n cfg | _ => true end.

(** [initFilters]: in the order of the configuration; any error ends the process. *)
Fixpoint initFilters (jsEngine : nat) (specs : list FilterSpec) (filters : list gfilter) (filtersMap : gmap bytes gfilter)
    : outcome (list gfilter * gmap bytes gfilter) :=
  match specs with
  | [] => Ret (filters, filtersMap)
  | spec :: specs =>
      o ← newFilter jsEngine spec;
      match o with
      | None => Panic
      | Some f =>
          if Init f (ExternalCfg spec) then initFilters jsEngine specs (filters ++ [f]) (<[Name f := f]> filtersMap) else Panic
      end
  end.
End Filters.

(** ** Script engines *)

(** [addGCJSEngine]; an engine with the last time it was used. *)
Definition addGCJSEngine (value : nat) (gc : list nat) : list nat := gc ++ [value].

(** [updateJSEngine]: a filter that has the name of the engine must be one. *)
Fixpoint updateJSEngine (jsEngine : nat) (filters newValues : list gfilter) (gc : list nat) : outcome (list gfilter * list nat) :=
  match filters with
  | [] => Ret (newValues, gc)
  | f :: filters =>
      if negb (bytes_eqb (Name f) FilterJSPlugin) then updateJSEngine jsEngine filters (newValues ++ [f]) gc
      else match f with
           | JSEngine old => updateJSEngine jsEngine filters (newValues ++ [JSEngine jsEngine]) (addGCJSEngine old gc)
           | _ => Panic
           end
  end.

Definition Hour : Z := 3600 * 10^9.

(** A tick of [readyToGCJSEngine]: the engines that are destroyed, and those kept. *)
Definition gcJSEngines (now : Z) (lastActive : nat -> Z) (gc : list nat) : list nat * list nat :=
  (filter (λ e, Hour < now - lastActive e) gc, filter (λ e, ~ Hour < now - lastActive e) gc).

(** ** Workers *)

(** [readyToDispatch] and [readyToCopy] start as many tasks as there are workers. *)
Fixpoint startWorkers (n : nat) (r : Runner) : outcome Runner :=
  match n with
  | O => Ret r
  | S n => match RunCancelableTask r with (inr _, r) => startWorkers n r | (inl _, _) => Panic end
  end.

(** The worker of the next node: a counter modulo their number. *)
Definition getIndex (opt size : Z) : outcome (Z * Z) :=
  let opt := u64 (opt + 1) in
  if size =? 0 then Panic else Ret (i64 (opt mod size), opt).
Fixpoint getIndexes (n : nat) (opt size : Z) : outcome (list Z) :=
  match n with
  | O => Ret []
  | S n => '(i, opt) ← getIndex opt size; l ← getIndexes n opt size; Ret (i :: l)
  end.

(** ** The figures of requests *)

Inductive kind := All | Fail_ | Succeed_ | Limit | Reject.
#[export] Instance kind_eq_dec : EqDecision kind.
Proof. solve_decision. Defined.

(** [api_request_total] by name and type, and how many durations were observed by name. *)
Record metrics := mkMetrics { counters : bytes -> kind -> Z; observed : bytes -> Z }.
Definition incr (name : bytes) (k : kind) (m : metrics) : metrics :=
  mkMetrics (λ n k', if bool_decide (n = name /\ k' = k) then counters m n k' + 1 else counters m n k') (observed m).
Definition incrRequest name : metrics -> metrics := incr name All.
Definition incrRequestFailed name : metrics -> metrics := incr name Fail_.
Definition incrRequestSucceed name : metrics -> metrics := incr name Succeed_.
Definition incrRequestLimit name : metrics -> metrics := incr name Limit.
Definition incrRequestReject name : metrics -> metrics := incr name Reject.
Definition observeAPIResponse (name : bytes) (m : metrics) : metrics :=
  mkMetrics (counters m) (λ n, if bytes_eqb n name then observed m n + 1 else observed m n).

(** The figure a node counts for, if it failed. *)
Definition blame (dn : dispatched) : option kind :=
  match d_err dn with
  | Some (ErrCircuitClose | ErrBlacklist | ErrWhitelist) => Some Reject
  | Some ErrCircuitHalfLimited => Some Limit
  | Some _ => Some Fail_
  | None => if StatusBadRequest <=? d_code dn then Some Fail_ else None
  end.
(** The turn of [postRequest] for a node: [doMetrics] after it. *)
Definition postNode (name : bytes) (dn : dispatched) (s : bool * metrics) : bool * metrics :=
  let '(doMetrics, m) := s in
  if doMetrics
  then match blame dn with
       | Some Reject => (false, incrRequestReject name m)
       | Some Limit => (false, incrRequestLimit name m)
       | Some _ => (false, incrRequestFailed name m)
       | None => (doMetrics, m)
       end
  else (doMetrics, m).
Definition postRequest (name : bytes) (dispatches : list dispatched) (m : metrics) : metrics :=
  let '(doMetrics, m) := fold_left (λ s dn, postNode name dn s) dispatches (true, m) in
  if doMetrics then observeAPIResponse name (incrRequestSucceed name m) else m.

(** What [ServeFastHTTP] does for a request that was treated. *)
Definition counted (name : bytes) (dispatches : list dispatched) (m : metrics) : metrics :=
  postRequest name dispatches (incrRequest name m).

(** ** Web sockets *)

Inductive wsresult := WsStatus (code : Z) | WsProxied.

(** [ServeHTTP], given what the request was dispatched to. *)
Definition ServeHTTP (stopped : bool) (method : bytes) (target : option apiRuntime) (dispatches : nat) : outcome wsresult :=
  if stopped then Ret (WsStatus 503)
  else if negb (bytes_eqb method (str "GET")) then Ret (WsStatus 405)
  else if (dispatches <=? 0)%nat &&
          match target with None => true | Some a => bool_decide (API_DefaultValue (a_meta a) = None) end
  then Ret (WsStatus 404)
  else if negb (dispatches =? 1)%nat then Panic
  else match target with
       | None => Panic
       | Some a => if isWebSocket a then Ret WsProxied else Panic
       end.

(** ** Stop

    [Stop] adds to a wait group, hands a signal to [listenToStop] over a channel without a buffer, and waits; the listener stops
    the runner once, and is gone.  A caller that sleeps while the group is at zero and is added to again before it wakes panics in Go;
    here it waits on: it returns in neither. *)
Inductive caller := CAdd | CSend | CWait | CDone.
Inductive listener := LWait | LStop | LRunner | LDone | LGone.
Record gate := mkGate { lpc : listener; wg : Z; gstopped : bool; runner_stopped : bool; callers : list caller }.
Definition gstart : gate := mkGate LWait 0 false false [].

Inductive gstep (g : gate) : gate -> Prop :=
| g_call : gstep g (mkGate (lpc g) (wg g) (gstopped g) (runner_stopped g) (callers g ++ [CAdd]))
| g_add i : callers g !! i = Some CAdd ->
    gstep g (mkGate (lpc g) (wg g + 1) (gstopped g) (runner_stopped g) (<[i := CSend]> (callers g)))
| g_send i : callers g !! i = Some CSend -> lpc g = LWait ->
    gstep g (mkGate LStop (wg g) (gstopped g) (runner_stopped g) (<[i := CWait]> (callers g)))
| g_set : lpc g = LStop -> gstep g (mkGate LRunner (wg g) true (runner_stopped g) (callers g))
| g_runner : lpc g = LRunner -> gstep g (mkGate LDone (wg g) (gstopped g) true (callers g))
| g_done : lpc g = LDone -> gstep g (mkGate LGone (wg g - 1) (gstopped g) (runner_stopped g) (callers g))
| g_wait i : callers g !! i = Some CWait -> wg g = 0 ->
    gstep g (mkGate (lpc g) (wg g) (gstopped g) (runner_stopped g) (<[i := CDone]> (callers g))).
Definition greached (g : gate) : Prop := rtc gstep gstart g.

(** ** What holds *)

(** *** Configuration *)

Lemma Split_word w sep : sep ∉ w -> Split w sep = [w].
Proof.
  induction w as [|c w IH]; [done|]. intros [Hc Hw]%not_elem_of_cons. cbn [Split].
  destruct (Z.eqb_spec c sep); [congruence|]. by rewrite IH.
Qed.

Lemma Split_sep w s sep : sep ∉ w -> Split (w ++ sep :: s) sep = w :: Split s sep.
Proof.
  induction w as [|c w IH]; cbn [app Split]; [by rewrite Z.eqb_refl|].
  intros [Hc Hw]%not_elem_of_cons. destruct (Z.eqb_spec c sep); [congruence|]. by rewrite IH.
Qed.

(** What is split comes from words between separators. *)
Fixpoint joined (sep : Z) (w : bytes) (ws : list bytes) : bytes :=
  match ws with [] => w | w' :: ws => w ++ sep :: joined sep w' ws end.

Lemma Split_joined s sep w ws : Split s sep = w :: ws <-> s = joined sep w ws /\ Forall (λ x, sep ∉ x) (w :: ws).
Proof.
  split.
  - revert w ws. induction s as [|c s IH]; intros w ws; cbn [Split].
    + intros [= <- <-]. split; [done|]. repeat constructor. apply not_elem_of_nil.
    + destruct (Z.eqb_spec c sep) as [->|Hc].
      * intros [= <- E]. destruct ws as [|w ws]; [by destruct s as [|? s]; cbn in E; repeat case_match|].
        destruct (IH _ _ E) as [-> F]. split; [done|]. constructor; [apply not_elem_of_nil|done].
      * destruct (Split s sep) as [|v vs] eqn:E; [by destruct s; cbn in E; repeat case_match|].
        intros [= <- <-]. destruct (IH _ _ eq_refl) as [-> F]. apply Forall_cons in F as [Fv F].
        split; [by destruct vs|]. constructor; [|done]. by apply not_elem_of_cons.
  - intros [-> F]. revert w F. induction ws as [|w' ws IH]; intros w [Fw F]%Forall_cons; cbn [joined].
    + by apply Split_word.
    + rewrite Split_sep by done. f_equal. by apply IH.
Qed.

(** A text is the configuration of a filter when it is one to three words between colons. *)
Definition spec_text (f : FilterSpec) (s : bytes) : Prop :=
  (External f = false /\ ExternalPluginFile f = [] /\ ExternalCfg f = [] /\ s = SpecName f) \/
  (External f = true /\ ExternalCfg f = [] /\ s = SpecName f ++ ch ":" :: ExternalPluginFile f) \/
  (External f = true /\ s = SpecName f ++ ch ":" :: ExternalPluginFile f ++ ch ":" :: ExternalCfg f).

Theorem ParseFilter_text s f : ParseFilter s = Some f <->
  spec_text f s /\ ch ":" ∉ SpecName f /\ ch ":" ∉ ExternalPluginFile f /\ ch ":" ∉ ExternalCfg f.
Proof.
  pose proof (@not_elem_of_nil Z (ch ":")). unfold ParseFilter, spec_text. split.
  - destruct (Split s (ch ":")) as [|a [|b [|c [|? ?]]]] eqn:E; try done; intros [= <-]; cbn;
      apply Split_joined in E as [-> F]; repeat apply Forall_cons in F as [? F]; cbn [joined]; naive_solver.
  - destruct f as [n e p c]; cbn. intros [[(-> & -> & -> & ->)|[(-> & -> & ->)|(-> & ->)]] (Hn & Hp & Hc)].
    + by rewrite Split_word.
    + by rewrite Split_sep, Split_word by done.
    + by rewrite !Split_sep, Split_word by done.
Qed.

Section FilterProofs.
Context {files : Files}.

Definition made (jsEngine : nat) (spec : FilterSpec) (f : gfilter) : Prop :=
  newFilter jsEngine spec = Ret (Some f) /\ Init f (ExternalCfg spec) = true.

Lemma initFilters_made e specs fs m fs' m' : initFilters e specs fs m = Ret (fs', m') ->
  ∃ new, Forall2 (made e) specs new /\ fs' = fs ++ new /\ m' = foldl (λ m f, <[Name f := f]> m) m new.
Proof.
  revert fs m. induction specs as [|s specs IH]; intros fs m.
  - intros [= <- <-]. exists []. by rewrite app_nil_r.
  - cbn [initFilters]. intros H. bind_inv H. destruct a as [f|]; [|done]. destruct (Init f _) eqn:Ei; [|done].
    destruct (IH _ _ H) as (new & F & -> & ->). exists (f :: new). split; [by constructor|]. by rewrite <- app_assoc.
Qed.

Lemma made_initFilters e specs new fs m : Forall2 (made e) specs new ->
  initFilters e specs fs m = Ret (fs ++ new, foldl (λ m f, <[Name f := f]> m) m new).
Proof.
  intros F. revert fs m. induction F as [|s f specs new [Hf Hi] F IH]; intros fs m; [by cbn; rewrite app_nil_r|].
  cbn [initFilters]. rewrite Hf. cbn. by rewrite Hi, IH, <- app_assoc.
Qed.

Lemma newFilter_name e s f : External s = false -> newFilter e s = Ret (Some f) -> Name f = ToUpper (SpecName s).
Proof.
  unfold newFilter. intros ->. repeat case_match; try done; intros Hf; try bind_inv Hf; repeat case_match; simplify_eq; cbn; try done.
  all: by symmetry; apply bytes_eqb_eq.
Qed.

(** The filters of the gateway are those of the configuration in its order, with its names in upper case unless they are external,
    and the map has of every name the last one. *)
Theorem initFilters_order e specs fs m : initFilters e specs [] ∅ = Ret (fs, m) <->
  Forall2 (λ s f, made e s f /\ (External s = false -> Name f = ToUpper (SpecName s))) specs fs /\
  ∀ n, m !! n = last (filter (λ f, Name f = n) fs).
Proof.
  assert (Hlast : ∀ (l : list gfilter) n,
    foldl (λ m f, <[Name f := f]> m) (∅ : gmap bytes gfilter) l !! n = last (filter (λ f, Name f = n) l)).
  { intros l n. induction l as [|f l IH] using rev_ind; [apply lookup_empty|].
    rewrite foldl_snoc, lookup_insert, filter_app, IH. rewrite filter_cons, filter_nil.
    case_decide; [by rewrite last_snoc|by rewrite app_nil_r]. }
  split.
  - intros (new & F & -> & ->)%initFilters_made. split; [|apply Hlast]. eapply Forall2_impl; [exact F|].
    intros s f [Hf Hi]. split; [done|]. intros He. by eapply newFilter_name.
  - intros [F Hm]. rewrite (made_initFilters e specs fs); [|eapply Forall2_impl; [exact F|by intros ? ? []]].
    do 2 f_equal. apply map_eq. intros n. by rewrite Hlast, Hm.
Qed.
End FilterProofs.

(** *** Script engines *)

Definition engines (fs : list gfilter) : list nat := omap (λ f, match f with JSEngine e => Some e | _ => None end) fs.
Definition renewed (e : nat) (f : gfilter) : gfilter := match f with JSEngine _ => JSEngine e | _ => f end.

Lemma updateJSEngine_eq e fs new gc :
  updateJSEngine e fs new gc =
  if existsb (λ f, bytes_eqb (Name f) FilterJSPlugin && match f with JSEngine _ => false | _ => true end) fs then Panic
  else Ret (new ++ map (renewed e) fs, gc ++ engines fs).
Proof.
  revert new gc. induction fs as [|f fs IH]; intros new gc; [by cbn; rewrite !app_nil_r|].
  cbn [updateJSEngine existsb]. destruct (bytes_eqb (Name f) FilterJSPlugin) eqn:E; cbn [negb andb].
  - destruct f; cbn [orb]; try done. rewrite IH. unfold addGCJSEngine. case_match; [done|]. cbn. by rewrite <- !app_assoc.
  - cbn [orb]. rewrite IH. case_match; [done|]. destruct f; try done; cbn; by rewrite <- app_assoc.
Qed.

(** An update replaces the engines where they stand, every replaced one waits to be destroyed, and a tick destroys of them those that
    were not used for an hour. *)
Theorem engines_collected e fs fs' gc gc' now active : updateJSEngine e fs [] gc = Ret (fs', gc') ->
  map Name fs' = map Name fs /\ Forall (λ x, x = e) (engines fs') /\ gc' = gc ++ engines fs /\
  let '(destroyed, kept) := gcJSEngines now active gc' in
  Permutation gc' (destroyed ++ kept) /\ ∀ x, x ∈ gc' -> (x ∈ destroyed <-> Hour < now - active x).
Proof.
  rewrite updateJSEngine_eq. case_match; [done|]. intros [= <- <-]. cbn [app]. split; [|split; [|split; [done|]]].
  - rewrite map_map. apply map_ext. by intros [].
  - clear H. induction fs as [|[] fs IH]; cbn; by repeat constructor.
  - unfold gcJSEngines. split; [by rewrite filter_app_complement|].
    intros x Hx. rewrite list_elem_of_filter. naive_solver.
Qed.

(** *** Workers *)

Lemma startWorkers_ok n r : rstate r = running -> ∃ r', startWorkers n r = Ret r' /\ rstate r' = running /\ stop r' = stop r + Z.of_nat n.
Proof.
  revert r. induction n as [|n IH]; intros r Hr; [exists r; repeat split; [done|lia]|].
  cbn [startWorkers]. unfold RunCancelableTask. rewrite bool_decide_true by done.
  destruct (IH (mkRunner (rstate r) (u64 (lastID r + 1)) ({[u64 (lastID r + 1)]} ∪ cancels r) (namedQueue r) (stop r + 1)) Hr)
    as (r' & -> & H & Hs).
  exists r'. cbn in Hs. repeat split; [done|lia].
Qed.

Lemma getIndexes_eq n opt size : is_u64 opt -> 0 < size < 2^63 ->
  getIndexes n opt size = Ret (map (λ i, u64 (opt + 1 + Z.of_nat i) mod size) (seq 0 n)).
Proof.
  revert opt. induction n as [|n IH]; intros opt Ho Hs; [done|]. cbn [getIndexes seq map]. unfold getIndex.
  destruct (Z.eqb_spec size 0); [lia|]. cbn [mbind outcome_mbind]. pose proof (u64_range (opt + 1)). rewrite IH by done. cbn.
  pose proof (Z.mod_pos_bound (u64 (opt + 1)) size). rewrite i64_small by (unfold is_i64; lia).
  rewrite Z.add_0_r. do 2 f_equal. rewrite <- seq_shift, map_map. apply map_ext. intros i. f_equal.
  unfold u64. rewrite <- Z.add_assoc, Zplus_mod_idemp_l. f_equal. lia.
Qed.

(** The choice of a worker is always one that exists, and any as many nodes in a row as there are workers go to different ones, until
    the counter wraps. *)
Theorem workers_turn n opt size : is_u64 opt -> 0 < size < 2^63 -> opt + Z.of_nat n < 2^64 ->
  ∃ l, getIndexes n opt size = Ret l /\ length l = n /\ Forall (λ i, 0 <= i < size) l /\
    ∀ i j x, l !! i = Some x -> l !! j = Some x -> i <> j -> size <= Z.abs (Z.of_nat i - Z.of_nat j).
Proof.
  intros Ho Hs Hb. eexists. split; [by apply getIndexes_eq|]. split; [by rewrite length_map, length_seq|]. split.
  - apply Forall_forall. intros x [i [-> _]]%list_elem_of_fmap. apply Z.mod_pos_bound. lia.
  - intros i j x Hi Hj Hij.
    assert (Ha : ∀ k, map (λ i, u64 (opt + 1 + Z.of_nat i) mod size) (seq 0 n) !! k = Some x ->
      x = (opt + 1 + Z.of_nat k) mod size).
    { intros k Hk. apply list_lookup_fmap_Some in Hk as (k' & -> & Hk). apply lookup_seq in Hk as [-> ?].
      rewrite u64_small by (unfold is_u64 in *; lia). done. }
    apply Ha in Hi. apply Ha in Hj. rewrite Hi in Hj.
    destruct (Z.lt_ge_cases (Z.abs (Z.of_nat i - Z.of_nat j)) size) as [Hlt|]; [exfalso|done].
    pose proof (Z.div_mod (opt + 1 + Z.of_nat i) size ltac:(lia)). pose proof (Z.div_mod (opt + 1 + Z.of_nat j) size ltac:(lia)).
    rewrite <- Hj in *.
    set (a := (opt + 1 + Z.of_nat i) / size) in *. set (b := (opt + 1 + Z.of_nat j) / size) in *.
    assert (Z.of_nat i - Z.of_nat j = size * (a - b)) by lia. assert (a <> b) by nia. nia.
Qed.

(** *** Figures *)

(** What a request counts for: the first node that failed, or the success. *)
Definition figure (dispatches : list dispatched) : kind := from_option id Succeed_ (head (omap blame dispatches)).

Lemma blame_kinds d k : blame d = Some k -> k = Reject \/ k = Limit \/ k = Fail_.
Proof. unfold blame. repeat case_match; naive_solver. Qed.

Lemma blamed_kinds ds k : head (omap blame ds) = Some k -> k = Reject \/ k = Limit \/ k = Fail_.
Proof.
  induction ds as [|d ds IH]; [done|]. cbn. destruct (blame d) as [k'|] eqn:E; [|exact IH].
  intros [= ->]. by eapply blame_kinds.
Qed.

Lemma postNodes_eq name ds doMetrics m : fold_left (λ s dn, postNode name dn s) ds (doMetrics, m) =
  if doMetrics
  then match head (omap blame ds) with
       | Some k => (false, incr name k m)
       | None => (true, m)
       end
  else (false, m).
Proof.
  revert doMetrics m. induction ds as [|d ds IH]; intros doMetrics m; [by destruct doMetrics|].
  cbn [fold_left]. destruct doMetrics; [|apply IH]. unfold postNode at 2. cbn [omap list_omap].
  destruct (blame d) as [k|] eqn:E; [|by rewrite IH].
  by destruct (blame_kinds _ _ E) as [->|[->| ->]]; rewrite IH.
Qed.

Lemma counted_eq name ds m :
  counted name ds m =
  let m := incr name (figure ds) (incr name All m) in
  if bool_decide (figure ds = Succeed_) then observeAPIResponse name m else m.
Proof.
  unfold counted, postRequest. rewrite postNodes_eq. unfold figure, incrRequest.
  destruct (head (omap blame ds)) as [k|] eqn:E; cbn; [|by rewrite bool_decide_true].
  apply blamed_kinds in E. rewrite bool_decide_false; [done|]. intros ->. naive_solver.
Qed.

(** Every request that was treated counts once, and the durations observed are those of the successes. *)
Definition served (rs : list (bytes * list dispatched)) (m : metrics) : metrics :=
  fold_left (λ m r, counted (fst r) (snd r) m) rs m.
Definition no_figures : metrics := mkMetrics (λ _ _, 0) (λ _, 0).

Lemma figure_kind ds : figure ds <> All.
Proof.
  unfold figure. destruct (head (omap blame ds)) eqn:E; [|done]. apply blamed_kinds in E. cbn. naive_solver.
Qed.

Definition one (P : Prop) `{Decision P} : Z := if decide P then 1 else 0.

Lemma one_true (P : Prop) `{Decision P} : P -> one P = 1.
Proof. intros. unfold one. by rewrite decide_True. Qed.
Lemma one_false (P : Prop) `{Decision P} : ~ P -> one P = 0.
Proof. intros. unfold one. by rewrite decide_False. Qed.
Ltac ones :=
  repeat match goal with
  | |- context [one ?P] => first [ rewrite (one_true P) by intuition congruence | rewrite (one_false P) by intuition congruence ]
  end.

Lemma incr_counters name k m n k' : counters (incr name k m) n k' = counters m n k' + one (n = name /\ k' = k).
Proof. unfold one. cbn. case_bool_decide; case_decide; tauto || lia. Qed.

Lemma counted_counters name ds m n k :
  counters (counted name ds m) n k = counters m n k + one (n = name /\ k = All) + one (n = name /\ k = figure ds).
Proof. rewrite counted_eq. cbn zeta. case_bool_decide; cbn [observeAPIResponse counters]; by rewrite !incr_counters. Qed.

Lemma counted_observed name ds m n :
  observed (counted name ds m) n = observed m n + one (n = name /\ Succeed_ = figure ds).
Proof.
  rewrite counted_eq. cbn zeta. unfold one. destruct (bytes_eqb n name) eqn:Hn; [apply bytes_eqb_eq in Hn|apply bytes_eqb_neq in Hn as Hd];
    case_bool_decide; case_decide; cbn; rewrite ?Hn, ?(bytes_eqb_refl name); intuition (congruence || lia).
Qed.

Lemma len_filter_snoc {A} (P : A -> Prop) `{∀ x, Decision (P x)} l x : len (filter P (l ++ [x])) = len (filter P l) + one (P x).
Proof. rewrite filter_app, len_app, filter_cons, filter_nil. unfold one. by case_decide. Qed.

Theorem figures_counted rs n :
  let m := served rs no_figures in
  (∀ k, k <> All -> counters m n k = len (filter (λ r, fst r = n /\ figure (snd r) = k) rs)) /\
  counters m n All = len (filter (λ r, fst r = n) rs) /\
  counters m n All = counters m n Fail_ + counters m n Succeed_ + counters m n Limit + counters m n Reject /\
  observed m n = counters m n Succeed_.
Proof.
  unfold served. cbn zeta. induction rs as [|[name ds] rs IH] using rev_ind; [done|].
  rewrite fold_left_app. cbn [fold_left fst snd]. set (m := fold_left _ _ _) in *. destruct IH as (Hk & Ha & Hb & Ho).
  setoid_rewrite len_filter_snoc. rewrite counted_observed. setoid_rewrite counted_counters.
  pose proof (figure_kind ds) as Hf. cbn [fst snd]. destruct (decide (n = name)) as [->|Hn].
  - split; [intros k K; rewrite <- (Hk k K)|rewrite <- Ha, Hb, Ho; destruct (figure ds); try done; ones; lia].
    destruct (decide (k = figure ds)); ones; lia.
  - split; [intros k K; rewrite <- (Hk k K)|rewrite <- Ha, Hb, Ho]; ones; lia.
Qed.

(** *** Web sockets *)

(** Only a [GET] of an API for web sockets, dispatched to one node, is proxied; the process dies for any other [GET] that has a node,
    or that an API with a default value takes. *)
Lemma ServeHTTP_proxied stopped method target n : ServeHTTP stopped method target n = Ret WsProxied <->
  stopped = false /\ method = str "GET" /\ n = 1%nat /\ ∃ a, target = Some a /\ isWebSocket a = true.
Proof.
  unfold ServeHTTP. destruct stopped; [naive_solver|]. destruct (bytes_eqb method (str "GET")) eqn:Em; cbn [negb];
    [apply bytes_eqb_eq in Em|apply bytes_eqb_neq in Em; naive_solver].
  destruct n as [|[|n]]; cbn; destruct target as [a|]; try case_bool_decide; try destruct (isWebSocket a) eqn:Ew; try naive_solver.
  split; [done|]. intros (_ & _ & _ & ? & [= <-] & ?). congruence.
Qed.

Lemma ServeHTTP_dies stopped method target n : ServeHTTP stopped method target n = Panic <->
  stopped = false /\ method = str "GET" /\
  match n with
  | O => ∃ a, target = Some a /\ API_DefaultValue (a_meta a) <> None
  | S O => ∀ a, target = Some a -> isWebSocket a = false
  | _ => True
  end.
Proof.
  unfold ServeHTTP. destruct stopped; [naive_solver|]. destruct (bytes_eqb method (str "GET")) eqn:Em; cbn [negb];
    [apply bytes_eqb_eq in Em|apply bytes_eqb_neq in Em; naive_solver].
  destruct n as [|[|n]]; cbn; destruct target as [a|]; try case_bool_decide; try destruct (isWebSocket a) eqn:Ew; try naive_solver.
  split; [done|]. intros (_ & _ & Ha). specialize (Ha a eq_refl). congruence.
Qed.

(** *** Stop *)

Definition is_added (c : caller) : Z := match c with CAdd => 0 | _ => 1 end.
Definition is_sent (c : caller) : Z := match c with CWait | CDone => 1 | _ => 0 end.
Fixpoint total (f : caller -> Z) (l : list caller) : Z := match l with [] => 0 | c :: l => f c + total f l end.

Lemma total_app f l l' : total f (l ++ l') = total f l + total f l'.
Proof. induction l as [|c l IH]; cbn; lia. Qed.

Lemma total_insert f l i c c' : l !! i = Some c -> total f (<[i := c']> l) = total f l - f c + f c'.
Proof. revert i. induction l as [|x l IH]; intros [|i] Hi; cbn in *; simplify_eq; [lia|]. specialize (IH i Hi). unfold insert in *. lia. Qed.

Lemma total_nonneg f l : (∀ c, 0 <= f c) -> 0 <= total f l.
Proof. intros Hf. induction l as [|c l IH]; cbn; [lia|]. specialize (Hf c). lia. Qed.

Lemma total_one f l i c : (∀ c, 0 <= f c) -> l !! i = Some c -> f c <= total f l.
Proof.
  intros Hf. revert i. induction l as [|x l IH]; intros [|i] Hi; cbn in *; simplify_eq.
  - pose proof (total_nonneg f l Hf). lia.
  - specialize (IH i Hi). specialize (Hf x). lia.
Qed.

Lemma total_two f l i j c c' : (∀ c, 0 <= f c) -> i <> j -> l !! i = Some c -> l !! j = Some c' -> f c + f c' <= total f l.
Proof.
  intros Hf. revert i j. induction l as [|x l IH]; intros [|i] [|j] Hij Hi Hj; cbn in *; simplify_eq.
  - pose proof (total_one f l _ _ Hf Hj). lia.
  - pose proof (total_one f l _ _ Hf Hi). lia.
  - assert (i <> j) as Hn by congruence. pose proof (IH _ _ Hn Hi Hj). specialize (Hf x). lia.
Qed.

Record gate_inv (g : gate) : Prop := {
  i_wg : wg g = total is_added (callers g) - (if lpc g is LGone then 1 else 0);
  i_sent : total is_sent (callers g) = if lpc g is LWait then 0 else 1;
  i_stopped : gstopped g = match lpc g with LWait | LStop => false | _ => true end;
  i_runner : runner_stopped g = match lpc g with LDone | LGone => true | _ => false end;
  i_done : ∀ i, callers g !! i = Some CDone -> lpc g = LGone
}.

Lemma gate_step g g' : gate_inv g -> gstep g g' -> gate_inv g'.
Proof.
  intros [W S T R D] Hs. assert (∀ i c, callers g !! i = Some c -> c <> CAdd -> 1 <= total is_added (callers g)) as Hone.
  { intros i c Hi Hc. pose proof (total_one is_added _ _ _ ltac:(by intros []) Hi). by destruct c. }
  destruct Hs as [| i Hi | i Hi Hl | Hl | Hl | Hl | i Hi Hw]; split; cbn -[total];
    rewrite ?total_app, ?(total_insert _ _ _ _ _ Hi); rewrite ?Hl in *; cbn; try lia; try done.
  all: try (intros j Hj; first
    [ apply lookup_app_Some in Hj as [?|[_ Hj]]; [by eauto|by apply list_elem_of_lookup_2, list_elem_of_singleton in Hj]
    | apply list_lookup_insert_Some in Hj as [(_ & [= ] & _)|[_ Hj]]; by eauto
    | apply list_lookup_insert_Some in Hj as [(_ & [= ] & _)|[_ Hj]]; by apply D in Hj
    | by eauto
    | exfalso; by apply D in Hj ]).
  intros _ _. specialize (Hone i _ Hi ltac:(done)). destruct (lpc g); lia || done.
Qed.

Lemma gate_reached g : greached g -> gate_inv g.
Proof.
  assert (gate_inv gstart) as H0 by by split; try done; intros [|].
  unfold greached. revert H0. generalize gstart. intros g0 H0 H. induction H; [done|]. eauto using gate_step.
Qed.

(** Two callers that have added before one returned keep the group above zero for ever. *)
Definition is_done (c : caller) : Z := match c with CDone => 1 | _ => 0 end.
Definition stuck (g : gate) : Prop := 2 <= total is_added (callers g) /\ total is_done (callers g) = 0.

Lemma stuck_step g g' : gate_inv g -> stuck g -> gstep g g' -> stuck g'.
Proof.
  intros [W _ _ _ _] [A D] Hs. destruct Hs as [| i Hi | i Hi _ | _ | _ | _ | i Hi Hw]; split; cbn -[total];
    rewrite ?total_app, ?(total_insert _ _ _ _ _ Hi); cbn; try lia; destruct (lpc g); lia.
Qed.

Lemma stuck_for_ever g g' : gate_inv g -> stuck g -> rtc gstep g g' -> CDone ∉ callers g'.
Proof.
  intros I S H. induction H as [g|g h g' Hs _ IH]; [|by apply IH; eauto using gate_step, stuck_step].
  intros [i Hi]%list_elem_of_lookup. destruct S as [_ D].
  pose proof (total_one is_done _ _ _ ltac:(by intros []) Hi). cbn in *. lia.
Qed.

(** How far a lone caller and the listener are from the end. *)
Definition left_to_do (l : listener) (c : caller) : nat :=
  match l with LWait => 4 | LStop => 3 | LRunner => 2 | LDone => 1 | LGone => 0 end +
  match c with CAdd => 3 | CSend => 2 | CWait => 1 | CDone => 0 end.

Lemma lone_progress g c : gate_inv g -> callers g = [c] ->
  c = CDone \/ ∃ g' c', gstep g g' /\ callers g' = [c'] /\ (left_to_do (lpc g') c' < left_to_do (lpc g) c)%nat.
Proof.
  intros [W S _ _ D] Hc. rewrite Hc in *. destruct c; [..|by left]; right.
  - eexists _, CSend. split; [by apply (g_add _ 0); rewrite Hc|]. rewrite Hc. unfold left_to_do. cbn. split; [done|destruct (lpc g); lia].
  - destruct (lpc g) eqn:Hl; cbn in S; try lia.
    eexists _, CWait. split; [by apply (g_send _ 0); rewrite ?Hc|]. rewrite Hc. unfold left_to_do. cbn. split; [done|rewrite ?Hl; lia].
  - destruct (lpc g) eqn:Hl; cbn in S; try lia.
    + eexists _, CWait. split; [by apply g_set|]. rewrite Hc. unfold left_to_do. cbn. split; [done|rewrite ?Hl; lia].
    + eexists _, CWait. split; [by apply g_runner|]. rewrite Hc. unfold left_to_do. cbn. split; [done|rewrite ?Hl; lia].
    + eexists _, CWait. split; [by apply g_done|]. rewrite Hc. unfold left_to_do. cbn. split; [done|lia].
    + eexists _, CDone. split; [apply (g_wait _ 0); rewrite ?Hc; [done|cbn in W; lia]|]. rewrite Hc. unfold left_to_do. cbn. rewrite Hl. split; [done|lia].
Qed.

Lemma lone_stop g c : gate_inv g -> callers g = [c] -> ∃ g', rtc gstep g g' /\ callers g' = [CDone].
Proof.
  remember (left_to_do (lpc g) c) as n eqn:E. revert g c E. induction (lt_wf n) as [n _ IH]. intros g c -> I Hc.
  destruct (lone_progress g c I Hc) as [-> | (g' & c' & Hs & Hc' & Hn)]; [by exists g|].
  destruct (IH _ Hn g' c' eq_refl) as (h & Hr & Hh); eauto using gate_step, rtc_l.
Qed.

(** C40: A call of [Stop] returns only when the gateway refuses requests and its runner was stopped; no two calls return; one call alone
    can always go on and return; and when two calls have begun before one returned, none ever returns. *)
Theorem stop_gate g : greached g ->
  (∀ i, callers g !! i = Some CDone -> gstopped g = true /\ runner_stopped g = true /\
     ∀ j, callers g !! j = Some CDone -> j = i) /\
  (∀ c, callers g = [c] -> ∃ g', rtc gstep g g' /\ callers g' = [CDone]) /\
  (∀ i j c d, callers g !! i = Some c -> callers g !! j = Some d -> i <> j -> c <> CAdd -> d <> CAdd -> CDone ∉ callers g ->
     ∀ g', rtc gstep g g' -> CDone ∉ callers g').
Proof.
  intros I%gate_reached. split; [|split].
  - intros i Hi. pose proof (i_done _ I i Hi) as Hl. rewrite (i_stopped _ I), (i_runner _ I), Hl. do 2 (split; [done|]).
    intros j Hj. destruct (decide (j = i)) as [|Hij]; [done|].
    pose proof (total_two is_sent _ _ _ _ _ ltac:(by intros []) Hij Hj Hi). pose proof (i_sent _ I) as Hs.
    rewrite Hl in Hs. cbn in *. lia.
  - intros c. by apply lone_stop.
  - intros i j c d Hi Hj Hij Hc Hd Hno g'. apply stuck_for_ever; [done|]. split.
    + pose proof (total_two is_added _ _ _ _ _ ltac:(by intros []) Hij Hi Hj). destruct c, d; cbn in *; congruence || lia.
    + clear -Hno. induction (callers g) as [|c l IH]; [done|]. apply not_elem_of_cons in Hno as [Hc Hl].
      cbn. rewrite IH by done. by destruct c.
Qed.

Module GatewaySamples.

Definition call g : gate := mkGate (lpc g) (wg g) (gstopped g) (runner_stopped g) (callers g ++ [CAdd]).

(** One call that has returned. *)
Definition returned : gate := mkGate LGone 0 true true [CDone].
Lemma returned_reached : greached returned.
Proof.
  unfold greached, returned. eapply rtc_l; [apply g_call|]. cbn. eapply rtc_l; [by apply (g_add _ 0)|]. cbn.
  eapply rtc_l; [by apply (g_send _ 0)|]. cbn. eapply rtc_l; [by apply g_set|]. cbn. eapply rtc_l; [by apply g_runner|]. cbn.
  eapply rtc_l; [by apply g_done|]. cbn. eapply rtc_l; [by apply (g_wait _ 0)|]. cbn. apply rtc_refl.
Qed.

(** Two calls that have begun. *)
Definition two : gate := mkGate LWait 2 false false [CSend; CSend].
Lemma two_reached : greached two.
Proof.
  unfold greached, two. eapply rtc_l; [apply g_call|]. cbn. eapply rtc_l; [by apply (g_add _ 0)|]. cbn.
  eapply rtc_l; [apply g_call|]. cbn. eapply rtc_l; [by apply (g_add _ 1)|]. cbn. apply rtc_refl.
Qed.

Lemma stop_gate_witness :
  (gstopped returned = true /\ runner_stopped returned = true) /\ ∀ g, rtc gstep two g -> CDone ∉ callers g.
Proof.
  split.
  - destruct (proj1 (stop_gate returned returned_reached) 0%nat eq_refl) as (H & H' & _). by split.
  - apply (proj2 (proj2 (stop_gate two two_reached)) 0%nat 1%nat CSend CSend); try reflexivity; try discriminate.
    intros H. apply elem_of_cons in H as [H|H]; [discriminate|]. apply elem_of_cons in H as [H|H]; [discriminate|]. by apply elem_of_nil in H.
Defined.

Example parse_external : ParseFilter (str "x:y.so:{}") = Some (mkSpec (str "x") true (str "y.so") (str "{}")).
Proof. reflexivity. Qed.
Example parse_four : ParseFilter (str "x:y:z:w") = None.
Proof. reflexivity. Qed.
Example turns : getIndexes 5 0 3 = Ret [1; 2; 0; 1; 2].
Proof. reflexivity. Qed.
(** When the counter wraps a worker can be chosen twice in a row. *)
Example wraps : getIndexes 3 (2^64 - 3) 3 = Ret [2; 0; 0].
Proof. reflexivity. Qed.
(** Without workers the choice among them panics. *)
Example no_workers : getIndex 0 0 = Panic.
Proof. reflexivity. Qed.

Definition dn (e : option ferror) (code : Z) (n : apiNode) : dispatched := mkDispatched n None e code.
Example blamed_first n : figure [dn None 200 n; dn None 500 n; dn (Some ErrBlacklist) 403 n] = Fail_.
Proof. reflexivity. Qed.

#[local] Instance some_files : Files := {|
  jwt_cfg := inl (errOther []); cross_file := true; open_plugin _ := Ret None; init_external _ _ := true |}.
Example built : newFilter 7 (mkSpec (str "js-engine") false [] []) = Ret (Some (JSEngine 7)).
Proof. reflexivity. Qed.
Example unknown : newFilter 7 (mkSpec (str "nothing") false [] []) = Ret None.
Proof. reflexivity. Qed.
Example no_file : initFilters 7 [mkSpec (str "jwt") false [] []] [] ∅ = Panic.
Proof. reflexivity. Qed.
Example order : initFilters 7 [mkSpec (str "cross") false [] []; mkSpec (str "header") false [] []] [] ∅ =
  Ret ([Builtin FilterCross; Builtin FilterHeader], <[FilterHeader := Builtin FilterHeader]> (<[FilterCross := Builtin FilterCross]> ∅)).
Proof. reflexivity. Qed.

End GatewaySamples.
