(* ===== verification/Circuit.v ===== *)
(** The circuits of APIs and servers as the built-in filters, the timers and the dispatcher
    change them: a circuit that is closed is let half open by a pending timer and by nothing
    else, and while it is closed no request reaches a server.

    A request that closes a circuit whose [CloseTimeout] is no tick of the wheel blocks for
    ever, with the lock of the circuit; the states here are those reached by requests that
    did not. *)
From S2P Require Import Prelude Meta Matching Expr RateLimit Lbs Counters ByteBuf Caching Runtime Dispatcher Filters Render Proxy.

Section Circuit.
Context {P : Type} `{!Pool P} {env : Env} {http : Http}.
Implicit Types (c : proxyContext (P := P)) (f : Filter (P := P)).

(** The filters of the gateway but for the two of libraries, JWT and the script engine. *)
Inductive builtin : Filter (P := P) -> Prop :=
| builtin_prepare : builtin PrepareFilter
| builtin_access info : builtin (AccessFilter info)
| builtin_headers : builtin HeadersFilter
| builtin_xforward : builtin XForwardForFilter
| builtin_blacklist : builtin BlackListFilter
| builtin_whitelist : builtin WhiteListFilter
| builtin_analysis : builtin AnalysisFilter
| builtin_rate : builtin RateLimitingFilter
| builtin_circuit : builtin CircuitBreakeFilter
| builtin_validation : builtin ValidationFilter
| builtin_caching : builtin CachingFilter
| builtin_cross cfg : builtin (CrossDomainFilter cfg).

(** ** What the circuits are *)

Definition protected_of (who : resource) c : protected := match who with OfAPI => apiP c | OfServer => destP c end.
Definition circuit_of (who : resource) c : CircuitStatus := p_circuit (protected_of who c).
Definition cb_of (who : resource) c : option CircuitBreaker := p_cb (protected_of who c).

(** The resource of the requests: the API if it has a circuit breaker, or else the server. *)
Definition resource_of c : resource := match p_cb (apiP c) with Some _ => OfAPI | None => OfServer end.

(** [circuitToHalf] of a resource, when the timer at [i] expires. *)
Definition fire (i : nat) (who : resource) c : proxyContext :=
  let hs := delete i (pc_halves c) in
  match who with
  | OfAPI => with_circuits (circuitToHalf (apiP c)) (destP c) hs c
  | OfServer => with_circuits (apiP c) (circuitToHalf (destP c)) hs c
  end.

(** The circuits of both resources and the timers. *)
Definition view c := (circuit_of OfAPI c, cb_of OfAPI c, circuit_of OfServer c, cb_of OfServer c, pc_halves c).

(** What a filter can make of the circuits. *)
Inductive effect c : proxyContext (P := P) -> Prop :=
| effect_none c' : view c' = view c -> effect c c'
| effect_close c1 c' : changeCircuitStatusToClose c = Ret c1 -> view c' = view c1 -> effect c c'
| effect_open c' : view c' = view (changeCircuitStatusToOpen c) -> circuitStatus c = Half -> effect c c'.

#[local] Hint Constructors effect : core.

Lemma effect_refl c : effect c c.
Proof. by constructor. Qed.

Lemma limit_view c ok c' : limit c = Ret (ok, c') -> view c' = view c.
Proof.
  unfold limit. destruct (p_limiter (apiP c)) as [l|].
  - intros H. bind_inv H. destruct a as [[ok1 at1] l1]. by injection H as _ <-.
  - destruct (p_limiter (destP c)) as [l|]; [|done].
    intros H. bind_inv H. destruct a as [[ok1 at1] l1]. by injection H as _ <-.
Qed.

Lemma allow_view c ok c' : allow c = Ret (ok, c') -> view c' = view c.
Proof.
  unfold allow. destruct (circuitBreaker c).2 as [b|]; [|done]. intros H. bind_inv H. destruct a as [ok1 b1].
  destruct (p_cb (apiP c)) as [cb|]; by injection H as _ <-.
Qed.

Lemma circuit_Pre_effect c code err c' : CircuitBreake_Pre c = Ret (code, err, c') ->
  effect c c' /\ (∀ cb, (circuitBreaker c).1 = Some cb -> circuitStatus c = Close -> err = Some ErrCircuitClose).
Proof.
  unfold CircuitBreake_Pre. destruct (circuitBreaker c).1 as [cb|]; [|by intros [= _ _ <-]; split; [auto|]].
  destruct (circuitStatus c) eqn:Es.
  - destruct (_ <=? _); [|by intros [= _ <- <-]; split; [auto|]].
    intros H. bind_inv H. injection H as _ <- <-. split; [|done]. by apply (effect_close c a).
  - intros H. bind_inv H. destruct a as [ok c1]. apply allow_view in E. destruct ok.
    + injection H as _ <- <-. split; [auto|done].
    + injection H as _ <- <-. split; [auto|done].
  - intros [= _ <- <-]. split; auto.
Qed.

Lemma circuit_Post_effect c code err c' : CircuitBreake_Post c = Ret (code, err, c') -> effect c c'.
Proof.
  unfold CircuitBreake_Post. destruct (circuitBreaker c).1 as [cb|]; [|by intros [= _ _ <-]; auto].
  destruct (bool_decide _) eqn:Eh; cbn [andb]; [|by intros [= _ _ <-]; auto].
  apply bool_decide_eq_true in Eh. destruct (_ <=? _); intros [= _ _ <-]; auto.
Qed.

Lemma circuit_PostErr_effect code err c c' : CircuitBreake_PostErr code err c = Ret c' -> effect c c'.
Proof.
  unfold CircuitBreake_PostErr. destruct (match err with Some e => _ | None => _ end); [by intros [= <-]; auto|].
  destruct (circuitBreaker c).1 as [cb|]; [|by intros [= <-]; auto].
  destruct (_ && _); [|by intros [= <-]; auto]. intros H. by apply (effect_close c c').
Qed.

Lemma Caching_Post_view c code err c' : Caching_Post c = Ret (code, err, c') -> view c' = view c.
Proof.
  unfold Caching_Post. destruct (DispatchNode_Cache _) as [cache|]; [|by intros [= _ _ <-]].
  intros H. bind_inv H. destruct a as [id|]; [|by injection H as _ _ <-].
  bind_inv H. destruct a as [value p]. by injection H as _ _ <-.
Qed.

Lemma Caching_Pre_view c code err c' : Caching_Pre c = Ret (code, err, c') ->
  view c' = view c /\ code = StatusOK.
Proof.
  unfold Caching_Pre. destruct (DispatchNode_Cache _) as [cache|]; [|by intros [= <- _ <-]].
  intros H. bind_inv H. destruct a as [id|]; [|by injection H as <- _ <-].
  destruct (Lru.Get id (pc_cache c)) as [value m]. destruct value; by injection H as <- _ <-.
Qed.

(** A filter that ends the chain without an error has prepared the response. *)
Definition prepared c : Prop := ∃ r, GetAttr c AttrUsingResponse = Some (AttrReply r).

Lemma builtin_Pre f c code err c' : builtin f -> Pre f c = Ret (code, err, c') ->
  effect c c' /\ (err = None -> code = BreakFilterChainCode -> prepared c').
Proof.
  intros Hf. destruct Hf; cbn; unfold Base_Pre, Base_Post, Base_PostErr; try (by intros [= <- <- <-]; split; [by apply effect_none|]).
  - cbn. intros H. bind_inv H. bind_inv H. destruct (negb _); injection H as <- <- <-; (split; [by apply effect_none|done]).
  - cbn. intros H. bind_inv H. bind_inv H. destruct (negb _); injection H as <- <- <-; (split; [by apply effect_none|done]).
  - cbn. intros H. bind_inv H. destruct a as [ok c1]. apply limit_view in E.
    destruct (negb ok); injection H as <- <- <-; (split; [by constructor|done]).
  - cbn. intros H. split; [by eapply circuit_Pre_effect|]. intros -> ->. exfalso. revert H. unfold CircuitBreake_Pre.
    destruct (circuitBreaker c).1; [|done].
    destruct (circuitStatus c); [destruct (_ <=? _); [|done]; intros H; by bind_inv H| |done].
    intros H. bind_inv H. by destruct a as [[] c1].
  - cbn. intros H. bind_inv H. destruct a; injection H as <- <- <-; (split; [by apply effect_none|done]).
  - cbn. intros H. apply Caching_Pre_view in H as [Hv ->]. split; [by constructor|done].
  - cbn. destruct (negb _); intros [= <- <- <-]; (split; [by apply effect_none|]); [done|]. intros _ _. eexists. apply lookup_insert_eq.
Qed.

Lemma builtin_Post f c code err c' : builtin f -> Post f c = Ret (code, err, c') -> effect c c'.
Proof.
  intros Hf. destruct Hf; cbn; unfold Base_Pre, Base_Post, Base_PostErr; try (by intros [= _ _ <-]; by apply effect_none).
  - destruct info; [|by intros [= _ _ <-]; by apply effect_none]. intros H. bind_inv H. injection H as _ _ <-. by apply effect_none.
  - apply circuit_Post_effect.
  - intros H. apply Caching_Post_view in H. by constructor.
Qed.

Lemma builtin_PostErr f code err c c' : builtin f -> PostErr f code err c = Ret c' -> effect c c'.
Proof.
  intros Hf. destruct Hf; cbn; unfold Base_Pre, Base_Post, Base_PostErr; try (by intros [= <-]; by apply effect_none). apply circuit_PostErr_effect.
Qed.

(** ** A closed circuit *)

Definition closed c : Prop := circuit_of (resource_of c) c = Close /\ cb_of (resource_of c) c <> None.

Lemma closed_breaker c : closed c -> circuitStatus c = Close /\ ∃ cb, (circuitBreaker c).1 = Some cb.
Proof.
  unfold closed, resource_of, circuitStatus, circuitBreaker, circuit_of, cb_of, protected_of, getCircuitStatus.
  destruct (p_cb (apiP c)) as [cb|] eqn:E.
  - rewrite E. by intros [? _]; eauto.
  - destruct (p_cb (destP c)) as [cb|]; [|by intros [_ []]]. intros [? _]. eauto.
Qed.

Lemma closed_intro c :
  (let p := match p_cb (apiP c) with Some _ => apiP c | None => destP c end in
   p_cb p <> None /\ p_circuit p = Close) -> closed c.
Proof.
  cbn zeta. unfold closed, resource_of, circuit_of, cb_of, protected_of.
  destruct (p_cb (apiP c)) eqn:E; intros [? ?]; split; congruence.
Qed.

Definition close_ (p : protected) : protected := match p_cb p with Some _ => set_circuit Close p | None => p end.

Lemma closeP_ret who p p' hs : closeP who p = Ret (p', hs) ->
  p' = close_ p /\ (p_cb p <> None -> p_circuit p <> Close -> ∃ d, (who, d) ∈ hs).
Proof.
  unfold closeP, circuitToClose, close_. destruct (p_cb p) as [cb|] eqn:E; [|by intros [= <- <-]].
  case_bool_decide as Ec; [intros [= <- <-]; split; [by destruct p; cbn in *; subst|done]|].
  destruct (_ <=? 0); [done|]. intros [= <- <-]. split; [done|]. intros _ _. eexists. by left.
Qed.

(** What closing the circuits makes, when it returns. *)
Lemma toClose_ret c c' : changeCircuitStatusToClose c = Ret c' ->
  apiP c' = close_ (apiP c) /\ destP c' = close_ (destP c) /\
  (∀ x, x ∈ pc_halves c -> x ∈ pc_halves c') /\
  ∀ who, cb_of who c <> None -> circuit_of who c <> Close -> ∃ d, (who, d) ∈ pc_halves c'.
Proof.
  unfold changeCircuitStatusToClose. intros H. bind_inv H. destruct a as [a h1]. bind_inv H. destruct a0 as [s h2].
  injection H as <-. apply closeP_ret in E0 as [-> Hs].
  assert (Ha : a = close_ (apiP c) /\ (cb_of OfAPI c <> None -> circuit_of OfAPI c <> Close -> ∃ d, (OfAPI, d) ∈ h1)).
  { unfold cb_of, circuit_of. cbn. destruct (p_cb (apiP c)) eqn:Ecb.
    - apply closeP_ret in E as [-> Ha]. split; [done|]. intros _. apply Ha. congruence.
    - injection E as <- <-. split; [|done]. unfold close_. by rewrite Ecb. }
  destruct Ha as [-> Ha]. split_and!; [done..| |].
  - intros x Hx. apply elem_of_app. by left.
  - intros [] Hcb Hc; [destruct (Ha Hcb Hc) as [d Hd]|destruct (Hs Hcb Hc) as [d Hd]]; exists d; cbn; rewrite !elem_of_app; auto.
Qed.

Lemma toClose_circuit c c' who : changeCircuitStatusToClose c = Ret c' -> cb_of who c' = cb_of who c /\
  circuit_of who c' = match cb_of who c with Some _ => Close | None => circuit_of who c end.
Proof.
  intros (Ha & Hd & _)%toClose_ret. unfold cb_of, circuit_of. destruct who; cbn [protected_of]; rewrite ?Ha, ?Hd; unfold close_; by case_match.
Qed.

(** Closing blocks only for a delay of no tick. *)
Lemma closeP_hangs who p cb : p_cb p = Some cb -> p_circuit p <> Close ->
  closeP who p = Hang <-> TimeWheel.dTicks wheelTick (CircuitBreaker_CloseTimeout cb) <= 0.
Proof.
  intros E Hc. unfold closeP, circuitToClose. rewrite E, bool_decide_false by done.
  destruct (Z.leb_spec (TimeWheel.dTicks wheelTick (CircuitBreaker_CloseTimeout cb)) 0); split; done || lia.
Qed.

Lemma view_circuit c c' who : view c' = view c -> circuit_of who c' = circuit_of who c /\ cb_of who c' = cb_of who c.
Proof. unfold view. intros [= H1 H2 H3 H4 _]. by destruct who. Qed.

Lemma view_resource c c' : view c' = view c -> resource_of c' = resource_of c.
Proof. intros H. destruct (view_circuit c c' OfAPI H) as [_ Hcb]. unfold resource_of. unfold cb_of in Hcb. cbn in Hcb. by rewrite Hcb. Qed.

Lemma toOpen_cb c who : cb_of who (changeCircuitStatusToOpen c) = cb_of who c.
Proof.
  unfold cb_of, changeCircuitStatusToOpen, circuitToOpen. destruct who; cbn; repeat case_match; done.
Qed.

Lemma closeP_returns who p :
  (∀ cb, p_cb p = Some cb -> 0 < TimeWheel.dTicks wheelTick (CircuitBreaker_CloseTimeout cb)) -> ∃ x, closeP who p = Ret x.
Proof.
  intros H. unfold closeP, circuitToClose. destruct (p_cb p) as [cb|]; [|by eexists].
  case_bool_decide; [by eexists|]. specialize (H cb eq_refl). rewrite (proj2 (Z.leb_gt _ _)) by done. by eexists.
Qed.

Lemma Pre_hangs c cb : circuitStatus c = Open -> cb_of (resource_of c) c = Some cb ->
  CircuitBreaker_FailureRateToClose cb <= failureRate cb c ->
  closeP (resource_of c) (protected_of (resource_of c) c) = Hang -> CircuitBreake_Pre c = Hang.
Proof.
  intros Ho Hcb Hr Hh. unfold CircuitBreake_Pre. unfold cb_of, resource_of, protected_of in *.
  assert (Eb : (circuitBreaker c).1 = Some cb).
  { unfold circuitBreaker. destruct (p_cb (apiP c)) eqn:E; cbn in *; [congruence|done]. }
  rewrite Eb, Ho, (proj2 (Z.leb_le _ _) Hr). unfold changeCircuitStatusToClose.
  destruct (p_cb (apiP c)); cbn in Hh |- *; by rewrite Hh.
Qed.

(** What a filter does to one circuit. *)
Lemma effect_circuit c c' who : effect c c' -> cb_of who c' = cb_of who c /\
  (circuit_of who c = Close -> circuit_of who c' = Close) /\
  (circuit_of who c' = Close -> circuit_of who c <> Close -> cb_of who c <> None /\ ∃ d, (who, d) ∈ pc_halves c') /\
  (∀ x, x ∈ pc_halves c -> x ∈ pc_halves c').
Proof.
  intros [c1 H|c2 c1 Hr H|c1 H Hh]; pose proof (f_equal snd H) as Hp; cbn in Hp;
    destruct (view_circuit _ _ who H) as [-> ->]; rewrite Hp.
  - split_and!; try done.
  - destruct (toClose_circuit c c2 who Hr) as [-> ->]. apply toClose_ret in Hr as (_ & _ & Hkeep & Hnew).
    split_and!; [done|by destruct (cb_of who c)| |done]. intros Hc Hn. destruct (cb_of who c) eqn:E; [|done].
    split; [done|]. apply Hnew; [by rewrite E|done].
  - rewrite toOpen_cb. split_and!; [done| | |done].
    + unfold circuit_of, changeCircuitStatusToOpen, circuitToOpen. intros Hc.
      destruct who; cbn in *; rewrite ?Hc; repeat case_match; done.
    + unfold circuit_of, changeCircuitStatusToOpen, circuitToOpen. intros Hc Hn. exfalso. revert Hc Hn.
      destruct who; cbn; repeat case_match; try done.
Qed.

Lemma effect_closed c c' : effect c c' -> closed c -> closed c'.
Proof.
  intros He [Hc Hcb]. destruct (effect_circuit c c' OfAPI He) as (Ha & _ & _ & _).
  assert (Hr : resource_of c' = resource_of c) by (unfold resource_of; unfold cb_of in Ha; cbn in Ha; by rewrite Ha).
  unfold closed. rewrite Hr. destruct (effect_circuit c c' (resource_of c) He) as (-> & H & _). auto.
Qed.

(** The chain of a closed circuit ends with an error or with a prepared response. *)
Lemma doPreFilters_closed fs : ∀ c name code err c', Forall builtin fs -> CircuitBreakeFilter ∈ fs -> closed c ->
  doPreFilters c fs = Ret (name, code, err, c') -> err <> None \/ prepared c'.
Proof.
  induction fs as [|f fs IH]; intros c name code err c' Hb Hin Hc H; [by apply elem_of_nil in Hin|].
  apply Forall_cons in Hb as [Hf Hb]. cbn [doPreFilters] in H. bind_inv H. destruct a as [[code1 err1] c1].
  destruct (builtin_Pre f c code1 err1 c1 Hf E) as [He Hp].
  destruct err1 as [e|]; [injection H as _ _ <- <-; by left|].
  destruct (Z.eqb_spec code1 BreakFilterChainCode) as [Hk|Hk]; [injection H as _ _ <- <-; right; auto|].
  apply elem_of_cons in Hin as [<-|Hin].
  - exfalso. destruct (closed_breaker c Hc) as (Hs & cb & Hcb). cbn in E.
    destruct (circuit_Pre_effect c code1 None c1 E) as [_ Hx]. by specialize (Hx cb Hcb Hs).
  - apply (IH c1 name code err c'); eauto using effect_closed.
Qed.

Section Isolation.
Context {W : Type} {net : Network} `{!Selector W}.

(** C9: while the circuit of the resource of a request is closed, the resource being the API if
    it has a circuit breaker and else the server, the request is not sent to any server: with
    any list of built-in filters that has the circuit breaker, whatever the request, the
    server and the other filters, no exchange is made. *)
Theorem closed_isolates : ∀ fs api dn svr origin remoteIP exprCtx sh (w : W) p,
  Forall builtin fs -> CircuitBreakeFilter ∈ fs -> dn_dest dn = Some svr ->
  (let protected := match p_cb (a_p api) with Some _ => a_p api | None => svr_p svr end in
   p_cb protected <> None /\ p_circuit protected = Close) ->
  doNode fs id api dn origin remoteIP exprCtx sh w = Ret p -> px_log p = [].
Proof.
  intros fs api dn svr origin remoteIP exprCtx sh w p Hb Hin Hd Hc. unfold doNode.
  destruct (DispatchNode_UseDefault _); [by intros [= <-]|]. rewrite Hd. intros H. bind_inv H. rename a into path.
  destruct (_ && (len path =? 0)); [by injection H as <-|]. unfold id in H. cbn zeta in H.
  set (c0 := init _ _ _ _ _ _ _) in H. bind_inv H. destruct a as [[[name code] err] c1].
  assert (Hcl : closed c0) by (apply closed_intro; exact Hc).
  destruct (doPreFilters_closed fs c0 name code err c1 Hb Hin Hcl E0) as [He|[r Hr]].
  { destruct err; [by injection H as <-|done]. }
  destruct err; [by injection H as <-|]. unfold afterPre in H. bind_inv H. destruct a as [[[o log] c2] w2].
  assert (log = []) as ->.
  { unfold obtain in E1. rewrite Hr in E1. destruct (GetAttr c1 AttrUsingCachingValue) as [[s|k value|r']|]; try done.
    - bind_inv E1. destruct a. by injection E1 as _ <- _ _.
    - by injection E1 as _ <- _ _. }
  destruct o as [res err|code' err]; [|by injection H as <-].
  destruct (_ || _); bind_inv H; [by injection H as <-|]. destruct a as [[[name' code'] err'] c3]. destruct err'; by injection H as <-.
Qed.

End Isolation.

(** ** The life of the circuits

    Requests of one API and server, in any order, with their filters; the timers; other
    changes of the statistics and of the requests in between; and the dispatcher, which sets
    the runtimes anew. *)
Inductive step : proxyContext (P := P) -> proxyContext (P := P) -> Prop :=
| step_pre f c code err c' : builtin f -> Pre f c = Ret (code, err, c') -> step c c'
| step_post f c code err c' : builtin f -> Post f c = Ret (code, err, c') -> step c c'
| step_posterr f c code err c' : builtin f -> PostErr f code err c = Ret c' -> step c c'
| step_timer c i who d : pc_halves c !! i = Some (who, d) -> step c (fire i who c)
| step_request c c' : view c' = view c -> step c c'
| step_refresh c a s : p_circuit a = Open -> p_circuit s = Open -> step c (with_circuits a s (pc_halves c) c).

Definition fresh_circuits c : Prop := circuit_of OfAPI c = Open /\ circuit_of OfServer c = Open.
Inductive reached : proxyContext (P := P) -> Prop :=
| reached_init c : fresh_circuits c -> reached c
| reached_step c c' : reached c -> step c c' -> reached c'.

(** A closed circuit has a circuit breaker and a pending timer. *)
Definition guarded c : Prop := ∀ who, circuit_of who c = Close ->
  cb_of who c <> None /\ ∃ d, (who, d) ∈ pc_halves c.

Lemma effect_guarded c c' : effect c c' -> guarded c -> guarded c'.
Proof.
  intros He Hg who Hc. destruct (effect_circuit c c' who He) as (-> & _ & Hnew & Hkeep).
  destruct (decide (circuit_of who c = Close)) as [Ho|Hn]; [|by apply Hnew].
  destruct (Hg who Ho) as [Hcb [d Hd]]. eauto.
Qed.

Lemma fire_other i who who' c : who' <> who ->
  circuit_of who' (fire i who c) = circuit_of who' c /\ cb_of who' (fire i who c) = cb_of who' c.
Proof. by destruct who, who'. Qed.

Lemma fire_half i who c : cb_of who c <> None -> circuit_of who (fire i who c) = Half.
Proof. unfold circuit_of, cb_of, fire, circuitToHalf. destruct who; cbn; by case_match. Qed.

Lemma fire_circuit i who c : circuit_of who (fire i who c) = Close -> cb_of who c = None /\ circuit_of who c = Close.
Proof. unfold circuit_of, cb_of, fire, circuitToHalf. destruct who; cbn; case_match; done. Qed.

Lemma fire_guarded i who d c : pc_halves c !! i = Some (who, d) -> guarded c -> guarded (fire i who c).
Proof.
  intros Hi Hg who' Hc. destruct (decide (who' = who)) as [->|Hne].
  - apply fire_circuit in Hc as [Hcb Hc]. by destruct (Hg who Hc) as [Hx _].
  - destruct (fire_other i who who' c Hne) as [Hc' ->]. rewrite Hc' in Hc. destruct (Hg who' Hc) as [Hcb [d' Hd]].
    split; [done|]. exists d'. assert (Hh : pc_halves (fire i who c) = delete i (pc_halves c)) by (by destruct who). rewrite Hh.
    apply list_elem_of_lookup in Hd as [j Hj]. rewrite (delete_take_drop (pc_halves c) i). apply elem_of_app.
    destruct (decide (j < i)%nat) as [Hlt|Hge]; [left|right].
    + apply list_elem_of_lookup. exists j. by rewrite lookup_take_lt.
    + apply list_elem_of_lookup. exists (j - S i)%nat. rewrite lookup_drop.
      assert (j <> i) by congruence. replace (S i + (j - S i))%nat with j by lia. done.
Qed.

Lemma reached_guarded c : reached c -> guarded c.
Proof.
  induction 1 as [c [Ha Hs]|c c' _ IH Hstep].
  - intros [] Hc; congruence.
  - destruct Hstep as [f c code err c' Hf E|f c code err c' Hf E|f c code err c' Hf E|c i who d Hi|c c' Hv|c a s Ha Hs].
    + destruct (builtin_Pre f c code err c' Hf E) as [He _]. by eapply effect_guarded.
    + eapply effect_guarded; [|done]. by eapply builtin_Post.
    + eapply effect_guarded; [|done]. by eapply builtin_PostErr.
    + by eapply fire_guarded.
    + eapply effect_guarded; [|done]. by apply effect_none.
    + intros [] Hc; unfold circuit_of in Hc; cbn in Hc; congruence.
Qed.


End Circuit.

(** ** Examples *)
Module CircuitSamples.
Import ProxySamples ByteBuf.Slab.

Definition sample_chain : list (Filter (P := Slab.SyncPool)) := [PrepareFilter; AnalysisFilter; CircuitBreakeFilter].

Lemma sample_chain_builtin : Forall builtin sample_chain.
Proof. repeat constructor. Qed.

(** A server that is closed: the request ends with 503. *)
Lemma closed_isolates_witness : ∃ p,
  doNode sample_chain id (sample_api None) (mkDispatchNodeRT 0 (sample_node None) (Some (sample_server 2 Close)) None)
    sample_request (str "1.2.3.4") (mkCtx sample_request None None) sample_shared ([] : list serverRuntime) = Ret p /\
  d_code (px_node p) = StatusServiceUnavailable /\ px_log p = [].
Proof.
  eexists. split; [vm_compute; reflexivity|]. split; [reflexivity|].
  apply (closed_isolates sample_chain (sample_api None)
    (mkDispatchNodeRT 0 (sample_node None) (Some (sample_server 2 Close)) None) (sample_server 2 Close)
    sample_request (str "1.2.3.4") (mkCtx sample_request None None) sample_shared ([] : list serverRuntime)).
  - exact sample_chain_builtin.
  - do 2 apply list_elem_of_further. apply list_elem_of_here.
  - reflexivity.
  - split; [discriminate|reflexivity].
  - vm_compute; reflexivity.
Defined.

(** With no statistics an open circuit closes at the next request. *)
Definition sample_closed : proxyContext (P := Slab.SyncPool) :=
  match CircuitBreake_Pre sample_context with Ret (_, _, c) => c | _ => sample_context end.


End CircuitSamples.
