(* ===== verification/Serve.v ===== *)
(** Model of [ServeFastHTTP] of [src/src/proxy/proxy.go] for a request with several nodes: the
    handler starts the nodes batch after batch, workers treat the nodes of a batch at the
    same time, and each completes its part of the aggregation.  One step is what happens
    between two points where another goroutine can be seen. *)
From stdpp Require Import sorting.
From S2P Require Import Prelude Meta Matching Expr RateLimit Lbs Counters ByteBuf Caching Runtime Dispatcher Filters Render Proxy.
From S2P Require Import JsonScan JsonGet JsonTotal JsonText JsonSet.

Section Serve.
Context {P W : Type} `{!Pool P} {env : Env} {http : Http} `{!Selector W}.
Context (fs : list (Filter (P := P))) (api : apiRuntime) (origin : Request) (remoteIP : bytes)
  (params : option (gmap bytes bytes)) (nodes : list dispatchNode).

Definition batch (dn : dispatchNode) : Z := batchIndex (dn_node dn).

(** The state of the handler and its workers: the next node; the wait group with its count;
    [lastBatch]; [exprCtx.Depend] and [multiCtx.data]; the nodes handed to workers, with the
    bodies of other nodes once they have read them; the nodes that are done; and whether the
    workers go on: they leave when the gateway stops, whatever is handed to them. *)
Record serving := mkServing {
  next : nat;
  wg : option nat;
  lastBatch : Z;
  depend : bytes;
  data : bytes;
  running : gmap nat (option bytes);
  results : gmap nat dispatched;
  workers : bool
}.

Definition start : serving := mkServing 0 (Some 0%nat) 0 [] Multi.init ∅ ∅ true.

(** The wait at the beginning of a turn: the wait group and the last batch after it, or
    nothing while it blocks. *)
Definition waited (dn : dispatchNode) (s : serving) : option (option nat * Z) :=
  match wg s with
  | Some n =>
      if lastBatch s <? batch dn then
        if (n =? 0)%nat then Some (if (1 <? length nodes - next s)%nat then Some 0%nat else None, batch dn) else None
      else Some (Some n, lastBatch s)
  | None => Some (None, lastBatch s)
  end.

(** What a treated node can be left as: by any answers of servers and any state that requests
    share, given the bodies of other nodes it has read. *)
Definition treated (dn : dispatchNode) (dep : bytes) (d : dispatched) : Prop :=
  ∃ (net : Network) sh (w : W) p,
    doNode fs id api dn origin remoteIP (mkCtx origin (Some dep) params) sh w = Ret p /\ px_node p = d.

Inductive step (s : serving) : serving -> Prop :=
(** the handler gives the next node to a worker *)
| step_start dn n lb : nodes !! next s = Some dn -> waited dn s = Some (Some n, lb) ->
    step s (mkServing (S (next s)) (Some (S n)) lb (data s) (data s) (<[next s := None]> (running s)) (results s) (workers s))
(** the handler treats the last node itself *)
| step_here dn lb d data' : nodes !! next s = Some dn -> waited dn s = Some (None, lb) ->
    treated dn (data s) d -> maybeDone (Some (data s)) d = Ret (Some data') ->
    step s (mkServing (S (next s)) None lb (data s) data' (running s) (<[next s := d]> (results s)) (workers s))
(** a worker reads the bodies of other nodes *)
| step_read i : workers s = true -> running s !! i = Some None ->
    step s (mkServing (next s) (wg s) (lastBatch s) (depend s) (data s) (<[i := Some (depend s)]> (running s)) (results s) (workers s))
(** the gateway stops *)
| step_leave : workers s = true ->
    step s (mkServing (next s) (wg s) (lastBatch s) (depend s) (data s) (running s) (results s) false)
(** a worker completes its part *)
| step_finish i dn dep d data' : nodes !! i = Some dn -> running s !! i = Some (Some dep) -> treated dn dep d ->
    maybeDone (Some (data s)) d = Ret (Some data') ->
    step s (mkServing (next s) (pred <$> wg s) (lastBatch s) (depend s) data' (delete i (running s)) (<[i := d]> (results s)) (workers s)).

Inductive reached : serving -> Prop :=
| reached_start : reached start
| reached_step s s' : reached s -> step s s' -> reached s'.

(** The handler is past the last wait, and renders. *)
Definition finished (s : serving) : Prop := next s = length nodes /\ (wg s = None \/ wg s = Some 0%nat).

(** The results of the nodes, in their order. *)
Definition resultsOf (s : serving) : list dispatched := omap (λ i, results s !! i) (seq 0 (length nodes)).

Context {special : SpecialHeaders}.

(** ** The whole request

    What the handler writes for a request that was dispatched to the API and the nodes: with
    one node or none it does everything itself. *)
Definition notFound (target : option apiRuntime) : bool :=
  (len nodes =? 0) && match target with None => true | Some a => bool_decide (API_DefaultValue (a_meta a) = None) end.

(** The headers the filters have written. *)
Definition filtered (c : option (proxyContext (P := P))) (o : output) : output :=
  match c with Some c => set_headers (λ _, pc_out c) o | None => o end.

Inductive ServeFastHTTP (stopped : bool) (target : option apiRuntime) (o : output) : outcome output -> Prop :=
| serve_stopped : stopped = true -> ServeFastHTTP stopped target o (Ret (SetStatusCode StatusServiceUnavailable o))
| serve_not_found : stopped = false -> notFound target = true ->
    ServeFastHTTP stopped target o (Ret (SetStatusCode 404 o))
| serve_default : stopped = false -> notFound target = false -> target = Some api -> nodes = [] ->
    ServeFastHTTP stopped target o (render api [] None o)
| serve_single dn (net : Network) sh (w : W) : stopped = false -> target = Some api -> nodes = [dn] ->
    sh_out sh = o_headers o ->
    ServeFastHTTP stopped target o
      ('(p, _) ← doProxy fs id api dn origin remoteIP (mkCtx origin None params) None sh w;
       render api [px_node p] None (filtered (px_ctx p) o))
| serve_multi s : stopped = false -> target = Some api -> (1 < length nodes)%nat -> reached s -> finished s ->
    ServeFastHTTP stopped target o (render api (resultsOf s) (Some (data s)) o).

(** ** The nodes of a batch *)

(** The dispatched nodes are in the order of their batches, none of which is negative. *)
Definition in_batches : Prop :=
  StronglySorted Z.le (map batch nodes) /\ Forall (λ dn, 0 <= batch dn) nodes.

Definition started (s : serving) (i : nat) : Prop := i ∈ dom (running s) \/ i ∈ dom (results s).

Record consistent (s : serving) : Prop := {
  cs_started i : (i < next s)%nat <-> started s i;
  cs_apart i : i ∈ dom (running s) -> i ∉ dom (results s);
  cs_next : (next s <= length nodes)%nat;
  cs_wg : match wg s with
          | Some n => n = size (running s)
          | None => running s = ∅ /\ next s = length nodes
          end;
  cs_running i dn : i ∈ dom (running s) -> nodes !! i = Some dn -> batch dn = lastBatch s;
  cs_last i dn : (i < next s)%nat -> nodes !! i = Some dn -> batch dn <= lastBatch s;
  cs_ahead i dn : (next s <= i)%nat -> nodes !! i = Some dn -> lastBatch s <= batch dn;
  cs_node i d : results s !! i = Some d -> ∃ dn, nodes !! i = Some dn /\ d_node d = dn_node dn
}.

Lemma treated_node dn dep d : treated dn dep d -> d_node d = dn_node dn.
Proof.
  intros (net & sh & w & p & H & <-). unfold doNode in H.
  destruct (DispatchNode_UseDefault _); [by injection H as <-|]. destruct (dn_dest dn) as [svr|]; [|by injection H as <-].
  bind_inv H. rename a into path. destruct (_ && (len path =? 0)); [by injection H as <-|].
  bind_inv H. destruct a as [[[name code] err] c1]. destruct err; [by injection H as <-|].
  unfold afterPre in H. bind_inv H. destruct a as [[[o log] c2] w2]. destruct o as [res err|code' err]; [|by injection H as <-].
  destruct (_ || _); bind_inv H; [by injection H as <-|]. destruct a as [[[name' code'] err'] c3]. destruct err'; by injection H as <-.
Qed.

Lemma start_consistent : in_batches -> consistent start.
Proof.
  intros [_ Hb]. split; cbn.
  - intros i. unfold started. cbn. rewrite !dom_empty. split; [lia|]. intros []; set_solver.
  - intros i. rewrite dom_empty. set_solver.
  - lia.
  - done.
  - intros i dn. rewrite dom_empty. set_solver.
  - lia.
  - intros i dn _ Hi. by eapply Forall_lookup_1 in Hb.
  - intros i d. by rewrite lookup_empty.
Qed.

Lemma sorted_lookup (l : list Z) : StronglySorted Z.le l -> ∀ i j x y, (i <= j)%nat -> l !! i = Some x -> l !! j = Some y -> x <= y.
Proof.
  induction 1 as [|a l _ IH Ha]; intros i j x y Hij Hi Hj; [done|].
  destruct i as [|i], j as [|j]; cbn in *; simplify_eq; try lia.
  - by eapply Forall_lookup_1 in Ha.
  - eapply (IH i j); eauto. lia.
Qed.

Lemma batch_le i j x y : in_batches -> (i <= j)%nat -> nodes !! i = Some x -> nodes !! j = Some y -> batch x <= batch y.
Proof.
  intros [Hs _] Hij Hi Hj. eapply (sorted_lookup _ Hs i j); [done| |]; by rewrite list_lookup_fmap, ?Hi, ?Hj.
Qed.

(** A node that is started has the last batch, and nothing else is running in a new one. *)
Lemma waited_spec s dn wg' lb : in_batches -> consistent s -> nodes !! next s = Some dn -> waited dn s = Some (wg', lb) ->
  lb = batch dn /\ lastBatch s <= lb /\
  match wg' with
  | Some n => n = size (running s) /\ (running s = ∅ \/ lastBatch s = lb)
  | None => running s = ∅ /\ S (next s) = length nodes
  end.
Proof.
  intros Hb Hc Hn Hw. pose proof (cs_wg s Hc) as Hwg. pose proof (lookup_lt_Some _ _ _ Hn) as Hlt.
  pose proof (cs_ahead s Hc (next s) dn ltac:(lia) Hn) as Ha. unfold waited in Hw.
  destruct (wg s) as [n|]; [|lia]. destruct (Z.ltb_spec (lastBatch s) (batch dn)).
  - destruct (Nat.eqb_spec n 0); [|done]. injection Hw as <- <-. split_and!; [done|lia|].
    assert (running s = ∅) as Hr by (apply map_size_empty_inv; lia).
    destruct (Nat.ltb_spec 1 (length nodes - next s)); split; auto; try lia.
  - injection Hw as <- <-. split_and!; [lia|lia|done|]. auto.
Qed.

Lemma begin_consistent s dn lb : in_batches -> consistent s -> nodes !! next s = Some dn ->
  lb = batch dn -> lastBatch s <= lb ->
  (∀ i dn', (i < S (next s))%nat -> nodes !! i = Some dn' -> batch dn' <= lb) /\
  (∀ i dn', (S (next s) <= i)%nat -> nodes !! i = Some dn' -> lb <= batch dn').
Proof.
  intros Hb Hc Hn -> Hle. split; intros i dn' Hi Hdn.
  - destruct (decide (i = next s)) as [->|]; [by simplify_eq|]. pose proof (cs_last s Hc i dn' ltac:(lia) Hdn). lia.
  - eapply (batch_le (next s) i); eauto. lia.
Qed.

Lemma not_started s i : consistent s -> (next s <= i)%nat -> running s !! i = None /\ results s !! i = None.
Proof.
  intros Hc Hi. pose proof (cs_started s Hc i) as H. unfold started in H. rewrite !elem_of_dom in H.
  destruct (running s !! i), (results s !! i); try done; exfalso; assert (i < next s)%nat by (apply H; eauto); lia.
Qed.

Lemma start_step_consistent s dn n lb : in_batches -> consistent s -> nodes !! next s = Some dn -> waited dn s = Some (Some n, lb) ->
  consistent (mkServing (S (next s)) (Some (S n)) lb (data s) (data s) (<[next s := None]> (running s)) (results s) (workers s)).
Proof.
  intros Hb Hc Hn Hw.
  destruct (waited_spec s dn _ lb Hb Hc Hn Hw) as (Hlb & Hle & -> & Hrun).
  destruct (begin_consistent s dn lb Hb Hc Hn Hlb Hle) as [Hlast Hahead].
  destruct (not_started s (next s) Hc ltac:(lia)) as [Hr0 Hd0]. pose proof (lookup_lt_Some _ _ _ Hn).
  split; unfold started; cbn [next wg lastBatch running results].
  - intros i. rewrite dom_insert, elem_of_union, elem_of_singleton. pose proof (cs_started s Hc i) as Hi. unfold started in Hi.
    destruct (decide (i = next s)) as [->|]; [split; [auto|lia]|]. split; [|intros [[?|?]|?]; [done| |]].
    + intros Hlt. destruct (proj1 Hi ltac:(lia)); auto.
    + assert (i < next s)%nat by tauto. lia.
    + assert (i < next s)%nat by tauto. lia.
  - intros i. rewrite dom_insert, elem_of_union, elem_of_singleton. intros [->|Hi]; [by apply not_elem_of_dom|by apply (cs_apart s Hc)].
  - lia.
  - by rewrite map_size_insert, Hr0.
  - intros i dn' Hi Hdn. rewrite dom_insert, elem_of_union, elem_of_singleton in Hi.
    destruct Hi as [->|Hi]; [by simplify_eq|]. destruct Hrun as [Hr|<-]; [by rewrite Hr, dom_empty in Hi; set_solver|].
    by apply (cs_running s Hc i).
  - done.
  - done.
  - apply (cs_node s Hc).
Qed.

Lemma here_step_consistent s dn lb d data' : in_batches -> consistent s -> nodes !! next s = Some dn ->
  waited dn s = Some (None, lb) -> treated dn (data s) d ->
  consistent (mkServing (S (next s)) None lb (data s) data' (running s) (<[next s := d]> (results s)) (workers s)).
Proof.
  intros Hb Hc Hn Hw Ht.
  destruct (waited_spec s dn _ lb Hb Hc Hn Hw) as (Hlb & Hle & Hrun & Hlen).
  destruct (begin_consistent s dn lb Hb Hc Hn Hlb Hle) as [Hlast Hahead].
  split; unfold started; cbn [next wg lastBatch running results].
  - intros i. rewrite dom_insert, elem_of_union, elem_of_singleton. pose proof (cs_started s Hc i) as Hi. unfold started in Hi.
    destruct (decide (i = next s)) as [->|]; [split; [auto|lia]|]. split; [|intros [?|[?|?]]; [|done|]].
    + intros Hlt. destruct (proj1 Hi ltac:(lia)); auto.
    + assert (i < next s)%nat by tauto. lia.
    + assert (i < next s)%nat by tauto. lia.
  - intros i Hi. rewrite Hrun, dom_empty in Hi. set_solver.
  - lia.
  - done.
  - intros i dn' Hi. rewrite Hrun, dom_empty in Hi. set_solver.
  - done.
  - done.
  - intros i d'. rewrite lookup_insert_Some. intros [[<- <-]|[_ Hd]]; [|by apply (cs_node s Hc)].
    exists dn. split; [done|]. by eapply treated_node.
Qed.

Lemma read_step_consistent s i : consistent s -> running s !! i = Some None ->
  consistent (mkServing (next s) (wg s) (lastBatch s) (depend s) (data s) (<[i := Some (depend s)]> (running s)) (results s) (workers s)).
Proof.
  intros Hc Hi.
  assert (Hdom : dom (<[i:=Some (depend s)]> (running s)) = dom (running s)) by (apply dom_insert_lookup_L; eauto).
  destruct Hc. split; unfold started in *; cbn [next wg lastBatch running results]; rewrite ?Hdom; try done.
  destruct (wg s); [by rewrite map_size_insert, Hi|]. destruct cs_wg0 as [He _]. by rewrite He, lookup_empty in Hi.
Qed.

Lemma finish_step_consistent s i dn dep d data' : consistent s -> nodes !! i = Some dn -> running s !! i = Some (Some dep) ->
  treated dn dep d ->
  consistent (mkServing (next s) (pred <$> wg s) (lastBatch s) (depend s) data' (delete i (running s)) (<[i := d]> (results s)) (workers s)).
Proof.
  intros Hc Hn Hi Ht.
  assert (Hdi : i ∈ dom (running s)) by (apply elem_of_dom; eauto).
  split; unfold started; cbn [next wg lastBatch running results].
  - intros j. rewrite dom_delete, dom_insert, elem_of_difference, elem_of_union, elem_of_singleton.
    rewrite (cs_started s Hc j). unfold started. destruct (decide (j = i)) as [->|]; tauto.
  - intros j. rewrite dom_delete, dom_insert, elem_of_difference, elem_of_union, elem_of_singleton.
    intros [Hj Hne] [?|?]; [done|]. by apply (cs_apart s Hc j).
  - apply (cs_next s Hc).
  - pose proof (cs_wg s Hc) as Hwg. destruct (wg s) as [n|]; cbn.
    + rewrite map_size_delete, Hi. lia.
    + destruct Hwg as [He _]. by rewrite He, lookup_empty in Hi.
  - intros j dn' Hj Hdn. rewrite dom_delete, elem_of_difference in Hj. destruct Hj as [Hj _]. by apply (cs_running s Hc j).
  - apply (cs_last s Hc).
  - apply (cs_ahead s Hc).
  - intros j d'. rewrite lookup_insert_Some. intros [[<- <-]|[_ Hd]]; [|by apply (cs_node s Hc)].
    exists dn. split; [done|]. by eapply treated_node.
Qed.

Lemma step_consistent s s' : in_batches -> consistent s -> step s s' -> consistent s'.
Proof.
  intros Hb Hc [dn n lb Hn Hw|dn lb d data' Hn Hw Ht Hm|i _ Hi|_|i dn dep d data' Hn Hi Ht Hm].
  - by eapply start_step_consistent.
  - by eapply here_step_consistent.
  - by apply read_step_consistent.
  - by destruct Hc.
  - by eapply finish_step_consistent.
Qed.

Lemma reached_consistent s : in_batches -> reached s -> consistent s.
Proof. intros Hb. induction 1; [by apply start_consistent|by eapply step_consistent]. Qed.

(** *** The run ends *)

(** The treatment of every node returns, with what is aggregated so far: its filters, exchanges
    and the aggregation neither panic nor hang. *)
Definition treatable (s : serving) : Prop := ∀ i dn dep, nodes !! i = Some dn ->
  ∃ d data', treated dn dep d /\ maybeDone (Some (data s)) d = Ret (Some data').

(** What is left to do: a node is to be started, read and finished. *)
Definition unread (s : serving) : gmap nat (option bytes) := filter (λ x, x.2 = None) (running s).
Definition todo (s : serving) : nat := 3 * (length nodes - next s) + size (running s) + size (unread s).

Lemma step_todo s s' : consistent s -> step s s' -> workers s' = workers s -> (todo s' < todo s)%nat.
Proof.
  intros Hc Hs Hw. destruct Hs as [dn n lb Hn _|dn lb d data' Hn _ _ _|i _ Hi|Hl|i dn dep d data' Hn Hi _ _];
    unfold todo, unread; cbn [next running workers] in *.
  - pose proof (lookup_lt_Some _ _ _ Hn). destruct (not_started s (next s) Hc ltac:(lia)) as [Hr _].
    rewrite map_filter_insert_True by done. rewrite !map_size_insert_None; [lia|by apply map_lookup_filter_None; left|done].
  - pose proof (lookup_lt_Some _ _ _ Hn). lia.
  - rewrite map_filter_insert_False by done. rewrite map_filter_delete. rewrite map_size_insert_Some by done.
    assert (H : filter (λ x, x.2 = None) (running s) !! i = Some None) by (by apply map_lookup_filter_Some).
    rewrite map_size_delete_Some by done. assert (size (filter (λ x, x.2 = None) (running s)) <> 0%nat); [|lia].
    intros E%map_size_empty_inv. by rewrite E in H.
  - congruence.
  - rewrite map_filter_delete. assert (size (running s) <> 0%nat) by (intros E%map_size_empty_inv; by rewrite E in Hi).
    rewrite !map_size_delete, Hi. unfold id. destruct (filter _ _ !! i); lia.
Qed.

Lemma step_enabled s : consistent s -> treatable s -> workers s = true -> ¬ finished s -> ∃ s', step s s' /\ workers s' = true.
Proof.
  intros Hc Ht Hw Hf. destruct (decide (running s = ∅)) as [He|Hne].
  - pose proof (cs_wg s Hc) as Hwg. pose proof (cs_next s Hc) as Hnx. destruct (wg s) as [n|] eqn:Eg.
    2: { destruct Hwg. destruct Hf. split; [done|by left]. }
    rewrite He, map_size_empty in Hwg. subst n. destruct (nodes !! next s) as [dn|] eqn:En.
    2: { apply lookup_ge_None in En. destruct Hf. split; [lia|by right]. }
    assert (∃ x lb, waited dn s = Some (x, lb)) as ([n|] & lb & Hx) by (unfold waited; rewrite Eg; destruct (_ <? _); eauto).
    + eexists. split; [by eapply step_start|done].
    + destruct (Ht _ dn (data s) En) as (d & data' & ? & ?). eexists. split; [by eapply step_here|done].
  - apply map_choose in Hne as (i & [dep|] & Hi).
    + assert (Hl : (i < next s)%nat) by (apply (cs_started s Hc); left; apply elem_of_dom; eauto). pose proof (cs_next s Hc).
      destruct (lookup_lt_is_Some_2 nodes i ltac:(lia)) as [dn Hn]. destruct (Ht i dn dep Hn) as (d & data' & ? & ?).
      eexists. split; [by eapply step_finish|done].
    + eexists. split; [by eapply step_read|done].
Qed.

(** C11: a batch starts after the batches before it.  The nodes are in the order of their
    batches, none of them negative.  Then in every interleaving of the handler and its
    workers, whatever the servers answer, when a node has been started every node of a
    smaller batch is done; so the nodes that run at the same time are of one batch.  When the
    handler renders, all are done.  And no interleaving is stuck: while the gateway is not
    stopped and the treatment of a node returns, some goroutine can take its next step, and
    every step leaves less to do. *)
Theorem batches_ordered : ∀ s, in_batches -> reached s ->
  (∀ i j x y, started s i -> nodes !! i = Some x -> nodes !! j = Some y -> batch y < batch x -> j ∈ dom (results s)) /\
  (finished s -> ∀ i, (i < length nodes)%nat -> i ∈ dom (results s)) /\
  (treatable s -> workers s = true -> ¬ finished s -> ∃ s', step s s' /\ workers s' = true) /\
  (∀ s', step s s' -> workers s' = workers s -> (todo s' < todo s)%nat).
Proof.
  intros s Hb Hr. pose proof (reached_consistent s Hb Hr) as Hc. split_and!.
  - intros i j x y Hi Hx Hy Hlt. apply (cs_started s Hc) in Hi.
    assert (Hj : (j < next s)%nat).
    { destruct (decide (j < i)%nat); [lia|]. pose proof (batch_le i j x y Hb ltac:(lia) Hx Hy). lia. }
    apply (cs_started s Hc) in Hj as [Hj|Hj]; [|done].
    pose proof (cs_running s Hc j y Hj Hy). pose proof (cs_last s Hc i x Hi Hx). lia.
  - intros [Hn Hw] i Hi. rewrite <- Hn in Hi. apply (cs_started s Hc) in Hi as [Hi|Hi]; [|done].
    assert (running s = ∅) as He.
    { pose proof (cs_wg s Hc) as Hwg. destruct Hw as [Hw|Hw]; rewrite Hw in Hwg; [by destruct Hwg|].
      by apply map_size_empty_inv. }
    rewrite He, dom_empty in Hi. set_solver.
  - by apply step_enabled.
  - intros s'. by apply step_todo.
Qed.

(** ** The aggregation *)
Import Aggregate.

Abbreviation attr n := (DispatchNode_AttrName (node_meta n)).

(** The names of the parts are plain, and no two nodes have the same. *)
Definition distinct_attrs : Prop := ∀ i x, nodes !! i = Some x -> attr (dn_node x) <> [] ->
  plain_key (attr (dn_node x)) /\
  ∀ j y, nodes !! j = Some y -> attr (dn_node y) = attr (dn_node x) -> j = i.

(** The part of a node is nothing, or the text of a JSON value. *)
Definition json_part (d : dispatched) (v : cst) : Prop := wf v /\ getResponseBody d = Ret (print v).
Definition part_ok (d : dispatched) : Prop := getResponseBody d = Ret [] \/ ∃ v, json_part d v.
Definition parts_ok (s : serving) : Prop := ∀ i d, results s !! i = Some d -> part_ok d.

(** The data is an object with the parts of the nodes that are done. *)
Definition aggregated (s : serving) : Prop := ∃ ms, well ms /\ data s = print (CObj [] ms) /\
  (∀ k, member k ms <> None -> ∃ i d, results s !! i = Some d /\ attr (d_node d) = k) /\
  (∀ i d, results s !! i = Some d -> attr (d_node d) <> [] -> getResponseBody d <> Ret [] ->
     ∃ v, json_part d v /\ member (attr (d_node d)) ms = Some v).

Lemma member_snoc_ne k k' v ms : plain_key k -> k <> k' -> member k' (snoc ms k v) = member k' ms.
Proof.
  intros Hk Hne. destruct (plain_key_wf k Hk) as [_ Hkv]. induction ms as [|w1 key w2 w3 u w4 ms IH]; cbn [snoc member].
  - rewrite Hkv. destruct (bytes_eqb k k') eqn:E; [|done]. by apply bytes_eqb_eq in E.
  - by rewrite IH.
Qed.

(** A node that adds nothing. *)
Lemma aggregated_skip s i d nx w lb dep run ws : aggregated s -> results s !! i = None ->
  (attr (d_node d) = [] \/ getResponseBody d = Ret []) ->
  aggregated (mkServing nx w lb dep (data s) run (<[i := d]> (results s)) ws).
Proof.
  intros (ms & Hms & Hdata & Hback & Hin) Hi Hd. exists ms. split_and!; [done|done| |].
  - intros k Hk. destruct (Hback k Hk) as (j & e & Hj & He). exists j, e. split; [|done]. cbn.
    rewrite lookup_insert_ne; [done|congruence].
  - intros j e He Ha Hne. cbn in He. apply lookup_insert_Some in He as [[<- <-]|[_ He]]; [by destruct Hd|eauto].
Qed.

(** A node that adds a member. *)
Lemma aggregated_add s i dn d v nx w lb dep run ws : distinct_attrs -> consistent s -> aggregated s ->
  nodes !! i = Some dn -> d_node d = dn_node dn -> results s !! i = None -> json_part d v -> attr (dn_node dn) <> [] ->
  ∃ new, Set_ (data s) (print v) [attr (dn_node dn)] = Ret (new, None) /\
    aggregated (mkServing nx w lb dep new run (<[i := d]> (results s)) ws).
Proof.
  intros Hattr Hc (ms & Hms & Hdata & Hback & Hin) Hn Hd Hi Hv Ha.
  destruct (Hattr i dn Hn Ha) as [Hk Huniq].
  assert (Hfree : member (attr (dn_node dn)) ms = None).
  { destruct (member _ ms) eqn:Em; [|done]. exfalso. destruct (Hback (attr (dn_node dn))) as (j & e & Hj & He); [congruence|].
    destruct (cs_node s Hc j e Hj) as (y & Hy & Hye). rewrite Hye in He. rewrite (Huniq j y Hy He) in Hj. congruence. }
  destruct (Set_new_key [] ms _ v Hms (proj1 Hv) Hk Hfree) as [Hset _]. rewrite Hdata, Hset. eexists. split; [done|].
  exists (snoc ms (attr (dn_node dn)) v). split_and!; [apply well_snoc; [done|apply Hv|done]|done| |].
  - intros k Hmem. cbn. destruct (decide (k = attr (dn_node dn))) as [->|Hne].
    { exists i, d. by rewrite lookup_insert_eq, Hd. }
    rewrite member_snoc_ne in Hmem by done. destruct (Hback k Hmem) as (j & e & Hj & He). exists j, e. split; [|done].
    rewrite lookup_insert_ne; [done|congruence].
  - intros j e He Hae Hne. cbn in He. apply lookup_insert_Some in He as [[<- <-]|[_ He]].
    { exists v. split; [done|]. rewrite Hd. by apply member_snoc. }
    destruct (Hin j e He Hae Hne) as (u & Hu & Hmem). exists u. split; [done|]. rewrite member_snoc_ne; [done|done|].
    intros Heq. destruct (cs_node s Hc j e He) as (y & Hy & Hye). rewrite Hye in *.
    rewrite (Huniq j y Hy (eq_sym Heq)) in He. congruence.
Qed.

(** Completing the part of a node that was not done. *)
Lemma complete s i dn d data' nx w lb dep run ws : distinct_attrs -> consistent s -> aggregated s ->
  nodes !! i = Some dn -> d_node d = dn_node dn -> results s !! i = None -> part_ok d ->
  maybeDone (Some (data s)) d = Ret (Some data') ->
  aggregated (mkServing nx w lb dep data' run (<[i := d]> (results s)) ws).
Proof.
  intros Hattr Hc Hag Hn Hd Hi Hp Hm. unfold maybeDone in Hm.
  destruct Hp as [Hb|(v & Hv & Hb)]; rewrite Hb in Hm; cbn [mbind outcome_mbind] in Hm.
  { cbn in Hm. injection Hm as <-. apply aggregated_skip; auto. }
  unfold Multi.completePart in Hm. rewrite (len_print_pos v Hv), Hd in Hm.
  destruct (bytes_eqb (attr (dn_node dn)) []) eqn:Ek; cbn [negb andb] in Hm.
  - apply bytes_eqb_eq in Ek. cbn in Hm. injection Hm as <-. apply aggregated_skip; [done|done|]. left. by rewrite Hd.
  - assert (Ha : attr (dn_node dn) <> []) by (intros E; by rewrite E in Ek).
    destruct (aggregated_add s i dn d v nx w lb dep run ws Hattr Hc Hag Hn Hd Hi (conj Hv Hb) Ha) as (new & Hset & Hnew).
    rewrite Hset in Hm. cbn in Hm. by injection Hm as <-.
Qed.

Lemma step_results s s' : in_batches -> consistent s -> step s s' -> parts_ok s' -> parts_ok s.
Proof.
  intros Hb Hc Hs Hp i d Hi. apply (Hp i). destruct Hs as [| dn lb d' data' Hn Hw Ht Hm | | | j dn dep d' data' Hn Hj Ht Hm]; cbn; try done.
  - rewrite lookup_insert_ne; [done|]. intros <-. destruct (not_started s (next s) Hc ltac:(lia)) as [_ H]. congruence.
  - rewrite lookup_insert_ne; [done|]. intros <-. apply (cs_apart s Hc j); apply elem_of_dom; eauto.
Qed.

Lemma reached_aggregated s : in_batches -> distinct_attrs -> reached s -> parts_ok s -> aggregated s.
Proof.
  intros Hb Ha. induction 1 as [|s s' Hr IH Hs]; intros Hp.
  { exists MNil. split_and!; [apply well_nil|done|done|]. intros i d. cbn. by rewrite lookup_empty. }
  pose proof (reached_consistent s Hb Hr) as Hc. specialize (IH (step_results s s' Hb Hc Hs Hp)).
  destruct Hs as [|dn lb d data' Hn Hw Ht Hm| | |i dn dep d data' Hn Hi Ht Hm]; try exact IH.
  - destruct (not_started s (next s) Hc ltac:(lia)) as [_ Hd]. apply (complete s _ dn); try done.
    + by eapply treated_node.
    + apply (Hp (next s)). cbn. by rewrite lookup_insert_eq.
  - apply (complete s _ dn); try done.
    + by eapply treated_node.
    + apply not_elem_of_dom. apply (cs_apart s Hc). apply elem_of_dom. eauto.
    + apply (Hp i). cbn. by rewrite lookup_insert_eq.
Qed.

(** C20: the aggregation has the part of every node, in whatever order the workers complete
    them, if the nodes are in the order of their batches, none of them negative, their names
    are plain and distinct, and their parts are JSON texts or empty.  When the handler
    renders, every node is done, and the text of each part under a name is in the aggregation,
    where [Get] finds it by that name. *)
Theorem aggregation_complete : ∀ s, in_batches -> distinct_attrs -> reached s -> finished s -> parts_ok s ->
  ∀ i dn, nodes !! i = Some dn -> ∃ d, results s !! i = Some d /\ d_node d = dn_node dn /\
    (attr (dn_node dn) <> [] -> getResponseBody d <> Ret [] -> ∃ v l r,
       json_part d v /\ data s = l ++ print v ++ r /\
       Get (data s) [attr (dn_node dn)] = Ret (inner v, type_of v, len l + len (print v), None)).
Proof.
  intros s Hb Ha Hr [Hn Hw] Hp i dn Hi. pose proof (reached_consistent s Hb Hr) as Hc.
  destruct (reached_aggregated s Hb Ha Hr Hp) as (ms & Hms & Hdata & _ & Hin).
  assert (running s = ∅) as He.
  { pose proof (cs_wg s Hc) as Hwg. destruct Hw as [Hw|Hw]; rewrite Hw in Hwg; [by destruct Hwg|]. by apply map_size_empty_inv. }
  assert (Hd : i ∈ dom (results s)).
  { pose proof (lookup_lt_Some _ _ _ Hi) as Hlt. rewrite <- Hn in Hlt. apply (cs_started s Hc) in Hlt as [H|H]; [|done].
    rewrite He, dom_empty in H. set_solver. }
  apply elem_of_dom in Hd as [d Hd]. exists d. destruct (cs_node s Hc i d Hd) as (dn' & Hdn & Hnode). simplify_eq.
  split_and!; [done|done|]. intros Hattr Hbody. rewrite <- Hnode in *.
  destruct (Hin i d Hd Hattr Hbody) as (v & Hv & Hmem). exists v.
  destruct (internalGet_text [] (CObj [] ms) [] [attr (d_node d)] v Hms ltac:(constructor) I
    ltac:(by repeat constructor) ltac:(cbn [lookup_path]; by rewrite Hmem)) as (l & r & Hlr & _ & Hg).
  cbn [app] in *. rewrite app_nil_r in *. exists l, r. rewrite Hdata. split_and!; [done|done|].
  unfold Get. by rewrite Hg.
Qed.

End Serve.

(** ** Examples *)
Module ServeSamples.
Import ProxySamples ByteBuf.Slab Aggregate.

(** Two nodes of two batches, answered by their default values. *)
Definition default_node (name value : bytes) (b : Z) : dispatchNode :=
  mkDispatchNodeRT b
    (mkAPINode (mkDispatchNode 1 [] name [] (Some (mkHTTPResult value [] [] 0)) true b None None HostOrigin [] 0 0) [] []) None None.

Definition sample_nodes : list dispatchNode := [default_node (str "x") (str "1") 0; default_node (str "y") (quoted_text "{'k':2}") 1].
Definition sample_done (i : nat) : dispatched :=
  match sample_nodes !! i with
  | Some dn => mkDispatched (dn_node dn) None None 0
  | None => mkDispatched (sample_node None) None None 0
  end.

Abbreviation reached_sample := (reached (W := list serverRuntime) (P := Slab.SyncPool) [] (sample_api None) sample_request [] None sample_nodes).

Definition sample_data : bytes := quoted_text "{'x':1,'y':{'k':2}}".
Definition sample_end : serving :=
  mkServing 2 None 1 (quoted_text "{'x':1}") sample_data ∅ (<[1%nat := sample_done 1]> (<[0%nat := sample_done 0]> ∅)) true.

Lemma sample_treated i dn dep : sample_nodes !! i = Some dn ->
  treated (W := list serverRuntime) (P := Slab.SyncPool) [] (sample_api None) sample_request [] None dn dep (sample_done i).
Proof.
  intros Hi. exists sample_network, sample_shared, []. unfold sample_done. rewrite Hi.
  destruct i as [|[|i]]; [| |done]; injection Hi as <-; by eexists.
Qed.

Lemma reached_to s t t' : reached_sample s ->
  step (W := list serverRuntime) (P := Slab.SyncPool) [] (sample_api None) sample_request [] None sample_nodes s t ->
  t = t' -> reached_sample t'.
Proof. intros Hs Ht <-. by eapply reached_step. Qed.

Definition sample_s1 : serving := mkServing 1 (Some 1%nat) 0 emptyObject emptyObject {[0%nat := None]} ∅ true.
Definition sample_s2 : serving := mkServing 1 (Some 1%nat) 0 emptyObject emptyObject {[0%nat := Some emptyObject]} ∅ true.
Definition sample_s3 : serving := mkServing 1 (Some 0%nat) 0 emptyObject (quoted_text "{'x':1}") ∅ {[0%nat := sample_done 0]} true.

Lemma sample_reached : reached_sample sample_end.
Proof.
  set (x := default_node (str "x") (str "1") 0). set (y := default_node (str "y") (quoted_text "{'k':2}") 1).
  assert (H1 : reached_sample sample_s1).
  { eapply reached_to; [apply reached_start|by apply (step_start _ _ _ _ _ _ _ x 0 0)|vm_compute; reflexivity]. }
  assert (H2 : reached_sample sample_s2).
  { eapply reached_to; [exact H1|by apply (step_read _ _ _ _ _ _ _ 0)|vm_compute; reflexivity]. }
  assert (H3 : reached_sample sample_s3).
  { eapply reached_to; [exact H2| |].
    - apply (step_finish _ _ _ _ _ _ _ 0 x emptyObject (sample_done 0) (quoted_text "{'x':1}"));
        [done|done|by apply (sample_treated 0)|vm_compute; reflexivity].
    - vm_compute; reflexivity. }
  eapply reached_to; [exact H3| |].
  - apply (step_here _ _ _ _ _ _ _ y 1 (sample_done 1) sample_data);
      [done|vm_compute; reflexivity|by apply (sample_treated 1)|vm_compute; reflexivity].
  - vm_compute; reflexivity.
Qed.

Lemma sample_in_batches : in_batches sample_nodes.
Proof. split; [|repeat constructor; vm_compute; discriminate]. repeat constructor. vm_compute. discriminate. Qed.

Lemma batches_ordered_witness : finished sample_nodes sample_end /\
  ∀ i, (i < 2)%nat -> i ∈ dom (results sample_end).
Proof.
  assert (Hf : finished sample_nodes sample_end) by (split; [reflexivity|left; reflexivity]).
  split; [exact Hf|].
  exact (proj1 (proj2 (batches_ordered [] (sample_api None) sample_request [] None sample_nodes sample_end
    sample_in_batches sample_reached)) Hf).
Defined.

Definition one : cst := CLit (str "1") Number.
Definition two : cst := CObj [] (snoc MNil (str "k") (CLit (str "2") Number)).

Lemma sample_parts : parts_ok sample_end.
Proof.
  intros i d Hi. cbn in Hi. right. apply lookup_insert_Some in Hi as [[<- <-]|[_ Hi]].
  - exists two. split; [|vm_compute; reflexivity]. apply (well_snoc MNil); [apply well_nil|by split; [|repeat constructor]|].
    split_and!; [done|done|by repeat constructor].
  - apply lookup_insert_Some in Hi as [[<- <-]|[_ Hi]]; [|by rewrite lookup_empty in Hi].
    exists one. split; [|vm_compute; reflexivity]. split; [done|by repeat constructor].
Qed.

Lemma sample_attrs : distinct_attrs sample_nodes.
Proof.
  intros [|[|i]] x Hx _; [| |done]; injection Hx as <-.
  - split; [split_and!; [done|done|by repeat constructor]|]. intros [|[|j]] y Hy H; [done| |done]. by injection Hy as <-.
  - split; [split_and!; [done|done|by repeat constructor]|]. intros [|[|j]] y Hy H; [|done|done]. by injection Hy as <-.
Qed.

Lemma aggregation_complete_witness : finished sample_nodes sample_end /\ parts_ok sample_end /\
  ∃ d, results sample_end !! 0%nat = Some d /\ getResponseBody d = Ret (str "1") /\
    ∃ v e, Get sample_data [str "x"] = Ret (inner v, type_of v, e, None) /\ json_part d v.
Proof.
  assert (Hf : finished sample_nodes sample_end) by (split; [reflexivity|left; reflexivity]).
  split; [exact Hf|]. split; [exact sample_parts|].
  destruct (aggregation_complete [] (sample_api None) sample_request [] None sample_nodes sample_end
    sample_in_batches sample_attrs sample_reached Hf sample_parts 0%nat (default_node (str "x") (str "1") 0) eq_refl)
    as (d & Hd & Hn & H).
  exists d. split; [exact Hd|]. assert (d = sample_done 0) as -> by (vm_compute in Hd; vm_compute; congruence).
  split; [reflexivity|]. destruct H as (v & l & r & Hv & _ & Hg); [discriminate|discriminate|].
  exists v, (len l + len (print v)). split; [exact Hg|exact Hv].
Defined.

End ServeSamples.
