(* ===== verification/DispatcherInv.v ===== *)
(** The invariant of the dispatcher, preserved by every event, health check and request,
    and what it gives: the selection of servers that are up, and the convergence of health
    checks. *)
From S2P Require Import Prelude Meta RouteTable Matching Expr RateLimit Lbs Counters Runtime Dispatcher.

(** ** Copied maps *)

Section Copy.
Context {A : Type} (clone : A -> outcome A) (exclude : Z).

Definition copyList (l : list (Z * A)) : outcome (gmap Z A) :=
  fold_right (λ '(key, value) values,
    values ← values;
    if key =? exclude then Ret values
    else value ← clone value; Ret (<[key := value]> values)) (Ret ∅) l.

Lemma copyList_lookup l : ∀ m', NoDup l.*1 -> copyList l = Ret m' ->
  (∀ k, k ∉ l.*1 -> m' !! k = None) /\
  (∀ k v, (k, v) ∈ l ->
     if k =? exclude then m' !! k = None else ∃ v', clone v = Ret v' /\ m' !! k = Some v').
Proof.
  induction l as [|[k v] l IH]; intros m' Hnd H; cbn in H.
  - injection H as <-. split; [done|]. intros k v Hk. by apply elem_of_nil in Hk.
  - apply NoDup_cons in Hnd as [Hk Hnd]. fold (copyList l) in H.
    destruct (copyList l) as [m| |] eqn:E; cbn in H; [|done|done].
    destruct (IH m Hnd eq_refl) as [Hout Hin]. destruct (Z.eqb_spec k exclude) as [->|Hne].
    + injection H as <-. split.
      * intros j Hj. apply Hout. intros ?. apply Hj. by right.
      * intros j w [[= -> ->]|Hj]%elem_of_cons; [|by apply Hin].
        rewrite Z.eqb_refl. by apply Hout.
    + destruct (clone v) as [v'| |] eqn:Ev; cbn in H; [|done|done]. injection H as <-. split.
      * intros j Hj. cbn in Hj. apply not_elem_of_cons in Hj as [Hj1 Hj2].
        rewrite lookup_insert_ne by congruence. by apply Hout.
      * intros j w [[= -> ->]|Hj]%elem_of_cons.
        -- destruct (Z.eqb_spec k exclude); [done|]. exists v'. by rewrite lookup_insert_eq.
        -- assert (k <> j) by (intros ->; apply Hk; by apply (list_elem_of_fmap_2' _ _ (j, w))).
           specialize (Hin j w Hj). by rewrite lookup_insert_ne.
Qed.

Lemma copyMap_lookup m m' k : copyMap clone exclude m = Ret m' ->
  match m !! k with
  | Some v => if k =? exclude then m' !! k = None else ∃ v', clone v = Ret v' /\ m' !! k = Some v'
  | None => m' !! k = None
  end.
Proof.
  intros H. destruct (copyList_lookup (map_to_list m) m' (NoDup_fst_map_to_list m) H) as [Hout Hin].
  destruct (m !! k) as [v|] eqn:E; [apply Hin; by apply elem_of_map_to_list|].
  apply Hout. intros ([j v] & -> & Hj)%list_elem_of_fmap. apply elem_of_map_to_list in Hj. cbn in E. congruence.
Qed.

Lemma copyList_total l : (∀ k v, (k, v) ∈ l -> k <> exclude -> returns (clone v)) -> returns (copyList l).
Proof.
  induction l as [|[k v] l IH]; intros H; cbn; [eauto|]. fold (copyList l).
  destruct IH as [m ->]; [intros; eapply H; [by right|done]|]. cbn.
  destruct (Z.eqb_spec k exclude); [eauto|]. destruct (H k v) as [v' ->]; [left|done|]. cbn. eauto.
Qed.

Lemma copyMap_total m : (∀ k v, m !! k = Some v -> k <> exclude -> returns (clone v)) ->
  returns (copyMap clone exclude m).
Proof. intros H. apply (copyList_total (map_to_list m)). intros k v Hk%elem_of_map_to_list. by apply H. Qed.

(** Every value of the copy is the clone of the value it had. *)
Lemma copyMap_inv m m' k v' : copyMap clone exclude m = Ret m' -> m' !! k = Some v' ->
  k <> exclude /\ ∃ v, m !! k = Some v /\ clone v = Ret v'.
Proof.
  intros H Hk. pose proof (copyMap_lookup m m' k H) as Hl. destruct (m !! k) as [v|]; [|congruence].
  destruct (Z.eqb_spec k exclude); [congruence|]. destruct Hl as (w & Hw & Hl). split; [done|].
  exists v. split; [done|]. congruence.
Qed.

Lemma copyMap_is_Some m m' k : copyMap clone exclude m = Ret m' ->
  is_Some (m' !! k) <-> k <> exclude /\ is_Some (m !! k).
Proof.
  intros H. pose proof (copyMap_lookup m m' k H) as Hl. destruct (m !! k) as [v|].
  - destruct (Z.eqb_spec k exclude) as [->|Hne].
    + rewrite Hl. split; [by intros [? ?]|by intros [? _]].
    + destruct Hl as (v' & _ & ->). split; [eauto|by eauto].
  - rewrite Hl. split; [by intros [? ?]|by intros [_ [? ?]]].
Qed.

End Copy.

(** ** The invariant *)

(** The entries of a cluster: the servers exist, and the candidates of the balancer are the
    servers of the entries that are up. *)
Definition binds_ok (svrs : gmap Z serverRuntime) (b : binds) : Prop :=
  (∀ i, i ∈ servers b -> is_Some (svrs !! svrID i)) /\
  (∀ id, id ∈ map Server_ID (actives b) <-> ∃ i, i ∈ servers b /\ svrID i = id /\ status i = Up).

Section Inv.
Context {L : Type} `{!Balancers L} {env : Env} {node_sort : NodeSort} {sort : SortSlice}.
Implicit Type r : dispatcher L.

(** The keys of a map are the ids of its values, and not 0. *)
Definition keyed {A} (id : A -> Z) (m : gmap Z A) : Prop :=
  ∀ k v, m !! k = Some v -> k <> 0 /\ id v = k.

Definition server_id (s : serverRuntime) : Z := Server_ID (svr_meta s).
Definition api_id (a : apiRuntime) : Z := API_ID (a_meta a).
Definition cluster_id (c : clusterRuntime L) : Z := Cluster_ID (c_meta c).
Definition routing_id (c : routingRuntime) : Z := Routing_ID (r_meta c).

Record inv r : Prop := {
  inv_servers : keyed server_id (servers_ r);
  inv_apis : keyed api_id (apis r);
  inv_clusters : keyed cluster_id (clusters r);
  inv_routings : keyed routing_id (routings r);
  inv_lbs : ∀ k c, clusters r !! k = Some c -> balance_ok (c_lb c);
  inv_binds : ∀ k b, binds_ r !! k = Some b -> binds_ok (servers_ r) b
}.

(** *** Keyed maps *)

Lemma keyed_insert {A} (id : A -> Z) m k v : keyed id m -> k <> 0 -> id v = k -> keyed id (<[k := v]> m).
Proof.
  intros Hm Hk Hv j w Hj. apply lookup_insert_Some in Hj as [[<- <-]|[_ Hj]]; [done|by apply Hm].
Qed.

Lemma keyed_copy {A} (id : A -> Z) clone exclude m m' :
  (∀ v v', clone v = Ret v' -> id v' = id v) ->
  keyed id m -> copyMap clone exclude m = Ret m' -> keyed id m'.
Proof.
  intros Hc Hm H k v' Hk. destruct (copyMap_inv _ _ _ _ _ _ H Hk) as (_ & v & Hv & Hcv).
  destruct (Hm k v Hv) as [? Hid]. split; [done|]. rewrite <- Hid. by apply Hc.
Qed.

Lemma newServerRuntime_meta meta qps now s : newServerRuntime meta qps now = Ret s ->
  svr_meta s = meta /\ p_id (svr_p s) = Server_ID meta /\ p_activeQPS (svr_p s) = qps /\
  heathTimeout s = None /\ p_circuit (svr_p s) = Open.
Proof. unfold newServerRuntime. intros H. bind_inv H. by injection H as <-. Qed.

Lemma newAPIRuntime_meta meta qps now a : newAPIRuntime meta qps now = Ret a -> a_meta a = meta.
Proof.
  unfold newAPIRuntime. intros H. bind_inv H. bind_inv H. by injection H as <-.
Qed.

Lemma serverRuntime_clone_id now s s' : serverRuntime_clone s now = Ret s' -> server_id s' = server_id s.
Proof. intros H. apply newServerRuntime_meta in H as [H _]. unfold server_id. by rewrite H. Qed.

Lemma copyServers_keyed r exclude now m : keyed server_id (servers_ r) ->
  copyServers r exclude now = Ret m -> keyed server_id m.
Proof. intros Hk. apply keyed_copy; [apply serverRuntime_clone_id|done]. Qed.

(** Copying everything (key 0 is not in use). *)
Lemma copyServers_dom r now m k : keyed server_id (servers_ r) ->
  copyServers r 0 now = Ret m -> is_Some (m !! k) <-> is_Some (servers_ r !! k).
Proof.
  intros Hk H. rewrite (copyMap_is_Some _ _ _ _ _ H). split; [by intros [_ ?]|].
  intros [s Hs]. split; [by apply (Hk k s)|eauto].
Qed.

(** *** Entries of clusters *)

Lemma binds_ok_mono svrs svrs' b : (∀ k, is_Some (svrs !! k) -> is_Some (svrs' !! k)) ->
  binds_ok svrs b -> binds_ok svrs' b.
Proof. intros Hs [H1 H2]. split; [auto|done]. Qed.

(** Dropping every entry of the servers that fail a test. *)
Lemma binds_ok_filter svrs svrs' (keep : Z -> bool) b :
  (∀ k, keep k = true -> is_Some (svrs !! k) -> is_Some (svrs' !! k)) ->
  binds_ok svrs b ->
  binds_ok svrs' (mkBinds (filter (λ i, keep (svrID i)) (servers b))
                          (filter (λ s, keep (Server_ID s)) (actives b))).
Proof.
  intros Hs [H1 H2]. split; cbn [servers actives].
  - intros i [Hk Hi]%list_elem_of_filter. apply Hs; [by apply Is_true_eq_true|auto].
  - intros id. rewrite list_elem_of_fmap. split.
    + intros (s & -> & [Hk Hs']%list_elem_of_filter).
      destruct (proj1 (H2 (Server_ID s))) as (i & Hi & Hid & Hst); [by apply list_elem_of_fmap_2|].
      exists i. split_and!; [|done..]. apply list_elem_of_filter. split; [by rewrite Hid|done].
    + intros (i & [Hk Hi]%list_elem_of_filter & Hid & Hst).
      assert (Hin : id ∈ map Server_ID (actives b)) by (apply H2; eauto).
      apply list_elem_of_fmap in Hin as (s & Hs1 & Hs2). exists s. split; [done|].
      apply list_elem_of_filter. split; [|done]. by rewrite <- Hs1, <- Hid.
Qed.

Lemma copyBinds_lookup r exclude k b : copyBinds r exclude !! k = Some b ->
  ∃ b0, binds_ r !! k = Some b0 /\
    b = mkBinds (filter (λ i, kept exclude k (svrID i)) (servers b0))
                (filter (λ s, kept exclude k (Server_ID s)) (actives b0)).
Proof.
  unfold copyBinds. rewrite map_lookup_imap. intros (b0 & Hb0 & [= <-])%bind_Some. by exists b0.
Qed.

Lemma copyBinds_ok r exclude svrs :
  (∀ k s, kept exclude k s = true -> is_Some (servers_ r !! s) -> is_Some (svrs !! s)) ->
  (∀ k b, binds_ r !! k = Some b -> binds_ok (servers_ r) b) ->
  ∀ k b, copyBinds r exclude !! k = Some b -> binds_ok svrs b.
Proof.
  intros Hs Hb k b (b0 & Hb0 & ->)%copyBinds_lookup.
  apply (binds_ok_filter (servers_ r)); [by apply Hs|by apply (Hb k)].
Qed.

(** Copying with the empty exclusion: nothing is lost, since no server has the id 0. *)
Lemma copyBinds_all r : inv r -> copyBinds r (mkBind 0 0) = binds_ r.
Proof.
  intros H. apply map_eq. intros k. unfold copyBinds. rewrite map_lookup_imap.
  destruct (binds_ r !! k) as [b|] eqn:E; [|done]. cbn. f_equal.
  destruct (inv_binds r H k b E) as [H1 H2].
  assert (Hkept : ∀ s, is_Some (servers_ r !! s) -> kept (mkBind 0 0) k s = true).
  { intros s [rt Hs]. unfold kept. cbn. destruct (Z.eqb_spec s 0) as [->|]; [|done].
    by destruct (inv_servers r H 0 rt Hs). }
  assert (Hf : ∀ {A} (f : A -> Z) (l : list A), (∀ x, x ∈ l -> is_Some (servers_ r !! f x)) ->
    filter (λ x, kept (mkBind 0 0) k (f x)) l = l).
  { intros A f l Hl. induction l as [|x l IH]; [done|].
    rewrite filter_cons_True by (rewrite Hkept; [done|apply Hl; left]).
    f_equal. apply IH. intros y Hy. apply Hl. by right. }
  destruct b as [bs bas]. cbn in *. f_equal; [by apply Hf|]. apply Hf.
  intros s Hs. destruct (proj1 (H2 (Server_ID s))) as (i & Hi & Hid & _); [by apply list_elem_of_fmap_2|].
  rewrite <- Hid. auto.
Qed.

(** *** Every handler preserves the invariant *)

(** The part of the state the invariant is about. *)
Lemma inv_same r r' : servers_ r' = servers_ r -> apis r' = apis r -> clusters r' = clusters r ->
  routings r' = routings r -> binds_ r' = binds_ r -> inv r -> inv r'.
Proof. intros E1 E2 E3 E4 E5 H. destruct H. constructor; by rewrite ?E1, ?E2, ?E3, ?E4, ?E5. Qed.

(** Other servers under the same keys. *)
Lemma inv_set_servers r m : keyed server_id m -> (∀ k, is_Some (servers_ r !! k) -> is_Some (m !! k)) ->
  inv r -> inv (set_servers m r).
Proof.
  intros Hk Hd H. destruct H. constructor; cbn; [done..|].
  intros k b Hb. by eapply binds_ok_mono; [|eauto].
Qed.

Lemma is_Some_insert {A} (m : gmap Z A) k v j : is_Some (m !! j) -> is_Some (<[k := v]> m !! j).
Proof. intros H. apply lookup_insert_is_Some. destruct (decide (k = j)); auto. Qed.

Lemma addRouting_inv meta r e r' : Routing_ID meta <> 0 -> inv r -> addRouting meta r = Ret (e, r') -> inv r'.
Proof.
  intros Hid H. unfold addRouting. destruct (routings r !! _); [by intros [= _ <-]|].
  intros Hr. bind_inv Hr. injection Hr as _ <-. destruct H. constructor; cbn; [done..| |done|done].
  apply keyed_insert; [|done|done]. by eapply (keyed_copy routing_id); [|eauto|exact E]; intros ? ? [= <-].
Qed.

Lemma updateRouting_inv meta r e r' : Routing_ID meta <> 0 -> inv r -> updateRouting meta r = Ret (e, r') -> inv r'.
Proof.
  intros Hid H. unfold updateRouting. destruct (routings r !! _); [|by intros [= _ <-]].
  intros Hr. bind_inv Hr. destruct (a !! _); [|done].
  injection Hr as _ <-. destruct H. constructor; cbn; [done..| |done|done].
  apply keyed_insert; [|done|done]. by eapply (keyed_copy routing_id); [|eauto|exact E]; intros ? ? [= <-].
Qed.

Lemma removeRouting_inv id r e r' : inv r -> removeRouting id r = Ret (e, r') -> inv r'.
Proof.
  intros H. unfold removeRouting. destruct (routings r !! _); [|by intros [= _ <-]].
  intros Hr. bind_inv Hr. injection Hr as _ <-. destruct H. constructor; cbn; [done..| |done|done].
  by eapply (keyed_copy routing_id); [|eauto|exact E]; intros ? ? [= <-].
Qed.

(** Clusters: new ones come with a fresh balancer. *)
Lemma copyClusters_ok r exclude m : inv r -> copyClusters r exclude = Ret m ->
  keyed cluster_id m /\ ∀ k c, m !! k = Some c -> balance_ok (c_lb c).
Proof.
  intros H E. split.
  - eapply (keyed_copy cluster_id); [|by apply inv_clusters|exact E]. by intros ? ? [= <-].
  - intros k c Hk. destruct (copyMap_inv _ _ _ _ _ _ E Hk) as (_ & v & _ & [= <-]). apply newLB_ok.
Qed.

Lemma inv_set_clusters r m : keyed cluster_id m -> (∀ k c, m !! k = Some c -> balance_ok (c_lb c)) ->
  inv r -> inv (set_clusters m r).
Proof. intros Hk Hb H. destruct H. by constructor. Qed.

Lemma inv_insert_cluster r m k c : keyed cluster_id m ->
  (∀ k c, m !! k = Some c -> balance_ok (c_lb c)) ->
  k <> 0 -> cluster_id c = k -> balance_ok (c_lb c) -> inv r -> inv (set_clusters (<[k := c]> m) r).
Proof.
  intros Hm Hb Hk Hc Hok. apply inv_set_clusters; [by apply keyed_insert|].
  intros j d Hj. apply lookup_insert_Some in Hj as [[_ <-]|[_ Hj]]; [done|by eapply Hb].
Qed.

Lemma addCluster_inv meta r e r' : Cluster_ID meta <> 0 -> inv r -> addCluster meta r = Ret (e, r') -> inv r'.
Proof.
  intros Hid H. unfold addCluster. destruct (clusters r !! _); [by intros [= _ <-]|].
  intros Hr. bind_inv Hr. injection Hr as _ <-. destruct (copyClusters_ok _ _ _ H E).
  apply inv_insert_cluster; auto. apply newLB_ok.
Qed.

Lemma updateCluster_inv meta r e r' : Cluster_ID meta <> 0 -> inv r -> updateCluster meta r = Ret (e, r') -> inv r'.
Proof.
  intros Hid H. unfold updateCluster. destruct (clusters r !! _); [|by intros [= _ <-]].
  intros Hr. bind_inv Hr. destruct (a !! _); [|done]. injection Hr as _ <-.
  destruct (copyClusters_ok _ _ _ H E). apply inv_insert_cluster; auto. apply newLB_ok.
Qed.

Lemma inv_set_binds r m : (∀ k b, m !! k = Some b -> binds_ok (servers_ r) b) -> inv r -> inv (set_binds m r).
Proof. intros Hb H. destruct H. by constructor. Qed.

Lemma removeCluster_inv id r e r' : inv r -> removeCluster id r = Ret (e, r') -> inv r'.
Proof.
  intros H. unfold removeCluster. destruct (clusters r !! _); [|by intros [= _ <-]].
  intros Hr. bind_inv Hr. injection Hr as _ <-. destruct (copyClusters_ok _ _ _ H E).
  apply inv_set_clusters; [done|done|]. apply inv_set_binds; [|done].
  apply copyBinds_ok; [done|apply H].
Qed.

Lemma removeBind_inv bind r e r' : inv r -> removeBind bind r = Ret (e, r') -> inv r'.
Proof.
  intros H. unfold removeBind. destruct (servers_ r !! Bind_ServerID bind), (clusters r !! Bind_ClusterID bind); try (by intros [= _ <-]).
  intros [= _ <-]. apply inv_set_binds; [|done]. apply copyBinds_ok; [done|apply H].
Qed.

Lemma addBind_inv bind r e r' : inv r -> addBind bind r = Ret (e, r') -> inv r'.
Proof.
  intros H. unfold addBind. destruct (servers_ r !! _) as [server|] eqn:Es; [|by intros [= _ <-]].
  destruct (clusters r !! _); [|by intros [= _ <-]]. intros [= _ <-]. rewrite copyBinds_all by done.
  apply inv_set_binds; [|done]. intros k b Hk.
  apply lookup_insert_Some in Hk as [[_ <-]|[_ Hk]]; [|by eapply inv_binds].
  set (b0 := default _ _).
  assert (Hb0 : binds_ok (servers_ r) b0).
  { unfold b0. destruct (binds_ r !! Bind_ClusterID bind) as [b0'|] eqn:E; cbn; [by eapply inv_binds|].
    split; cbn; [intros ? Hi; by apply elem_of_nil in Hi|].
    intros id. split; [intros Hi; by apply elem_of_nil in Hi|intros (i & Hi & _); by apply elem_of_nil in Hi]. }
  destruct (inv_servers r H _ _ Es) as [_ Hid]. unfold server_id in Hid.
  destruct Hb0 as [H1 H2]. set (st := match Server_HeathCheck _ with None => Up | Some _ => Unknown end).
  split; cbn [servers actives].
  - intros i [Hi| ->%list_elem_of_singleton]%elem_of_app; [auto|]. cbn. eauto.
  - intros id. assert (Hsplit : (∃ i, i ∈ servers b0 ++ [mkBindInfo (Bind_ServerID bind) st] /\ svrID i = id /\ status i = Up) <->
      (∃ i, i ∈ servers b0 /\ svrID i = id /\ status i = Up) \/ (id = Bind_ServerID bind /\ st = Up)).
    { split.
      - intros (i & [Hi| ->%list_elem_of_singleton]%elem_of_app & Hsi & Hst); [left; eauto|by right].
      - intros [(i & Hi & Hsi & Hst)|[-> Hst]].
        + exists i. split; [|done]. apply elem_of_app. by left.
        + eexists. split; [apply elem_of_app; right; by apply list_elem_of_singleton|done]. }
    rewrite Hsplit, <- H2. destruct (decide (st = Up)) as [Hst|Hst].
    + rewrite bool_decide_true by done. rewrite map_app, elem_of_app. cbn.
      rewrite list_elem_of_singleton, Hid. split; intros [?|?]; destruct_and?; auto.
    + rewrite bool_decide_false by done. split; [by left|]. by intros [?|[_ ?]].
Qed.

Lemma inv_addAnalysis id cb r : inv r -> inv (addAnalysis id cb r).
Proof. by apply inv_same. Qed.

(** Servers.  The health-check queue, the timers and the analysis are outside the invariant. *)
Lemma inv_set_timers ts n r : inv r -> inv (set_timers ts n r).
Proof. by apply inv_same. Qed.

(** The copied servers with one more, or one anew. *)
Lemma inv_insert_server r m k s : keyed server_id m -> (∀ j, is_Some (servers_ r !! j) -> is_Some (m !! j)) ->
  k <> 0 -> server_id s = k -> inv r -> inv (set_servers (<[k := s]> m) r).
Proof.
  intros Hm Hd Hk Hs H. apply inv_set_servers; [by apply keyed_insert| |done].
  intros j Hj. apply is_Some_insert. auto.
Qed.

Lemma addServer_inv svr now r e r' : Server_ID svr <> 0 -> inv r -> addServer svr now r = Ret (e, r') -> inv r'.
Proof.
  intros Hid H. unfold addServer. destruct (servers_ r !! _); [by intros [= _ <-]|].
  intros Hr. bind_inv Hr. bind_inv Hr. apply newServerRuntime_meta in E0 as [Hmeta _].
  injection Hr as _ <-.
  apply inv_insert_server; [by eapply copyServers_keyed; [apply H|]| |done| |by apply (inv_same r)].
  - intros j. cbn. by rewrite (copyServers_dom r now _ j (inv_servers r H) E).
  - unfold server_id. cbn. by rewrite Hmeta.
Qed.

Lemma updateServer_inv meta now r e r' : Server_ID meta <> 0 -> inv r ->
  updateServer meta now r = Ret (e, r') -> inv r'.
Proof.
  intros Hid H. unfold updateServer. destruct (servers_ r !! _) as [old|]; [|by intros [= _ <-]].
  set (r0 := set_timers _ _ r). assert (H0 : inv r0) by (by apply inv_set_timers).
  intros Hr. bind_inv Hr. destruct (a !! Server_ID meta) as [cl|]; [|done].
  bind_inv Hr. destruct a0 as [s ts]. unfold serverRuntime_updateMeta in E0. bind_inv E0.
  injection E0 as -> <-. apply newServerRuntime_meta in E1 as [Hmeta _]. injection Hr as _ <-.
  apply inv_insert_server; [by eapply copyServers_keyed; [apply H0|]| |done| |by apply (inv_same r)].
  - intros j. cbn. by rewrite (copyServers_dom r0 now _ j (inv_servers _ H0) E).
  - unfold server_id. cbn. by rewrite Hmeta.
Qed.

Lemma removeServer_inv id now r e r' : inv r -> removeServer id now r = Ret (e, r') -> inv r'.
Proof.
  intros H. unfold removeServer. destruct (servers_ r !! _) as [old|]; [|by intros [= _ <-]].
  set (r0 := set_timers _ _ r). assert (H0 : inv r0) by (by apply inv_set_timers).
  intros Hr. bind_inv Hr. injection Hr as _ <-.
  pose proof (copyServers_keyed r0 id now a (inv_servers _ H0) E) as Hk.
  destruct H0. constructor; cbn; [done..|].
  apply copyBinds_ok; [|done]. intros k s Hs [rt Hrt].
  apply (copyMap_is_Some _ _ _ _ _ E). split; [|eauto].
  unfold kept in Hs. cbn in Hs. rewrite Z.eqb_refl, orb_false_r in Hs.
  by apply negb_true_iff, Z.eqb_neq in Hs.
Qed.

(** APIs. *)
Lemma copyAPIsLoop_keyed m exclude ex2 now order : ∀ rt values rt' values',
  keyed api_id m -> keyed api_id values ->
  copyAPIsLoop m exclude ex2 now order rt values = Ret (rt', values') -> keyed api_id values'.
Proof.
  induction order as [|k order IH]; intros rt values rt' values' Hm Hv H; cbn in H; [by injection H as _ <-|].
  destruct (m !! k) as [v|] eqn:Ek; [|by eapply IH].
  destruct (k =? exclude); [by eapply IH|]. bind_inv H. bind_inv H.
  eapply (IH _ _ _ _ Hm _ H). Unshelve. destruct (Hm k v Ek) as [H1 H2].
  apply keyed_insert; [done..|]. apply newAPIRuntime_meta in E. unfold api_id in *. congruence.
Qed.

Lemma copyAPIs_keyed r exclude ex2 now order rt m : inv r ->
  copyAPIs r exclude ex2 now order = Ret (rt, m) -> keyed api_id m.
Proof. intros H. apply copyAPIsLoop_keyed; [apply H|by intros ? ? ?%lookup_empty_Some]. Qed.

Lemma inv_set_apis rt m r : keyed api_id m -> inv r -> inv (set_apis rt m r).
Proof. intros Hm H. destruct H. by constructor. Qed.

Lemma addAPI_inv api order now r e r' : API_ID api <> 0 -> inv r -> addAPI api order now r = Ret (e, r') -> inv r'.
Proof.
  intros Hid H. unfold addAPI. destruct (apis r !! _); [by intros [= _ <-]|].
  intros Hr. bind_inv Hr. bind_inv Hr. destruct a0 as [rt m]. bind_inv Hr.
  destruct a0 as [err|rt']; [by injection Hr as _ <-|]. injection Hr as _ <-.
  apply newAPIRuntime_meta in E. apply inv_set_apis.
  - apply keyed_insert; [by eapply copyAPIs_keyed|done|]. unfold api_id. by rewrite E.
  - destruct (p_cb (a_p a)); [by apply inv_addAnalysis|done].
Qed.

Lemma updateAPI_inv api order now r e r' : API_ID api <> 0 -> inv r ->
  updateAPI api order now r = Ret (e, r') -> inv r'.
Proof.
  intros Hid H. unfold updateAPI. destruct (apis r !! _) as [old|]; [|by intros [= _ <-]].
  intros Hr. bind_inv Hr. destruct a as [rt m]. destruct (m !! API_ID api) as [cl|]; [|done].
  bind_inv Hr. bind_inv Hr. destruct a0 as [err|rt']; [by injection Hr as _ <-|]. injection Hr as _ <-.
  apply newAPIRuntime_meta in E0. apply inv_set_apis.
  - apply keyed_insert; [by eapply copyAPIs_keyed|done|]. unfold api_id. by rewrite E0.
  - destruct (p_cb (a_p a)); [by apply inv_addAnalysis|done].
Qed.

Lemma removeAPI_inv id order now r e r' : inv r -> removeAPI id order now r = Ret (e, r') -> inv r'.
Proof.
  intros H. unfold removeAPI. destruct (apis r !! _) as [old|]; [|by intros [= _ <-]].
  intros Hr. bind_inv Hr. destruct a as [rt m]. injection Hr as _ <-.
  apply inv_set_apis; [by eapply copyAPIs_keyed|done].
Qed.

(** Proxies: every server and API is rebuilt in place. *)
Lemma refreshServers_inv order now : ∀ r r', inv r -> refreshServers order now r = Ret r' -> inv r'.
Proof.
  induction order as [|id order IH]; intros r r' H Hr; cbn in Hr; [by injection Hr as <-|].
  destruct (servers_ r !! id) as [s|] eqn:Es; [|by eapply IH].
  bind_inv Hr. destruct a as [s1 ts]. unfold serverRuntime_updateMeta in E. bind_inv E.
  injection E as -> <-. apply newServerRuntime_meta in E0 as [Hmeta _].
  eapply IH; [|exact Hr]. destruct (inv_servers r H id s Es) as [H1 H2].
  apply (inv_same (set_servers (<[id := fst (addToCheck s1 r)]> (servers_ r)) r)); try done.
  apply inv_insert_server; [apply H|done|done|cbn; unfold server_id in *; cbn; congruence|done].
Qed.

Lemma refreshAPIs_inv order now : ∀ r r', inv r -> refreshAPIs order now r = Ret r' -> inv r'.
Proof.
  induction order as [|id order IH]; intros r r' H Hr; cbn in Hr; [by injection Hr as <-|].
  destruct (apis r !! id) as [a|] eqn:Ea; [|by eapply IH].
  bind_inv Hr. apply newAPIRuntime_meta in E. eapply IH; [|exact Hr].
  destruct (inv_apis r H id a Ea) as [H1 H2]. apply inv_set_apis; [|done].
  apply keyed_insert; [apply H|done|]. unfold api_id in *. congruence.
Qed.

Lemma refreshAllQPS_inv so ao now r r' : inv r -> refreshAllQPS so ao now r = Ret r' -> inv r'.
Proof.
  intros H. unfold refreshAllQPS. intros Hr. bind_inv Hr.
  eapply refreshAPIs_inv; [|exact Hr]. by eapply refreshServers_inv.
Qed.

Lemma doProxyEvent_inv t key value o now r e r' : inv r -> doProxyEvent t key value o now r = Ret (e, r') -> inv r'.
Proof.
  intros H. assert (Hp : ∀ m, inv (set_proxies m r)) by (intros m; by apply (inv_same r)).
  unfold doProxyEvent, addProxy, removeProxy. destruct t; [|by intros [= _ <-]|].
  - destruct (proxies r !! _); [by intros [= _ <-]|]. intros Hr. bind_inv Hr. injection Hr as _ <-.
    by eapply refreshAllQPS_inv; [|exact E].
  - destruct (proxies r !! _); [|by intros [= _ <-]]. intros Hr. bind_inv Hr. injection Hr as _ <-.
    by eapply refreshAllQPS_inv; [|exact E].
Qed.

(** Health status. *)
Lemma changeStatus_ok svrs value b : binds_ok svrs b -> binds_ok svrs (changeStatus value b).
Proof.
  intros [H1 H2]. unfold changeStatus. set (id := Server_ID (sc_meta value)).
  set (upd := λ i, if svrID i =? id then mkBindInfo (svrID i) (sc_status value) else i).
  assert (Hupd : ∀ i, svrID (upd i) = svrID i) by (intros i; unfold upd; by destruct (svrID i =? id)).
  assert (Hin : ∀ j, j ∈ map upd (servers b) <-> ∃ i, i ∈ servers b /\ j = upd i).
  { intros j. rewrite list_elem_of_fmap. split; intros (i & ? & ?); eauto. }
  assert (Hsome : ∀ j, j ∈ map upd (servers b) -> is_Some (svrs !! svrID j)).
  { intros j (i & Hi & ->)%Hin. rewrite Hupd. auto. }
  assert (Hother : ∀ k, k <> id ->
    (∃ i, i ∈ map upd (servers b) /\ svrID i = k /\ status i = Up) <->
    (∃ i, i ∈ servers b /\ svrID i = k /\ status i = Up)).
  { intros k Hk. split.
    - intros (j & (i & Hi & ->)%Hin & Hid & Hst). rewrite Hupd in Hid. exists i. split_and!; [done..|].
      unfold upd in Hst. destruct (Z.eqb_spec (svrID i) id); [congruence|done].
    - intros (i & Hi & Hid & Hst). exists (upd i). rewrite Hupd. split_and!; [apply Hin; eauto|done|].
      unfold upd. destruct (Z.eqb_spec (svrID i) id); [congruence|done]. }
  destruct (existsb (λ i, svrID i =? id) (servers b)) eqn:Ex.
  - apply existsb_exists in Ex as (i0 & Hi0%list_elem_of_In & Hid0%Z.eqb_eq).
    split; cbn [servers actives]; [done|]. intros k. rewrite list_elem_of_fmap.
    destruct (decide (k = id)) as [->|Hk].
    + split.
      * intros (s & Hs & [Hf Hs']%list_elem_of_filter). rewrite <- Hs, Z.eqb_refl in Hf. cbn in Hf.
        apply Is_true_eq_true, bool_decide_eq_true in Hf.
        exists (upd i0). rewrite Hupd. split_and!; [apply Hin; eauto|done|].
        unfold upd. rewrite Hid0, Z.eqb_refl. done.
      * intros (j & (i & Hi & ->)%Hin & Hid & Hst). rewrite Hupd in Hid.
        unfold upd in Hst. rewrite Hid, Z.eqb_refl in Hst. cbn in Hst.
        exists (sc_meta value). split; [done|]. apply list_elem_of_filter. split.
        -- rewrite Hst. by rewrite bool_decide_true, orb_true_r.
        -- apply elem_of_app. right. by apply list_elem_of_singleton.
    + rewrite Hother, <- H2 by done. rewrite list_elem_of_fmap. split.
      * intros (s & -> & [Hf Hs]%list_elem_of_filter). exists s. split; [done|].
        apply elem_of_app in Hs as [?| ->%list_elem_of_singleton]; done.
      * intros (s & -> & Hs). exists s. split; [done|]. apply list_elem_of_filter. split.
        -- destruct (Z.eqb_spec (Server_ID s) id); done.
        -- apply elem_of_app. by left.
  - assert (Hno : ∀ i, i ∈ servers b -> upd i = i).
    { intros i Hi. unfold upd. destruct (Z.eqb_spec (svrID i) id) as [E|]; [|done].
      assert (existsb (λ i, svrID i =? id) (servers b) = true); [|congruence].
      apply existsb_exists. exists i. split; [by apply list_elem_of_In|by apply Z.eqb_eq]. }
    replace (map upd (servers b)) with (servers b); [by destruct b|].
    clear -Hno. induction (servers b) as [|i l IH]; [done|]. cbn. rewrite (Hno i) by left. f_equal.
    apply IH. intros. apply Hno. by right.
Qed.

Lemma doStatusChangedEvent_inv value order r : inv r -> inv (doStatusChangedEvent value order r).
Proof.
  intros H. unfold doStatusChangedEvent. destruct (bool_decide _); [done|].
  apply inv_set_binds; [|done]. rewrite copyBinds_all by done.
  intros k b Hk. rewrite lookup_fmap in Hk. apply fmap_Some in Hk as (b0 & Hb0 & ->).
  apply changeStatus_ok. by eapply inv_binds.
Qed.

(** *** Events *)

(** The ids the messages of an event bring are not 0; a delete event brings no message. *)
Definition wf_evt (evt : Evt) : Prop :=
  match evt with
  | EvtRouting EventTypeDelete _ _ | EvtAPI EventTypeDelete _ _
  | EvtCluster EventTypeDelete _ _ | EvtServer EventTypeDelete _ _ => True
  | EvtRouting _ _ m => Routing_ID m <> 0
  | EvtAPI _ _ m => API_ID m <> 0
  | EvtCluster _ _ m => Cluster_ID m <> 0
  | EvtServer _ _ m => Server_ID m <> 0
  | _ => True
  end.

Lemma handle_inv evt o now r e r' : wf_evt evt -> inv r -> handle evt o now r = Ret (e, r') -> inv r'.
Proof.
  intros Hw H. destruct evt as [t k v|t k v|t k v|t k v|t k v|t v|v]; cbn [handle wf_evt] in *.
  - destruct t; [by apply addRouting_inv|by apply updateRouting_inv|by apply removeRouting_inv].
  - by apply doProxyEvent_inv.
  - destruct t; [by apply addAPI_inv|by apply updateAPI_inv|by apply removeAPI_inv].
  - destruct t; [by apply addCluster_inv|by apply updateCluster_inv|by apply removeCluster_inv].
  - destruct t; [by apply addServer_inv|by apply updateServer_inv|by apply removeServer_inv].
  - destruct t; [by apply addBind_inv|by intros [= _ <-]|by apply removeBind_inv].
  - intros [= _ <-]. by apply doStatusChangedEvent_inv.
Qed.

(** *** Health checks *)

Lemma scheduleCheck_inv limit id s s0 r : servers_ r !! id = Some s0 -> svr_meta s = svr_meta s0 ->
  inv r -> inv (scheduleCheck limit id s r).
Proof.
  intros Hs Hm H. destruct (inv_servers r H id s0 Hs) as [H1 H2]. unfold scheduleCheck.
  destruct (Server_HeathCheck (svr_meta s)) as [hc|].
  - apply inv_set_timers. apply inv_insert_server; [apply H|done|done| |done]. unfold server_id in *. cbn. congruence.
  - apply inv_insert_server; [apply H|done|done| |done]. unfold server_id in *. congruence.
Qed.

(** The answer of a healthy server: status 200, and the body asked for, if any. *)
Definition healthy (hc : HeathCheck) (resp : option (Z * bytes)) : bool :=
  match resp with
  | None => false
  | Some (code, body) => (code =? 200) && (bytes_eqb (HeathCheck_Body hc) [] || bytes_eqb (HeathCheck_Body hc) body)
  end.

Lemma doCheck_spec hc resp s ok s' : Server_HeathCheck (svr_meta s) = Some hc -> doCheck resp s = Ret (ok, s') ->
  ok = healthy hc resp /\ svr_meta s' = svr_meta s.
Proof.
  intros Hh. unfold doCheck, reset, healthy. rewrite Hh. destruct resp as [[code body]|]; [|by intros [= <- <-]].
  rewrite (Z.eqb_sym 200). destruct (code =? 200); cbn; [|by intros [= <- <-]].
  destruct (bytes_eqb (HeathCheck_Body hc) []), (bytes_eqb (HeathCheck_Body hc) body); by intros [= <- <-].
Qed.

Lemma doCheck_returns hc resp s : Server_HeathCheck (svr_meta s) = Some hc -> returns (doCheck resp s).
Proof.
  intros Hh. unfold doCheck, reset. rewrite Hh. destruct resp as [[code body]|]; [|by eexists].
  destruct (negb (200 =? code)); [by eexists|]. destruct (negb _ && negb _); by eexists.
Qed.

Lemma check_inv id ok limit order r ev r' : inv r -> check id ok limit order r = Ret (ev, r') -> inv r'.
Proof.
  intros H. unfold check. destruct (servers_ r !! id) as [s|] eqn:Es; [|by intros [= _ <-]].
  destruct (Server_HeathCheck (svr_meta s)) as [hc|] eqn:Eh.
  - intros Hr. bind_inv Hr. destruct a as [okr s']. injection Hr as _ <-.
    apply doCheck_spec with (hc := hc) in E as [_ E]; [|done]. by apply (scheduleCheck_inv _ _ _ s).
  - intros [= _ <-]. by apply (scheduleCheck_inv _ _ _ s).
Qed.

Lemma heathCheckTimeout_inv h id r : inv r -> inv (heathCheckTimeout h id r).
Proof.
  intros H. unfold heathCheckTimeout. cbn. destruct (servers_ r !! id); by apply (inv_same r).
Qed.

(** *** Requests: they change balancers and barriers only *)

Lemma selectServerFromCluster_inv ctx id r res r' : inv r ->
  selectServerFromCluster ctx id r = Ret (res, r') ->
  inv r' /\ servers_ r' = servers_ r /\ binds_ r' = binds_ r /\ apis r' = apis r /\ route r' = route r.
Proof.
  intros H. unfold selectServerFromCluster. destruct (clusters r !! id) as [c|] eqn:Ec; [|by intros [= _ <-]].
  destruct (binds_ r !! id) as [b|]; [|by intros [= _ <-]]. intros Hr. unfold selectServer in Hr.
  destruct (balance (c_lb c) ctx (actives b)) as [[sid lb]| |] eqn:E; cbn in Hr; [|done|done].
  injection Hr as _ <-. split; [|done].
  destruct (balance_member _ _ _ _ _ (inv_lbs r H id c Ec) E) as [Hok _].
  destruct (inv_clusters r H id c Ec) as [H1 H2].
  apply inv_insert_cluster; [apply H|apply H|done|done|done|done].
Qed.

Lemma inv_set_routings m r : keyed routing_id m -> inv r -> inv (set_routings m r).
Proof. intros Hm H. destruct H. by constructor. Qed.

Lemma adjustByRouting_inv order apiID ctx req dn : ∀ r dn' r', inv r ->
  adjustByRouting order apiID ctx req dn r = Ret (dn', r') -> inv r'.
Proof.
  induction order as [|k order IH]; intros r dn' r' H Hr; cbn in Hr; [by injection Hr as _ <-|].
  destruct (routings r !! k) as [rt|] eqn:Ek; [|by eapply IH].
  destruct (routingRuntime_isUp rt); cbn [negb] in Hr; [|by eapply IH].
  destruct (routingRuntime_matches rt apiID req) as [[m rt']| |] eqn:E; cbn in Hr; [|done|done].
  assert (Hrt : r_meta rt' = r_meta rt).
  { unfold routingRuntime_matches in E. destruct (_ && _); [by injection E as _ <-|].
    bind_inv E. destruct a; cbn in E; [|by injection E as _ <-].
    bind_inv E. destruct a. by injection E as _ <-. }
  assert (H1 : inv (set_routings (<[k:=rt']> (routings r)) r)).
  { destruct (inv_routings r H k rt Ek) as [H1 H2]. apply inv_set_routings; [|done].
    apply keyed_insert; [apply H|done|]. unfold routing_id in *. congruence. }
  destruct m; cbn [negb] in Hr; [|by eapply IH].
  destruct (selectServerFromCluster _ _ _) as [[svr r1]| |] eqn:Es; cbn in Hr; [|done|done].
  injection Hr as _ <-. by eapply selectServerFromCluster_inv.
Qed.

Lemma dispatchNodes_inv order apiID ctx req nodes : ∀ idx r dns r', inv r ->
  dispatchNodes order apiID ctx req idx nodes r = Ret (dns, r') -> inv r'.
Proof.
  induction nodes as [|n nodes IH]; intros idx r dns r' H Hr; cbn in Hr; [by injection Hr as _ <-|].
  unfold dispatcher_selectServer in Hr.
  destruct (selectServerFromCluster _ _ _) as [[d r1]| |] eqn:E1; cbn in Hr; [|done|done].
  destruct (adjustByRouting _ _ _ _ _ _) as [[dn r2]| |] eqn:E2; cbn in Hr; [|done|done].
  destruct (dispatchNodes _ _ _ _ _ _ _) as [[rest r3]| |] eqn:E3; cbn in Hr; [|done|done].
  injection Hr as _ <-. eapply IH; [|exact E3]. eapply adjustByRouting_inv; [|exact E2].
  by eapply selectServerFromCluster_inv.
Qed.

Lemma dispatch_inv order ctx req r res r' : inv r -> dispatch order ctx req r = Ret (res, r') -> inv r'.
Proof.
  intros H. unfold dispatch. destruct (targetAPI req r) as [[t ps]| |]; cbn; [|done|done].
  destruct t as [api|]; [|by intros [= _ <-]]. destruct (API_UseDefault _); [by intros [= _ <-]|].
  destruct (dispatchNodes _ _ _ _ _ _ _) as [[dns r1]| |] eqn:E; cbn; [|done|done].
  intros [= _ <-]. by eapply dispatchNodes_inv.
Qed.

(** ** The gateway as a state machine

    The dispatcher with the status messages the health-check workers are blocked on.  The
    event loop, the workers, the timers and the requests interleave. *)
Record system := mkSystem { disp : dispatcher L; pending : list statusChanged }.

(** The keys of a map, in some order. *)
Definition keys {A} (m : gmap Z A) : list Z := (map_to_list m).*1.

(** Orders in which a [range] can visit the maps of a state. *)
Definition orders_ok (o : orders) r : Prop :=
  svrOrder o ≡ₚ keys (servers_ r) /\ apiOrder o ≡ₚ keys (apis r) /\ bindOrder o ≡ₚ keys (binds_ r).

Definition some_orders r : orders := mkOrders (keys (servers_ r)) (keys (apis r)) (keys (binds_ r)).

Inductive step : system -> system -> Prop :=
| step_store evt o now r p e r' :
    wf_evt evt -> (∀ v, evt <> EvtStatusChanged v) -> orders_ok o r -> handle evt o now r = Ret (e, r') ->
    step (mkSystem r p) (mkSystem r' p)
| step_status v o now r p1 p2 e r' :
    orders_ok o r -> handle (EvtStatusChanged v) o now r = Ret (e, r') ->
    step (mkSystem r (p1 ++ v :: p2)) (mkSystem r' (p1 ++ p2))
| step_check id q ok limit order r p ev r' :
    checkerC r = id :: q -> order ≡ₚ keys (binds_ r) ->
    check id ok limit order (set_checkerC q r) = Ret (ev, r') ->
    step (mkSystem r p) (mkSystem r' (p ++ option_list ev))
| step_timer h id r p :
    timers_ r !! h = Some id -> step (mkSystem r p) (mkSystem (heathCheckTimeout h id r) p)
| step_request order ctx req r p res r' :
    order ≡ₚ keys (routings r) -> dispatch order ctx req r = Ret (res, r') ->
    step (mkSystem r p) (mkSystem r' p).

(** The states the gateway can be in. *)
Inductive reachable : system -> Prop :=
| reachable_init : reachable (mkSystem newDispatcher [])
| reachable_step s s' : reachable s -> step s s' -> reachable s'.

Lemma step_inv s s' : step s s' -> inv (disp s) -> inv (disp s').
Proof.
  intros Hs H. destruct Hs as [evt o now r p e r' Hw _ _ Hh|v o now r p1 p2 e r' _ Hh
    |id q ok limit order r p ev r' _ _ Hc|h id r p _|order ctx req r p res r' _ Hd]; cbn in *.
  - by eapply handle_inv.
  - exact (handle_inv (EvtStatusChanged v) o now _ _ _ I H Hh).
  - eapply check_inv; [|exact Hc]. by apply (inv_same r).
  - by apply heathCheckTimeout_inv.
  - by eapply dispatch_inv.
Qed.

Lemma inv_init : inv newDispatcher.
Proof. constructor; cbn; by intros ? ? ?%lookup_empty_Some. Qed.

Lemma reachable_ok s : reachable s -> inv (disp s).
Proof. induction 1 as [|s s' _ IH Hs]; [exact inv_init|by eapply step_inv]. Qed.

Lemma some_orders_ok r : orders_ok (some_orders r) r.
Proof. split; [reflexivity|split; reflexivity]. Qed.

(** A run of store events, each visiting the maps in the order of [map_to_list]. *)
Fixpoint run (evts : list Evt) (now : Z) r : outcome (dispatcher L) :=
  match evts with
  | [] => Ret r
  | evt :: evts => '(_, r) ← handle evt (some_orders r) now r; run evts now r
  end.

Definition store_evt (evt : Evt) : Prop := wf_evt evt /\ ∀ v, evt <> EvtStatusChanged v.

Lemma run_reachable evts now : ∀ r r' p, Forall store_evt evts -> run evts now r = Ret r' ->
  reachable (mkSystem r p) -> reachable (mkSystem r' p).
Proof.
  induction evts as [|evt evts IH]; intros r r' p He Hr Hs; [by injection Hr as <-|].
  apply Forall_cons in He as [[Hw Hn] He]. cbn [run] in Hr.
  destruct (handle evt (some_orders r) now r) as [[e r1]| |] eqn:E; cbn in Hr; [|done|done].
  eapply IH; [done|exact Hr|]. eapply reachable_step; [exact Hs|].
  eapply step_store; [done|done|apply some_orders_ok|exact E].
Qed.

(** A server of the cluster that is up. *)
Definition up_in (r : dispatcher L) (cluster id : Z) : Prop :=
  ∃ b i, binds_ r !! cluster = Some b /\ i ∈ servers b /\ svrID i = id /\ status i = Up.

Lemma select_spec ctx cid r res r' : inv r -> selectServerFromCluster ctx cid r = Ret (res, r') ->
  match res with
  | Some s => servers_ r !! server_id s = Some s /\ up_in r cid (server_id s)
  | None => clusters r !! cid = None \/ ∀ id, ¬ up_in r cid id
  end.
Proof.
  intros H. unfold selectServerFromCluster. destruct (clusters r !! cid) as [c|] eqn:Ec.
  2: { intros [= <- _]. by left. }
  destruct (binds_ r !! cid) as [b|] eqn:Eb.
  2: { intros [= <- _]. right. intros id (b & i & Hb & _). congruence. }
  unfold selectServer. destruct (balance (c_lb c) ctx (actives b)) as [[sid lb]| |] eqn:E; cbn; [|done|done].
  intros [= <- _]. destruct (balance_member _ _ _ _ _ (inv_lbs r H cid c Ec) E) as (_ & Hnil & Hcons).
  destruct (inv_binds r H cid b Eb) as [H1 H2].
  destruct (decide (actives b = [])) as [Ha|Ha].
  - rewrite (Hnil Ha). destruct (servers_ r !! 0) as [s|] eqn:E0; [by destruct (inv_servers r H 0 s E0)|].
    right. intros id (b' & i & Hb' & Hi & Hid & Hst). assert (b' = b) as -> by congruence.
    assert (Hin : id ∈ map Server_ID (actives b)) by (apply H2; eauto).
    rewrite Ha in Hin. by apply elem_of_nil in Hin.
  - apply H2 in Hcons as (i & Hi & Hid & Hst); [|done]. destruct (H1 i Hi) as [s Hs].
    rewrite Hid in Hs. rewrite Hs. destruct (inv_servers r H _ s Hs) as [_ Hsid]. rewrite Hsid.
    split; [done|]. by exists b, i.
Qed.

End Inv.
