(* ===== verification/DispatcherSpec.v ===== *)
(** What the dispatcher promises: its handlers refine plain maps of messages, the servers
    it selects are up, health checks converge, rates are shared. *)
From stdpp Require Import sorting.
From S2P Require Import Prelude Meta RouteTable Matching Expr RateLimit Lbs Counters Runtime Dispatcher DispatcherInv.

(** ** Instances for examples *)

#[export] Instance lb_balancers : Balancers lb := {| newLB := NewLoadBalance; newLB_ok _ := I |}.

Definition batch_le (x y : apiNode) : Prop := batchIndex x <= batchIndex y.
#[export] Instance batch_le_dec x y : Decision (batch_le x y).
Proof. unfold batch_le. apply _. Defined.

#[export] Program Instance node_merge_sort : NodeSort := {| sortNodes := merge_sort batch_le |}.
Next Obligation. intros l. apply merge_sort_Permutation. Qed.
Next Obligation.
  intros l _. assert (Ht : Total batch_le) by (intros x y; unfold batch_le; lia).
  induction (Sorted_merge_sort batch_le l) as [|x l' _ IH Hx]; cbn; constructor; [done|].
  destruct Hx; by constructor.
Qed.

(** No regular expressions, an unshuffled source. *)
Definition plain_env : Env :=
  {| MatchString _ _ := None; MustCompile _ := None; createRandSourceByBase := seqZ 0 |}.

(** ** The reachable states *)

Section Reachable.
Context {L : Type} `{!Balancers L} {env : Env} {node_sort : NodeSort} {sort : SortSlice}.

(** C10: in every reachable state the maps are keyed by the ids of their messages, every
    entry of a cluster is for a server that exists, and the candidates handed to the
    balancer are exactly the servers with an entry that is up. *)
Theorem reachable_inv : ∀ s : system, reachable s -> inv (disp s).
Proof. exact reachable_ok. Qed.

(** C6: a server selected from a cluster exists and is up in that cluster; none is selected
    only if the cluster does not exist or has no server that is up. *)
Theorem select_up : ∀ (s : system) ctx cid res r',
  reachable s -> selectServerFromCluster ctx cid (disp s) = Ret (res, r') ->
  match res with
  | Some svr => servers_ (disp s) !! server_id svr = Some svr /\ up_in (disp s) cid (server_id svr)
  | None => clusters (disp s) !! cid = None \/ ∀ id, ¬ up_in (disp s) cid id
  end.
Proof. intros s ctx cid res r' Hs. apply select_spec. by apply reachable_ok. Qed.

(** *** The targets of a request *)

Implicit Type r : dispatcher L.

(** What selecting servers for a request leaves alone. *)
Definition same_view r r' : Prop :=
  servers_ r' = servers_ r /\ binds_ r' = binds_ r /\
  ∀ k, r_meta <$> routings r' !! k = r_meta <$> routings r !! k.

Lemma same_view_trans r1 r2 r3 : same_view r1 r2 -> same_view r2 r3 -> same_view r1 r3.
Proof. intros (H1 & H2 & H3) (H4 & H5 & H6). split_and!; [congruence..|]. intros k. by rewrite H6. Qed.

(** An active routing with this strategy that takes requests of the API to the cluster. *)
Definition routed r (apiID : Z) (strategy : RoutingStrategy) (c : Z) : Prop :=
  ∃ k m, r_meta <$> routings r !! k = Some m /\ Routing_Status m = Up /\
    (Routing_API m <= 0 \/ Routing_API m = apiID) /\ Routing_Strategy m = strategy /\ Routing_ClusterID m = c.

(** A selected server exists and is up in one of the clusters allowed. *)
Definition target_ok (allowed : Z -> Prop) r (o : option serverRuntime) : Prop :=
  ∀ svr, o = Some svr ->
    servers_ r !! server_id svr = Some svr /\ ∃ c, allowed c /\ up_in r c (server_id svr).

Lemma target_ok_mono (P Q : Z -> Prop) r o : (∀ c, P c -> Q c) -> target_ok P r o -> target_ok Q r o.
Proof. intros HPQ H svr Hs. destruct (H svr Hs) as (? & c & ? & ?). eauto. Qed.

Lemma target_ok_view P r r' o : same_view r r' -> target_ok P r' o -> target_ok P r o.
Proof.
  intros (H1 & H2 & _) H svr Hs. destruct (H svr Hs) as (Hs' & c & Hc & Hu). rewrite <- H1.
  split; [done|]. exists c. split; [done|]. unfold up_in in *. by rewrite <- H2.
Qed.

Lemma routed_view r r' a st c : same_view r r' -> routed r' a st c -> routed r a st c.
Proof. intros (_ & _ & H) (k & m & Hk & Hm). exists k, m. by rewrite <- H. Qed.

Lemma select_view ctx id r res r' : inv r -> selectServerFromCluster ctx id r = Ret (res, r') ->
  inv r' /\ same_view r r' /\ target_ok (λ c, c = id) r res.
Proof.
  intros H Hs. destruct (selectServerFromCluster_inv _ _ _ _ _ H Hs) as (H1 & H2 & H3 & _).
  split_and!; [done| |].
  - split_and!; [done..|]. revert Hs. unfold selectServerFromCluster.
    destruct (clusters r !! id); [|by intros [= _ <-]]. destruct (binds_ r !! id); [|by intros [= _ <-]].
    intros Hs. bind_inv Hs. destruct a. by injection Hs as _ <-.
  - intros svr ->. pose proof (select_spec _ _ _ _ _ H Hs) as [Hsv Hup]. eauto.
Qed.

Lemma matches_meta rt apiID req m rt' : routingRuntime_matches rt apiID req = Ret (m, rt') ->
  r_meta rt' = r_meta rt /\
  (m = true -> Routing_API (r_meta rt) <= 0 \/ Routing_API (r_meta rt) = apiID).
Proof.
  unfold routingRuntime_matches. intros E.
  destruct ((0 <? _) && _) eqn:Ea; [by injection E as <- <-|].
  assert (Hapi : Routing_API (r_meta rt) <= 0 \/ Routing_API (r_meta rt) = apiID).
  { apply andb_false_iff in Ea as [Ea%Z.ltb_ge|Ea%negb_false_iff%Z.eqb_eq]; auto. }
  bind_inv E. destruct a; cbn in E; [|by injection E as <- <-].
  bind_inv E. destruct a. by injection E as _ <-.
Qed.

Lemma adjust_targets order apiID ctx req dn : ∀ r dn' r', inv r ->
  adjustByRouting order apiID ctx req dn r = Ret (dn', r') ->
  inv r' /\ same_view r r' /\ dn_idx dn' = dn_idx dn /\ dn_node dn' = dn_node dn /\
  (dn_dest dn' = dn_dest dn \/ target_ok (routed r apiID Meta.Split) r (dn_dest dn')) /\
  (dn_copyTo dn' = dn_copyTo dn \/ target_ok (routed r apiID Meta.Copy) r (dn_copyTo dn')).
Proof.
  induction order as [|k order IH]; intros r dn' r' H Hr; cbn in Hr.
  { injection Hr as <- <-. split_and!; [done|done|done|done|by left..]. }
  destruct (routings r !! k) as [rt|] eqn:Ek; [|by apply IH].
  destruct (routingRuntime_isUp rt) eqn:Eu; cbn [negb] in Hr; [|by apply IH].
  destruct (routingRuntime_matches rt apiID req) as [[m rt']| |] eqn:E; cbn in Hr; [|done|done].
  destruct (matches_meta _ _ _ _ _ E) as [Hmeta Hapi].
  set (r1 := set_routings (<[k:=rt']> (routings r)) r) in *.
  assert (H1 : inv r1).
  { destruct (inv_routings r H k rt Ek) as [H1 H2]. apply inv_set_routings; [|done].
    apply keyed_insert; [apply H|done|]. unfold routing_id in *. congruence. }
  assert (Hv : same_view r r1).
  { split_and!; [done..|]. intros j. cbn. destruct (decide (k = j)) as [<-|].
    - rewrite lookup_insert_eq, Ek. cbn. by rewrite Hmeta.
    - by rewrite lookup_insert_ne. }
  destruct m; cbn [negb] in Hr.
  - destruct (selectServerFromCluster _ _ r1) as [[svr r2]| |] eqn:Es; cbn in Hr; [|done|done].
    injection Hr as <- <-. destruct (select_view _ _ _ _ _ H1 Es) as (H2 & Hv2 & Ht).
    pose proof (same_view_trans _ _ _ Hv Hv2) as Hv'.
    rewrite Hmeta in *.
    assert (Hrt : ∀ st, Routing_Strategy (r_meta rt) = st -> target_ok (routed r apiID st) r svr).
    { intros st Hst. apply (target_ok_view _ _ _ _ Hv). eapply target_ok_mono; [|exact Ht].
      intros c ->. exists k, (r_meta rt). rewrite Ek. split_and!; [done|by apply bool_decide_eq_true in Eu|auto..]. }
    destruct (Routing_Strategy (r_meta rt)) eqn:Est; cbn; split_and!; auto.
  - destruct (IH _ _ _ H1 Hr) as (H2 & Hv2 & Hi & Hn & Hd & Hc).
    split_and!; [done|by eapply same_view_trans|done|done| |].
    + destruct Hd as [?|Hd]; [by left|right]. apply (target_ok_view _ _ _ _ Hv).
      eapply target_ok_mono; [|exact Hd]. intros c. by apply routed_view.
    + destruct Hc as [?|Hc]; [by left|right]. apply (target_ok_view _ _ _ _ Hv).
      eapply target_ok_mono; [|exact Hc]. intros c. by apply routed_view.
Qed.

(** The servers of a dispatch node. *)
Definition node_ok r (apiID : Z) (dn : dispatchNode) : Prop :=
  target_ok (λ c, c = DispatchNode_ClusterID (node_meta (dn_node dn)) \/ routed r apiID Meta.Split c) r (dn_dest dn) /\
  target_ok (routed r apiID Meta.Copy) r (dn_copyTo dn).

Lemma nodes_targets order apiID ctx req nodes : ∀ idx r dns r', inv r ->
  dispatchNodes order apiID ctx req idx nodes r = Ret (dns, r') ->
  map dn_node dns = nodes /\ map dn_idx dns = seqZ idx (len nodes) /\ Forall (node_ok r apiID) dns.
Proof.
  induction nodes as [|n nodes IH]; intros idx r dns r' H Hr; cbn in Hr; [by injection Hr as <- _|].
  unfold dispatcher_selectServer in Hr.
  destruct (selectServerFromCluster _ _ _) as [[d r1]| |] eqn:E1; cbn in Hr; [|done|done].
  destruct (adjustByRouting _ _ _ _ _ _) as [[dn r2]| |] eqn:E2; cbn in Hr; [|done|done].
  destruct (dispatchNodes _ _ _ _ _ _ _) as [[rest r3]| |] eqn:E3; cbn in Hr; [|done|done].
  injection Hr as <- _.
  destruct (select_view _ _ _ _ _ H E1) as (H1 & Hv1 & Ht1).
  destruct (adjust_targets _ _ _ _ _ _ _ _ H1 E2) as (H2 & Hv2 & Hi & Hn & Hd & Hc). cbn in *.
  destruct (IH _ _ _ _ H2 E3) as (Hns & His & Hok). rewrite len_cons, seqZ_cons by (pose proof (len_nonneg nodes); lia).
  pose proof (same_view_trans _ _ _ Hv1 Hv2) as Hv.
  split_and!; [by rewrite Hn, Hns|rewrite Hi, His; do 2 f_equal; lia|].
  constructor.
  - split.
    + destruct Hd as [-> |Hd].
      * eapply target_ok_mono; [|exact Ht1]. intros c ->. left. by rewrite Hn.
      * apply (target_ok_view _ _ _ _ Hv1). eapply target_ok_mono; [|exact Hd].
        intros c Hr. right. by apply (routed_view _ _ _ _ _ Hv1).
    + destruct Hc as [-> |Hc]; [by intros ? ?|].
      apply (target_ok_view _ _ _ _ Hv1). eapply target_ok_mono; [|exact Hc].
      intros c. by apply routed_view.
  - eapply Forall_impl; [exact Hok|]. intros dn' [Hd' Hc']. split.
    + apply (target_ok_view _ _ _ _ Hv). eapply target_ok_mono; [|exact Hd'].
      intros c [?|?]; [by left|right]. by eapply routed_view.
    + apply (target_ok_view _ _ _ _ Hv). eapply target_ok_mono; [|exact Hc'].
      intros c. by apply routed_view.
Qed.

(** C8: a dispatched request is for an API that is registered, up and matches it; its nodes
    are the API's, numbered from 0; a node's server exists and is up in the node's cluster
    or in the cluster an active split routing names, and the server a copy goes to is up in
    the cluster of an active copy routing. *)
Theorem dispatch_targets : ∀ (s : system) order ctx req target dns params r',
  reachable s -> dispatch order ctx req (disp s) = Ret (target, dns, params, r') ->
  match target with
  | None => dns = []
  | Some api =>
      apis (disp s) !! api_id api = Some api /\ apiRuntime_matches api req = true /\
      Forall (node_ok (disp s) (api_id api)) dns /\
      if API_UseDefault (a_meta api) then dns = []
      else map dn_node dns = a_nodes api /\ map dn_idx dns = seqZ 0 (len (a_nodes api))
  end.
Proof.
  intros s order ctx req target dns params r' Hs. pose proof (reachable_ok s Hs) as H.
  unfold dispatch, targetAPI.
  destruct (Find (route (disp s)) (Req_Path req) (Req_Method req) true) as [[res ps]| |]; cbn; [|done|done].
  destruct res as [id|]; [|by intros [= <- <- _ _]].
  destruct (apis (disp s) !! id) as [api|] eqn:Ea; [|by intros [= <- <- _ _]].
  destruct (apiRuntime_matches api req) eqn:Em; [|by intros [= <- <- _ _]].
  destruct (inv_apis _ H id api Ea) as [_ Hid]. unfold api_id in Hid.
  destruct (API_UseDefault (a_meta api)) eqn:Eu.
  - intros [= <- <- _ _]. rewrite Eu. unfold api_id. rewrite Hid. auto.
  - destruct (dispatchNodes _ _ _ _ _ _ _) as [[ds r1]| |] eqn:E; cbn; [|done|done].
    intros [= <- <- _ _]. rewrite Eu. destruct (nodes_targets _ _ _ _ _ _ _ _ _ H E) as (H1 & H2 & H3).
    unfold api_id in *. rewrite Hid in *. auto.
Qed.

(** *** Rates *)

(** Every instance of the gateway takes an equal share of a rate: the share is at least
    1, is the whole rate when no instance is known, and the shares together exceed the rate
    only when it is less than one for each instance. *)
Theorem refreshQPS_share : ∀ r value, is_i64 value ->
  let n := Z.of_nat (size (proxies r)) in
  let qps := refreshQPS r value in
  1 <= qps <= Z.max 1 value /\ n * qps <= Z.max n value /\
  (n <= 1 -> 0 < value -> qps = value) /\ (1 <= n -> n <= value -> value < n * (qps + 1)).
Proof.
  intros r value Hv n qps. assert (Hn : 0 <= n) by (unfold n; lia).
  unfold qps, refreshQPS. fold n. clear qps. clearbody n. unfold is_i64 in Hv.
  destruct (Z.ltb_spec 0 n).
  - assert (Hq : i64 (Z.quot value n) = Z.quot value n).
    { apply i64_small. unfold is_i64. destruct (Z.lt_ge_cases value 0) as [Hneg|].
      - rewrite <- (Z.opp_involutive value), Z.quot_opp_l by lia.
        rewrite Z.quot_div_nonneg by lia.
        assert (0 <= - value / n <= - value) by (split; [apply Z.div_pos|apply Z.div_le_upper_bound]; nia). lia.
      - rewrite Z.quot_div_nonneg by lia.
        assert (0 <= value / n <= value) by (split; [apply Z.div_pos|apply Z.div_le_upper_bound]; nia). lia. }
    rewrite Hq. destruct (Z.lt_ge_cases value 0) as [Hneg|Hpos].
    + assert (Z.quot value n <= 0).
      { rewrite <- (Z.opp_involutive value), Z.quot_opp_l, Z.quot_div_nonneg by lia.
        assert (0 <= - value / n) by (apply Z.div_pos; lia). lia. }
      destruct (Z.leb_spec (Z.quot value n) 0); [|lia]. split_and!; lia.
    + rewrite Z.quot_div_nonneg by lia. pose proof (Z.div_mod value n ltac:(lia)).
      pose proof (Z.mod_pos_bound value n ltac:(lia)).
      destruct (Z.leb_spec (value / n) 0).
      * split_and!; try nia; intros H1 H2; assert (n = 1) as -> by lia; nia.
      * split_and!; try nia; intros H1 H2; assert (n = 1) as -> by lia; nia.
  - destruct (Z.leb_spec value 0); split_and!; lia.
Qed.

(** *** Health checks converge *)

(** Every entry of the server, in whatever cluster, has the status. *)
Definition all_status r (id : Z) (st : Status) : Prop :=
  ∀ k b i, binds_ r !! k = Some b -> i ∈ servers b -> svrID i = id -> status i = st.

Lemma getServerStatus_all r order id st : all_status r id st ->
  getServerStatus (binds_ r) order id = st \/ getServerStatus (binds_ r) order id = Unknown.
Proof.
  intros H. induction order as [|k order IH]; cbn; [by right|].
  destruct (binds_ r !! k) as [b|] eqn:Eb; [|done].
  destruct (list_find _ _) as [[n i]|] eqn:E; [|done]. left.
  apply list_find_Some in E as (Hi & Hid & _). by eapply H; [|eapply list_elem_of_lookup_2|].
Qed.

(** An entry of a cluster that is visited is found. *)
Lemma getServerStatus_found r order id st k b i : all_status r id st ->
  binds_ r !! k = Some b -> i ∈ servers b -> svrID i = id -> k ∈ order ->
  getServerStatus (binds_ r) order id = st.
Proof.
  intros H Hb Hi Hid. induction order as [|k' order IH]; cbn; [by intros ?%elem_of_nil|].
  intros Hk. destruct (binds_ r !! k') as [b'|] eqn:Eb.
  - destruct (list_find _ _) as [[n j]|] eqn:E.
    + apply list_find_Some in E as (Hj & Hjd & _). by eapply H; [|eapply list_elem_of_lookup_2|].
    + apply elem_of_cons in Hk as [->|Hk]; [|auto]. assert (b' = b) as -> by congruence.
      apply list_find_None in E. rewrite Forall_forall in E. by destruct (E i Hi).
  - apply elem_of_cons in Hk as [->|Hk]; [congruence|auto].
Qed.

(** The status message reaches every entry. *)
Lemma changed_all r value : inv r ->
  all_status (set_binds (changeStatus value <$> copyBinds r (mkBind 0 0)) r)
    (Server_ID (sc_meta value)) (sc_status value).
Proof.
  intros H k b i Hb Hi Hid. cbn in Hb. rewrite copyBinds_all, lookup_fmap in Hb by done.
  apply fmap_Some in Hb as (b0 & Hb0 & ->).
  assert (Hin : i ∈ map (λ i, if svrID i =? Server_ID (sc_meta value) then mkBindInfo (svrID i) (sc_status value) else i) (servers b0))
    by (revert Hi; unfold changeStatus; by destruct (existsb _ _)).
  apply list_elem_of_fmap in Hin as (j & -> & Hj).
  destruct (Z.eqb_spec (svrID j) (Server_ID (sc_meta value))); [done|congruence].
Qed.

(** Checking a server and handling the message the check sends, if any. *)
Definition check_and_handle (id : Z) (resp : option (Z * bytes)) (limit : Z) (order1 order2 : list Z) r
    : outcome (dispatcher L) :=
  '(ev, r) ← check id resp limit order1 r;
  Ret match ev with Some v => doStatusChangedEvent v order2 r | None => r end.

Lemma check_binds id ok limit order r ev r' : check id ok limit order r = Ret (ev, r') ->
  binds_ r' = binds_ r.
Proof.
  assert (Hs : ∀ s r, binds_ (scheduleCheck limit id s r) = binds_ r)
    by (intros s r0; unfold scheduleCheck; by destruct (Server_HeathCheck _)).
  unfold check. destruct (servers_ r !! id) as [s|]; [|by intros [= _ <-]].
  destruct (Server_HeathCheck _); [|intros [= _ <-]; apply Hs].
  intros Hr. bind_inv Hr. destruct a. injection Hr as _ <-. apply Hs.
Qed.

(** What a check of a server finds: a server without a health check counts as up. *)
Definition verdict (svr : serverRuntime) (resp : option (Z * bytes)) : Status :=
  match Server_HeathCheck (svr_meta svr) with
  | None => Up
  | Some hc => if healthy hc resp then Up else Down
  end.

(** A check that changes no entry: the first entry met has the result already, when the check
    looks (it does so only if there is a health check), or when its message is handled. *)
Definition unheard (svr : serverRuntime) (id : Z) (order1 order2 : list Z) (want : Status) r : bool :=
  match Server_HeathCheck (svr_meta svr) with
  | None => false
  | Some _ => bool_decide (getServerStatus (binds_ r) order1 id = want)
  end || bool_decide (getServerStatus (binds_ r) order2 id = want).

(** What the check sends, and what it leaves of the entries. *)
Lemma check_sends id resp limit order r svr : inv r -> servers_ r !! id = Some svr ->
  ∃ ev r1, check id resp limit order r = Ret (ev, r1) /\ inv r1 /\ binds_ r1 = binds_ r /\
    match ev with
    | Some v => Server_ID (sc_meta v) = id /\ sc_status v = verdict svr resp /\
        (Server_HeathCheck (svr_meta svr) = None \/ getServerStatus (binds_ r) order id <> verdict svr resp)
    | None => Server_HeathCheck (svr_meta svr) <> None /\ getServerStatus (binds_ r) order id = verdict svr resp
    end.
Proof.
  intros H Hsvr. destruct (inv_servers _ H id svr Hsvr) as [_ Hid]. unfold server_id in Hid.
  assert (Hret : returns (check id resp limit order r)).
  { unfold check. rewrite Hsvr. destruct (Server_HeathCheck (svr_meta svr)) as [hc|] eqn:Hhc; [|by eexists].
    destruct (doCheck_returns hc resp svr Hhc) as [[ok s'] ->]. by eexists. }
  destruct Hret as [[ev r1] Ec]. exists ev, r1. split; [done|]. split; [by eapply check_inv|].
  split; [by eapply check_binds|]. unfold check in Ec. rewrite Hsvr in Ec. unfold verdict.
  destruct (Server_HeathCheck (svr_meta svr)) as [hc|] eqn:Hhc; [|injection Ec as <- _; auto].
  bind_inv Ec. destruct a as [ok a]. injection Ec as <- _.
  apply doCheck_spec with (hc := hc) in E as [-> Hmeta]; [|done]. rewrite Hid. case_bool_decide; [done|].
  cbn. rewrite Hmeta. auto.
Qed.

Lemma handled_all r v order : inv r ->
  getServerStatus (binds_ r) order (Server_ID (sc_meta v)) <> sc_status v ->
  all_status (doStatusChangedEvent v order r) (Server_ID (sc_meta v)) (sc_status v).
Proof. intros H Hne. unfold doStatusChangedEvent. rewrite bool_decide_false by done. by apply changed_all. Qed.

(** C19: a health check of a server that is registered returns, and it and the message it
    sends either change no entry, exactly when the first entry met had the result already, or
    leave every entry of the server, in every cluster, with the result.  So if the entries
    agree before the check, they all have its result after it.  (They need not agree: a server
    that is up and then bound to another cluster stays unknown there, see
    [second_cluster_stays_unknown].) *)
Theorem check_converges : ∀ (s : system) id resp limit order1 order2 svr,
  reachable s -> servers_ (disp s) !! id = Some svr ->
  let want := verdict svr resp in
  ∃ r', check_and_handle id resp limit order1 order2 (disp s) = Ret r' /\
    (if unheard svr id order1 order2 want (disp s) then binds_ r' = binds_ (disp s) else all_status r' id want) /\
    ∀ st, all_status (disp s) id st -> order1 ≡ₚ keys (binds_ (disp s)) -> order2 ≡ₚ keys (binds_ (disp s)) ->
      all_status r' id want.
Proof.
  intros s id resp limit order1 order2 svr Hs Hsvr want. pose proof (reachable_ok s Hs) as H.
  destruct (check_sends id resp limit order1 (disp s) svr H Hsvr) as (ev & r1 & Ec & H1 & Hb & Hev).
  unfold check_and_handle. rewrite Ec. eexists. split; [reflexivity|].
  match goal with |- _ /\ ∀ st, _ -> _ -> _ -> all_status ?r _ _ => set (r' := r) end.
  assert (Hmain : if unheard svr id order1 order2 want (disp s) then binds_ r' = binds_ (disp s) else all_status r' id want).
  { subst r'. unfold unheard. destruct ev as [v|].
    - destruct Hev as (<- & Hv & Hno). fold want in Hv, Hno. rewrite <- Hb.
      assert ((match Server_HeathCheck (svr_meta svr) with None => false
        | Some _ => bool_decide (getServerStatus (binds_ r1) order1 (Server_ID (sc_meta v)) = want) end) = false) as ->.
      { destruct Hno as [->|Hno]; [done|]. rewrite Hb, bool_decide_false by done. by destruct (Server_HeathCheck _). }
      cbn [orb]. rewrite <- Hv. case_bool_decide as Ed.
      + unfold doStatusChangedEvent. by rewrite bool_decide_true.
      + by apply handled_all.
    - destruct Hev as [Hhc Hg]. fold want in Hg. destruct (Server_HeathCheck _); [|done]. by rewrite bool_decide_true. }
  split; [done|]. intros st Hall Ho1 Ho2. destruct (unheard _ _ _ _ _ _) eqn:Eu; [|done].
  intros k b i Hk Hi Hsid. rewrite Hmain in Hk. rewrite (Hall k b i Hk Hi Hsid).
  assert (Hin : k ∈ keys (binds_ (disp s))).
  { unfold keys. apply list_elem_of_fmap. exists (k, b). split; [done|by apply elem_of_map_to_list]. }
  assert (Hf : ∀ order, order ≡ₚ keys (binds_ (disp s)) -> getServerStatus (binds_ (disp s)) order id = st).
  { intros order Ho. eapply getServerStatus_found; [done|exact Hk|done|done|by rewrite Ho]. }
  unfold unheard in Eu. apply orb_true_iff in Eu as [Eu|Eu%bool_decide_eq_true].
  - destruct (Server_HeathCheck _); [|done]. apply bool_decide_eq_true in Eu. by rewrite <- Eu, Hf.
  - by rewrite <- Eu, Hf.
Qed.

End Reachable.

(** A cluster with a server that has no health check, and an API on it. *)
#[local] Instance env_plain : Env := plain_env.

Definition sample_server (id : Z) (hc : option HeathCheck) : Server :=
  mkServer id (str "10.0.0.1:80") 10 hc None 1 Reject HTTP.
Definition sample_node (cluster : Z) : DispatchNode := mkDispatchNode cluster [] [] [] None false 0 None None HostOrigin [] 0 0.
Definition sample_api (id : Z) (pattern : bytes) (cluster : Z) : API :=
  mkAPI id [] pattern (str "GET") [] Up None None [sample_node cluster] false MatchAny 0 None Reject None None
    [] [] 0 [] false None.

Definition sample_events : list Evt :=
  [EvtCluster EventTypeNew 0 (mkCluster 1 [] RoundRobin);
   EvtServer EventTypeNew 0 (sample_server 7 None);
   EvtBind EventTypeNew (mkBind 1 7);
   EvtAPI EventTypeNew 0 (sample_api 3 (str "/a") 1)].

Definition sample : dispatcher lb :=
  match run sample_events 0 newDispatcher with Ret r => r | _ => newDispatcher end.

Lemma sample_reachable : reachable (mkSystem sample []).
Proof.
  apply (run_reachable sample_events 0 newDispatcher); [|vm_compute; reflexivity|constructor].
  unfold sample_events. repeat (apply Forall_cons; split); try apply Forall_nil_2; (split; [cbn; done|done]).
Qed.

Lemma reachable_inv_witness : inv sample.
Proof. exact (reachable_inv (mkSystem sample []) sample_reachable). Defined.

Definition sample_ctx : RequestCtx := mkRequestCtx (str "1.2.3.4") 1 [].

Lemma select_up_witness : up_in sample 1 7.
Proof.
  destruct (selectServerFromCluster sample_ctx 1 sample) as [[[svr|] r']| |] eqn:E.
  - pose proof (select_up (mkSystem sample []) sample_ctx 1 _ _ sample_reachable E) as [_ H].
    vm_compute in E. injection E as E _. rewrite <- E in H. exact H.
  - exfalso. vm_compute in E. discriminate E.
  - exfalso. vm_compute in E. discriminate E.
  - exfalso. vm_compute in E. discriminate E.
Defined.

Definition sample_req : Request :=
  mkRequest (str "GET") [] (str "/a") [] [] (λ _, []) (λ _, []) (λ _, []) (λ _, []).

Lemma dispatch_targets_witness : ∃ dn, node_ok sample 3 dn /\ server_id <$> dn_dest dn = Some 7.
Proof.
  destruct (dispatch [] sample_ctx sample_req sample) as [[[[[api|] dns] ps] r']| |] eqn:E.
  - pose proof (dispatch_targets (mkSystem sample []) [] sample_ctx sample_req _ _ _ _ sample_reachable E)
      as (_ & _ & H & _).
    vm_compute in E. injection E as Eapi E _ _. rewrite <- E in H. apply Forall_cons in H as [H _].
    rewrite <- Eapi in H. eexists. split; [exact H|reflexivity].
  - exfalso. vm_compute in E. discriminate E.
  - exfalso. vm_compute in E. discriminate E.
  - exfalso. vm_compute in E. discriminate E.
Defined.

Lemma refreshQPS_share_witness : refreshQPS sample 10 = 10.
Proof. apply (refreshQPS_share sample 10); [split; lia|vm_compute; discriminate|lia]. Defined.

(** *** A checked server in two clusters *)

Definition checked : option HeathCheck := Some (mkHeathCheck [] [] second second).

Definition events1 : list Evt :=
  [EvtCluster EventTypeNew 0 (mkCluster 1 [] RoundRobin);
   EvtCluster EventTypeNew 0 (mkCluster 2 [] RoundRobin);
   EvtServer EventTypeNew 0 (sample_server 8 checked);
   EvtBind EventTypeNew (mkBind 1 8)].

Definition get_or {A} (d : A) (m : outcome A) : A := match m with Ret a => a | _ => d end.

(** What a healthy server answers. *)
Definition answer : option (Z * bytes) := Some (200, []).

(** After the binding to cluster 1, after the first check and its message, and after the
    binding to cluster 2. *)
Definition st1 : dispatcher lb := get_or newDispatcher (run events1 0 newDispatcher).
Definition ev1 : statusChanged := mkStatusChanged (sample_server 8 checked) Up.
Definition st2 : dispatcher lb := snd (get_or (None, st1) (check 8 answer second [1] (set_checkerC [] st1))).
Definition st3 : dispatcher lb := doStatusChangedEvent ev1 [1] st2.
Definition st4 : dispatcher lb := get_or st3 (run [EvtBind EventTypeNew (mkBind 2 8)] 0 st3).

Ltac store_evts := repeat (apply Forall_cons; split); try apply Forall_nil_2; (split; [cbn; done|done]).

Lemma st1_reachable : reachable (mkSystem st1 []).
Proof.
  apply (run_reachable events1 0 newDispatcher); [|vm_compute; reflexivity|constructor].
  unfold events1. store_evts.
Qed.

Lemma st4_reachable : reachable (mkSystem st4 []).
Proof.
  apply (run_reachable [EvtBind EventTypeNew (mkBind 2 8)] 0 st3); [store_evts|vm_compute; reflexivity|].
  eapply reachable_step; [eapply reachable_step; [exact st1_reachable|]|].
  - apply (step_check 8 [] answer second [1] st1 [] (Some ev1) st2); vm_compute; reflexivity.
  - apply (step_status ev1 (mkOrders [8] [] [1]) 0 st2 [] [] None st3); [|reflexivity].
    split_and!; vm_compute; reflexivity.
Qed.

Lemma check_converges_witness : all_status st1 8 Unknown /\
  ∃ r', check_and_handle 8 answer second [1] [1] st1 = Ret r' /\ all_status r' 8 Up.
Proof.
  assert (Hall : all_status st1 8 Unknown).
  { assert (Hb : binds_ st1 = {[1 := mkBinds [mkBindInfo 8 Unknown] []]}) by (vm_compute; reflexivity).
    intros k b i Hk Hi Hid. rewrite Hb in Hk. apply lookup_singleton_Some in Hk as [_ <-].
    cbn in Hi. by apply list_elem_of_singleton in Hi as ->. }
  split; [done|]. destruct (servers_ st1 !! 8) as [svr|] eqn:Es; [|vm_compute in Es; discriminate Es].
  destruct (check_converges (mkSystem st1 []) 8 answer second [1] [1] svr st1_reachable Es) as (r' & Hr & _ & Hc).
  exists r'. split; [exact Hr|]. assert (Hv : verdict svr answer = Up) by (vm_compute in Es; injection Es as <-; reflexivity).
  rewrite Hv in Hc. apply (Hc Unknown); [exact Hall|vm_compute; reflexivity..].
Defined.

(** A server that is up in one cluster and is then bound to a second one stays unknown
    there: its successful checks announce nothing, so it gets no requests of that cluster. *)
Theorem second_cluster_stays_unknown : ∃ r : dispatcher lb, reachable (mkSystem r []) /\
  up_in r 1 8 /\ clusters r !! 2 <> None /\ (∀ id, ¬ up_in r 2 id) /\
  ∃ b i, binds_ r !! 2 = Some b /\ i ∈ servers b /\ svrID i = 8 /\ status i = Unknown /\
  ∀ limit, ∃ r', check 8 answer limit [1; 2] r = Ret (None, r') /\ binds_ r' = binds_ r.
Proof.
  exists st4. assert (Hb : binds_ st4 =
    {[1 := mkBinds [mkBindInfo 8 Up] [sample_server 8 checked]; 2 := mkBinds [mkBindInfo 8 Unknown] []]})
    by (vm_compute; reflexivity).
  assert (H1 : binds_ st4 !! 1 = Some (mkBinds [mkBindInfo 8 Up] [sample_server 8 checked])) by by rewrite Hb.
  assert (H2 : binds_ st4 !! 2 = Some (mkBinds [mkBindInfo 8 Unknown] [])) by by rewrite Hb.
  split_and!.
  - exact st4_reachable.
  - eexists _, _. split_and!; [exact H1|left|done..].
  - vm_compute. discriminate.
  - intros id (b & i & Hk & Hi & _ & Hst). rewrite H2 in Hk. injection Hk as <-. cbn in Hi.
    apply list_elem_of_singleton in Hi as ->. discriminate Hst.
  - eexists _, _. split_and!; [exact H2|left|done|done|].
    intros limit. destruct (servers_ st4 !! 8) as [s|] eqn:Es; [|vm_compute in Es; discriminate Es].
    assert (Hm : svr_meta s = sample_server 8 checked) by (vm_compute in Es; by injection Es as <-).
    assert (Hg : getServerStatus (binds_ st4) [1; 2] 8 = Up) by (vm_compute; reflexivity).
    destruct (check 8 answer limit [1; 2] st4) as [[ev r']| |] eqn:E.
    + pose proof (check_binds _ _ _ _ _ _ _ E) as Hr. exists r'. split; [|done].
      unfold check in E. rewrite Es in E. unfold doCheck, reset in E. rewrite Hm in E.
      cbn [answer sample_server Server_HeathCheck Server_ID checked mbind outcome_mbind] in E. rewrite Hg in E.
      injection E as <- _. done.
    + unfold check, doCheck, reset in E. rewrite Es, Hm in E. discriminate E.
    + unfold check, doCheck, reset in E. rewrite Es, Hm in E. discriminate E.
Qed.
