(* ===== verification/DispatcherRefine.v ===== *)
(** The abstract specification of the dispatcher's event handlers, plain maps of messages
    changed by create, update and delete, and the refinement: copy on write and the runtime
    objects do not show.  The events of APIs, which the routing table can refuse, follow in
    [DispatcherRoute], and all events together in [Events]. *)
From S2P Require Import Prelude Meta RouteParser RouteTable Matching Expr RateLimit Lbs Counters Runtime Dispatcher DispatcherInv DispatcherSpec.
Import RouteParser.Parser.

(** ** The specification *)

Record spec := mkSpec {
  sp_routings : gmap Z Routing;
  sp_apis : gmap Z API;
  sp_clusters : gmap Z Cluster;
  sp_servers : gmap Z Server;
  sp_proxies : gmap bytes Proxy;
  sp_binds : gmap Z (list bindInfo)
}.

(** Create, update or delete under an id. *)
Definition crud {A} (t : EvtType) (key id : Z) (v : A) (exists_ notFound : error) (m : gmap Z A)
    : option error * gmap Z A :=
  match t with
  | EventTypeNew => match m !! id with Some _ => (Some exists_, m) | None => (None, <[id := v]> m) end
  | EventTypeUpdate => match m !! id with Some _ => (None, <[id := v]> m) | None => (Some notFound, m) end
  | EventTypeDelete => match m !! key with Some _ => (None, delete key m) | None => (Some notFound, m) end
  end.

(** The entries of a server taken away, and its status changed. *)
Definition unbind_server (id : Z) (l : list bindInfo) : list bindInfo := filter (λ i, svrID i <> id) l.

Definition set_status (v : statusChanged) (l : list bindInfo) : list bindInfo :=
  map (λ i, if svrID i =? Server_ID (sc_meta v) then mkBindInfo (svrID i) (sc_status v) else i) l.

(** The status an entry starts with. *)
Definition first_status (s : Server) : Status :=
  match Server_HeathCheck s with None => Up | Some _ => Unknown end.

(** The status of the entry of a server that is met first, the clusters being visited in order. *)
Definition met_first (m : gmap Z (list bindInfo)) (order : list Z) (id : Z) : Status :=
  match list_find (λ i, svrID i = id) (mjoin (map (λ k, default [] (m !! k)) order)) with
  | Some (_, i) => status i
  | None => Unknown
  end.

(** The methods that the other APIs of the map that are up have for the keys of a pattern. *)
Definition has_keys (ks : list (nodeType * bytes)) (a : API) : bool :=
  match parseInput (API_URLPattern a) with Ret (inr nodes) => bool_decide (pattern_keys nodes = ks) | _ => false end.

Definition methods (M : gmap Z API) (id : Z) (ks : list (nodeType * bytes)) : gmap bytes Z :=
  list_to_map (map (λ a, (API_Method a, API_ID a))
    (filter (λ a, API_ID a <> id /\ API_Status a = Up /\ has_keys ks a = true) (map snd (map_to_list M)))).

(** Why an API cannot be routed beside the other APIs, if it cannot. *)
Definition refusal (M : gmap Z API) (v : API) : option addError :=
  match parseInput (API_URLPattern v) with
  | Ret (inl e) => Some (ErrParse e)
  | Ret (inr nodes) => conflict (methods M (API_ID v) (pattern_keys nodes)) (API_Method v)
  | _ => None
  end.

(** A new API is routed if it is up, one that is updated always. *)
Definition spec_api (t : EvtType) (key : Z) (v : API) (M : gmap Z API) : option error * gmap Z API :=
  match crud t key (API_ID v) v errAPIExists errAPINotFound M with
  | (None, M') =>
      let routed := match t with EventTypeNew => bool_decide (API_Status v = Up) | EventTypeUpdate => true | EventTypeDelete => false end in
      match (if routed then refusal M v else None) with Some e => (Some (errRoute e), M) | None => (None, M') end
  | (Some e, _) => (Some e, M)
  end.

(** A bind needs its server and its cluster; it is not updated. *)
Definition spec_bind (t : EvtType) (v : Bind) (s : spec) : option error * gmap Z (list bindInfo) :=
  match t with
  | EventTypeUpdate => (None, sp_binds s)
  | _ =>
      match sp_servers s !! Bind_ServerID v, sp_clusters s !! Bind_ClusterID v with
      | None, _ => (Some errServerNotFound, sp_binds s)
      | Some _, None => (Some errClusterNotFound, sp_binds s)
      | Some server, Some _ =>
          (None, match t with
                 | EventTypeDelete => alter (unbind_server (Bind_ServerID v)) (Bind_ClusterID v) (sp_binds s)
                 | _ => partial_alter (λ l, Some (default [] l ++ [mkBindInfo (Bind_ServerID v) (first_status server)]))
                          (Bind_ClusterID v) (sp_binds s)
                 end)
      end
  end.

Definition spec_proxy (t : EvtType) (key : bytes) (v : Proxy) (m : gmap bytes Proxy) : option error * gmap bytes Proxy :=
  match t with
  | EventTypeNew =>
      let k := GetAddrFormat (Proxy_Addr v) in
      match m !! k with Some _ => (Some errProxyExists, m) | None => (None, <[k := v]> m) end
  | EventTypeDelete => (match m !! key with Some _ => None | None => Some errProxyNotFound end, delete key m)
  | EventTypeUpdate => (None, m)
  end.

(** One event: the error reported and the maps after it.  A server that is removed is unbound
    everywhere, and a status that is news is given to all entries of the server; [order] is
    that in which the clusters are visited to find out. *)
Definition spec_event (order : list Z) (evt : Evt) (s : spec) : option error * spec :=
  let '(mkSpec ro ap cl se pr bi) := s in
  match evt with
  | EvtRouting t key v => let '(e, m) := crud t key (Routing_ID v) v errRoutingExists errRoutingNotFound ro in (e, mkSpec m ap cl se pr bi)
  | EvtAPI t key v => let '(e, m) := spec_api t key v ap in (e, mkSpec ro m cl se pr bi)
  | EvtCluster t key v => let '(e, m) := crud t key (Cluster_ID v) v errClusterExists errClusterNotFound cl in (e, mkSpec ro ap m se pr bi)
  | EvtServer t key v =>
      let '(e, m) := crud t key (Server_ID v) v errServerExists errServerNotFound se in
      (e, mkSpec ro ap cl m pr match t, e with EventTypeDelete, None => unbind_server key <$> bi | _, _ => bi end)
  | EvtProxy t key v => let '(e, m) := spec_proxy t key v pr in (e, mkSpec ro ap cl se m bi)
  | EvtBind t v => let '(e, m) := spec_bind t v s in (e, mkSpec ro ap cl se pr m)
  | EvtStatusChanged v =>
      (None, if bool_decide (met_first bi order (Server_ID (sc_meta v)) = sc_status v) then s
             else mkSpec ro ap cl se pr (set_status v <$> bi))
  end.

(** ** The refinement *)

Section Refine.
Context {L : Type} `{!Balancers L} {env : Env} {node_sort : NodeSort} {sort : SortSlice}.
Implicit Type r : dispatcher L.

Definition abs r : spec :=
  mkSpec (r_meta <$> routings r) (a_meta <$> apis r) (c_meta <$> clusters r) (svr_meta <$> servers_ r)
    (proxies r) (servers <$> binds_ r).

(** *** Copies have the same messages *)

Lemma copyMap_meta {A B} (f : A -> B) clone exclude (m m' : gmap Z A) :
  (∀ v v', clone v = Ret v' -> f v' = f v) -> copyMap clone exclude m = Ret m' ->
  f <$> m' = delete exclude (f <$> m).
Proof.
  intros Hf H. apply map_eq. intros k. pose proof (copyMap_lookup _ _ _ _ k H) as Hk.
  rewrite lookup_fmap, lookup_delete, lookup_fmap. destruct (m !! k) as [v|]; cbn.
  - destruct (Z.eqb_spec k exclude) as [->|Hne].
    + by rewrite Hk, decide_True.
    + destruct Hk as (v' & Hv & ->). rewrite decide_False by congruence. cbn. by rewrite (Hf v v' Hv).
  - rewrite Hk. by destruct (decide _).
Qed.

Lemma delete_keyed0 {A B} (id : A -> Z) (f : A -> B) (m : gmap Z A) : keyed id m -> delete 0 (f <$> m) = f <$> m.
Proof.
  intros Hk. apply delete_id. rewrite lookup_fmap. destruct (m !! 0) as [v|] eqn:E; [|done].
  by destruct (Hk 0 v E).
Qed.

Lemma copyClusters_meta r exclude m : copyClusters r exclude = Ret m ->
  c_meta <$> m = delete exclude (c_meta <$> clusters r).
Proof. apply copyMap_meta. by intros ? ? [= <-]. Qed.

Lemma copyRoutings_meta r exclude m : copyRoutings r exclude = Ret m ->
  r_meta <$> m = delete exclude (r_meta <$> routings r).
Proof. apply copyMap_meta. by intros ? ? [= <-]. Qed.

Lemma copyServers_meta r exclude now m : copyServers r exclude now = Ret m ->
  svr_meta <$> m = delete exclude (svr_meta <$> servers_ r).
Proof. apply copyMap_meta. intros v v' H. by apply newServerRuntime_meta in H as [H _]. Qed.

(** The APIs visited are copied; an order visits every key. *)
Lemma copyAPIsLoop_meta m exclude ex2 now order : ∀ rt values rt' values',
  copyAPIsLoop m exclude ex2 now order rt values = Ret (rt', values') ->
  ∀ k, a_meta <$> values' !! k =
    if bool_decide (k ∈ order /\ k <> exclude /\ is_Some (m !! k)) then a_meta <$> m !! k else a_meta <$> values !! k.
Proof.
  induction order as [|j order IH]; intros rt values rt' values' H k; cbn in H.
  - injection H as _ <-. rewrite bool_decide_false; [done|]. intros (Hk & _). by apply elem_of_nil in Hk.
  - assert (Hskip : ∀ vs : gmap Z apiRuntime, (j <> k \/ j = exclude \/ m !! j = None) ->
      (if bool_decide (k ∈ order /\ k <> exclude /\ is_Some (m !! k)) then a_meta <$> m !! k else a_meta <$> vs !! k) =
      (if bool_decide (k ∈ j :: order /\ k <> exclude /\ is_Some (m !! k)) then a_meta <$> m !! k else a_meta <$> vs !! k)).
    { intros vs Hj. erewrite bool_decide_ext; [done|]. rewrite elem_of_cons. split; [by intros (? & ? & ?); auto|].
      intros ([->|?] & Hne & [v Hv]); [|by eauto]. destruct Hj as [?|[?|?]]; congruence. }
    destruct (m !! j) as [v|] eqn:Ej.
    + destruct (Z.eqb_spec j exclude) as [->|Hne].
      * rewrite (IH _ _ _ _ H k). apply Hskip. auto.
      * bind_inv H. bind_inv H. rewrite (IH _ _ _ _ H k). apply newAPIRuntime_meta in E.
        destruct (decide (j = k)) as [->|Hjk].
        -- rewrite (bool_decide_true (k ∈ k :: order /\ _)) by (split_and!; [left|done|eauto]).
           rewrite lookup_insert_eq, Ej. cbn. rewrite E. by match goal with |- context [bool_decide ?P] => destruct (bool_decide P) end.
        -- rewrite lookup_insert_ne by done. rewrite <- (Hskip values) by auto. done.
    + rewrite (IH _ _ _ _ H k). apply Hskip. auto.
Qed.

(** The orders visit every API. *)
Definition visits (order : list Z) (m : gmap Z apiRuntime) : Prop := ∀ k, is_Some (m !! k) -> k ∈ order.

Lemma copyAPIs_meta r exclude ex2 now order rt m : visits order (apis r) ->
  copyAPIs r exclude ex2 now order = Ret (rt, m) -> a_meta <$> m = delete exclude (a_meta <$> apis r).
Proof.
  intros Hv H. apply map_eq. intros k. rewrite lookup_fmap, lookup_delete, lookup_fmap.
  rewrite (copyAPIsLoop_meta _ _ _ _ _ _ _ _ _ H k), lookup_empty.
  destruct (apis r !! k) as [a|] eqn:Ea.
  - destruct (decide (exclude = k)) as [->|Hne].
    + rewrite bool_decide_false by (by intros (_ & ? & _)). done.
    + rewrite bool_decide_true by (split_and!; [apply Hv; eauto|done|eauto]). done.
  - rewrite bool_decide_false by (intros (_ & _ & [? ?]); done). by destruct (decide _).
Qed.

(** *** Entries *)

Lemma copyBinds_servers r exclude :
  servers <$> copyBinds r exclude =
    map_imap (λ k b, Some (filter (λ i, kept exclude k (svrID i)) (servers b))) (binds_ r).
Proof.
  apply map_eq. intros k. unfold copyBinds. rewrite lookup_fmap, !map_lookup_imap.
  by destruct (binds_ r !! k).
Qed.

Lemma filter_ext_in {A} (P Q : A -> Prop) `{!∀ x, Decision (P x), !∀ x, Decision (Q x)} (l : list A) :
  (∀ x, x ∈ l -> P x <-> Q x) -> filter P l = filter Q l.
Proof.
  induction l as [|x l IH]; intros Hpq; [done|]. rewrite !filter_cons.
  assert (Hx : P x <-> Q x) by (apply Hpq; left).
  rewrite IH by (intros; apply Hpq; by right). do 2 destruct (decide _); tauto.
Qed.

Lemma entry_not_0 r k b i : inv r -> binds_ r !! k = Some b -> i ∈ servers b -> svrID i <> 0.
Proof.
  intros H Hb Hi. destruct (proj1 (inv_binds r H k b Hb) i Hi) as [s Hs].
  by destruct (inv_servers r H _ s Hs).
Qed.

(** An exclusion without a server takes nothing away. *)
Lemma copyBinds_none r c : inv r -> servers <$> copyBinds r (mkBind c 0) = servers <$> binds_ r.
Proof.
  intros H. rewrite copyBinds_servers. apply map_eq. intros k. rewrite map_lookup_imap, lookup_fmap.
  destruct (binds_ r !! k) as [b|] eqn:E; [|done]. cbn. f_equal.
  assert (Ha : ∀ i, i ∈ servers b -> svrID i <> 0) by (intros i; by apply (entry_not_0 r k)).
  induction (servers b) as [|i l IH]; [done|]. rewrite filter_cons_True.
  - f_equal. apply IH. intros. apply Ha. by right.
  - unfold kept. cbn. destruct (Z.eqb_spec (svrID i) 0); [|done]. by destruct (Ha i); [left|].
Qed.

Lemma copyBinds_server r id : servers <$> copyBinds r (mkBind 0 id) = unbind_server id <$> (servers <$> binds_ r).
Proof.
  rewrite copyBinds_servers. apply map_eq. intros k. rewrite map_lookup_imap, !lookup_fmap.
  destruct (binds_ r !! k) as [b|]; [|done]. cbn. f_equal. apply filter_ext_in. intros i _.
  unfold kept. cbn. rewrite Z.eqb_refl, orb_false_r. destruct (Z.eqb_spec (svrID i) id); cbn; tauto.
Qed.

Lemma copyBinds_one r c id : c <> 0 ->
  servers <$> copyBinds r (mkBind c id) = alter (unbind_server id) c (servers <$> binds_ r).
Proof.
  intros Hc. rewrite copyBinds_servers. apply map_eq. intros k. rewrite map_lookup_imap.
  destruct (decide (c = k)) as [->|Hne].
  - rewrite lookup_alter_eq, lookup_fmap. destruct (binds_ r !! k) as [b|]; [|done]. cbn. f_equal.
    apply filter_ext_in. intros i _. unfold kept. cbn. destruct (Z.eqb_spec k 0); [done|].
    rewrite Z.eqb_refl, orb_false_r. destruct (Z.eqb_spec (svrID i) id); cbn; tauto.
  - rewrite lookup_alter_ne, lookup_fmap by done. destruct (binds_ r !! k) as [b|]; [|done]. cbn. f_equal.
    induction (servers b) as [|i l IH]; [done|]. rewrite filter_cons_True; [by f_equal|].
    unfold kept. cbn. destruct (Z.eqb_spec c 0); [done|]. destruct (Z.eqb_spec c k); [done|]. by rewrite orb_true_r.
Qed.

(** *** The handlers *)

(** Looking an id up in the abstract map is looking it up in the state. *)
Ltac lookups := rewrite ?lookup_fmap; repeat match goal with H : ?m !! ?k = _ |- context [?m !! ?k] => rewrite H end; cbn.

(** The error and the maps of a result agree with the specification. *)
Definition refines (order : list Z) (evt : Evt) r (res : outcome (option error * dispatcher L)) : Prop :=
  ∀ e r', res = Ret (e, r') -> spec_event order evt (abs r) = (e, abs r').

Lemma refine_routing order t key v r : inv r -> refines order (EvtRouting t key v) r (doRoutingEvent t key v r).
Proof.
  intros H e r'. unfold spec_event, doRoutingEvent, addRouting, updateRouting, removeRouting. cbn [abs]. destruct t; cbn [crud].
  - lookups. destruct (routings r !! _) as [rt|] eqn:Ek; cbn; intros Hr; [by injection Hr as <- <-|].
    bind_inv Hr. injection Hr as <- <-. unfold abs; cbn. rewrite fmap_insert, (copyRoutings_meta _ _ _ E).
    by rewrite (delete_keyed0 routing_id) by apply H.
  - lookups. destruct (routings r !! _) as [rt|] eqn:Ek; cbn; intros Hr; [|by injection Hr as <- <-].
    bind_inv Hr. destruct (a !! _); [|done]. injection Hr as <- <-. unfold abs; cbn. rewrite fmap_insert, (copyRoutings_meta _ _ _ E).
    by rewrite (delete_keyed0 routing_id) by apply H.
  - lookups. destruct (routings r !! _) as [rt|] eqn:Ek; cbn; intros Hr; [|by injection Hr as <- <-].
    bind_inv Hr. injection Hr as <- <-. unfold abs; cbn. by rewrite (copyRoutings_meta _ _ _ E).
Qed.

Lemma refine_cluster order t key v r : inv r -> refines order (EvtCluster t key v) r (doClusterEvent t key v r).
Proof.
  intros H e r'. unfold spec_event, doClusterEvent, addCluster, updateCluster, removeCluster. cbn [abs]. destruct t; cbn [crud].
  - lookups. destruct (clusters r !! _) as [rt|] eqn:Ek; cbn; intros Hr; [by injection Hr as <- <-|].
    bind_inv Hr. injection Hr as <- <-. unfold abs; cbn. rewrite fmap_insert, (copyClusters_meta _ _ _ E).
    by rewrite (delete_keyed0 cluster_id) by apply H.
  - lookups. destruct (clusters r !! _) as [rt|] eqn:Ek; cbn; intros Hr; [|by injection Hr as <- <-].
    bind_inv Hr. destruct (a !! _); [|done]. injection Hr as <- <-. unfold abs; cbn. rewrite fmap_insert, (copyClusters_meta _ _ _ E).
    by rewrite (delete_keyed0 cluster_id) by apply H.
  - lookups. destruct (clusters r !! _) as [rt|] eqn:Ek; cbn; intros Hr; [|by injection Hr as <- <-].
    bind_inv Hr. injection Hr as <- <-. unfold abs; cbn. by rewrite (copyClusters_meta _ _ _ E), copyBinds_none.
Qed.

Lemma refine_server order t key v now r : inv r -> refines order (EvtServer t key v) r (doServerEvent t key v now r).
Proof.
  intros H e r'. unfold spec_event, doServerEvent, addServer, updateServer, removeServer. cbn [abs]. destruct t; cbn [crud].
  - lookups. destruct (servers_ r !! _) as [rt|] eqn:Ek; cbn; intros Hr; [by injection Hr as <- <-|].
    bind_inv Hr. bind_inv Hr. apply newServerRuntime_meta in E0 as [Hm _]. injection Hr as <- <-.
    unfold abs; cbn. rewrite fmap_insert, (copyServers_meta _ _ _ _ E). cbn. rewrite Hm.
    by rewrite (delete_keyed0 server_id) by apply H.
  - lookups. destruct (servers_ r !! _) as [rt|] eqn:Ek; cbn; intros Hr; [|by injection Hr as <- <-].
    bind_inv Hr. destruct (a !! _) as [cl|]; [|done]. bind_inv Hr. destruct a0 as [s ts].
    unfold serverRuntime_updateMeta in E0. bind_inv E0. injection E0 as -> <-.
    apply newServerRuntime_meta in E1 as [Hm _]. injection Hr as <- <-.
    unfold abs; cbn. rewrite fmap_insert, (copyServers_meta _ _ _ _ E). cbn. rewrite Hm.
    by rewrite (delete_keyed0 server_id) by apply H.
  - lookups. destruct (servers_ r !! _) as [rt|] eqn:Ek; cbn; intros Hr; [|by injection Hr as <- <-].
    bind_inv Hr. injection Hr as <- <-. unfold abs; cbn. rewrite (copyServers_meta _ _ _ _ E).
    by rewrite (copyBinds_server (set_timers _ _ r)).
Qed.

Lemma abs_set_apis rt m r : abs (set_apis rt m r) =
  mkSpec (sp_routings (abs r)) (a_meta <$> m) (sp_clusters (abs r)) (sp_servers (abs r)) (sp_proxies (abs r)) (sp_binds (abs r)).
Proof. done. Qed.

(** Whatever the routing table says, an event of an API changes no other map. *)
Definition others (s : spec) : spec := mkSpec (sp_routings s) ∅ (sp_clusters s) (sp_servers s) (sp_proxies s) (sp_binds s).

Lemma doAPIEvent_others t key v o now r e r' : doAPIEvent t key v o now r = Ret (e, r') -> others (abs r') = others (abs r).
Proof.
  unfold doAPIEvent, addAPI, updateAPI, removeAPI. destruct t.
  - destruct (apis r !! _) as [old|]; intros Hr; [by injection Hr as _ <-|].
    bind_inv Hr. bind_inv Hr. destruct a0 as [rt m]. bind_inv Hr.
    destruct a0 as [err|rt']; injection Hr as _ <-; [done|by destruct (p_cb _)].
  - destruct (apis r !! _) as [old|]; intros Hr; [|by injection Hr as _ <-].
    bind_inv Hr. destruct a as [rt m]. destruct (m !! _) as [cl|]; [|done]. bind_inv Hr. bind_inv Hr.
    destruct a0 as [err|rt']; injection Hr as _ <-; [done|by destruct (p_cb _)].
  - destruct (apis r !! _) as [old|]; intros Hr; [|by injection Hr as _ <-].
    bind_inv Hr. destruct a as [rt m]. by injection Hr as _ <-.
Qed.

(** Rebuilding servers and APIs keeps their messages. *)
Lemma refreshServers_abs order now : ∀ r r', refreshServers order now r = Ret r' -> abs r' = abs r.
Proof.
  induction order as [|id order IH]; intros r r' Hr; cbn in Hr; [by injection Hr as <-|].
  destruct (servers_ r !! id) as [s|] eqn:Es; [|by apply IH].
  bind_inv Hr. destruct a as [s1 ts]. unfold serverRuntime_updateMeta in E. bind_inv E.
  injection E as -> <-. apply newServerRuntime_meta in E0 as [Hmeta _].
  rewrite (IH _ _ Hr). unfold abs; cbn. f_equal. rewrite fmap_insert. cbn. rewrite Hmeta.
  apply insert_id. by rewrite lookup_fmap, Es.
Qed.

Lemma refreshAPIs_abs order now : ∀ r r', refreshAPIs order now r = Ret r' -> abs r' = abs r.
Proof.
  induction order as [|id order IH]; intros r r' Hr; cbn in Hr; [by injection Hr as <-|].
  destruct (apis r !! id) as [a|] eqn:Ea; [|by apply IH].
  bind_inv Hr. apply newAPIRuntime_meta in E.
  rewrite (IH _ _ Hr). unfold abs; cbn. f_equal. rewrite fmap_insert, E.
  apply insert_id. by rewrite lookup_fmap, Ea.
Qed.

Lemma refreshAllQPS_abs so ao now r r' : refreshAllQPS so ao now r = Ret r' -> abs r' = abs r.
Proof.
  unfold refreshAllQPS. intros Hr. bind_inv Hr.
  by rewrite (refreshAPIs_abs _ _ _ _ Hr), (refreshServers_abs _ _ _ _ E).
Qed.

Lemma refine_proxy order t key v o now r : refines order (EvtProxy t key v) r (doProxyEvent t key v o now r).
Proof.
  intros e r'. unfold spec_event, doProxyEvent, addProxy, removeProxy. cbn [abs]. destruct t; cbn [spec_proxy].
  - destruct (proxies r !! _) as [p|] eqn:Ek; intros Hr; [by injection Hr as <- <-|].
    bind_inv Hr. injection Hr as <- <-. by rewrite (refreshAllQPS_abs _ _ _ _ _ E).
  - by intros [= <- <-].
  - destruct (proxies r !! _) as [p|] eqn:Ek; intros Hr.
    + bind_inv Hr. injection Hr as <- <-. by rewrite (refreshAllQPS_abs _ _ _ _ _ E).
    + injection Hr as <- <-. by rewrite delete_id.
Qed.

Lemma refine_bind order t v r : inv r -> refines order (EvtBind t v) r (doBindEvent t v r).
Proof.
  intros H e r'. unfold spec_event, doBindEvent, addBind, removeBind, spec_bind. cbn [abs sp_servers sp_clusters sp_binds].
  destruct t; [|by intros [= <- <-]|]; lookups.
  - destruct (servers_ r !! _) as [s|] eqn:Es; cbn; [|by intros [= <- <-]].
    destruct (clusters r !! _) as [c|] eqn:Ec; cbn; [|by intros [= <- <-]].
    intros [= <- <-]. rewrite copyBinds_all by done. unfold abs; cbn. do 2 f_equal. rewrite fmap_insert. cbn.
    apply map_eq. intros k. destruct (decide (k = Bind_ClusterID v)) as [->|Hne].
    + rewrite lookup_partial_alter_eq, lookup_insert_eq, lookup_fmap. do 2 f_equal.
      unfold first_status. by destruct (binds_ r !! _).
    + rewrite lookup_partial_alter_ne, lookup_insert_ne by done. done.
  - destruct (servers_ r !! _) as [s|] eqn:Es; cbn; [|by intros [= <- <-]].
    destruct (clusters r !! _) as [c|] eqn:Ec; cbn; [|by intros [= <- <-]].
    intros [= <- <-]. unfold abs; cbn. do 2 f_equal. destruct v as [cid sid]. cbn. rewrite copyBinds_one; [done|].
    by destruct (inv_clusters r H _ c Ec).
Qed.

(** The status met first. *)
Lemma getServerStatus_met (bs : gmap Z binds) id order : getServerStatus bs order id = met_first (servers <$> bs) order id.
Proof.
  unfold met_first. induction order as [|k order IH]; [done|]. cbn. rewrite lookup_fmap. destruct (bs !! k) as [b|]; cbn; [|done].
  destruct (list_find _ (servers b)) as [[n i]|] eqn:E.
  - by rewrite (list_find_app_l _ _ _ _ _ E).
  - rewrite list_find_app_r by done. rewrite IH. by destruct (list_find _ (mjoin _)) as [[]|].
Qed.

Lemma refine_status v order r : inv r -> refines order (EvtStatusChanged v) r (Ret (None, doStatusChangedEvent v order r)).
Proof.
  intros H e r' [= <- <-]. unfold spec_event, doStatusChangedEvent. cbn [abs]. rewrite <- getServerStatus_met.
  destruct (bool_decide _); [done|]. rewrite copyBinds_all by done.
  unfold abs; cbn. do 2 f_equal. rewrite <- !map_fmap_compose. apply map_fmap_ext. intros k b _. cbn.
  unfold set_status, changeStatus. by destruct (existsb _ _).
Qed.

End Refine.
