(* ===== verification/DispatcherRoute.v ===== *)
(** The routing table of the dispatcher: in every reachable state it holds every API that is
    up, although it is rebuilt on each change, in the order a map is visited in, with the
    errors of the rebuilding ignored; and so the specification of the events of APIs. *)
From S2P Require Import Prelude Meta RouteParser RouteTable Matching Expr RateLimit Lbs Counters Runtime Dispatcher DispatcherInv DispatcherSpec DispatcherRefine.
Import RouteParser.Parser.

Section Route.
Context {L : Type} `{!Balancers L} {env : Env} {node_sort : NodeSort} {sort : SortSlice}.
Implicit Type r : dispatcher L.

(** The keys of an API's pattern. *)
Definition keys_of (a : API) (ks : list (nodeType * bytes)) : Prop :=
  ∃ nodes, parseInput (API_URLPattern a) = Ret (inr nodes) /\ pattern_keys nodes = ks.

Lemma keys_of_fun a ks ks' : keys_of a ks -> keys_of a ks' -> ks = ks'.
Proof. intros (n & Hn & <-) (n' & Hn' & <-). congruence. Qed.

(** Two APIs that can be in the table together. *)
Definition compatible (a b : API) : Prop :=
  ∀ ks, keys_of a ks -> keys_of b ks ->
    API_Method a <> API_Method b /\ API_Method a <> str "*" /\ API_Method b <> str "*".

(** A well-formed table holds exactly the APIs of a list, under their patterns and methods. *)
Definition holds (rt : Route) (l : list API) : Prop :=
  wf_route rt /\ ∀ ks m id,
    tableAt rt ks !! m = Some id <-> ∃ a, a ∈ l /\ keys_of a ks /\ API_Method a = m /\ API_ID a = id.

Lemma holds_new : holds NewRoute [].
Proof.
  split; [exact NewRoute_wf|]. intros ks m id. split.
  - destruct ks; cbn; by intros ?%lookup_empty_Some.
  - intros (a & Ha & _). by apply elem_of_nil in Ha.
Qed.

Lemma Add_holds rt l a res : holds rt l -> Add rt a = Ret (inr res) ->
  (∃ ks, keys_of a ks) /\ holds res (a :: l) \/ ∃ b, b ∈ l /\ ¬ compatible a b.
Proof.
  intros [Hwf Ht] Ha. destruct (Add_updates rt a Hwf) as (pr & Hp & H).
  destruct pr as [e|nodes]; [congruence|]. cbn zeta in H.
  destruct (conflict _ _) as [e|] eqn:Ec; [congruence|]. destruct H as (r' & Hr & Hwf' & Htab).
  assert (r' = res) as -> by congruence. set (ks := pattern_keys nodes) in *.
  assert (Hks : keys_of a ks) by (by exists nodes).
  destruct (tableAt rt ks !! API_Method a) as [id|] eqn:El.
  { right. apply Ht in El as (b & Hb & Hkb & Hm & _). exists b. split; [done|].
    intros Hc. destruct (Hc ks Hks Hkb). congruence. }
  left. split; [eauto|]. split; [done|]. intros ks' m id. rewrite Htab.
  destruct (decide (ks' = ks)) as [->|Hne].
  - rewrite bool_decide_true by done. rewrite lookup_insert_Some, Ht. split.
    + intros [[<- <-]|(Hm & b & Hb & Hkb & Hmb & Hid)].
      * exists a. split; [left|done].
      * exists b. split; [by right|done].
    + intros (b & [->|Hb]%elem_of_cons & Hkb & Hm & Hid); [by left|].
      right. split; [|eauto]. intros Hma. assert (Hx : tableAt rt ks !! API_Method a = Some id)
        by (apply Ht; exists b; split_and!; congruence). congruence.
  - rewrite bool_decide_false by done. rewrite Ht. split.
    + intros (b & Hb & Hrest). exists b. split; [by right|done].
    + intros (b & [->|Hb]%elem_of_cons & Hkb & Hrest); [|eauto].
      destruct Hne. by eapply keys_of_fun.
Qed.

(** An API with a readable pattern, compatible with all in the table, is added. *)
Lemma Add_compatible rt l a : holds rt l -> (∃ ks, keys_of a ks) -> (∀ b, b ∈ l -> compatible a b) ->
  ∃ rt', Add rt a = Ret (inr rt') /\ holds rt' (a :: l).
Proof.
  intros Hh (ks & nodes & Hn & <-) Hc. pose proof Hh as [Hwf Ht].
  destruct (Add_updates rt a Hwf) as (pr & Hp & H).
  assert (pr = inr nodes) as -> by congruence. cbn zeta in H. set (ks := pattern_keys nodes) in *.
  assert (Hks : keys_of a ks) by (by exists nodes).
  assert (Hnone : ∀ m, m = API_Method a \/ m = str "*" \/ API_Method a = str "*" -> tableAt rt ks !! m = None).
  { intros m Hm. destruct (tableAt rt ks !! m) as [id|] eqn:El; [|done].
    apply Ht in El as (b & Hb & Hkb & Hmb & _). destruct (Hc b Hb ks Hks Hkb) as (H1 & H2 & H3).
    destruct Hm as [?|[?|?]]; congruence. }
  assert (Hconf : conflict (tableAt rt ks) (API_Method a) = None).
  { unfold conflict, mapGet. rewrite !Hnone by auto.
    destruct (bytes_eqb (API_Method a) (str "*")) eqn:E; [|done]. apply bytes_eqb_eq in E.
    assert (tableAt rt ks = ∅) as -> by (apply map_empty; intros m; apply Hnone; auto). done. }
  rewrite Hconf in H. destruct H as (rt' & Hr & _). exists rt'. split; [done|].
  destruct (Add_holds rt l a rt' Hh Hr) as [[_ ?]|(b & Hb & Hnc)]; [done|].
  exfalso. by apply Hnc, Hc.
Qed.

(** Whatever [Add] admits is compatible with what is there, when ids are not 0. *)
Lemma Add_admits rt l a rt' b : holds rt l -> Add rt a = Ret (inr rt') -> b ∈ l -> API_ID b <> 0 -> compatible a b.
Proof.
  intros [Hwf Ht] Ha Hb Hid ks Hka Hkb. destruct (Add_updates rt a Hwf) as (pr & Hp & H).
  destruct Hka as (nodes & Hn & <-). assert (pr = inr nodes) as -> by congruence. cbn zeta in H.
  destruct (conflict _ _) as [e|] eqn:Ec; [congruence|]. clear H.
  assert (Hbt : tableAt rt (pattern_keys nodes) !! API_Method b = Some (API_ID b)) by (apply Ht; eauto 6).
  unfold conflict in Ec.
  destruct (bytes_eqb (API_Method a) (str "*") && _) eqn:E1; [done|].
  destruct (Z.eqb_spec (mapGet (tableAt rt (pattern_keys nodes)) (str "*")) 0) as [E2|]; [|done].
  destruct (Z.eqb_spec (mapGet (tableAt rt (pattern_keys nodes)) (API_Method a)) 0) as [E3|]; [|done].
  unfold mapGet in E2, E3. split_and!.
  - intros E. rewrite E, Hbt in E3. done.
  - intros E. rewrite E in E1. cbn in E1. apply Z.ltb_ge in E1.
    assert (size (tableAt rt (pattern_keys nodes)) <> 0%nat); [|lia].
    intros Hsz. apply map_size_empty_inv in Hsz. by rewrite Hsz in Hbt.
  - intros E. rewrite <- E, Hbt in E2. done.
Qed.

Lemma compatible_sym a b : compatible a b -> compatible b a.
Proof. intros H ks Ha Hb. destruct (H ks Hb Ha) as (? & ? & ?). auto. Qed.

(** ** The invariant of the table *)

(** The messages of the APIs and the table: those that are up can be read and are pairwise
    compatible, all of them are in the table, and the table holds nothing that is not
    registered. *)
Definition route_ok (M : gmap Z API) (rt : Route) : Prop :=
  (∀ k a, M !! k = Some a -> API_Status a = Up -> ∃ ks, keys_of a ks) /\
  (∀ k k' a a', k <> k' -> M !! k = Some a -> M !! k' = Some a' ->
     API_Status a = Up -> API_Status a' = Up -> compatible a a') /\
  ∃ l, holds rt l /\ (∀ k a, M !! k = Some a -> API_Status a = Up -> a ∈ l) /\
    (∀ a, a ∈ l -> M !! API_ID a = Some a).

Definition metas r : gmap Z API := a_meta <$> apis r.

(** An API of the list of keys [order] that goes into the table. *)
Definition taken (M : gmap Z API) (exclude ex2 : Z) (order : list Z) (x : API) : Prop :=
  ∃ k, k ∈ order /\ M !! k = Some x /\ API_Status x = Up /\ k <> exclude /\ k <> ex2.

Lemma isUp_spec a : apiRuntime_isUp a = true <-> API_Status (a_meta a) = Up.
Proof. apply bool_decide_eq_true. Qed.

(** Rebuilding: no addition fails, whatever the order. *)
Lemma rebuild m exclude ex2 now order : ∀ rt values rt' values' l,
  (∀ k a, (a_meta <$> m) !! k = Some a -> API_Status a = Up -> ∃ ks, keys_of a ks) ->
  (∀ k k' a a', k <> k' -> (a_meta <$> m) !! k = Some a -> (a_meta <$> m) !! k' = Some a' ->
     API_Status a = Up -> API_Status a' = Up -> compatible a a') ->
  NoDup order -> holds rt l ->
  (∀ b, b ∈ l -> ∃ k, k ∉ order /\ (a_meta <$> m) !! k = Some b /\ API_Status b = Up) ->
  copyAPIsLoop m exclude ex2 now order rt values = Ret (rt', values') ->
  ∃ l', holds rt' l' /\ ∀ x, x ∈ l' <-> x ∈ l \/ taken (a_meta <$> m) exclude ex2 order x.
Proof.
  induction order as [|k order IH]; intros rt values rt' values' l Hread Hcomp Hnd Hh Hl H; cbn in H.
  { injection H as <- _. exists l. split; [done|]. intros x. split; [by left|].
    intros [?|(k & Hk & _)]; [done|by apply elem_of_nil in Hk]. }
  apply NoDup_cons in Hnd as [Hk Hnd].
  assert (Hl' : ∀ b, b ∈ l -> ∃ j, j ∉ order /\ (a_meta <$> m) !! j = Some b /\ API_Status b = Up).
  { intros b Hb. destruct (Hl b Hb) as (j & Hj & ?). exists j. split; [|done]. intros ?. apply Hj. by right. }
  assert (Hskip : (∀ x, taken (a_meta <$> m) exclude ex2 [k] x -> False) -> ∀ x,
    taken (a_meta <$> m) exclude ex2 order x <-> taken (a_meta <$> m) exclude ex2 (k :: order) x).
  { intros Hno x. split.
    - intros (j & Hj & ?). exists j. split; [by right|done].
    - intros (j & [->|Hj]%elem_of_cons & Hr); [|by exists j].
      exfalso. apply (Hno x). exists k. split; [left|done]. }
  assert (Hcont : ∀ rt1 v1, (∀ x, taken (a_meta <$> m) exclude ex2 [k] x -> False) -> rt1 = rt ->
    copyAPIsLoop m exclude ex2 now order rt1 v1 = Ret (rt', values') ->
    ∃ l', holds rt' l' /\ ∀ x, x ∈ l' <-> x ∈ l \/ taken (a_meta <$> m) exclude ex2 (k :: order) x).
  { intros rt1 v1 Hno -> Hc. destruct (IH _ _ _ _ l Hread Hcomp Hnd Hh Hl' Hc) as (l' & Hh' & Hx).
    exists l'. split; [done|]. intros x. by rewrite Hx, (Hskip Hno). }
  destruct (m !! k) as [v|] eqn:Ek.
  2: { eapply Hcont; [|done|exact H]. intros x (j & Hj & Hm & _). apply list_elem_of_singleton in Hj as ->.
       by rewrite lookup_fmap, Ek in Hm. }
  assert (HMk : (a_meta <$> m) !! k = Some (a_meta v)) by (by rewrite lookup_fmap, Ek).
  destruct (Z.eqb_spec k exclude) as [->|Hex].
  { eapply Hcont; [|done|exact H]. intros x (j & Hj & _ & _ & Hne & _). by apply list_elem_of_singleton in Hj as ->. }
  bind_inv H. rename a into v'. apply newAPIRuntime_meta in E.
  destruct (negb (k =? ex2) && apiRuntime_isUp v) eqn:Eb.
  - apply andb_true_iff in Eb as [Hex2%negb_true_iff%Z.eqb_neq Hup%isUp_spec].
    destruct (Add_compatible rt l (a_meta v)) as (rt1 & Hadd & Hh1); [done|by apply (Hread k)| |].
    { intros b Hb. destruct (Hl b Hb) as (j & Hj & Hbj & Hbu).
      apply (Hcomp k j); try done. intros ->. apply Hj. left. }
    unfold addIgnoring in H. rewrite E, Hadd in H. cbn [mbind outcome_mbind] in H.
    assert (Hl1 : ∀ b, b ∈ a_meta v :: l -> ∃ j, j ∉ order /\ (a_meta <$> m) !! j = Some b /\ API_Status b = Up).
    { intros b [->|Hb]%elem_of_cons; [by exists k|auto]. }
    destruct (IH _ _ _ _ _ Hread Hcomp Hnd Hh1 Hl1 H) as (l' & Hh' & Hx).
    exists l'. split; [done|]. intros x. rewrite Hx, elem_of_cons. split.
    + intros [[->|?]|(j & Hj & ?)]; [|by left|].
      * right. exists k. split; [left|done].
      * right. exists j. split; [by right|done].
    + intros [?|(j & [->|Hj]%elem_of_cons & Hm & ?)]; [by left; right| |].
      * left. left. congruence.
      * right. by exists j.
  - eapply Hcont; [|done|exact H]. intros x (j & Hj & Hm & Hu & _ & Hne).
    apply list_elem_of_singleton in Hj as ->. assert (x = a_meta v) as -> by congruence.
    apply andb_false_iff in Eb as [Eb%negb_false_iff%Z.eqb_eq|Eb]; [done|].
    apply isUp_spec in Hu. congruence.
Qed.

Definition order_ok (order : list Z) (m : gmap Z apiRuntime) : Prop := order ≡ₚ keys m.

Lemma order_NoDup order m : order_ok order m -> NoDup order.
Proof. intros ->. apply NoDup_fst_map_to_list. Qed.

Lemma order_visits order m : order_ok order m -> visits order m.
Proof.
  intros Ho k [a Hk]. unfold order_ok, keys in Ho. rewrite Ho.
  apply list_elem_of_fmap. exists (k, a). split; [done|]. by apply elem_of_map_to_list.
Qed.

Lemma copyAPIs_route r exclude ex2 now order rt m : inv r -> order_ok order (apis r) ->
  route_ok (metas r) (route r) -> copyAPIs r exclude ex2 now order = Ret (rt, m) ->
  a_meta <$> m = delete exclude (metas r) /\
  ∃ l, holds rt l /\ ∀ x, x ∈ l <->
    metas r !! API_ID x = Some x /\ API_Status x = Up /\ API_ID x <> exclude /\ API_ID x <> ex2.
Proof.
  intros H Ho (Hread & Hcomp & _) Hc. split; [by eapply copyAPIs_meta; [apply order_visits|]|].
  destruct (rebuild (apis r) exclude ex2 now order NewRoute ∅ rt m [] Hread Hcomp (order_NoDup _ _ Ho) holds_new)
    as (l & Hl & Hx); [intros b Hb; by apply elem_of_nil in Hb|done|].
  exists l. split; [done|]. intros x. rewrite Hx. split.
  - intros [Hn|(k & Hk & Hm & Hu & H1 & H2)]; [by apply elem_of_nil in Hn|].
    assert (API_ID x = k) as ->; [|done]. rewrite lookup_fmap in Hm.
    apply fmap_Some in Hm as (a & Ha & ->). by destruct (inv_apis r H k a Ha).
  - intros (Hm & Hu & H1 & H2). right. exists (API_ID x). split_and!; [|done..].
    apply (order_visits _ _ Ho). unfold metas in Hm. rewrite lookup_fmap in Hm.
    apply fmap_Some in Hm as (a & Ha & _). eauto.
Qed.


Lemma route_ok_added M rt0 rt l a rt' : route_ok M rt0 -> (∀ k x, M !! k = Some x -> k <> 0 /\ API_ID x = k) ->
  holds rt l -> (∀ x, x ∈ l <-> M !! API_ID x = Some x /\ API_Status x = Up /\ API_ID x <> API_ID a) ->
  Add rt a = Ret (inr rt') -> route_ok (<[API_ID a := a]> M) rt'.
Proof.
  intros (Hread & Hcomp & _) Hk Hh Hl Ha.
  assert (Hadm : ∀ b, b ∈ l -> compatible a b).
  { intros b Hb. apply (Add_admits rt l a rt' b Hh Ha Hb).
    apply Hl in Hb as (Hb & _). by destruct (Hk _ _ Hb). }
  destruct (Add_holds rt l a rt' Hh Ha) as [[Hks Hh']|(b & Hb & Hnc)]; [|by destruct Hnc; apply Hadm].
  assert (Hin : ∀ k x, k <> API_ID a -> M !! k = Some x -> API_Status x = Up -> x ∈ l).
  { intros k x Hne Hx Hu. destruct (Hk k x Hx) as [_ Hid]. apply Hl. rewrite Hid. done. }
  split_and!.
  - intros k x Hx Hu. apply lookup_insert_Some in Hx as [[_ <-]|[_ Hx]]; [done|by apply (Hread k)].
  - intros k k' x x' Hne Hx Hx' Hu Hu'.
    apply lookup_insert_Some in Hx as [[<- <-]|[Hn Hx]], Hx' as [[<- <-]|[Hn' Hx']]; [done| | |by apply (Hcomp k k')].
    + apply Hadm. by apply (Hin k').
    + apply compatible_sym, Hadm. by apply (Hin k).
  - exists (a :: l). split_and!; [done| |].
    + intros k x Hx Hu. apply lookup_insert_Some in Hx as [[_ <-]|[Hn Hx]]; [left|right; by apply (Hin k)].
    + intros x [->|Hx]%elem_of_cons; [by rewrite lookup_insert_eq|].
      apply Hl in Hx as (Hx & _ & Hne). by rewrite lookup_insert_ne.
Qed.

Lemma route_ok_skipped M rt0 rt l a : route_ok M rt0 -> (∀ k x, M !! k = Some x -> k <> 0 /\ API_ID x = k) ->
  holds rt l -> (∀ x, x ∈ l <-> M !! API_ID x = Some x /\ API_Status x = Up /\ API_ID x <> API_ID a) ->
  API_Status a <> Up -> route_ok (<[API_ID a := a]> M) rt.
Proof.
  intros (Hread & Hcomp & _) Hk Hh Hl Hs.
  assert (Hin : ∀ k x, <[API_ID a := a]> M !! k = Some x -> API_Status x = Up -> k <> API_ID a /\ M !! k = Some x).
  { intros k x Hx Hu. apply lookup_insert_Some in Hx as [[_ <-]|[Hn Hx]]; [done|]. split; congruence. }
  split_and!.
  - intros k x Hx Hu. destruct (Hin k x Hx Hu) as [_ Hx']. by apply (Hread k).
  - intros k k' x x' Hne Hx Hx' Hu Hu'. destruct (Hin k x Hx Hu) as [_ ?], (Hin k' x' Hx' Hu') as [_ ?].
    by apply (Hcomp k k').
  - exists l. split_and!; [done| |].
    + intros k x Hx Hu. destruct (Hin k x Hx Hu) as [Hn Hx']. destruct (Hk k x Hx') as [_ Hid].
      apply Hl. rewrite Hid. done.
    + intros x Hx. apply Hl in Hx as (Hx & _ & Hne). by rewrite lookup_insert_ne.
Qed.

Lemma route_ok_removed M rt0 rt l id : route_ok M rt0 -> (∀ k x, M !! k = Some x -> k <> 0 /\ API_ID x = k) ->
  holds rt l -> (∀ x, x ∈ l <-> M !! API_ID x = Some x /\ API_Status x = Up /\ API_ID x <> id) ->
  route_ok (delete id M) rt.
Proof.
  intros (Hread & Hcomp & _) Hk Hh Hl. split_and!.
  - intros k x [_ Hx]%lookup_delete_Some. by eapply Hread.
  - intros k k' x x' Hne [_ Hx]%lookup_delete_Some [_ Hx']%lookup_delete_Some. by apply (Hcomp k k').
  - exists l. split_and!; [done| |].
    + intros k x [Hn Hx]%lookup_delete_Some Hu. destruct (Hk k x Hx) as [_ Hid]. apply Hl. rewrite Hid. auto.
    + intros x (Hx & _ & Hne)%Hl. by rewrite lookup_delete_ne.
Qed.

(** ** Every step *)

Lemma metas_keyed r k x : inv r -> metas r !! k = Some x -> k <> 0 /\ API_ID x = k.
Proof. intros H Hx. unfold metas in Hx. rewrite lookup_fmap in Hx. apply fmap_Some in Hx as (a & Ha & ->). by apply (inv_apis r H). Qed.

Lemma metas_delete0 r : inv r -> delete 0 (metas r) = metas r.
Proof. intros H. apply (delete_keyed0 api_id). by apply H. Qed.

Definition same_apis r r' : Prop := route r' = route r /\ metas r' = metas r.

Lemma same_apis_refl r : same_apis r r.
Proof. done. Qed.
Hint Resolve same_apis_refl : core.

Lemma same_apis_ok r r' : same_apis r r' -> route_ok (metas r) (route r) -> route_ok (metas r') (route r').
Proof. by intros [-> ->]. Qed.

Lemma refreshServers_same order now : ∀ r r', refreshServers order now r = Ret r' -> route r' = route r /\ apis r' = apis r.
Proof.
  induction order as [|id order IH]; intros r r' Hr; cbn in Hr; [by injection Hr as <-|].
  destruct (servers_ r !! id) as [s|]; [|by apply IH].
  bind_inv Hr. destruct a as [s1 ts]. by destruct (IH _ _ Hr) as [-> ->].
Qed.

Lemma refreshAPIs_same order now : ∀ r r', refreshAPIs order now r = Ret r' -> route r' = route r.
Proof.
  induction order as [|id order IH]; intros r r' Hr; cbn in Hr; [by injection Hr as <-|].
  destruct (apis r !! id) as [a|]; [|by apply IH]. bind_inv Hr. by rewrite (IH _ _ Hr).
Qed.

Lemma refreshAllQPS_same so ao now r r' : refreshAllQPS so ao now r = Ret r' -> same_apis r r'.
Proof.
  intros Hr. split; [|exact (f_equal sp_apis (refreshAllQPS_abs _ _ _ _ _ Hr))].
  unfold refreshAllQPS in Hr. bind_inv Hr. rewrite (refreshAPIs_same _ _ _ _ Hr). by destruct (refreshServers_same _ _ _ _ E).
Qed.

(** The handlers of everything but APIs leave the APIs and the table alone. *)
Lemma doProxyEvent_same t key v o now r e r' : doProxyEvent t key v o now r = Ret (e, r') -> same_apis r r'.
Proof.
  unfold doProxyEvent, addProxy, removeProxy. intros Hr. destruct t; [| by injection Hr as _ <-|].
  - destruct (proxies r !! _); [by injection Hr as _ <-|]. bind_inv Hr. injection Hr as _ <-.
    exact (refreshAllQPS_same _ _ _ _ _ E).
  - destruct (proxies r !! _); [|by injection Hr as _ <-]. bind_inv Hr. injection Hr as _ <-.
    exact (refreshAllQPS_same _ _ _ _ _ E).
Qed.

Lemma doServerEvent_same t key v now r e r' : doServerEvent t key v now r = Ret (e, r') -> same_apis r r'.
Proof.
  unfold doServerEvent, addServer, updateServer, removeServer. intros Hr. destruct t.
  - destruct (servers_ r !! _); [by injection Hr as _ <-|]. bind_inv Hr. bind_inv Hr. by injection Hr as _ <-.
  - destruct (servers_ r !! _); [|by injection Hr as _ <-]. bind_inv Hr.
    destruct (a !! _); [|done]. bind_inv Hr. destruct a0. by injection Hr as _ <-.
  - destruct (servers_ r !! _); [|by injection Hr as _ <-]. bind_inv Hr. by injection Hr as _ <-.
Qed.

Lemma doClusterEvent_same t key v r e r' : doClusterEvent t key v r = Ret (e, r') -> same_apis r r'.
Proof.
  unfold doClusterEvent, addCluster, updateCluster, removeCluster. intros Hr. destruct t.
  - destruct (clusters r !! _); [by injection Hr as _ <-|]. bind_inv Hr. by injection Hr as _ <-.
  - destruct (clusters r !! _); [|by injection Hr as _ <-]. bind_inv Hr.
    destruct (a !! _); [|done]. by injection Hr as _ <-.
  - destruct (clusters r !! _); [|by injection Hr as _ <-]. bind_inv Hr. by injection Hr as _ <-.
Qed.

Lemma doRoutingEvent_same t key v r e r' : doRoutingEvent t key v r = Ret (e, r') -> same_apis r r'.
Proof.
  unfold doRoutingEvent, addRouting, updateRouting, removeRouting. intros Hr. destruct t.
  - destruct (routings r !! _); [by injection Hr as _ <-|]. bind_inv Hr. by injection Hr as _ <-.
  - destruct (routings r !! _); [|by injection Hr as _ <-]. bind_inv Hr.
    destruct (a !! _); [|done]. by injection Hr as _ <-.
  - destruct (routings r !! _); [|by injection Hr as _ <-]. bind_inv Hr. by injection Hr as _ <-.
Qed.

Lemma doBindEvent_same t v r e r' : doBindEvent t v r = Ret (e, r') -> same_apis r r'.
Proof.
  unfold doBindEvent, addBind, removeBind. intros Hr.
  destruct t; [|by injection Hr as _ <-|];
    (destruct (servers_ r !! _); [|by injection Hr as _ <-]);
    (destruct (clusters r !! _); [|by injection Hr as _ <-]); by injection Hr as _ <-.
Qed.

(** The events of APIs rebuild the table. *)
Lemma route_addAnalysis id cb r : same_apis r (addAnalysis id cb r).
Proof. done. Qed.

Lemma metas_set_apis rt m r : metas (set_apis rt m r) = a_meta <$> m.
Proof. done. Qed.

(** What the copied table holds when an API is added: all that are up. *)
Lemma copied_others r v now order rt m (ex2 : Z) : inv r -> order_ok order (apis r) -> route_ok (metas r) (route r) ->
  ex2 = API_ID v \/ (ex2 = 0 /\ apis r !! API_ID v = None) ->
  copyAPIs r 0 ex2 now order = Ret (rt, m) ->
  a_meta <$> m = metas r /\
  ∃ l, holds rt l /\ ∀ x, x ∈ l <-> metas r !! API_ID x = Some x /\ API_Status x = Up /\ API_ID x <> API_ID v.
Proof.
  intros H Ho Hok Hx2 Hc. destruct (copyAPIs_route _ _ _ _ _ _ _ H Ho Hok Hc) as (Hm & l & Hh & Hl).
  rewrite metas_delete0 in Hm by done. split; [done|]. exists l. split; [done|]. intros x. rewrite Hl.
  assert (Hne0 : metas r !! API_ID x = Some x -> API_ID x <> 0) by (intros Hx; by destruct (metas_keyed _ _ _ H Hx)).
  split; intros (Hx & Hu & Hne).
  - split_and!; [done..|]. destruct Hx2 as [->|[-> Hnone]]; [tauto|]. intros E. unfold metas in Hx.
    by rewrite E, lookup_fmap, Hnone in Hx.
  - split_and!; [done..|by apply Hne0|]. destruct Hx2 as [->|[-> _]]; [done|by apply Hne0].
Qed.

Lemma addAPI_route v order now r e r' : API_ID v <> 0 -> inv r -> order_ok order (apis r) ->
  addAPI v order now r = Ret (e, r') -> route_ok (metas r) (route r) -> route_ok (metas r') (route r').
Proof.
  intros Hv H Ho Hr Hok. unfold addAPI in Hr. destruct (apis r !! API_ID v) as [old|] eqn:Ek; [by injection Hr as _ <-|].
  bind_inv Hr. bind_inv Hr. destruct a0 as [rt m]. bind_inv Hr. destruct a0 as [err|rt']; [by injection Hr as _ <-|].
  apply newAPIRuntime_meta in E. destruct (copied_others r v now order rt m 0 H Ho Hok ltac:(by right) E0) as (Hm & l & Hh & Hl).
  injection Hr as _ <-. rewrite metas_set_apis, fmap_insert, Hm, E.
  destruct (apiRuntime_isUp a) eqn:Eu.
  - rewrite E in E1. eapply route_ok_added; eauto using metas_keyed.
  - injection E1 as <-. eapply route_ok_skipped; eauto using metas_keyed.
    rewrite <- E, <- isUp_spec, Eu. done.
Qed.

Lemma updateAPI_route v order now r e r' : API_ID v <> 0 -> inv r -> order_ok order (apis r) ->
  updateAPI v order now r = Ret (e, r') -> route_ok (metas r) (route r) -> route_ok (metas r') (route r').
Proof.
  intros Hv H Ho Hr Hok. unfold updateAPI in Hr. destruct (apis r !! API_ID v) as [old|]; [|by injection Hr as _ <-].
  bind_inv Hr. destruct a as [rt m]. destruct (m !! API_ID v) as [cl|]; [|done].
  bind_inv Hr. bind_inv Hr. destruct a0 as [err|rt']; [by injection Hr as _ <-|].
  apply newAPIRuntime_meta in E0. destruct (copied_others r v now order rt m (API_ID v) H Ho Hok ltac:(by left) E) as (Hm & l & Hh & Hl).
  injection Hr as _ <-. rewrite metas_set_apis, fmap_insert, Hm.
  rewrite E0 in *. eapply route_ok_added; eauto using metas_keyed.
Qed.

Lemma removeAPI_route id order now r e r' : inv r -> order_ok order (apis r) ->
  removeAPI id order now r = Ret (e, r') -> route_ok (metas r) (route r) -> route_ok (metas r') (route r').
Proof.
  intros H Ho Hr Hok. unfold removeAPI in Hr. destruct (apis r !! id) as [old|]; [|by injection Hr as _ <-].
  bind_inv Hr. destruct a as [rt m]. injection Hr as _ <-.
  destruct (copyAPIs_route _ _ _ _ _ _ _ H Ho Hok E) as (Hm & l & Hh & Hl).
  rewrite metas_set_apis, Hm. eapply route_ok_removed; eauto using metas_keyed.
  intros x. rewrite Hl. split; [by intros (? & ? & ? & _)|]. intros (Hx & Hu & Hne). split_and!; [done..|].
  intros E2. rewrite E2 in Hx. by destruct (metas_keyed _ _ _ H Hx).
Qed.

(** ** The events of APIs *)

(** The methods of a table with the other APIs are those of the specification. *)
Lemma has_keys_spec ks a : has_keys ks a = true <-> keys_of a ks.
Proof.
  unfold has_keys, keys_of. destruct (parseInput (API_URLPattern a)) as [[e|nodes]| |].
  2: { rewrite bool_decide_eq_true. split; [intros E; by exists nodes|]. by intros (n & [= ->] & <-). }
  all: split; [done|]; by intros (n & ? & _).
Qed.

Lemma table_methods M id rt l ks : holds rt l -> (∀ k x, M !! k = Some x -> API_ID x = k) ->
  (∀ x, x ∈ l <-> M !! API_ID x = Some x /\ API_Status x = Up /\ API_ID x <> id) -> tableAt rt ks = methods M id ks.
Proof.
  intros [_ Ht] Hk Hl. unfold methods. set (ls := map _ _).
  assert (Hls : ∀ m i, (m, i) ∈ ls <-> tableAt rt ks !! m = Some i).
  { intros m i. rewrite Ht. unfold ls. rewrite list_elem_of_fmap. split.
    - intros (a & [= -> ->] & [(Hne & Hu & Hks%has_keys_spec) Ha]%list_elem_of_filter).
      apply list_elem_of_fmap in Ha as ([k x] & -> & Hx%elem_of_map_to_list). cbn in *.
      exists x. split_and!; try done. apply Hl. split_and!; [by rewrite (Hk _ _ Hx)|done..].
    - intros (a & Ha & Hks & <- & <-). apply Hl in Ha as (Ha & Hu & Hne). exists a. split; [done|].
      apply list_elem_of_filter. split; [by rewrite has_keys_spec|]. apply list_elem_of_fmap. exists (API_ID a, a).
      split; [done|by apply elem_of_map_to_list]. }
  apply map_eq. intros m. apply option_eq. intros i. rewrite <- Hls. split.
  - intros Hi. apply elem_of_list_to_map_1'; [|done]. intros y Hy. apply Hls in Hi, Hy. congruence.
  - apply elem_of_list_to_map_2.
Qed.

(** [Add] beside the other APIs refuses as the specification says. *)
Lemma Add_refusal M rt l a : holds rt l -> (∀ k x, M !! k = Some x -> API_ID x = k) ->
  (∀ x, x ∈ l <-> M !! API_ID x = Some x /\ API_Status x = Up /\ API_ID x <> API_ID a) ->
  match refusal M a with Some e => Add rt a = Ret (inl e) | None => ∃ rt', Add rt a = Ret (inr rt') end.
Proof.
  intros Hh Hk Hl. destruct (Add_updates rt a (proj1 Hh)) as (pr & Hp & H). unfold refusal. rewrite Hp.
  destruct pr as [e|nodes]; [done|]. cbn zeta in H. rewrite (table_methods M (API_ID a) rt l) in H by done.
  destruct (conflict _ _); [done|]. destruct H as (rt' & H & _). by exists rt'.
Qed.

Lemma refine_api order t key v o now r : inv r -> order_ok (apiOrder o) (apis r) -> route_ok (metas r) (route r) ->
  refines order (EvtAPI t key v) r (doAPIEvent t key v o now r).
Proof.
  intros H Ho Hok e r'. unfold spec_event, doAPIEvent, addAPI, updateAPI, removeAPI. cbn [abs]. fold (metas r).
  assert (Hk : ∀ k x, metas r !! k = Some x -> API_ID x = k) by (intros k x Hx; by destruct (metas_keyed _ _ _ H Hx)).
  destruct t; unfold spec_api; cbn [crud]; unfold metas at 1; rewrite lookup_fmap; destruct (apis r !! _) as [old|] eqn:Ek; cbn [fmap option_fmap option_map];
    intros Hr; try (by injection Hr as <- <-).
  - bind_inv Hr. bind_inv Hr. destruct a0 as [rt m]. bind_inv Hr. apply newAPIRuntime_meta in E.
    destruct (copied_others r v now _ rt m 0 H Ho Hok ltac:(by right) E0) as (Hm & l & Hh & Hl).
    pose proof (Add_refusal (metas r) rt l v Hh Hk Hl) as Hadd. rewrite E in E1. unfold apiRuntime_isUp in E1. rewrite E in E1.
    destruct (bool_decide (API_Status v = Up)).
    + destruct (refusal (metas r) v) as [x|].
      * rewrite Hadd in E1. injection E1 as <-. by injection Hr as <- <-.
      * destruct Hadd as [rt' Hadd]. rewrite Hadd in E1. injection E1 as <-. injection Hr as <- <-.
        rewrite abs_set_apis, fmap_insert, Hm, E. by destruct (p_cb _).
    + injection E1 as <-. injection Hr as <- <-. rewrite abs_set_apis, fmap_insert, Hm, E. by destruct (p_cb _).
  - bind_inv Hr. destruct a as [rt m]. destruct (m !! _) as [cl|]; [|done].
    bind_inv Hr. bind_inv Hr. apply newAPIRuntime_meta in E0.
    destruct (copied_others r v now _ rt m (API_ID v) H Ho Hok ltac:(by left) E) as (Hm & l & Hh & Hl).
    pose proof (Add_refusal (metas r) rt l v Hh Hk Hl) as Hadd. rewrite E0 in E1.
    destruct (refusal (metas r) v) as [x|].
    + rewrite Hadd in E1. injection E1 as <-. by injection Hr as <- <-.
    + destruct Hadd as [rt' Hadd]. rewrite Hadd in E1. injection E1 as <-. injection Hr as <- <-.
      rewrite abs_set_apis, fmap_insert, Hm, E0. by destruct (p_cb _).
  - bind_inv Hr. destruct a as [rt m]. injection Hr as <- <-.
    by rewrite abs_set_apis, (copyAPIs_meta _ _ _ _ _ _ _ (order_visits _ _ Ho) E).
Qed.

(** Every event of the dispatcher. *)
Lemma refine_handle evt o now r : inv r -> order_ok (apiOrder o) (apis r) -> route_ok (metas r) (route r) ->
  refines (bindOrder o) evt r (handle evt o now r).
Proof.
  intros H Ho Hok. destruct evt as [t k v|t k v|t k v|t k v|t k v|t v|v]; cbn [handle];
    eauto using refine_routing, refine_proxy, refine_api, refine_cluster, refine_server, refine_bind, refine_status.
Qed.

Lemma handle_route evt o now r e r' : wf_evt evt -> inv r -> order_ok (apiOrder o) (apis r) ->
  handle evt o now r = Ret (e, r') -> route_ok (metas r) (route r) -> route_ok (metas r') (route r').
Proof.
  intros Hw H Ho Hr. destruct evt as [t k v|t k v|t k v|t k v|t k v|t v|v]; cbn [handle wf_evt] in *.
  - apply same_apis_ok. by eapply doRoutingEvent_same.
  - apply same_apis_ok. by eapply doProxyEvent_same.
  - destruct t; [by eapply addAPI_route|by eapply updateAPI_route|by eapply removeAPI_route].
  - apply same_apis_ok. by eapply doClusterEvent_same.
  - apply same_apis_ok. by eapply doServerEvent_same.
  - apply same_apis_ok. by eapply doBindEvent_same.
  - injection Hr as _ <-. apply same_apis_ok. unfold doStatusChangedEvent. by destruct (bool_decide _).
Qed.

(** Health checks and requests do not touch the APIs. *)
Lemma check_same id ok limit order r ev r' : check id ok limit order r = Ret (ev, r') -> same_apis r r'.
Proof.
  unfold check. destruct (servers_ r !! id) as [s|]; [|by intros [= _ <-]].
  assert (Hs : ∀ s, same_apis r (scheduleCheck limit id s r))
    by (intros s'; unfold scheduleCheck; by destruct (Server_HeathCheck (svr_meta s'))).
  destruct (Server_HeathCheck (svr_meta s)); [|intros [= _ <-]; apply Hs].
  intros Hr. bind_inv Hr. destruct a. injection Hr as _ <-. apply Hs.
Qed.

Lemma select_same ctx id r res r' : selectServerFromCluster ctx id r = Ret (res, r') -> same_apis r r'.
Proof.
  unfold selectServerFromCluster. destruct (clusters r !! id); [|by intros [= _ <-]].
  destruct (binds_ r !! id); [|by intros [= _ <-]]. intros Hr. bind_inv Hr. destruct a. by injection Hr as _ <-.
Qed.

Lemma same_apis_trans r1 r2 r3 : same_apis r1 r2 -> same_apis r2 r3 -> same_apis r1 r3.
Proof. intros [H1 H2] [H3 H4]. split; congruence. Qed.

Lemma adjust_same order apiID ctx req dn : ∀ r dn' r',
  adjustByRouting order apiID ctx req dn r = Ret (dn', r') -> same_apis r r'.
Proof.
  induction order as [|k order IH]; intros r dn' r' Hr; cbn in Hr; [by injection Hr as _ <-|].
  destruct (routings r !! k) as [rt|]; [|by eapply IH].
  destruct (routingRuntime_isUp rt); cbn [negb] in Hr; [|by eapply IH].
  bind_inv Hr. destruct a as [mt rt']. destruct mt; cbn [negb] in Hr; [|exact (IH _ _ _ Hr)].
  bind_inv Hr. destruct a as [svr r2]. injection Hr as _ <-. exact (select_same _ _ _ _ _ E0).
Qed.

Lemma dispatchNodes_same order apiID ctx req nodes : ∀ idx r dns r',
  dispatchNodes order apiID ctx req idx nodes r = Ret (dns, r') -> same_apis r r'.
Proof.
  induction nodes as [|n nodes IH]; intros idx r dns r' Hr; cbn in Hr; [by injection Hr as _ <-|].
  unfold dispatcher_selectServer in Hr. bind_inv Hr. destruct a as [dn r1]. bind_inv E. destruct a as [d r2].
  bind_inv Hr. destruct a as [rest r3]. injection Hr as _ <-.
  eapply same_apis_trans; [by eapply select_same|]. eapply same_apis_trans; [by eapply adjust_same|by eapply IH].
Qed.

Lemma dispatch_same order ctx req r res r' : dispatch order ctx req r = Ret (res, r') -> same_apis r r'.
Proof.
  unfold dispatch. intros Hr. bind_inv Hr. destruct a as [[api|] ps]; [|by injection Hr as _ <-].
  destruct (API_UseDefault _); [by injection Hr as _ <-|]. bind_inv Hr. destruct a as [dns r1]. injection Hr as _ <-.
  by eapply dispatchNodes_same.
Qed.

Lemma step_route s s' : step s s' -> inv (disp s) ->
  route_ok (metas (disp s)) (route (disp s)) -> route_ok (metas (disp s')) (route (disp s')).
Proof.
  intros Hs H. destruct Hs as [evt o now r p e r' Hw _ (_ & Ho & _) Hh|v o now r p1 p2 e r' (_ & Ho & _) Hh
    |id q ok limit order r p ev r' _ _ Hc|h id r p _|order ctx req r p res r' _ Hd]; cbn in *.
  - by eapply handle_route.
  - exact (handle_route (EvtStatusChanged v) o now _ _ _ I H Ho Hh).
  - apply same_apis_ok. exact (check_same _ _ _ _ _ _ _ Hc).
  - apply same_apis_ok. unfold heathCheckTimeout. cbn. by destruct (servers_ r !! id).
  - apply same_apis_ok. by eapply dispatch_same.
Qed.

Lemma reachable_route s : reachable s -> route_ok (metas (disp s)) (route (disp s)).
Proof.
  induction 1 as [|s s' Hr IH Hs]; [|by eapply step_route; [|apply reachable_ok|]].
  cbn. unfold metas. cbn. rewrite fmap_empty. split_and!.
  - intros k a Ha. by apply lookup_empty_Some in Ha.
  - intros k k' a a' _ Ha. by apply lookup_empty_Some in Ha.
  - exists []. split_and!; [exact holds_new| |].
    + intros k a Ha. by apply lookup_empty_Some in Ha.
    + intros a Ha. by apply elem_of_nil in Ha.
Qed.

(** C13: in every reachable state the routing table, rebuilt on each change with the errors
    ignored, is well-formed, has every API that is up under the keys of its pattern and its
    method, and has nothing that is not registered. *)
Theorem up_api_routed : ∀ s : system, reachable s ->
  wf_route (route (disp s)) /\
  (∀ id a, apis (disp s) !! id = Some a -> API_Status (a_meta a) = Up ->
    ∃ nodes, parseInput (API_URLPattern (a_meta a)) = Ret (inr nodes) /\
      tableAt (route (disp s)) (pattern_keys nodes) !! API_Method (a_meta a) = Some id) /\
  (∀ ks m id, tableAt (route (disp s)) ks !! m = Some id ->
    ∃ a nodes, apis (disp s) !! id = Some a /\ API_Method (a_meta a) = m /\
      parseInput (API_URLPattern (a_meta a)) = Ret (inr nodes) /\ pattern_keys nodes = ks).
Proof.
  intros s Hs. pose proof (reachable_ok s Hs) as H. destruct (reachable_route s Hs) as (Hread & _ & l & [Hwf Ht] & Hin & Hout).
  split_and!; [done| |].
  - intros id a Ha Hu. assert (Hm : metas (disp s) !! id = Some (a_meta a)) by (unfold metas; by rewrite lookup_fmap, Ha).
    destruct (Hread id _ Hm Hu) as (ks & nodes & Hp & <-). exists nodes. split; [done|].
    apply Ht. exists (a_meta a). split_and!; [by eapply Hin|by exists nodes|done|].
    by destruct (metas_keyed _ _ _ H Hm).
  - intros ks m id (b & Hb & (nodes & Hp & Hks) & Hmt & Hid)%Ht. pose proof (Hout b Hb) as Hb'.
    unfold metas in Hb'. rewrite Hid, lookup_fmap in Hb'. apply fmap_Some in Hb' as (a & Ha & ->).
    exists a, nodes. done.
Qed.

End Route.

#[local] Instance env_plain : Env := plain_env.

Lemma up_api_routed_witness : ∃ nodes, parseInput (str "/a") = Ret (inr nodes) /\
  tableAt (route sample) (pattern_keys nodes) !! str "GET" = Some 3.
Proof.
  destruct (up_api_routed (mkSystem sample []) sample_reachable) as (_ & H & _).
  destruct (apis sample !! 3) as [a|] eqn:E; [|exfalso; vm_compute in E; discriminate E].
  assert (Ha : API_Status (a_meta a) = Up /\ API_URLPattern (a_meta a) = str "/a" /\ API_Method (a_meta a) = str "GET")
    by (vm_compute in E; injection E as <-; done).
  destruct Ha as (Hu & Hp & Hm). rewrite <- Hp, <- Hm. by apply H.
Defined.
