(* ===== verification/StorePages.v ===== *)
(** The keys of the store and the reading of a directory page by page: keys are ordered by
    the ids in them, and [getValues] visits every message of a directory once, in the order
    of the ids, whatever the limit of a page. *)
From stdpp Require Import sorting.
From S2P Require Import Prelude Meta JsonEscape Format Matching Validation Etcd Store Codec.
Import EtcdStore.

(** ** Keys *)

Lemma u64_lt_20_digits id : is_u64 id -> 0 <= id < 10^Z.of_nat 20.
Proof. unfold is_u64. change (10^Z.of_nat 20) with 100000000000000000000. lia. Qed.

Lemma getKey_digits dir id : is_u64 id -> getKey dir id = (dir ++ str "/") ++ digits 20 id.
Proof.
  intros Hid. unfold getKey, UInt64ToString. rewrite padded_numeral by (by apply u64_lt_20_digits). by rewrite app_assoc.
Qed.

Lemma digits_lt n : ∀ x y, 0 <= x < 10^Z.of_nat n -> 0 <= y < 10^Z.of_nat n -> key_lt (digits n x) (digits n y) = (x <? y).
Proof.
  induction n as [|n IH]; intros x y Hx Hy.
  - cbn in Hx, Hy. symmetry. apply Z.ltb_ge. lia.
  - assert (Hd : ∀ z, 0 <= z < 10^Z.of_nat (S n) -> 0 <= z / 10 < 10^Z.of_nat n).
    { intros z Hz. split; [apply Z.div_pos; lia|]. apply Z.div_lt_upper_bound; [lia|].
      replace (Z.of_nat (S n)) with (Z.succ (Z.of_nat n)) in Hz by lia. rewrite Z.pow_succ_r in Hz by lia. lia. }
    cbn [digits]. rewrite key_lt_snoc by (by rewrite !length_digits). rewrite IH by auto.
    pose proof (Z.div_mod x 10 ltac:(lia)). pose proof (Z.div_mod y 10 ltac:(lia)).
    pose proof (Z.mod_pos_bound x 10). pose proof (Z.mod_pos_bound y 10).
    apply eq_true_iff_eq. rewrite orb_true_iff, andb_true_iff, bool_decide_eq_true, !Z.ltb_lt. split.
    + intros [?|[E ?]]; [lia|]. apply (f_equal dec) in E. rewrite !dec_digits in E by auto. lia.
    + intros Hlt. destruct (decide (x / 10 = y / 10)) as [E|]; [right; rewrite E; split; [done|lia]|left; lia].
Qed.

Lemma getKey_lt dir x y : is_u64 x -> is_u64 y -> key_lt (getKey dir x) (getKey dir y) = (x <? y).
Proof. intros Hx Hy. rewrite !getKey_digits, key_lt_app by done. apply digits_lt; by apply u64_lt_20_digits. Qed.

Lemma getKey_le dir x y : is_u64 x -> is_u64 y -> key_le (getKey dir x) (getKey dir y) = (x <=? y).
Proof. intros. unfold key_le. rewrite getKey_lt by done. by rewrite Z.leb_antisym. Qed.

Lemma getKey_inj dir x y : is_u64 x -> is_u64 y -> getKey dir x = getKey dir y -> x = y.
Proof.
  intros Hx Hy E. pose proof (getKey_le dir x y Hx Hy) as H1. pose proof (getKey_le dir y x Hy Hx) as H2.
  rewrite E in H1, H2. unfold key_le in H1, H2. rewrite key_lt_irrefl in *. cbn in *. lia.
Qed.

Lemma HasPrefix_app p x : HasPrefix (p ++ x) p = true.
Proof. induction p as [|c p IH]; [by destruct x|]. cbn. by rewrite Z.eqb_refl, IH. Qed.

Lemma HasPrefix_extends k p : HasPrefix k p = true <-> ∃ x, k = p ++ x.
Proof.
  split; [|intros [x ->]; apply HasPrefix_app]. revert k. induction p as [|c p IH]; intros k; [by exists k|].
  destruct k as [|d k]; [done|]. cbn. rewrite andb_true_iff, Z.eqb_eq. intros [-> H]. destruct (IH k H) as [x ->]. by exists x.
Qed.

(** What lies between two extensions of a text extends it. *)
Lemma between_prefix p : ∀ k x y, key_le (p ++ x) k = true -> key_lt k (p ++ y) = true -> HasPrefix k p = true.
Proof.
  induction p as [|c p IH]; intros k x y Hl Hu; [by destruct k|].
  destruct k as [|d k]; [done|]. unfold key_le in Hl. cbn in *.
  destruct (Z.lt_trichotomy c d) as [Hc|[->|Hc]].
  - rewrite (proj2 (Z.ltb_ge d c)) in Hu by lia. rewrite (proj2 (Z.eqb_neq d c)) in Hu by lia. done.
  - rewrite Z.ltb_irrefl, Z.eqb_refl in *. cbn in *. by apply (IH k x y).
  - by rewrite (proj2 (Z.ltb_lt d c)) in Hl by lia.
Qed.

(** ** Directories *)

Section Dir.
Context {A} `{Pb A}.

(** Every key below a directory is the key of the message it holds. *)
Definition typed_entry (dir k data : bytes) : Prop := HasPrefix k (dir ++ str "/") = true ->
  ∃ v : A, is_u64 (GetID v) /\ k = getKey dir (GetID v) /\ Marshal v = Some data.
Definition typed (dir : bytes) (m : kv) : Prop := ∀ k data, m !! k = Some data -> typed_entry dir k data.

(** The messages of a directory; the greatest id is not one. *)
Definition dir_entries (dir : bytes) (start : Z) (m : kv) : list (bytes * bytes) :=
  entries (KRange (getKey dir start) (getKey dir endID)) m.
Definition decoded (l : list (bytes * bytes)) : list A := omap (λ e, Unmarshal A e.2) l.
Definition values (dir : bytes) (m : kv) : list A := decoded (dir_entries dir 0 m).

Lemma Marshal_decode (v : A) data : Marshal v = Some data -> Unmarshal A data = Some v.
Proof. intros E. destruct (Unmarshal_Marshal v) as (d & E1 & E2). by simplify_eq. Qed.

Lemma is_u64_0 : is_u64 0.
Proof. unfold is_u64. lia. Qed.
Lemma is_u64_endID : is_u64 endID.
Proof. unfold is_u64, endID. lia. Qed.

Lemma dir_entry dir m start k data : typed dir m -> is_u64 start ->
  (k, data) ∈ dir_entries dir start m <->
  ∃ v : A, start <= GetID v < endID /\ k = getKey dir (GetID v) /\ Marshal v = Some data /\ m !! k = Some data.
Proof.
  intros Ht Hs. unfold dir_entries. rewrite elem_of_entries. cbn [in_keys]. rewrite andb_true_iff. split.
  - intros [[Hl Hu] Hk]. destruct (Ht k data Hk) as (v & Hv & -> & Hm).
    { rewrite getKey_digits in Hl, Hu by (done || apply is_u64_endID). by apply (between_prefix _ _ _ _ Hl Hu). }
    exists v. rewrite getKey_le in Hl by done. rewrite getKey_lt in Hu by (done || apply is_u64_endID). split_and!; try done; lia.
  - intros (v & [H1 H2] & -> & _ & Hk). assert (Hv : is_u64 (GetID v)) by (unfold is_u64, endID in *; lia).
    rewrite getKey_le, getKey_lt by (done || apply is_u64_endID). split; [split; lia|done].
Qed.

(** Reading on after the last message of a page. *)
Lemma next_page dir m start l x rest : typed dir m -> is_u64 start -> dir_entries dir start m = l ++ x :: rest ->
  ∃ v : A, Unmarshal A x.2 = Some v /\ is_u64 (GetID v + 1) /\ dir_entries dir (GetID v + 1) m = rest.
Proof.
  intros Ht Hs El. destruct x as [k data].
  assert (Hx : (k, data) ∈ dir_entries dir start m) by (rewrite El; apply elem_of_app; right; by left).
  apply dir_entry in Hx as (v & Hv & -> & Hm & Hk); [|done..]. exists v. split; [by apply Marshal_decode|].
  assert (Hn : is_u64 (GetID v + 1)) by (unfold is_u64, endID in *; lia). split; [done|].
  pose proof (ascending_entries (KRange (getKey dir start) (getKey dir endID)) m) as Ha. fold (dir_entries dir start m) in Ha.
  rewrite El in Ha. apply StronglySorted_app in Ha as (Hcross & _ & Ha). apply StronglySorted_inv in Ha as [Hrest Hlater].
  apply ascending_ext; [apply ascending_entries|done|]. intros [k' data'].
  assert (Hsplit : (k', data') ∈ dir_entries dir start m /\ key_lt (getKey dir (GetID v)) k' = true <-> (k', data') ∈ rest).
  { rewrite El, elem_of_app, elem_of_cons. rewrite Forall_forall in Hlater. split.
    - intros [[Hin|[[= -> ->]|Hin]] Hlt]; [|by rewrite key_lt_irrefl in Hlt|done].
      pose proof (Hcross (k', data') (getKey dir (GetID v), data) Hin ltac:(by left)) as Hc. cbn in Hc.
      by rewrite key_lt_asym in Hlt.
    - intros Hin. split; [auto|]. by apply (Hlater (k', data')). }
  rewrite <- Hsplit, !dir_entry by done. split.
  - intros (w & Hw & -> & Hmw & Hkw). split; [exists w; split_and!; try done; lia|].
    rewrite getKey_lt by (unfold is_u64, endID in *; lia). lia.
  - intros [(w & Hw & -> & Hmw & Hkw) Hlt]. rewrite getKey_lt in Hlt by (unfold is_u64, endID in *; lia).
    exists w. split_and!; try done; lia.
Qed.

(** ** Pages *)

Context {Acc X : Type} (fn : A -> Acc -> outcome (X * Acc)).

(** What the visitor makes of messages in order. *)
Fixpoint visits (l : list A) (acc : Acc) : outcome Acc :=
  match l with [] => Ret acc | v :: l => '(_, acc) ← fn v acc; visits l acc end.

Lemma visits_app l1 l2 : ∀ acc, visits (l1 ++ l2) acc = acc ← visits l1 acc; visits l2 acc.
Proof. induction l1 as [|v l1 IH]; intros acc; [done|]. cbn. destruct (fn v acc) as [[err a]| |]; cbn; [apply IH|done..]. Qed.

(** A page whose texts decode. *)
Lemma visit_page l : ∀ start acc, Forall (λ e, is_Some (Unmarshal A e.2)) l ->
  visit fn l start acc = acc ← visits (decoded l) acc;
    Ret (None, (match last (decoded l) with Some v => u64 (GetID v + 1) | None => start end, acc)).
Proof.
  induction l as [|[k data] l IH]; intros start acc Hl; [done|]. apply Forall_cons in Hl as [[v Hv] Hl].
  cbn [visit]. unfold decoded. cbn [omap list_omap snd]. cbn in Hv. rewrite Hv. fold (decoded l). cbn [visits].
  destruct (fn v acc) as [[err a]| |]; cbn; [|done..]. rewrite IH by done. destruct (visits (decoded l) a); cbn; [|done..].
  do 3 f_equal. destruct (decoded l) as [|w ws] eqn:E; [done|]. cbn [last]. by destruct (last (w :: ws)) eqn:El; [|apply last_None in El].
Qed.

Lemma typed_decodes dir m start : typed dir m -> is_u64 start -> Forall (λ e, is_Some (Unmarshal A e.2)) (dir_entries dir start m).
Proof.
  intros Ht Hs. apply Forall_forall. intros [k data] (v & _ & _ & Hm & _)%dir_entry; [|done..].
  exists v. by apply Marshal_decode.
Qed.

Lemma decoded_app l1 l2 : decoded (l1 ++ l2) = decoded l1 ++ decoded l2.
Proof. apply omap_app. Qed.

Lemma length_decoded l : Forall (λ e, is_Some (Unmarshal A e.2)) l -> length (decoded l) = length l.
Proof.
  induction 1 as [|x l [v Hv] _ IH]; [done|]. unfold decoded. cbn. rewrite Hv. cbn. by f_equal.
Qed.

(** A page of a directory that is full is followed by the rest. *)
Lemma full_page dir m start l rest : typed dir m -> is_u64 start -> dir_entries dir start m = l ++ rest -> l <> [] ->
  ∃ start', is_u64 start' /\ dir_entries dir start' m = rest /\
    match last (decoded l) with Some v => u64 (GetID v + 1) | None => start end = start'.
Proof.
  intros Ht Hs El Hl. destruct l as [|x l _] using rev_ind; [done|]. rewrite <- app_assoc in El. cbn in El.
  destruct (next_page dir m start l x rest Ht Hs El) as (v & Hv & Hn & Hr). exists (GetID v + 1). split_and!; [done|done|].
  rewrite decoded_app. unfold decoded at 2. cbn. rewrite Hv, last_snoc. by rewrite u64_small.
Qed.

Context `{EtcdLaws}.

(** A part that does not return ends the whole. *)
Lemma visits_stuck l rest acc : (∀ a, visits l acc <> Ret a) -> visits (l ++ rest) acc = acc ← visits l acc; Ret acc.
Proof. intros Hn. rewrite visits_app. destruct (visits l acc) as [a| |]; [by destruct (Hn a)|done..]. Qed.

Lemma getValues_loop (dir : bytes) limit c : typed dir (kvs c) -> 0 < limit ->
  ∀ fuel start acc, is_u64 start -> (length (dir_entries dir start (kvs c)) < fuel)%nat ->
  ∃ err l rest, loop (getValuesTurn dir limit fn c) fuel (start, acc) = (acc ← visits (decoded l) acc; Ret (err, acc)) /\
    dir_entries dir start (kvs c) = l ++ rest /\ (err = None /\ rest = [] \/ err = Some errRequest /\ ∃ ks, Get ks limit c = None).
Proof.
  intros Ht Hlim. induction fuel as [|fuel IH]; intros start acc Hs Hfuel; [lia|]. cbn [loop getValuesTurn].
  destruct (Get _ limit c) as [l|] eqn:Eg.
  2: { exists (Some errRequest), [], (dir_entries dir start (kvs c)). split_and!; eauto. }
  apply Get_ok in Eg. unfold page in Eg. rewrite (proj2 (Z.leb_gt limit 0)) in Eg by lia.
  fold (dir_entries dir start (kvs c)) in Eg. set (E := dir_entries dir start (kvs c)) in *.
  pose proof (typed_decodes dir (kvs c) start Ht Hs) as Hdec. fold E in Hdec.
  rewrite <- (take_drop (Z.to_nat limit) E) in Hdec. apply Forall_app in Hdec as [Hdec _]. rewrite <- Eg in Hdec.
  rewrite visit_page by done. assert (El : E = l ++ drop (Z.to_nat limit) E) by (by rewrite Eg, take_drop).
  destruct (visits (decoded l) acc) as [acc1| |] eqn:Ev; cbn [mbind outcome_mbind].
  2,3: exists None, E, []; rewrite app_nil_r; (split_and!; [|done|by left]); rewrite El, decoded_app, visits_stuck; by rewrite Ev.
  destruct (Z.ltb_spec (len l) limit) as [Hlt|Hge].
  - exists None, l, []. rewrite app_nil_r. split_and!; [by rewrite Ev| |by left].
    rewrite Eg, take_ge; [done|]. rewrite Eg in Hlt. unfold len in Hlt. rewrite length_take in Hlt. lia.
  - assert (Hne : l <> []) by (intros E0; rewrite E0, len_nil in Hge; lia).
    destruct (full_page dir (kvs c) start l _ Ht Hs El Hne) as (start' & Hs' & Hr & ->).
    destruct (IH start' acc1 Hs') as (err & l2 & rest & Hloop & Hsplit & Hend).
    { rewrite Hr. rewrite El in Hfuel. rewrite length_app in Hfuel. destruct l; [done|]. cbn in Hfuel. lia. }
    exists err, (l ++ l2), rest. split_and!; [|by rewrite El, <- app_assoc, <- Hsplit, Hr|done].
    rewrite decoded_app, visits_app, Ev. exact Hloop.
Qed.

Lemma length_entries ks m : (length (entries ks m) <= size m)%nat.
Proof.
  unfold entries. etransitivity; [apply length_filter|]. by rewrite (merge_sort_Permutation key_sorted (map_to_list m)), length_map_to_list.
Qed.

Lemma getValues_run (dir : bytes) limit e acc : typed dir (kvs (rawClient e)) -> 0 < limit ->
  ∃ err l rest, getValues dir limit fn acc e = (acc ← visits l acc; Ret (err, acc)) /\
    values dir (kvs (rawClient e)) = l ++ rest /\ (err = None /\ rest = [] \/ err = Some errRequest /\ ∃ ks, Get ks limit (rawClient e) = None).
Proof.
  intros Ht Hlim.
  destruct (getValues_loop dir limit (rawClient e) Ht Hlim (S (S (size (kvs (rawClient e))))) 0 acc is_u64_0)
    as (err & l & rest & Hloop & Hsplit & Hend).
  { pose proof (length_entries (KRange (getKey dir 0) (getKey dir endID)) (kvs (rawClient e))). unfold dir_entries. lia. }
  exists err, (decoded l), (decoded rest). split_and!; [exact Hloop| |].
  - unfold values. by rewrite Hsplit, decoded_app.
  - destruct Hend as [[-> ->]|?]; [by left|by right].
Qed.

(** The messages of a directory, in the order of their ids. *)
Lemma elem_of_values (dir : bytes) m v : typed dir m ->
  v ∈ values dir m <-> 0 <= GetID v < endID /\ ∃ data, Marshal v = Some data /\ m !! getKey dir (GetID v) = Some data.
Proof.
  intros Ht. unfold values, decoded. rewrite list_elem_of_omap. split.
  - intros ([k data] & He & Hd). apply dir_entry in He as (w & Hw & -> & Hm & Hk); [|done|apply is_u64_0].
    pose proof (Marshal_decode w data Hm). cbn in Hd. simplify_eq. eauto.
  - intros (Hv & data & Hm & Hk). exists (getKey dir (GetID v), data). split; [|by apply Marshal_decode].
    apply dir_entry; [done|apply is_u64_0|]. by exists v.
Qed.

Lemma values_sorted (dir : bytes) m : typed dir m -> StronglySorted (λ v w : A, GetID v < GetID w) (values dir m).
Proof.
  intros Ht. unfold values, decoded. pose proof (ascending_entries (KRange (getKey dir 0) (getKey dir endID)) m) as Ha.
  fold (dir_entries dir 0 m) in Ha. assert (Hin : ∀ e, e ∈ dir_entries dir 0 m -> ∃ v : A, is_u64 (GetID v) /\
    e.1 = getKey dir (GetID v) /\ Unmarshal A e.2 = Some v).
  { intros [k data] (v & Hv & -> & Hm & _)%dir_entry; [|done|apply is_u64_0]. exists v.
    split_and!; [unfold is_u64, endID in *; lia|done|by apply Marshal_decode]. }
  induction Ha as [|x l Ha IH Hx]; [constructor|]. destruct (Hin x ltac:(by left)) as (v & Hv & Ek & Ed).
  cbn. rewrite Ed. constructor; [apply IH; intros; apply Hin; by right|].
  apply Forall_forall. intros w (y & Hy & Ew)%list_elem_of_omap. rewrite Forall_forall in Hx. specialize (Hx y Hy).
  destruct (Hin y ltac:(by right)) as (w' & Hw & Eky & Edy). rewrite Edy in Ew. injection Ew as ->.
  rewrite Ek, Eky in Hx. cbn in Hx. rewrite getKey_lt in Hx by done. lia.
Qed.

(** C21: reading a directory is the run of the visitor on its messages, each once, in the order
    of their ids, whatever the size of a page: it ends when the visitor does.  When a request
    fails it is a run on the first of them, and then it says so.  Only the message of the
    greatest id is left out. *)
Theorem getValues_visits (dir : bytes) limit e acc : typed dir (kvs (rawClient e)) -> 0 < limit ->
  (∃ err l rest, getValues dir limit fn acc e = (acc ← visits l acc; Ret (err, acc)) /\
    values dir (kvs (rawClient e)) = l ++ rest /\ (err = None /\ rest = [] \/ err = Some errRequest /\ ∃ ks, Get ks limit (rawClient e) = None)) /\
  StronglySorted (λ v w : A, GetID v < GetID w) (values dir (kvs (rawClient e))) /\
  ∀ v : A, v ∈ values dir (kvs (rawClient e)) <->
    0 <= GetID v < endID /\ ∃ data, Marshal v = Some data /\ kvs (rawClient e) !! getKey dir (GetID v) = Some data.
Proof.
  intros Ht Hl. split; [by apply getValues_run|]. split; [by apply values_sorted|]. intros v. by apply elem_of_values.
Qed.

End Dir.

(** Two clusters in a directory, read one at a time. *)
Module PageSamples.
#[local] Existing Instance MapEtcd.client.
#[local] Existing Instance MapEtcd.laws.
#[local] Instance Cluster_pb : Pb Cluster := Countables.pb Cluster.

Definition dir : bytes := str "/gw/clusters".
Definition one : Cluster := mkCluster 101 (str "a") RoundRobin.
Definition two : Cluster := mkCluster 102 (str "b") RoundRobin.
Definition entry (v : Cluster) : bytes * bytes := (getKey dir (Cluster_ID v), default [] (Marshal v)).
Definition sample : EtcdStore := mkStore 0 0 (list_to_map [entry two; entry one] : kv, []).
Definition collect (v : Cluster) (acc : list Z) : outcome (option error * list Z) := Ret (None, Cluster_ID v :: acc).

Lemma sample_typed : typed (A := Cluster) dir (kvs (rawClient sample)).
Proof.
  intros k data Hk. apply elem_of_list_to_map_2 in Hk. intros _.
  repeat (apply elem_of_cons in Hk as [[= -> ->]|Hk]); [exists two|exists one|by apply elem_of_nil in Hk]; done.
Qed.

Example collect_runs : getValues dir 1 collect [] sample = Ret (None, [102; 101]).
Proof. vm_compute. reflexivity. Qed.

Lemma getValues_visits_witness : StronglySorted (λ v w : Cluster, GetID v < GetID w) (values dir (kvs (rawClient sample))).
Proof. refine (proj1 (proj2 (getValues_visits collect dir 1 sample [] sample_typed _))); lia. Defined.
End PageSamples.
