(* ===== verification/StoreLogic.v ===== *)
(** A logic for the operations of the store: what an operation keeps of the map in etcd and
    what it answers with, one rule per construct.  An operation can fail at every request, so
    what is kept is kept by every prefix of it. *)
From S2P Require Import Prelude Meta JsonEscape Format Matching Etcd Store.
Import EtcdStore.

Section Logic.
Context `{EtcdLaws} (prefix : bytes) (I : etcd -> Prop).
Implicit Types (e : EtcdStore).

(** [I] is about the keys and their history. *)
Definition same c c' : Prop := kvs c' = kvs c /\ history c' = history c.
Context (I_same : ∀ c c', same c c' -> I c -> I c').

(** A transaction of these operations keeps it. *)
Definition ops_keep (ops : list Op) : Prop := ∀ cmps c, I c -> I (Commit cmps ops c).2.

(** An operation keeps [I], and what it answers with satisfies [Q]. *)
Definition sat {A} (x : M A) (Q : A -> Prop) : Prop := ∀ e r e',
  I (rawClient e) -> x e = Ret (r, e') -> I (rawClient e') /\ ∀ a, r = Ok a -> Q a.

Lemma sat_ret {A} (a : A) (Q : A -> Prop) : Q a -> sat (mret a) Q.
Proof. intros Hq e r e' He [= <- <-]. split; [done|]. by intros ? [= <-]. Qed.

Lemma sat_throw {A} err (Q : A -> Prop) : sat (throw err) Q.
Proof. intros e r e' He [= <- <-]. by split. Qed.

Lemma sat_bind {A B} (x : M A) (f : A -> M B) (Q : A -> Prop) (R : B -> Prop) :
  sat x Q -> (∀ a, Q a -> sat (f a) R) -> sat (x ≫= f) R.
Proof.
  intros Hx Hf e r e' He Hr. unfold mbind, M_bind in Hr. destruct (x e) as [[[a|err] e1]| |] eqn:Ex; cbn in Hr; try done.
  - destruct (Hx e _ e1 He Ex) as [H1 Ha]. by apply (Hf a (Ha a eq_refl) e1 r e').
  - injection Hr as <- <-. destruct (Hx e _ e1 He Ex) as [H1 _]. by split.
Qed.

Lemma sat_mono {A} (x : M A) (Q R : A -> Prop) : sat x Q -> (∀ a, Q a -> R a) -> sat x R.
Proof. intros Hx Hq e r e' He Hr. destruct (Hx e r e' He Hr) as [? Ha]. split; [done|]. intros a Ea. by apply Hq, Ha. Qed.

Lemma sat_commit cmps ops : ops_keep ops -> sat (commit cmps ops) (λ _, True).
Proof.
  intros Ho e r e' He Hr. unfold commit in Hr. specialize (Ho cmps _ He). destruct (Commit cmps ops (rawClient e)) as [b c].
  by destruct b; injection Hr as <- <-.
Qed.

Lemma sat_get ks limit : sat (get ks limit) (λ _, True).
Proof. intros e r e' He Hr. injection Hr as _ <-. by split. Qed.

Lemma sat_lift {A} (x : outcome A) : sat (lift x) (λ _, True).
Proof. intros e r e' He Hr. unfold lift in Hr. destruct x; cbn in Hr; try done. injection Hr as <- <-. by split. Qed.

Lemma sat_check err : sat (check err) (λ _, True).
Proof. destruct err; [apply sat_throw|by apply sat_ret]. Qed.

Lemma sat_ofOption {A} err (x : option A) : sat (ofOption err x) (λ a, x = Some a).
Proof. destruct x; [by apply sat_ret|apply sat_throw]. Qed.

Lemma sat_if {A} (b : bool) (x y : M A) Q : (b = true -> sat x Q) -> (b = false -> sat y Q) -> sat (if b then x else y) Q.
Proof. by destruct b; auto. Qed.

(** What changes only what the store itself keeps. *)
Lemma sat_local {A} (x : M A) (Q : A -> Prop) : (∀ e r e', x e = Ret (r, e') -> same (rawClient e) (rawClient e') /\ ∀ a, r = Ok a -> Q a) -> sat x Q.
Proof. intros Hx e r e' He Hr. destruct (Hx e r e' Hr) as [Hs ?]. split; [by eapply I_same|done]. Qed.

(** ** The requests *)

Lemma sat_put key value lease : ops_keep [OpPut key value lease] -> sat (put key value lease) (λ _, True).
Proof. intros Hk. eapply sat_bind; [by apply sat_commit|]. intros. by apply sat_ret. Qed.

Lemma sat_delete ks : ops_keep [OpDelete ks] -> sat (delete_ ks) (λ _, True).
Proof. intros. eapply sat_bind; [by apply sat_commit|]. intros. by apply sat_ret. Qed.

Lemma sat_putBatch ops : ops_keep ops -> sat (putBatch ops) (λ _, True).
Proof.
  intros Ho. apply sat_if; intros _; [by apply sat_ret|]. eapply sat_bind; [by apply sat_commit|]. intros. by apply sat_ret.
Qed.

Lemma sat_grant ttl : sat (grant ttl) (λ _, True).
Proof.
  apply sat_local. intros e r e' Hr. unfold grant in Hr. pose proof (Grant_same ttl (rawClient e)) as Hg.
  destruct (Grant ttl (rawClient e)) as [l c]. by injection Hr as _ <-.
Qed.

Lemma sat_keepAlive l : sat (keepAlive l) (λ _, True).
Proof.
  apply sat_local. intros e r e' Hr. unfold keepAlive in Hr. pose proof (KeepAlive_same l (rawClient e)) as Hg.
  destruct (KeepAlive l (rawClient e)) as [ok c]. by injection Hr as _ <-.
Qed.

Lemma sat_getValue key : sat (getValue key) (λ _, True).
Proof. eapply sat_bind; [apply sat_get|]. intros. by apply sat_ret. Qed.

Lemma sat_getPBWithKey {A} `{!Message A} key (zero : A) b : sat (getPBWithKey key zero b) (λ _, True).
Proof.
  eapply sat_bind; [apply sat_getValue|]. intros data _. apply sat_if; intros _.
  - apply sat_if; intros _; [by apply sat_ret|apply sat_throw].
  - eapply sat_mono; [apply sat_ofOption|done].
Qed.

(** *** Ids *)

Context (Hid : ∀ n, is_u64 n -> ops_keep [op (idPath prefix) (Uint64ToBytes n)]).

Lemma sat_getID : sat (getID prefix) (λ _, True).
Proof.
  eapply sat_bind; [apply sat_getValue|]. intros data _. apply sat_if; intros _; [by apply sat_ret|].
  eapply sat_mono; [apply sat_ofOption|done].
Qed.

Lemma sat_putID cmps n : is_u64 n -> sat (ok ← commit cmps [op (idPath prefix) (Uint64ToBytes n)]; if (ok : bool) then mret () else throw ErrStaleOP) (λ _, True).
Proof.
  intros Hn. eapply sat_bind; [by apply sat_commit, Hid|]. intros ok _.
  apply sat_if; intros _; [by apply sat_ret|apply sat_throw].
Qed.

Lemma sat_reserve v : sat (reserve prefix v) (λ _, True).
Proof. apply sat_if; intros _; apply sat_putID, u64_range. Qed.

Lemma sat_generate : sat (generate prefix) is_u64.
Proof.
  intros e r e' He Hr.
  apply (loop_post (generate_turn prefix) (λ e, I (rawClient e))
    (λ re, I (rawClient re.2) /\ ∀ a, re.1 = Ok a -> is_u64 a)) in Hr; [done| |done].
  intros e0 He0. unfold generate_turn. destruct (getID prefix e0) as [[[v|err] e1]| |] eqn:E1; cbn; try done.
  - destruct (sat_getID e0 _ e1 He0 E1) as [H1 _]. destruct (reserve prefix v e1) as [[[[]|err] e2]| |] eqn:E2; cbn; try done.
    + destruct (sat_reserve v e1 _ e2 H1 E2) as [H2 _]. split; [done|]. intros [r3 e3] [= <- <-]. split; [done|].
      intros a [= <-]. apply u64_range.
    + destruct (sat_reserve v e1 _ e2 H1 E2) as [H2 _]. destruct err; split; try done; by intros ? [= <-].
  - destruct (sat_getID e0 _ e1 He0 E1) as [H1 _]. split; [done|]. by intros ? [= <-].
Qed.

Lemma sat_allocID : sat (allocID prefix) is_u64.
Proof.
  eapply (sat_bind _ _ (λ _, True)).
  - intros e r e' He Hr. unfold ensureRange in Hr. destruct (base e =? end_ e); [|by injection Hr as <- <-].
    revert Hr. apply (sat_bind _ _ is_u64); [apply sat_generate| |done]. intros n _. apply sat_local. by intros ? ? ? [= <- <-].
  - intros _ _. apply sat_local. intros ? ? ? [= <- <-]. split; [done|]. intros ? [= <-]. apply u64_range.
Qed.

Lemma sat_setIDs b n : sat (setIDs b n) (λ _, True).
Proof. apply sat_local. by intros ? ? ? [= <- <-]. Qed.

Lemma sat_SetID id : is_u64 id -> sat (SetID_ prefix id) (λ _, True).
Proof.
  intros Hn. eapply sat_bind; [by apply sat_commit, Hid|]. intros ok _. apply sat_if; intros _; [apply sat_setIDs|apply sat_throw].
Qed.

(** The message keeps its id, or is given one. *)
Definition identified {A} `{Pb A} (v w : A) : Prop :=
  if GetID v =? 0 then ∃ id, is_u64 id /\ w = SetID id v else w = v.

Lemma identified_u64 {A} `{Pb A} (v w : A) : is_u64 (GetID v) -> identified v w -> is_u64 (GetID w).
Proof.
  unfold identified. destruct (GetID v =? 0); [|by intros ? ->]. intros _ (id & Hi & ->). by rewrite GetID_SetID.
Qed.

Lemma sat_ensureID {A} `{Pb A} (v : A) : sat (ensureID prefix v) (λ r, identified v r.1).
Proof.
  unfold ensureID, identified. destruct (GetID v =? 0); [|by apply sat_ret].
  eapply sat_bind; [apply sat_allocID|]. intros id Hi. apply sat_ret. by exists id.
Qed.

(** Putting a message: only its key, and the counter. *)
Lemma sat_putPB {A} `{Pb A} dir (v : A) :
  (∀ w data, identified v w -> Marshal w = Some data -> ops_keep [OpPut (getKey dir (GetID w)) data None]) ->
  sat (putPB prefix dir v) (λ _, True).
Proof.
  intros Hw. eapply sat_bind; [by apply sat_ensureID|]. intros [w ids] Hi.
  eapply sat_bind; [apply sat_ofOption|]. intros data Em. eapply sat_bind; [by eapply sat_put, Hw|]. intros. by apply sat_ret.
Qed.

Lemma sat_unit {A} (x : M A) (Q : A -> Prop) : sat x Q -> sat (_ ← x; mret ()) (λ _, True).
Proof. intros Hx. eapply sat_bind; [exact Hx|]. intros. by apply sat_ret. Qed.

Lemma sat_checked {A} err (x : M A) Q : sat x Q -> sat (_ ← check err; x) Q.
Proof. intros Hx. eapply sat_bind; [apply sat_check|]. by intros. Qed.

End Logic.

(** ** Successful runs *)

Section Runs.
Context `{EtcdLaws}.
Implicit Types (e : EtcdStore).

Lemma bind_ok_inv {A B} (x : M A) (f : A -> M B) e b e' : (x ≫= f) e = Ret (Ok b, e') ->
  ∃ a e1, x e = Ret (Ok a, e1) /\ f a e1 = Ret (Ok b, e').
Proof.
  unfold mbind, M_bind. destruct (x e) as [[[a|err] e1]| |]; cbn; intros Hr; try done. by exists a, e1.
Qed.

Lemma ofOption_ok_inv {A} err (x : option A) e a e' : ofOption err x e = Ret (Ok a, e') -> x = Some a /\ e' = e.
Proof. destruct x; [by intros [= -> ->]|by intros [= ]]. Qed.

Lemma commit_ok_inv cmps ops e b e' : commit cmps ops e = Ret (Ok b, e') ->
  b = forallb (holds (kvs (rawClient e))) cmps /\ base e' = base e /\ end_ e' = end_ e /\
  kvs (rawClient e') = (if b then (apply_ops ops (kvs (rawClient e))).1 else kvs (rawClient e)) /\
  history (rawClient e') = history (rawClient e) ++ (if b then (apply_ops ops (kvs (rawClient e))).2 else []).
Proof.
  unfold commit. destruct (Commit cmps ops (rawClient e)) as [[b'|] c] eqn:Ec; intros [= <- <-].
  apply Commit_ok in Ec as [Eb Ec]. split; [done|]. split; [done|]. split; [done|]. cbn.
  destruct b'; [|injection Ec as -> ->; by rewrite app_nil_r].
  destruct (apply_ops ops _) as [m es]. by injection Ec as -> ->.
Qed.

Lemma put_ok_inv key value lease e u e' : put key value lease e = Ret (Ok u, e') ->
  kvs (rawClient e') = <[key := value]> (kvs (rawClient e)).
Proof.
  intros (b & e1 & Hc & Hr)%bind_ok_inv. injection Hr as <-. subst. apply commit_ok_inv in Hc as (-> & _ & _ & -> & _). done.
Qed.

Lemma entries_one k m : entries (KOne k) m = match m !! k with Some v => [(k, v)] | None => [] end.
Proof.
  apply ascending_ext; [apply ascending_entries| |].
  - destruct (m !! k); repeat constructor.
  - intros [k' v']. rewrite elem_of_entries. cbn. unfold bytes_eqb. rewrite bool_decide_eq_true. split.
    + intros [-> ->]. by left.
    + destruct (m !! k) as [v|] eqn:Ek; [|by intros ?%elem_of_nil]. intros E%list_elem_of_singleton. by simplify_eq.
Qed.

Lemma bind_run {A B} (x : M A) (f : A -> M B) e : (x ≫= f) e =
  match x e with Ret (Ok a, e1) => f a e1 | Ret (Err err, e1) => Ret (Err err, e1) | Panic => Panic | Hang => Hang end.
Proof. unfold mbind, M_bind. by destruct (x e) as [[[a|err] e1]| |]. Qed.

(** What a key is read as: no value, or a text that decodes. *)
Lemma getPBWithKey_run {A} `{!Message A} key (zero : A) b e : getPBWithKey key zero b e =
  Ret (match Get (KOne key) 0 (rawClient e) with
       | None => Err errRequest
       | Some _ =>
           let data := default [] (kvs (rawClient e) !! key) in
           if len data =? 0 then if b then Ok zero else Err (errNotFound key)
           else match Unmarshal A data with Some v => Ok v | None => Err errUnmarshal end
       end, e).
Proof.
  unfold getPBWithKey, getValue. rewrite !bind_run. unfold get. destruct (Get (KOne key) 0 (rawClient e)) as [l|] eqn:Eg; [|done].
  apply Get_ok in Eg as ->. change (page (KOne key) 0 (kvs (rawClient e))) with (entries (KOne key) (kvs (rawClient e))).
  rewrite entries_one. unfold ofOption, throw, mret, M_ret.
  destruct (kvs (rawClient e) !! key) as [v|]; cbn [default].
  - change (id v) with v. destruct (len v =? 0); [by destruct b|]. by destruct (Unmarshal A v).
  - cbn. by destruct b.
Qed.

(** A message put is the message read. *)
Definition read_back {A} `{Pb A} (prefix dir : bytes) (v zero : A) e id e' : Prop :=
  ∃ w data, identified v w /\ id = GetID w /\ Marshal w = Some data /\
    (∀ k, k <> idPath prefix -> kvs (rawClient e') !! k = <[getKey dir id := data]> (kvs (rawClient e)) !! k) /\
    ∀ r e'', getPB dir id zero e' = Ret (r, e'') -> e'' = e' /\ (r = Ok w \/ r = Err errRequest).

(** A property of the keys is kept when the operations of the transaction keep it. *)
Lemma ops_keep_kvs (P : kv -> Prop) ops : (∀ m, P m -> P (apply_ops ops m).1) -> ops_keep (λ c, P (kvs c)) ops.
Proof.
  intros Ho cmps c Hc. destruct (Commit cmps ops c) as [[b|] c'] eqn:Ec; cbn; pose proof (Ho _ Hc) as H1.
  - apply Commit_ok in Ec as [_ Ec]. destruct b; [|by injection Ec as -> _]. destruct (apply_ops ops _). by injection Ec as -> _.
  - apply Commit_failed in Ec as [Ec|[_ Ec]]; [by injection Ec as -> _|]. destruct (apply_ops ops _). by injection Ec as -> _.
Qed.

Lemma kvs_same (P : kv -> Prop) c c' : same c c' -> P (kvs c) -> P (kvs c').
Proof. by intros [-> _]. Qed.

Definition frame (prefix : bytes) (m0 : kv) (m : kv) : Prop := ∀ k, k <> idPath prefix -> m !! k = m0 !! k.

Lemma frame_id prefix m0 n : ops_keep (λ c, frame prefix m0 (kvs c)) [op (idPath prefix) (Uint64ToBytes n)].
Proof. apply ops_keep_kvs. intros m Hm k Hk. cbn. rewrite lookup_insert_ne by done. by apply Hm. Qed.

Lemma putPB_read_back {A} `{Pb A} prefix dir (v zero : A) e id e' : getKey dir id <> idPath prefix -> id <> 0 ->
  putPB prefix dir v e = Ret (Ok id, e') -> read_back prefix dir v zero e id e'.
Proof.
  intros Hne Hid0 Hr. apply bind_ok_inv in Hr as ([w ids] & e1 & Hi & Hr).
  pose proof (sat_ensureID prefix (λ c, frame prefix (kvs (rawClient e)) (kvs c)) (kvs_same _) (λ n _, frame_id prefix _ n) v) as Hs.
  destruct (Hs e _ e1 ltac:(done) Hi) as [Hf Hw]. specialize (Hw _ eq_refl). cbn in Hw.
  apply bind_ok_inv in Hr as (data & e2 & Hm & Hr). apply ofOption_ok_inv in Hm as [Hm ->].
  apply bind_ok_inv in Hr as (u & e3 & Hp & Hr). injection Hr as <- <-. apply put_ok_inv in Hp.
  assert (Hk : ∀ k, k <> idPath prefix -> kvs (rawClient e3) !! k = <[getKey dir (GetID w) := data]> (kvs (rawClient e)) !! k).
  { intros k Hk. rewrite Hp. destruct (decide (getKey dir (GetID w) = k)) as [->|]; [by rewrite !lookup_insert_eq|].
    rewrite !lookup_insert_ne by done. by apply Hf. }
  exists w, data. split_and!; try done. intros r e'' Hg. unfold getPB in Hg. rewrite getPBWithKey_run in Hg.
  injection Hg as <- <-. split; [done|]. destruct (Get _ _ _); [|by right]. left.
  rewrite Hk, lookup_insert_eq by done. cbn.
  destruct (Z.eqb_spec (len data) 0) as [El%len_zero|]; [by destruct (Marshal_nonempty w Hid0); rewrite Hm, El|].
  destruct (Unmarshal_Marshal w) as (d & Hd & Hu). rewrite Hm in Hd. injection Hd as <-. by rewrite Hu.
Qed.

End Runs.
