(* ===== verification/StoreSpec.v ===== *)
(** What the operations of the store keep and do: every directory holds the messages its
    keys say, a message put is the message read, and what an operation changes. *)
From S2P Require Import Prelude Meta JsonEscape Format Matching RouteTable Dispatcher Validation Etcd Store Codec StorePages StoreLogic.
Import EtcdStore.

Lemma HasPrefix_app2 p a b : HasPrefix (p ++ a) (p ++ b) = HasPrefix a b.
Proof. induction p as [|c p IH]; [done|]. cbn. by rewrite Z.eqb_refl. Qed.

Section Spec.
Context `{EtcdLaws} (prefix : bytes) {checks : Checks} {sort : SortSlice}
  `{!Pb Cluster, !Pb Server, !Pb API, !Pb Routing, !Pb Plugin, !Message AppliedPlugins, !Message Bind, !Message Proxy}.
Implicit Types (e : EtcdStore) (m : kv).

Local Abbreviation clusters := (clustersDir prefix).
Local Abbreviation servers := (serversDir prefix).
Local Abbreviation binds := (bindsDir prefix).
Local Abbreviation apis := (apisDir prefix).
Local Abbreviation proxies := (proxiesDir prefix).
Local Abbreviation routings := (routingsDir prefix).
Local Abbreviation plugins := (pluginsDir prefix).

(** ** The type of the store *)

(** What a key may hold. *)
Record entry_ok (k data : bytes) : Prop := {
  ok_cluster : typed_entry (A := Cluster) clusters k data;
  ok_server : typed_entry (A := Server) servers k data;
  ok_api : typed_entry (A := API) apis k data;
  ok_routing : typed_entry (A := Routing) routings k data;
  ok_plugin : typed_entry (A := Plugin) plugins k data;
  ok_bind : HasPrefix k (binds ++ str "/") = true -> ∃ b : Bind, is_u64 (Bind_ClusterID b) /\ is_u64 (Bind_ServerID b) /\
    k = getBindKey prefix b /\ Marshal b = Some data;
  ok_proxy : HasPrefix k (proxies ++ str "/") = true -> ∃ p : Proxy, k = getAddrKey proxies (Proxy_Addr p) /\ Marshal p = Some data;
  ok_applied : k = appliedPluginDir prefix -> ∃ a : AppliedPlugins, Marshal a = Some data;
  ok_id : k = idPath prefix -> ∃ n, is_u64 n /\ data = Uint64ToBytes n
}.
Definition store_ok m : Prop := ∀ k data, m !! k = Some data -> entry_ok k data.

(** A key of one directory is in no other. *)
Ltac other := let E := fresh in
  unfold typed_entry, getBindKey, getClusterBindPrefix, getAddrKey, getKey, clustersDir, serversDir, bindsDir, apisDir, proxiesDir, routingsDir, pluginsDir,
    appliedPluginDir, idPath; rewrite <- ?app_assoc, ?HasPrefix_app2;
  first [intros E; cbn in E; discriminate E|intros E%app_inv_head; discriminate E].

Lemma cluster_entry (v : Cluster) data : is_u64 (GetID v) -> Marshal v = Some data -> entry_ok (getKey clusters (GetID v)) data.
Proof. intros. split; try other. intros _. by exists v. Qed.
Lemma server_entry (v : Server) data : is_u64 (GetID v) -> Marshal v = Some data -> entry_ok (getKey servers (GetID v)) data.
Proof. intros. split; try other. intros _. by exists v. Qed.
Lemma api_entry (v : API) data : is_u64 (GetID v) -> Marshal v = Some data -> entry_ok (getKey apis (GetID v)) data.
Proof. intros. split; try other. intros _. by exists v. Qed.
Lemma routing_entry (v : Routing) data : is_u64 (GetID v) -> Marshal v = Some data -> entry_ok (getKey routings (GetID v)) data.
Proof. intros. split; try other. intros _. by exists v. Qed.
Lemma plugin_entry (v : Plugin) data : is_u64 (GetID v) -> Marshal v = Some data -> entry_ok (getKey plugins (GetID v)) data.
Proof. intros. split; try other. intros _. by exists v. Qed.
Lemma bind_entry (b : Bind) data : is_u64 (Bind_ClusterID b) -> is_u64 (Bind_ServerID b) -> Marshal b = Some data ->
  entry_ok (getBindKey prefix b) data.
Proof. intros. split; try other. intros _. by exists b. Qed.
Lemma proxy_entry (p : Proxy) data : Marshal p = Some data -> entry_ok (getAddrKey proxies (Proxy_Addr p)) data.
Proof. intros. split; try other. intros _. by exists p. Qed.
Lemma applied_entry (a : AppliedPlugins) data : Marshal a = Some data -> entry_ok (appliedPluginDir prefix) data.
Proof. intros. split; try other. intros _. by exists a. Qed.
Lemma id_entry n : is_u64 n -> entry_ok (idPath prefix) (Uint64ToBytes n).
Proof. intros. split; try other. intros _. by exists n. Qed.

(** What the requests put: the entries of the directories, and the counter. *)
Inductive shape : bytes -> bytes -> Prop :=
| shape_cluster (v : Cluster) data : is_u64 (GetID v) -> Marshal v = Some data -> shape (getKey clusters (GetID v)) data
| shape_server (v : Server) data : is_u64 (GetID v) -> Marshal v = Some data -> shape (getKey servers (GetID v)) data
| shape_api (v : API) data : is_u64 (GetID v) -> Marshal v = Some data -> shape (getKey apis (GetID v)) data
| shape_routing (v : Routing) data : is_u64 (GetID v) -> Marshal v = Some data -> shape (getKey routings (GetID v)) data
| shape_plugin (v : Plugin) data : is_u64 (GetID v) -> Marshal v = Some data -> shape (getKey plugins (GetID v)) data
| shape_bind (b : Bind) data : is_u64 (Bind_ClusterID b) -> is_u64 (Bind_ServerID b) -> Marshal b = Some data ->
    shape (getBindKey prefix b) data
| shape_proxy (p : Proxy) data : Marshal p = Some data -> shape (getAddrKey proxies (Proxy_Addr p)) data
| shape_applied (a : AppliedPlugins) data : Marshal a = Some data -> shape (appliedPluginDir prefix) data
| shape_id n : is_u64 n -> shape (idPath prefix) (Uint64ToBytes n).

Lemma shape_entry k data : shape k data -> entry_ok k data.
Proof.
  destruct 1; eauto using cluster_entry, server_entry, api_entry, routing_entry, plugin_entry, bind_entry, proxy_entry, applied_entry, id_entry.
Qed.

Lemma store_typed m : store_ok m ->
  typed (A := Cluster) clusters m /\ typed (A := Server) servers m /\ typed (A := API) apis m /\
  typed (A := Routing) routings m /\ typed (A := Plugin) plugins m.
Proof. intros Hm. split_and!; intros k data Hk; by apply Hm in Hk as []. Qed.

(** ** Operations keep it *)

(** An operation of etcd of the kind requests make. *)
Definition op_ok (o : Op) : Prop := match o with OpPut k v _ => shape k v | OpDelete _ => True end.

Lemma apply_op_ok o m : op_ok o -> store_ok m -> store_ok (apply_op o m).1.
Proof.
  intros Ho Hm k data. destruct o as [k' v l|ks]; cbn in *.
  - destruct (decide (k' = k)) as [->|]; [rewrite lookup_insert_eq|rewrite lookup_insert_ne by done; apply Hm].
    intros [= <-]. by apply shape_entry.
  - intros [Hk _]%map_lookup_filter_Some. by apply Hm.
Qed.

Lemma apply_ops_ok ops : Forall op_ok ops -> ∀ m, store_ok m -> store_ok (apply_ops ops m).1.
Proof.
  induction 1 as [|o ops Ho1 Ho IH]; intros m Hm; [done|]. cbn.
  pose proof (apply_op_ok o m Ho1 Hm) as H1. destruct (apply_op o m) as [m1 es]. cbn in H1.
  pose proof (IH m1 H1) as H2. by destruct (apply_ops ops m1).
Qed.

(** ** The requests *)


Definition dir_ok {A} `{Pb A} (dir : bytes) : Prop := ∀ (v : A) data, is_u64 (GetID v) -> Marshal v = Some data ->
  shape (getKey dir (GetID v)) data.

Section Requests.
(** What the requests keep: any property of etcd that transactions of such operations keep. *)
Context (I : etcd -> Prop) (I_same : ∀ c c', same c c' -> I c -> I c').
Context (ops_ok : ∀ ops, Forall op_ok ops -> ops_keep I ops).

Lemma delete_ok ks : ops_keep I [OpDelete ks].
Proof. apply ops_ok. by repeat constructor. Qed.

Lemma id_ok n : is_u64 n -> ops_keep I [op (idPath prefix) (Uint64ToBytes n)].
Proof. intros Hn. apply ops_ok. constructor; [by apply shape_id|done]. Qed.

Lemma put_keeps key v lease : shape key v -> ops_keep I [OpPut key v lease].
Proof. intros Hk. apply ops_ok. by constructor. Qed.

Lemma putPB_ok {A} `{Pb A} dir (v : A) : dir_ok (A := A) dir -> is_u64 (GetID v) -> sat I (putPB prefix dir v) (λ _, True).
Proof.
  intros Hd Hv. apply (sat_putPB prefix I I_same id_ok). intros w data Hi Hm. apply put_keeps, Hd; [by apply (identified_u64 v)|done].
Qed.

Lemma sat_putPBKeyWithOp {A} `{!Message A} key (v : A) : (∀ data, Marshal v = Some data -> shape key data) ->
  sat I (putPBKeyWithOp key v) op_ok.
Proof. intros Hk. eapply sat_bind; [apply sat_ofOption|]. intros data Em. apply sat_ret. by apply Hk. Qed.

Lemma sat_batchOps {A} `{Pb A} dir validate : dir_ok (A := A) dir -> ∀ values : list A, Forall (λ v, is_u64 (GetID v)) values ->
  sat I (batchOps prefix dir validate values) (λ r, Forall op_ok r.1).
Proof.
  intros Hd. induction values as [|v values IH]; intros Hvs; [by apply sat_ret|]. apply Forall_cons in Hvs as [Hv Hvs].
  eapply sat_bind; [apply sat_lift|]. intros err _. eapply sat_bind; [apply sat_check|]. intros _ _.
  eapply sat_bind.
  - eapply (sat_bind _ _ _ _ (λ r, op_ok r.1)); [apply (sat_ensureID prefix I I_same id_ok)|]. intros [w ids] Hw. apply (identified_u64 v w Hv) in Hw.
    eapply sat_bind; [apply sat_putPBKeyWithOp; intros; by apply Hd|]. intros o Ho. by apply sat_ret.
  - intros [o ids] Ho. eapply sat_bind; [by apply IH|]. intros [ops rest] Hops. apply sat_ret. by constructor.
Qed.

Definition bind_ok (b : Bind) : Prop := is_u64 (Bind_ClusterID b) /\ is_u64 (Bind_ServerID b).

Lemma sat_bindOps values : Forall bind_ok values -> sat I (bindOps prefix values) (Forall op_ok).
Proof.
  induction 1 as [|b values [H1 H2] _ IH]; [by apply sat_ret|].
  eapply sat_bind; [apply sat_putPBKeyWithOp; intros; by apply shape_bind|]. intros o Ho.
  eapply sat_bind; [exact IH|]. intros ops Hops. apply sat_ret. by constructor.
Qed.

(** ** Every operation *)

(** The requests that can change the store. *)
Inductive request :=
| ReqAddBind (b : Bind) | ReqRemoveBind (b : Bind) | ReqRemoveClusterBind (id : Z)
| ReqPutCluster (v : Cluster) | ReqRemoveCluster (id : Z)
| ReqPutServer (v : Server) | ReqRemoveServer (id : Z)
| ReqPutAPI (v : API) | ReqRemoveAPI (id : Z)
| ReqPutRouting (v : Routing) | ReqRemoveRouting (id : Z)
| ReqPutPlugin (now : Z) (v : Plugin) | ReqRemovePlugin (id : Z) | ReqApplyPlugins (v : AppliedPlugins)
| ReqRegistryProxy (p : Proxy) (ttl : Z) | ReqClean | ReqSetID (id : Z) | ReqBatch (req : BatchReq).

Definition run (q : request) : M unit :=
  match q with
  | ReqAddBind b => AddBind prefix b
  | ReqRemoveBind b => RemoveBind prefix b
  | ReqRemoveClusterBind id => RemoveClusterBind prefix id
  | ReqPutCluster v => _ ← PutCluster prefix v; mret ()
  | ReqRemoveCluster id => RemoveCluster prefix id
  | ReqPutServer v => _ ← PutServer prefix v; mret ()
  | ReqRemoveServer id => RemoveServer prefix id
  | ReqPutAPI v => _ ← PutAPI prefix v; mret ()
  | ReqRemoveAPI id => RemoveAPI prefix id
  | ReqPutRouting v => _ ← PutRouting prefix v; mret ()
  | ReqRemoveRouting id => RemoveRouting prefix id
  | ReqPutPlugin now v => _ ← PutPlugin prefix now v; mret ()
  | ReqRemovePlugin id => RemovePlugin prefix id
  | ReqApplyPlugins v => ApplyPlugins prefix v
  | ReqRegistryProxy p ttl => RegistryProxy prefix p ttl
  | ReqClean => Clean prefix
  | ReqSetID id => SetID_ prefix id
  | ReqBatch req => _ ← Batch prefix req; mret ()
  end.

(** The ids in a request are of their type. *)
Definition request_ok (q : request) : Prop :=
  match q with
  | ReqAddBind b => bind_ok b
  | ReqPutCluster v => is_u64 (GetID v)
  | ReqPutServer v => is_u64 (GetID v)
  | ReqPutAPI v => is_u64 (GetID v)
  | ReqPutRouting v => is_u64 (GetID v)
  | ReqPutPlugin now v => is_u64 (GetID (set_UpdateAt now v))
  | ReqSetID id => is_u64 id
  | ReqBatch req =>
      Forall (λ v, is_u64 (GetID v)) (PutServers req) /\ Forall (λ v, is_u64 (GetID v)) (PutClusters req) /\
      Forall bind_ok (AddBinds req) /\ Forall (λ v, is_u64 (GetID v)) (PutAPIs req) /\
      Forall (λ v, is_u64 (GetID v)) (PutRoutings req) /\ Forall (λ v, is_u64 (GetID v)) (PutPlugins req)
  | _ => True
  end.

Lemma sat_PutAPI v : is_u64 (GetID v) -> sat I (PutAPI prefix v) (λ _, True).
Proof.
  intros Hv. eapply sat_bind; [apply sat_lift|]. intros err _. apply sat_checked. intros e r e' He Hr. unfold putAPILocked in Hr.
  destruct (getValues _ _ _ _ e) as [[x rt]| |]; cbn in Hr; try done.
  destruct (if isUp v then _ else _) as [[er|rt']| |]; cbn in Hr; try done; [by injection Hr as <- <-|].
  by apply (putPB_ok apis v shape_api Hv) in Hr.
Qed.

Lemma sat_Batch req : request_ok (ReqBatch req) -> sat I (Batch prefix req) (λ _, True).
Proof.
  intros (H1 & H2 & H3 & H4 & H5 & H6). unfold Batch.
  eapply sat_bind; [apply sat_batchOps; [exact shape_server|done]|]. intros [o1 i1] Ho1. eapply sat_bind; [by apply sat_putBatch, ops_ok|]. intros _ _.
  eapply sat_bind; [apply sat_batchOps; [exact shape_cluster|done]|]. intros [o2 i2] Ho2. eapply sat_bind; [by apply sat_putBatch, ops_ok|]. intros _ _.
  eapply sat_bind; [by apply sat_bindOps|]. intros o3 Ho3. eapply sat_bind; [by apply sat_putBatch, ops_ok|]. intros _ _.
  eapply sat_bind; [apply sat_batchOps; [exact shape_api|done]|]. intros [o4 i4] Ho4. eapply sat_bind; [by apply sat_putBatch, ops_ok|]. intros _ _.
  eapply sat_bind; [apply sat_batchOps; [exact shape_routing|done]|]. intros [o5 i5] Ho5. eapply sat_bind; [by apply sat_putBatch, ops_ok|]. intros _ _.
  eapply sat_bind; [apply sat_batchOps; [exact shape_plugin|done]|]. intros [o6 i6] Ho6.
  eapply (sat_bind _ _ _ (Forall op_ok)).
  - destruct (ApplyPlugins_ req) as [a|]; [|by apply sat_ret].
    eapply sat_bind; [apply sat_putPBKeyWithOp; by apply shape_applied|]. intros o Ho. apply sat_ret. by constructor.
  - intros applied Ha. eapply sat_bind; [apply sat_putBatch, ops_ok; by apply Forall_app|]. intros. by apply sat_ret.
Qed.

Lemma sat_run q : request_ok q -> sat I (run q) (λ _, True).
Proof.
  intros Hq. destruct q; cbn [run request_ok] in *; try (apply sat_delete, delete_ok).
  - eapply sat_bind; [apply sat_ofOption|]. intros data Em. apply sat_put, put_keeps. by apply shape_bind; try apply Hq.
  - apply (sat_unit _ _ _ (sat_checked _ _ _ _ (putPB_ok clusters v shape_cluster Hq))).
  - eapply sat_bind; [apply sat_commit, ops_ok; by repeat constructor|]. intros. by apply sat_ret.
  - apply (sat_unit _ _ _ (sat_checked _ _ _ _ (putPB_ok servers v shape_server Hq))).
  - by eapply sat_unit, sat_PutAPI.
  - apply (sat_unit _ _ _ (sat_checked _ _ _ _ (putPB_ok routings v shape_routing Hq))).
  - apply (sat_unit _ _ _ (sat_checked _ _ _ _ (putPB_ok plugins _ shape_plugin Hq))).
  - eapply sat_bind; [apply sat_getPBWithKey|]. intros a _. apply sat_if; intros _; [apply sat_throw|apply sat_delete, delete_ok].
  - eapply sat_bind; [apply sat_ofOption|]. intros data Em. by apply sat_put, put_keeps, (shape_applied v).
  - eapply sat_bind; [apply sat_ofOption|]. intros data Em. eapply sat_bind; [apply (sat_grant I I_same)|]. intros l _.
    eapply sat_bind; [apply (sat_keepAlive I I_same)|]. intros _ _. by apply sat_put, put_keeps, shape_proxy.
  - by apply (sat_SetID prefix I I_same id_ok).
  - by eapply sat_unit, sat_Batch.
Qed.

End Requests.

(** C15: every request keeps the store well typed, whether it succeeds or fails half way: below
    each directory a key is the padded id of the message it holds, a bind key is the pair of
    its ids, and the id counter is eight bytes. *)
Theorem requests_typed q e r e' : store_ok (kvs (rawClient e)) -> request_ok q -> run q e = Ret (r, e') ->
  store_ok (kvs (rawClient e')).
Proof.
  intros He Hq Hr. refine (proj1 (sat_run (λ c, store_ok (kvs c)) (kvs_same _) _ q Hq e r e' He Hr)).
  intros ops Ho. by apply ops_keep_kvs, apply_ops_ok.
Qed.

(** ** Put and get *)

Lemma dir_not_id dir id : HasPrefix (idPath prefix) (dir ++ str "/") = false -> getKey dir id <> idPath prefix.
Proof. intros Hp E. rewrite <- E in Hp. unfold getKey in Hp. by rewrite app_assoc, HasPrefix_app in Hp. Qed.

Lemma checked_ok_inv {A} err (x : M A) e a e' : (_ ← check err; x) e = Ret (Ok a, e') -> x e = Ret (Ok a, e').
Proof. intros (u & e1 & Hc & Hr)%bind_ok_inv. destruct err; [done|]. by injection Hc as _ <-. Qed.

(** C25: a message put, of whatever kind, is read back as it was put, under the id it came
    with or was given, or the reading fails; nothing else changes but the counter of the ids. *)
Theorem put_get e e' id : id <> 0 ->
  (∀ v zero, PutCluster prefix v e = Ret (Ok id, e') -> read_back prefix clusters v zero e id e') /\
  (∀ v zero, PutServer prefix v e = Ret (Ok id, e') -> read_back prefix servers v zero e id e') /\
  (∀ v zero, PutAPI prefix v e = Ret (Ok id, e') -> read_back prefix apis v zero e id e') /\
  (∀ v zero, PutRouting prefix v e = Ret (Ok id, e') -> read_back prefix routings v zero e id e') /\
  (∀ now v zero, PutPlugin prefix now v e = Ret (Ok id, e') -> read_back prefix plugins (set_UpdateAt now v) zero e id e').
Proof.
  intros Hid. assert (Hd : ∀ dir, dir ∈ [clusters; servers; apis; routings; plugins] -> getKey dir id <> idPath prefix).
  { intros dir Hin. apply dir_not_id. unfold idPath. repeat (apply elem_of_cons in Hin as [->|Hin]); [..|by apply elem_of_nil in Hin].
    all: unfold clustersDir, serversDir, apisDir, routingsDir, pluginsDir; by rewrite <- app_assoc, HasPrefix_app2. }
  split_and!; intros.
  - eapply putPB_read_back; [apply Hd; set_solver|done|by eapply checked_ok_inv].
  - eapply putPB_read_back; [apply Hd; set_solver|done|by eapply checked_ok_inv].
  - eapply putPB_read_back; [apply Hd; set_solver|done|].
    match goal with Hr : PutAPI _ _ _ = _ |- _ => apply bind_ok_inv in Hr as (err & e1 & Hl & Hr); apply checked_ok_inv in Hr end.
    unfold lift in Hl. destruct (ValidateAPI v); cbn in Hl; try done. injection Hl as <- <-. unfold putAPILocked in *.
    destruct (getValues _ _ _ _ e) as [[x rt]| |]; cbn in *; try done.
    by destruct (if isUp v then _ else _) as [[er|rt']| |]; cbn in *.
  - eapply putPB_read_back; [apply Hd; set_solver|done|by eapply checked_ok_inv].
  - eapply putPB_read_back; [apply Hd; set_solver|done|by eapply checked_ok_inv].
Qed.

End Spec.

(** An empty etcd, and a cluster put into it. *)
Module SpecSamples.
#[local] Existing Instance MapEtcd.client.
#[local] Existing Instance MapEtcd.laws.
#[local] Instance sample_checks : Checks := {| regexp_Compile _ := true; NewRuntime _ := true |}.
#[local] Instance sample_sort : SortSlice := insertion_sort.
#[local] Instance Cluster_pb : Pb Cluster := Countables.pb Cluster.
#[local] Instance Server_pb : Pb Server := Countables.pb Server.
#[local] Instance API_pb : Pb API := Countables.pb API.
#[local] Instance Routing_pb : Pb Routing := Countables.pb Routing.
#[local] Instance Plugin_pb : Pb Plugin := Countables.pb Plugin.
#[local] Instance Applied_message : Message AppliedPlugins := Countables.message AppliedPlugins.
#[local] Instance Bind_message : Message Bind := Countables.message Bind.
#[local] Instance Proxy_message : Message Proxy := Countables.message Proxy.

Definition prefix : bytes := str "/gw".
Definition empty : EtcdStore := NewEtcdStore (∅, []).
Definition one : Cluster := mkCluster 0 (str "a") RoundRobin.
Definition after {A} (x : M A) (e : EtcdStore) : EtcdStore := match x e with Ret (_, e') => e' | _ => e end.
Definition put_one : EtcdStore := after (run prefix (ReqPutCluster one)) empty.

Lemma requests_typed_witness : store_ok prefix (kvs (rawClient put_one)).
Proof. apply (requests_typed prefix (ReqPutCluster one) empty (Ok ()) put_one); [done|done|reflexivity]. Defined.

Lemma put_get_witness : read_back prefix (clustersDir prefix) one one empty 1 put_one.
Proof. apply (proj1 (put_get prefix empty put_one 1 ltac:(done))). reflexivity. Defined.
End SpecSamples.
