(* ===== verification/StoreReads.v ===== *)
(** Reading a well-typed store whose requests succeed: what a directory, the binds of a cluster,
    the applied plugins and the counter of the ids are read as. *)
From S2P Require Import Prelude Meta JsonEscape Format Matching Validation Etcd Store StorePages StoreLogic StoreSpec.
Import EtcdStore.

Lemma Marshal_decode' {A} `{!Message A} (v : A) data : Marshal v = Some data -> Unmarshal A data = Some v.
Proof. intros E. destruct (Unmarshal_Marshal v) as (d & E1 & E2). by simplify_eq. Qed.

Section Reads.
Context `{EtcdLaws} (prefix : bytes)
  `{!Pb Cluster, !Pb Server, !Pb API, !Pb Routing, !Pb Plugin, !Message AppliedPlugins, !Message Bind, !Message Proxy}.

(** No request fails. *)
Definition reads (c : etcd) : Prop := ∀ ks limit, is_Some (Get ks limit c).

Lemma getValues_all {A Acc X} `{Pb A} (fn : A -> Acc -> outcome (X * Acc)) dir n acc e : reads (rawClient e) ->
  typed (A := A) dir (kvs (rawClient e)) -> 0 < n ->
  getValues dir n fn acc e = (acc ← StorePages.visits fn (values dir (kvs (rawClient e))) acc; Ret (None, acc)).
Proof.
  intros Hg Ht Hn. destruct (getValues_run fn dir n e acc Ht Hn) as (err & l & rest & Hr & Hv & [[-> ->]|[_ [ks Hk]]]).
  - by rewrite Hr, Hv, app_nil_r.
  - destruct (Hg ks n). congruence.
Qed.

(** The servers bound to a cluster. *)
Definition bind_entries (c : Z) (m : kv) : list Bind :=
  omap (λ x, Unmarshal Bind x.2) (entries (KPrefix (getClusterBindPrefix prefix c)) m).
Definition bound (c : Z) (m : kv) : list Z := Bind_ServerID <$> bind_entries c m.

Lemma bindServers_ok l e : Forall (λ x, is_Some (Unmarshal Bind x.2)) l ->
  bindServers l e = Ret (Ok (Bind_ServerID <$> omap (λ x, Unmarshal Bind x.2) l), e).
Proof.
  induction 1 as [|[k data] l [b Hb] _ IH]; [done|]. cbn [bindServers]. rewrite bind_run. cbn in Hb. unfold ofOption. rewrite Hb.
  unfold mret at 1, M_ret. rewrite bind_run, IH. cbn. by rewrite Hb.
Qed.

Lemma get_reads ks e : reads (rawClient e) -> get ks 0 e = Ret (Ok (entries ks (kvs (rawClient e))), e).
Proof. intros Hg. unfold get. destruct (Hg ks 0) as [l El]. rewrite El. apply Get_ok in El as ->. done. Qed.

Lemma GetBindServers_run c e : store_ok prefix (kvs (rawClient e)) -> reads (rawClient e) ->
  GetBindServers prefix c e = Ret (Ok (bound c (kvs (rawClient e))), e).
Proof.
  intros Hok Hg. unfold GetBindServers, doGetBindServers. rewrite bind_run, get_reads by done.
  apply bindServers_ok, Forall_forall. intros [k data] [Hp Hk]%elem_of_entries. cbn in Hp. apply Hok in Hk as [].
  destruct ok_bind as (b & _ & _ & _ & Em).
  - apply HasPrefix_extends in Hp as [x ->]. unfold getClusterBindPrefix, getKey. rewrite <- !app_assoc, HasPrefix_app2. apply HasPrefix_app.
  - exists b. by apply Marshal_decode'.
Qed.

Lemma bound_elem b data m : Marshal b = Some data -> m !! getBindKey prefix b = Some data -> Bind_ServerID b ∈ bound (Bind_ClusterID b) m.
Proof.
  intros Em Hk. apply list_elem_of_fmap. exists b. split; [done|].
  apply list_elem_of_omap. exists (getBindKey prefix b, data). split; [|by apply Marshal_decode'].
  apply elem_of_entries. split; [|done]. cbn. unfold getBindKey, getKey at 1. apply HasPrefix_app.
Qed.

(** A value under a key of its own. *)
Lemma getValue_reads key e : reads (rawClient e) -> getValue key e = Ret (Ok (default [] (kvs (rawClient e) !! key)), e).
Proof.
  intros Hg. unfold getValue. rewrite bind_run, get_reads by done. cbn. rewrite entries_one.
  by destruct (kvs (rawClient e) !! key).
Qed.

(** The counter of the ids, and the applied plugins. *)
Lemma getID_reads e : store_ok prefix (kvs (rawClient e)) -> reads (rawClient e) -> ∃ id, is_u64 id /\ getID prefix e = Ret (Ok id, e).
Proof.
  intros Hok Hg. unfold getID. rewrite bind_run, getValue_reads by done.
  destruct (kvs (rawClient e) !! idPath prefix) as [data|] eqn:Ek; [|exists 0; split; [apply is_u64_0|done]].
  apply Hok in Ek as []. destruct (ok_id eq_refl) as (n & Hn & ->). exists n. split; [done|]. cbn [default].
  change (id (Uint64ToBytes n)) with (Uint64ToBytes n). unfold len. unfold Uint64ToBytes at 1. rewrite length_PutUint. cbn [Z.of_nat Z.eqb].
  unfold ofOption. by rewrite BytesToUint64_ToBytes.
Qed.

Lemma applied_reads e : store_ok prefix (kvs (rawClient e)) -> reads (rawClient e) ->
  ∃ applied, doGetAppliedPlugins prefix e = Ret (Ok applied, e).
Proof.
  intros Hok Hg. unfold doGetAppliedPlugins. rewrite getPBWithKey_run. destruct (Hg (KOne (appliedPluginDir prefix)) 0) as [l ->].
  destruct (kvs (rawClient e) !! appliedPluginDir prefix) as [data|] eqn:Ek; cbn [default]; [|eexists; done].
  apply Hok in Ek as []. destruct (ok_applied eq_refl) as (a & Em). change (id data) with data.
  destruct (len data =? 0); [by eexists|]. rewrite (Marshal_decode' a data Em). by eexists.
Qed.
End Reads.
