(* ===== verification/Backup.v ===== *)
(** Model of [BackupTo] in [src/src/store/store_etcd.go]: a store copied to another gateway
    through the client of the admin interface, in batches. *)
From S2P Require Import Prelude Meta JsonEscape Format RouteTable Matching Expr Validation Etcd Store Client StorePages StoreLogic StoreSpec StoreReads Codec.
Import EtcdStore.

(** ** Batches *)
Definition emptyBatch : BatchReq := mkBatchReq [] [] [] [] [] [] None.
Definition servers_batch (l : list Server) : BatchReq := mkBatchReq l [] [] [] [] [] None.
Definition clusters_batch (l : list Cluster) : BatchReq := mkBatchReq [] l [] [] [] [] None.
Definition binds_batch (l : list Bind) : BatchReq := mkBatchReq [] [] l [] [] [] None.
Definition apis_batch (l : list API) : BatchReq := mkBatchReq [] [] [] l [] [] None.
Definition routings_batch (l : list Routing) : BatchReq := mkBatchReq [] [] [] [] l [] None.
Definition plugins_batch (applied : option AppliedPlugins) (l : list Plugin) : BatchReq := mkBatchReq [] [] [] [] [] l applied.

Section Backup.
Context `{Etcd} (prefix : bytes)
  `{!Pb Cluster, !Pb Server, !Pb API, !Pb Routing, !Pb Plugin, !Message AppliedPlugins, !Message Bind, !Message Proxy}
  {W E : Type} `{!MetaService W E} (meta : option E).
Implicit Types (e : EtcdStore) (w : W).

(** The error of the backup: of the store that is copied, or of the other gateway. *)
Inductive backup_error := Local (err : error) | Remote (err : E).

(** The variables [batch] and [targetC] of the closures. *)
Definition state : Type := BatchReq * W.

Definition limit : Z := 96.

(** [targetC.Batch(batch)], after which the batch is a new one. *)
Definition send (s : state) : option backup_error * state :=
  let '(b, w) := s in
  let '(r, w) := client_Batch meta b w in
  match r with inl err => (Some (Remote err), (b, w)) | inr _ => (None, (emptyBatch, w)) end.

(** The end of each closure. *)
Definition send_full (n : Z) (s : state) : option backup_error * state := if n =? limit then send s else (None, s).

Definition backupServer (v : Server) (s : state) : outcome (option backup_error * state) :=
  let b := servers_batch (PutServers s.1 ++ [v]) in Ret (send_full (len (PutServers b)) (b, s.2)).
Definition backupCluster (v : Cluster) (s : state) : outcome (option backup_error * state) :=
  let b := clusters_batch (PutClusters s.1 ++ [v]) in Ret (send_full (len (PutClusters b)) (b, s.2)).
Definition backupAPI (v : API) (s : state) : outcome (option backup_error * state) :=
  let b := apis_batch (PutAPIs s.1 ++ [v]) in Ret (send_full (len (PutAPIs b)) (b, s.2)).
Definition backupRouting (v : Routing) (s : state) : outcome (option backup_error * state) :=
  let b := routings_batch (PutRoutings s.1 ++ [v]) in Ret (send_full (len (PutRoutings b)) (b, s.2)).
Definition backupPlugin (v : Plugin) (s : state) : outcome (option backup_error * state) :=
  let b := plugins_batch None (PutPlugins s.1 ++ [v]) in Ret (send_full (len (PutPlugins b)) (b, s.2)).

(** The binds of one cluster; an error ends them. *)
Fixpoint addBinds (cid : Z) (servers : list Z) (s : state) : option backup_error * state :=
  match servers with
  | [] => (None, s)
  | sid :: servers =>
      let b := binds_batch (AddBinds s.1 ++ [mkBind cid sid]) in
      let '(err, s) := send_full (len (AddBinds b)) (b, s.2) in
      match err with Some _ => (err, s) | None => addBinds cid servers s end
  end.
Definition backupBinds e (v : Cluster) (s : state) : outcome (option backup_error * state) :=
  '(r, _) ← GetBindServers prefix (Cluster_ID v) e;
  Ret (match r with Err err => (Some (Local err), s) | Ok servers => addBinds (Cluster_ID v) servers s end).

(** ** The backup

    A part of it goes on when the one before had no error. *)
Definition part : Type := W -> outcome (option backup_error * W).
Definition andthen (p q : part) : part := λ w, '(err, w) ← p w; match err with Some _ => Ret (err, w) | None => q w end.

(** Reading a directory with one of the closures, on a new batch, and sending what is left. *)
Definition rest (n : BatchReq -> Z) (s : state) : option backup_error * W :=
  if 0 <? n s.1 then let '(err, (_, w)) := send s in (err, w) else (None, s.2).
Definition backup_dir {A} `{Pb A} (dir : bytes) (fn : A -> state -> outcome (option backup_error * state))
    (n : BatchReq -> Z) e : part := λ w,
  '(err, s) ← getValues dir limit fn (emptyBatch, w) e;
  Ret (match err with Some err => (Some (Local err), s.2) | None => rest n s end).

Definition remote (call : W -> option E * W) : part := λ w, let '(err, w) := call w in Ret (Remote <$> err, w).

(** The applied plugins travel with the last batch of plugins. *)
Definition backup_plugins e : part := λ w,
  '(err, s) ← getValues (pluginsDir prefix) limit backupPlugin (emptyBatch, w) e;
  match err with
  | Some err => Ret (Some (Local err), s.2)
  | None =>
      '(r, _) ← doGetAppliedPlugins prefix e;
      Ret (match r with
           | Err err => (Some (Local err), s.2)
           | Ok applied => rest (λ b, len (PutPlugins b)) (plugins_batch (Some applied) (PutPlugins s.1), s.2)
           end)
  end.

Definition backup_id e : part := λ w,
  '(r, _) ← getID prefix e;
  match r with Err err => Ret (Some (Local err), w) | Ok currID => remote (client_SetID meta currID) w end.

Definition BackupTo e : part :=
  andthen (remote (client_Clean meta))
  (andthen (backup_dir (serversDir prefix) backupServer (λ b, len (PutServers b)) e)
  (andthen (backup_dir (clustersDir prefix) backupCluster (λ b, len (PutClusters b)) e)
  (andthen (backup_dir (clustersDir prefix) (backupBinds e) (λ b, len (AddBinds b)) e)
  (andthen (backup_dir (apisDir prefix) backupAPI (λ b, len (PutAPIs b)) e)
  (andthen (backup_dir (routingsDir prefix) backupRouting (λ b, len (PutRoutings b)) e)
  (andthen (backup_plugins e) (backup_id e))))))).

(** ** What the other gateway is told *)

(** The calls of the backup. *)
Inductive told := ToldClean | ToldBatch (b : BatchReq) | ToldID (id : Z).

Definition tell (c : told) w : W :=
  match c with
  | ToldClean => (rpc_Clean w).2
  | ToldBatch b => (rpc_Batch b w).2
  | ToldID id => (rpc_SetID id w).2
  end.
Definition tell_all (l : list told) w : W := foldl (λ w c, tell c w) w l.

(** No call fails. *)
Definition reliable : Prop := meta = None /\ ∀ w,
  (rpc_Clean w).1 = None /\ (∀ b, is_Some (match (rpc_Batch b w).1 with inr r => Some r | inl _ => None end)) /\
  ∀ id, (rpc_SetID id w).1 = None.

(** Batches of at most 96 values that together are the values. *)
Definition blocks_of {A} (values : list A) (bs : list (list A)) : Prop :=
  concat bs = values /\ Forall (λ b, 0 < len b <= limit) bs.

Lemma send_reliable b w : reliable -> send (b, w) = (None, (emptyBatch, tell (ToldBatch b) w)).
Proof.
  intros [M R]. unfold send, client_Batch. rewrite M. destruct (R w) as (_ & B & _). specialize (B b). simpl.
  destruct (rpc_Batch b w) as [[err|r] w']; simpl in *; [by destruct B as [? [=]]|done].
Qed.

Lemma tell_all_app l1 l2 w : tell_all (l1 ++ l2) w = tell_all l2 (tell_all l1 w).
Proof. apply foldl_app. Qed.

(** A batch is the values of one kind. *)
Section Kind.
Context {A : Type} (mk : list A -> BatchReq) (field : BatchReq -> list A).
Context (field_mk : ∀ l, field (mk l) = l) (mk_nil : mk [] = emptyBatch).

Definition add_one (v : A) (s : state) : option backup_error * state :=
  let b := mk (field s.1 ++ [v]) in send_full (len (field b)) (b, s.2).
Definition told_blocks (bs : list (list A)) : list told := (λ b, ToldBatch (mk b)) <$> bs.

(** The values added one after another: the full batches are sent, the rest is kept. *)
Inductive added : list A -> list A -> list (list A) -> list A -> Prop :=
| added_nil pending : added [] pending [] pending
| added_full v l pending bs r : len (pending ++ [v]) = limit -> added l [] bs r -> added (v :: l) pending ((pending ++ [v]) :: bs) r
| added_more v l pending bs r : len (pending ++ [v]) <> limit -> added l (pending ++ [v]) bs r -> added (v :: l) pending bs r.

Lemma added_total l : ∀ pending, ∃ bs r, added l pending bs r.
Proof.
  induction l as [|v l IH]; intros pending; [eauto using added|].
  destruct (decide (len (pending ++ [v]) = limit)) as [D|D];
    [destruct (IH []) as (bs & r & ?)|destruct (IH (pending ++ [v])) as (bs & r & ?)]; eauto using added.
Qed.

Lemma added_blocks l pending bs r : added l pending bs r -> len pending < limit ->
  concat bs ++ r = pending ++ l /\ Forall (λ b, len b = limit) bs /\ len r < limit.
Proof.
  induction 1 as [pending|v l pending bs r Ev _ IH|v l pending bs r Ev _ IH]; intros Hp.
  - by rewrite app_nil_r.
  - destruct IH as (Hc & Hf & Hr); [done|]. simpl. rewrite <- app_assoc, Hc, <- app_assoc. split_and!; auto.
  - rewrite len_app in Ev, IH. unfold len at 2 in Ev. unfold len at 2 in IH. simpl in Ev, IH.
    destruct IH as (Hc & Hf & Hr); [lia|]. rewrite Hc, <- app_assoc. done.
Qed.

Lemma added_app l1 l2 pending bs1 r1 bs2 r2 : added l1 pending bs1 r1 -> added l2 r1 bs2 r2 -> added (l1 ++ l2) pending (bs1 ++ bs2) r2.
Proof. induction 1; simpl; eauto using added. Qed.

Lemma added_fun l pending bs r bs' r' : added l pending bs r -> added l pending bs' r' -> bs = bs' /\ r = r'.
Proof.
  intros Ha. revert bs' r'. induction Ha as [pending|v l pending bs r D _ IH|v l pending bs r D _ IH]; intros bs' r' Hb;
    inversion Hb; subst; try done; [|by apply IH]. by edestruct IH as [-> ->].
Qed.

Lemma add_one_more v pending w : reliable -> len (pending ++ [v]) <> limit -> add_one v (mk pending, w) = (None, (mk (pending ++ [v]), w)).
Proof. intros R D. unfold add_one, send_full. cbn [fst snd]. rewrite !field_mk. by rewrite (proj2 (Z.eqb_neq _ _)). Qed.
Lemma add_one_full v pending w : reliable -> len (pending ++ [v]) = limit ->
  add_one v (mk pending, w) = (None, (mk [], tell (ToldBatch (mk (pending ++ [v]))) w)).
Proof. intros R D. unfold add_one, send_full. cbn [fst snd]. rewrite !field_mk, D, Z.eqb_refl, send_reliable by done. by rewrite mk_nil. Qed.

(** A closure that adds each value. *)
Lemma visits_added (fn : A -> state -> outcome (option backup_error * state)) l pending bs r w : reliable ->
  (∀ v s, fn v s = Ret (add_one v s)) -> added l pending bs r ->
  StorePages.visits fn l (mk pending, w) = Ret (mk r, tell_all (told_blocks bs) w).
Proof.
  intros R Hfn Ha. revert w. induction Ha as [pending|v l pending bs r Ev _ IH|v l pending bs r Ev _ IH]; intros w; [done|..];
    simpl; rewrite Hfn; [rewrite add_one_full by done|rewrite add_one_more by done]; simpl; apply IH.
Qed.

(** What is left is sent, if anything is. *)
Definition last_block (r : list A) : list (list A) := if decide (r = []) then [] else [r].

Lemma rest_sent r w : reliable -> rest (λ b, len (field b)) (mk r, w) = (None, tell_all (told_blocks (last_block r)) w).
Proof.
  intros R. unfold rest, last_block. cbn [fst snd]. rewrite field_mk. destruct (decide (r = [])) as [->|D]; [done|].
  destruct (Z.ltb_spec 0 (len r)) as [_|L]; [by rewrite send_reliable|]. destruct r; [done|]. rewrite len_cons in L. pose proof (len_nonneg r). lia.
Qed.

Lemma blocks_last l bs r : added l [] bs r -> blocks_of l (bs ++ last_block r).
Proof.
  intros (Hc & Hf & Hr)%added_blocks; [|done]. unfold blocks_of, last_block. rewrite concat_app, <- (app_nil_l l), <- Hc.
  destruct (decide (r = [])) as [->|D]; simpl; rewrite ?app_nil_r.
  - split; [done|]. eapply Forall_impl; [exact Hf|]. intros b ->; unfold limit; lia.
  - split; [done|]. apply Forall_app; split; [eapply Forall_impl; [exact Hf|]; intros b ->; unfold limit; lia|].
    apply Forall_singleton. destruct r; [done|]. rewrite len_cons in *. pose proof (len_nonneg r). lia.
Qed.
End Kind.
End Backup.

(** ** The backup tells everything *)
Section Told.
Context `{EtcdLaws} (prefix : bytes)
  `{!Pb Cluster, !Pb Server, !Pb API, !Pb Routing, !Pb Plugin, !Message AppliedPlugins, !Message Bind, !Message Proxy}
  {W E : Type} `{!MetaService W E} (meta : option E).
Implicit Types (e : EtcdStore) (w : W).

Lemma dir_told {A} `{Pb A} (dir : bytes) (fn : A -> @state W -> outcome (option (@backup_error E) * state))
    (mk : list A -> BatchReq) (field : BatchReq -> list A) e w :
  (∀ l, field (mk l) = l) -> mk [] = emptyBatch -> (∀ v s, fn v s = Ret (add_one meta mk field v s)) ->
  reliable meta (W := W) -> reads (rawClient e) -> typed (A := A) dir (kvs (rawClient e)) ->
  ∃ bs, blocks_of (values dir (kvs (rawClient e))) bs /\
    backup_dir meta dir fn (λ b, len (field b)) e w = Ret (None, tell_all (told_blocks mk bs) w).
Proof.
  intros Hf Hm Hfn R Hg Ht. destruct (added_total (values dir (kvs (rawClient e))) []) as (bs & r & Ha).
  exists (bs ++ last_block r). split; [by apply blocks_last|]. unfold backup_dir. rewrite (getValues_all fn) by done.
  rewrite <- Hm, (visits_added meta mk field Hf Hm fn _ _ _ _ _ R Hfn Ha). cbn [mbind outcome_mbind].
  rewrite (rest_sent meta mk field Hf) by done. unfold told_blocks. by rewrite fmap_app, tell_all_app.
Qed.

(** The binds of one cluster after another. *)
Lemma addBinds_added c sids : ∀ pending bs r w, reliable meta (W := W) -> added (mkBind c <$> sids) pending bs r ->
  addBinds meta c sids (binds_batch pending, w) = (None (A := @backup_error E), (binds_batch r, tell_all (told_blocks binds_batch bs) w)).
Proof.
  induction sids as [|sid sids IH]; intros pending bs r w R Ha; [inversion Ha; subst; done|].
  cbn [addBinds]. change (send_full meta (len _) (_, _)) with (add_one (E := E) meta binds_batch AddBinds (mkBind c sid) (binds_batch pending, w)).
  inversion Ha as [|? ? ? ? ? D Hr|? ? ? ? ? D Hr]; subst.
  - rewrite (add_one_full meta binds_batch AddBinds) by done. etransitivity; [exact (IH _ _ _ _ R Hr)|done].
  - rewrite (add_one_more meta binds_batch AddBinds) by done. exact (IH _ _ _ _ R Hr).
Qed.

Definition binds_of (m : kv) (l : list Cluster) : list Bind := l ≫= λ c, mkBind (Cluster_ID c) <$> bound prefix (Cluster_ID c) m.

Lemma backupBinds_added e l : ∀ pending bs r w, store_ok prefix (kvs (rawClient e)) -> reads (rawClient e) -> reliable meta (W := W) ->
  added (binds_of (kvs (rawClient e)) l) pending bs r ->
  StorePages.visits (backupBinds prefix meta e) l (binds_batch pending, w) = Ret (binds_batch r, tell_all (told_blocks binds_batch bs) w).
Proof.
  induction l as [|c l IH]; intros pending bs r w Hok Hg R Ha; [inversion Ha; subst; done|].
  unfold binds_of in Ha. rewrite bind_cons in Ha. fold (binds_of (kvs (rawClient e)) l) in Ha.
  destruct (added_total (mkBind (Cluster_ID c) <$> bound prefix (Cluster_ID c) (kvs (rawClient e))) pending) as (bs1 & r1 & H1).
  destruct (added_total (binds_of (kvs (rawClient e)) l) r1) as (bs2 & r2 & H2).
  destruct (added_fun _ _ _ _ _ _ (added_app _ _ _ _ _ _ _ H1 H2) Ha) as [<- <-].
  assert (backupBinds prefix meta e c (binds_batch pending, w) = Ret (None, (binds_batch r1, tell_all (told_blocks binds_batch bs1) w))) as Hb.
  { unfold backupBinds. rewrite (GetBindServers_run prefix (Cluster_ID c) e Hok Hg). cbn [mbind outcome_mbind].
    by rewrite (addBinds_added _ _ _ _ _ _ R H1). }
  cbn [StorePages.visits]. rewrite Hb. cbn [mbind outcome_mbind].
  rewrite (IH _ _ _ _ Hok Hg R H2). unfold told_blocks. by rewrite fmap_app, tell_all_app.
Qed.

Lemma binds_told e w : store_ok prefix (kvs (rawClient e)) -> reads (rawClient e) -> reliable meta (W := W) ->
  ∃ bs, blocks_of (binds_of (kvs (rawClient e)) (values (clustersDir prefix) (kvs (rawClient e)))) bs /\
    backup_dir meta (clustersDir prefix) (backupBinds prefix meta e) (λ b, len (AddBinds b)) e w =
      Ret (None, tell_all (told_blocks binds_batch bs) w).
Proof.
  intros Hok Hg R. destruct (store_typed prefix _ Hok) as (Tc & _).
  destruct (added_total (binds_of (kvs (rawClient e)) (values (clustersDir prefix) (kvs (rawClient e)))) []) as (bs & r & Ha).
  exists (bs ++ last_block r). split; [by apply blocks_last|]. unfold backup_dir. rewrite (getValues_all (backupBinds prefix meta e)) by done.
  change emptyBatch with (binds_batch []). rewrite (backupBinds_added _ _ _ _ _ _ Hok Hg R Ha). cbn [mbind outcome_mbind].
  rewrite (rest_sent meta binds_batch AddBinds) by done. unfold told_blocks. by rewrite fmap_app, tell_all_app.
Qed.

(** The last batch of plugins carries the applied ones. *)
Definition plugins_told (ps : list (list Plugin)) (last : list Plugin) (applied : AppliedPlugins) : list told :=
  told_blocks (plugins_batch None) ps ++ if decide (last = []) then [] else [ToldBatch (plugins_batch (Some applied) last)].

Lemma plugins_told_ok e w : store_ok prefix (kvs (rawClient e)) -> reads (rawClient e) -> reliable meta (W := W) ->
  ∃ ps last applied, concat ps ++ last = values (pluginsDir prefix) (kvs (rawClient e)) /\
    Forall (λ b, len b = limit) ps /\ len last < limit /\ doGetAppliedPlugins prefix e = Ret (Ok applied, e) /\
    backup_plugins prefix meta e w = Ret (None, tell_all (plugins_told ps last applied) w).
Proof.
  intros Hok Hg R. destruct (store_typed prefix _ Hok) as (_ & _ & _ & _ & Tp). destruct (applied_reads prefix e Hok Hg) as [applied Ea].
  destruct (added_total (values (pluginsDir prefix) (kvs (rawClient e))) []) as (ps & last & Ha). exists ps, last, applied.
  destruct (added_blocks _ _ _ _ Ha) as (Hc & Hf & Hl); [done|]. split_and!; [done..|].
  unfold backup_plugins. rewrite (getValues_all (backupPlugin meta)) by done.
  change emptyBatch with (plugins_batch None []).
  rewrite (visits_added meta (plugins_batch None) PutPlugins (λ _, eq_refl) eq_refl _ _ _ _ _ _ R (λ _ _, eq_refl) Ha).
  cbn [mbind outcome_mbind]. rewrite Ea. cbn [mbind outcome_mbind fst snd PutPlugins].
  pose proof (rest_sent meta (plugins_batch (Some applied)) PutPlugins (λ _, eq_refl) last) as Hr.
  rewrite Hr by done. unfold plugins_told, last_block, told_blocks. rewrite tell_all_app. by destruct (decide (last = [])).
Qed.

(** Everything the other gateway is told. *)
Definition all_told ss cs bs as_ rs ps last applied id : list told :=
  [ToldClean] ++ told_blocks servers_batch ss ++ told_blocks clusters_batch cs ++ told_blocks binds_batch bs ++
  told_blocks apis_batch as_ ++ told_blocks routings_batch rs ++ plugins_told ps last applied ++ [ToldID id].

Lemma andthen_done (p q : part (W := W) (E := E)) w w' : p w = Ret (None, w') -> andthen p q w = q w'.
Proof. unfold andthen. by intros ->. Qed.

Lemma remote_told c w : reliable meta (W := W) ->
  remote (client_Clean meta) w = Ret (None (A := @backup_error E), tell ToldClean w) /\
  remote (client_SetID meta c) w = Ret (None (A := @backup_error E), tell (ToldID c) w).
Proof.
  intros [M R]. destruct (R w) as (Hc & _ & Hi). specialize (Hi c). unfold remote, client_Clean, client_SetID, ask. rewrite M. simpl.
  destruct (rpc_Clean w), (rpc_SetID c w); simpl in *; by subst.
Qed.

(** C26: a backup of a well typed store to a gateway whose calls succeed tells it to forget all it
    has and then every server, cluster, bind, API, routing and plugin of the store, each once and
    in the order of their ids, in batches of at most 96, and last the counter of the ids.  The
    applied plugins travel only with a batch of plugins that is not full. *)
Theorem backup_tells e w : store_ok prefix (kvs (rawClient e)) -> reads (rawClient e) -> reliable meta (W := W) ->
  let m := kvs (rawClient e) in
  ∃ ss cs bs as_ rs ps last applied id,
    BackupTo prefix meta e w = Ret (None, tell_all (all_told ss cs bs as_ rs ps last applied id) w) /\
    blocks_of (values (serversDir prefix) m) ss /\ blocks_of (values (clustersDir prefix) m) cs /\
    blocks_of (binds_of m (values (clustersDir prefix) m)) bs /\ blocks_of (values (apisDir prefix) m) as_ /\
    blocks_of (values (routingsDir prefix) m) rs /\
    (concat ps ++ last = values (pluginsDir prefix) m /\ Forall (λ b, len b = limit) ps /\ len last < limit) /\
    doGetAppliedPlugins prefix e = Ret (Ok applied, e) /\ getID prefix e = Ret (Ok id, e).
Proof.
  intros Hok Hg R m. destruct (store_typed prefix _ Hok) as (Tc & Ts & Ta & Tr & _).
  destruct (getID_reads prefix e Hok Hg) as (id & _ & Eid).
  set (w1 := tell ToldClean w).
  destruct (dir_told (serversDir prefix) (backupServer meta) servers_batch PutServers e w1) as (ss & Hs & E1); [done..|].
  destruct (dir_told (clustersDir prefix) (backupCluster meta) clusters_batch PutClusters e (tell_all (told_blocks servers_batch ss) w1)) as (cs & Hc & E2); [done..|].
  destruct (binds_told e (tell_all (told_blocks clusters_batch cs) (tell_all (told_blocks servers_batch ss) w1)) Hok Hg R) as (bs & Hb & E3).
  set (w4 := tell_all (told_blocks binds_batch bs) _) in E3.
  destruct (dir_told (apisDir prefix) (backupAPI meta) apis_batch PutAPIs e w4) as (as_ & Ha & E4); [done..|].
  set (w5 := tell_all (told_blocks apis_batch as_) w4) in E4.
  destruct (dir_told (routingsDir prefix) (backupRouting meta) routings_batch PutRoutings e w5) as (rs & Hr & E5); [done..|].
  set (w6 := tell_all (told_blocks routings_batch rs) w5) in E5.
  destruct (plugins_told_ok e w6 Hok Hg R) as (ps & last & applied & Hp & Hf & Hl & Eap & E6).
  exists ss, cs, bs, as_, rs, ps, last, applied, id. split_and!; try done.
  unfold BackupTo. rewrite (andthen_done _ _ _ _ (proj1 (remote_told 0 w R))). fold w1.
  rewrite (andthen_done _ _ _ _ E1), (andthen_done _ _ _ _ E2), (andthen_done _ _ _ _ E3), (andthen_done _ _ _ _ E4),
    (andthen_done _ _ _ _ E5), (andthen_done _ _ _ _ E6).
  unfold backup_id. rewrite Eid. cbn [mbind outcome_mbind]. rewrite (proj2 (remote_told id _ R)).
  unfold all_told. by rewrite !tell_all_app.
Qed.
End Told.

(** ** A store with one cluster, and a gateway that writes down what it is told *)
Module BackupSamples.
#[local] Existing Instance MapEtcd.client.
#[local] Existing Instance MapEtcd.laws.
#[local] Instance sample_checks : Checks := {| regexp_Compile _ := true; NewRuntime _ := true |}.
#[local] Instance sample_sort : SortSlice := insertion_sort.
#[local] Instance Cluster_pb : Pb Cluster := Countables.pb Cluster.
#[local] Instance Server_pb : Pb Server := Countables.pb Server.
#[local] Instance API_pb : Pb API := Countables.pb API.
#[local] Instance Routing_pb : Pb Routing := Countables.pb Routing.
#[local] Instance Plugin_pb : Pb Plugin := Countables.pb Plugin.
#[local] Instance Applied_message : Message AppliedPlugins := Countables.message AppliedPlugins.
#[local] Instance Bind_message : Message Bind := Countables.message Bind.
#[local] Instance Proxy_message : Message Proxy := Countables.message Proxy.

#[local] Instance no_resource A : Resource (list told) unit A :=
  {| rpc_Put _ w := (inl tt, w); rpc_Remove _ w := (None, w); rpc_Get _ _ := inl tt; rpc_List _ := inl tt |}.
#[local] Instance recorder : MetaService (list told) unit := {|
  rpc_AddBind _ w := (None, w); rpc_RemoveBind _ w := (None, w); rpc_RemoveClusterBind _ w := (None, w);
  rpc_GetBindServers _ _ := inl tt; rpc_ApplyPlugins _ w := (None, w); rpc_GetAppliedPlugins _ := inl tt;
  rpc_Clean w := (None, w ++ [ToldClean]); rpc_SetID id w := (None, w ++ [ToldID id]);
  rpc_Batch b w := (inr (mkBatchRsp [] [] 0 [] [] []), w ++ [ToldBatch b]) |}.

Definition prefix : bytes := str "/gw".
Definition one : Cluster := mkCluster 0 (str "a") RoundRobin.
Definition empty : EtcdStore := NewEtcdStore (∅, []).
Definition put_one : EtcdStore := StoreSpec.SpecSamples.after (PutCluster prefix one) empty.

Lemma put_one_ok : store_ok prefix (kvs (rawClient put_one)).
Proof. apply (requests_typed prefix (ReqPutCluster one) empty (Ok ()) put_one); [done|done|reflexivity]. Qed.
Lemma put_one_reads : reads (rawClient put_one).
Proof. intros ks n. by eexists. Qed.
Lemma recorder_reliable : reliable (E := unit) None (W := list told).
Proof. split; [done|]. intros w. split; [done|]. split; [|done]. intros b. by eexists. Qed.

Example one_told : BackupTo prefix (E := unit) None put_one [] =
  Ret (None, [ToldClean; ToldBatch (clusters_batch [mkCluster 1 (str "a") RoundRobin]); ToldID 1000]).
Proof. vm_compute. reflexivity. Qed.

Lemma backup_tells_witness : ∃ calls, BackupTo prefix (E := unit) None put_one [] = Ret (None, tell_all calls []) /\
  ToldID 1000 ∈ calls.
Proof.
  destruct (backup_tells prefix (E := unit) None put_one [] put_one_ok put_one_reads recorder_reliable)
    as (ss & cs & bs & as_ & rs & ps & last & applied & id & Hb & _ & _ & _ & _ & _ & _ & _ & Hi).
  exists (all_told ss cs bs as_ rs ps last applied id). split; [exact Hb|].
  assert (getID prefix put_one = Ret (Ok 1000, put_one)) as X by reflexivity.
  rewrite X in Hi. injection Hi as <-. unfold all_told. rewrite !elem_of_app. do 7 right. left.
Defined.
End BackupSamples.
