(* ===== verification/StoreIds.v ===== *)
(** The allocation of ids by several gateways on one etcd: each reserves blocks of ids by
    compare and swap on the counter, and gives them out; no id is given twice, whatever the
    interleaving and whichever requests fail, until [Clean] or [SetID] sets the counter back. *)
From S2P Require Import Prelude Meta JsonEscape Format Matching Etcd Store StorePages StoreLogic.
Import EtcdStore.

Section Ids.
Context `{EtcdLaws} (prefix : bytes).

(** A gateway between the critical steps of [allocID], which its [idLock] keeps to itself:
    its ids, and the value [generate] has read. *)
Record gateway := mkGateway { g_base : Z; g_end : Z; g_read : option Z }.

Record system := mkSystem { cli : etcd; gateways : list gateway; given : list Z }.
Implicit Types (s : system) (g : gateway).

Definition store_of s g : EtcdStore := mkStore (g_base g) (g_end g) (cli s).

(** The read failed or the reservation was stale or failed: what it read is forgotten. *)
Definition forget g : gateway := mkGateway (g_base g) (g_end g) None.

Inductive step s : system -> Prop :=
| step_next i g id e : gateways s !! i = Some g -> g_read g = None -> g_base g <> g_end g ->
    nextID (store_of s g) = Ret (Ok id, e) ->
    step s (mkSystem (rawClient e) (<[i := mkGateway (base e) (end_ e) None]> (gateways s)) (id :: given s))
| step_read i g v e : gateways s !! i = Some g -> g_read g = None -> g_base g = g_end g ->
    getID prefix (store_of s g) = Ret (Ok v, e) -> v + batch < 2^64 ->
    step s (mkSystem (rawClient e) (<[i := mkGateway (g_base g) (g_end g) (Some v)]> (gateways s)) (given s))
| step_reserved i g v e e' : gateways s !! i = Some g -> g_read g = Some v ->
    reserve prefix v (store_of s g) = Ret (Ok (), e) ->
    (let n := u64 (v + batch) in setIDs (u64 (n - batch)) n e = Ret (Ok (), e')) ->
    step s (mkSystem (rawClient e') (<[i := mkGateway (base e') (end_ e') None]> (gateways s)) (given s))
| step_failed i g v err e : gateways s !! i = Some g -> g_read g = Some v ->
    reserve prefix v (store_of s g) = Ret (Err err, e) ->
    step s (mkSystem (rawClient e) (<[i := forget g]> (gateways s)) (given s))
| step_set_id i g id r e : gateways s !! i = Some g -> SetID_ prefix id (store_of s g) = Ret (r, e) ->
    step s (mkSystem (rawClient e) (<[i := mkGateway (base e) (end_ e) (g_read g)]> (gateways s)) (given s))
| step_clean i g r e : gateways s !! i = Some g -> Clean prefix (store_of s g) = Ret (r, e) ->
    step s (mkSystem (rawClient e) (gateways s) (given s))
| step_other c : kvs c !! idPath prefix = kvs (cli s) !! idPath prefix ->
    step s (mkSystem c (gateways s) (given s)).

(** The counter: no value, or a multiple of the block size. *)
Definition counter (c : etcd) (V : Z) : Prop :=
  0 <= V < 2^64 /\ V mod batch = 0 /\
  kvs c !! idPath prefix = if V =? 0 then None else Some (Uint64ToBytes V).

Definition fresh s : Prop :=
  given s = [] /\ Forall (λ g, g_base g = g_end g /\ g_read g = None) (gateways s) /\ ∃ V, counter (cli s) V.

(** A step that does not set the counter back; those of [SetID] and [Clean] can. *)
Definition forth s s' : Prop := step s s' /\ ∀ V, counter (cli s) V -> ∃ V', counter (cli s') V' /\ V <= V'.

Definition reached s : Prop := ∃ s0, fresh s0 /\ rtc forth s0 s.

(** The end of the block an id is in. *)
Definition block (id : Z) : Z := batch * ((id + (batch - 1)) / batch).

Definition active g : Prop := g_base g <> g_end g.

Record inv s (V : Z) : Prop := {
  inv_counter : counter (cli s) V;
  inv_gateway i g : gateways s !! i = Some g -> active g ->
    g_end g <= V /\ g_end g mod batch = 0 /\ g_end g - batch <= g_base g < g_end g /\ 0 <= g_base g;
  inv_distinct i j g g' : gateways s !! i = Some g -> gateways s !! j = Some g' -> active g -> active g' -> g_end g = g_end g' -> i = j;
  inv_read i g v : gateways s !! i = Some g -> g_read g = Some v -> g_base g = g_end g /\ 0 <= v <= V /\ v + batch < 2^64 /\ v mod batch = 0;
  inv_given id : id ∈ given s -> 0 < id <= V /\ ∀ i g, gateways s !! i = Some g -> active g -> block id = g_end g -> id <= g_base g;
  inv_nodup : NoDup (given s)
}.

Lemma block_spec id n : n mod batch = 0 -> n - batch < id <= n -> block id = n.
Proof. unfold block, batch. intros Hn Hid. pose proof (Z.div_mod n 1000 ltac:(lia)). assert ((id + 999) / 1000 = n / 1000); [|change (1000 - 1) with 999; lia].
  symmetry. apply Z.div_unique with (id + 999 - 1000 * (n / 1000)); lia. Qed.

Lemma block_le id V : V mod batch = 0 -> id <= V -> block id <= V.
Proof.
  unfold block, batch. intros Hv Hid. pose proof (Z.div_mod V 1000 ltac:(lia)). change (1000 - 1) with 999.
  assert ((id + 999) / 1000 <= V / 1000); [|lia]. apply Z.lt_succ_r, Z.div_lt_upper_bound; lia.
Qed.

Lemma Uint64ToBytes_inj x y : is_u64 x -> is_u64 y -> Uint64ToBytes x = Uint64ToBytes y -> x = y.
Proof. intros Hx Hy E. apply (f_equal BytesToUint64) in E. rewrite !BytesToUint64_ToBytes in E by done. by injection E. Qed.

(** What the counter is read as. *)
Lemma getID_counter e v e' V : counter (rawClient e) V -> getID prefix e = Ret (Ok v, e') -> v = V /\ e' = e.
Proof.
  intros (HV & _ & Hc) Hr. unfold getID, getValue in Hr. rewrite !bind_run in Hr. unfold get in Hr.
  destruct (Get _ 0 (rawClient e)) as [l|] eqn:Eg; [|done]. apply Get_ok in Eg as ->.
  change (page (KOne (idPath prefix)) 0 (kvs (rawClient e))) with (entries (KOne (idPath prefix)) (kvs (rawClient e))) in Hr.
  rewrite entries_one, Hc in Hr. unfold mret, M_ret, ofOption in Hr. destruct (Z.eqb_spec V 0) as [->|Hne].
  - by injection Hr as <- <-.
  - assert (Hl : len (Uint64ToBytes V) = 8) by (unfold len, Uint64ToBytes; by rewrite length_PutUint).
    rewrite Hl in Hr. change (8 =? 0) with false in Hr. cbn iota in Hr.
    rewrite BytesToUint64_ToBytes in Hr by done. by injection Hr as <- <-.
Qed.

(** A reservation that succeeds swaps the counter it has read; any other leaves the counter
    or swaps it too. *)
Lemma reserve_commit e v r e' V : counter (rawClient e) V -> 0 <= v -> v + batch < 2^64 -> v mod batch = 0 ->
  reserve prefix v e = Ret (r, e') ->
  (counter (rawClient e') V /\ r <> Ok ()) \/ (v = V /\ counter (rawClient e') (V + batch)).
Proof.
  intros HV Hv Hlt Hm Hr. pose proof HV as (HV1 & HVm & HVk). unfold batch in *.
  assert (Hu : u64 (v + 1000) = v + 1000) by (apply u64_small; unfold is_u64; lia).
  assert (Hput : ∀ c m, kvs c = <[idPath prefix := Uint64ToBytes (v + 1000)]> m -> counter c (v + 1000)).
  { intros c m Hc. split; [lia|]. split; [unfold batch; rewrite Z.add_mod, Hm by lia; done|].
    rewrite Hc, lookup_insert_eq. by rewrite (proj2 (Z.eqb_neq _ _)) by lia. }
  assert (Hcas : ∀ cmp c', forallb (holds (kvs (rawClient e))) [cmp] = true -> (cmp = if v =? 0 then CmpAbsent (idPath prefix) else CmpValue (idPath prefix) (Uint64ToBytes v)) ->
    kvs c' = <[idPath prefix := Uint64ToBytes (v + 1000)]> (kvs (rawClient e)) -> v = V /\ counter c' (V + 1000)).
  { intros cmp c' Hh -> Hk. assert (v = V) as <-; [|by eauto]. cbn in Hh. rewrite andb_true_r in Hh.
    destruct (Z.eqb_spec v 0) as [->|]; cbn in Hh; rewrite bool_decide_eq_true, HVk in Hh; destruct (Z.eqb_spec V 0); try done.
    apply Some_inj in Hh. symmetry. apply Uint64ToBytes_inj; [unfold is_u64; lia..|done]. }
  unfold reserve in Hr. unfold batch in Hr. rewrite Hu in Hr.
  assert (Hc : ∃ cmp, (cmp = if v =? 0 then CmpAbsent (idPath prefix) else CmpValue (idPath prefix) (Uint64ToBytes v)) /\
    (ok ← commit [cmp] [op (idPath prefix) (Uint64ToBytes (v + 1000))]; if (ok : bool) then mret () else throw ErrStaleOP) e = Ret (r, e')).
  { unfold createID, updateID in Hr. destruct (v =? 0); eauto. }
  destruct Hc as (cmp & Ecmp & Hc). clear Hr. rewrite bind_run in Hc. unfold commit in Hc.
  destruct (Commit [cmp] _ (rawClient e)) as [[b|] c] eqn:Ec.
  - apply Commit_ok in Ec as [Eb Ec]. destruct b.
    + right. injection Hc as <- <-. injection Ec as Ek _. by apply (Hcas cmp).
    + left. injection Hc as <- <-. injection Ec as Ek _. split; [|done]. unfold counter. cbn. by rewrite Ek.
  - apply Commit_failed in Ec as [Ec|[Eh Ec]]; injection Hc as <- <-; injection Ec as Ek _.
    + left. split; [|done]. unfold counter. cbn. by rewrite Ek.
    + right. by apply (Hcas cmp).
Qed.

(** ** The invariant *)

Lemma counter_range c V : counter c V -> 0 <= V < 2^64 /\ V mod batch = 0.
Proof. by intros (? & ? & _). Qed.

(** A gateway changes and the counter stays or grows by a block; what is given stays. *)
Lemma inv_change s V V' c i g g' : inv s V -> gateways s !! i = Some g -> counter c V' -> V <= V' ->
  (active g' -> (active g /\ g_base g' = g_base g /\ g_end g' = g_end g) \/ (g_base g' = V /\ g_end g' = V + batch /\ V' = V + batch)) ->
  (∀ v, g_read g' = Some v -> g_base g' = g_end g' /\ 0 <= v <= V' /\ v + batch < 2^64 /\ v mod batch = 0) ->
  inv (mkSystem c (<[i := g']> (gateways s)) (given s)) V'.
Proof.
  intros Hi Hg Hc HV Ha Hr. pose proof (counter_range _ _ Hc) as [_ HVm]. pose proof (counter_range _ _ (inv_counter _ _ Hi)) as [HV0 HVm0].
  destruct Hi as [H1 H2 H3 H4 H5 H6]. unfold batch in *. split; cbn; [done| | | | |done].
  - intros j h [(<- & <- & _)|[Hne Hh]]%list_lookup_insert_Some Hact.
    + destruct (Ha Hact) as [(Hag & -> & ->)|(-> & -> & ->)]; [|unfold batch; split_and!; lia || done].
      destruct (H2 i g Hg Hag) as (? & ? & ? & ?). unfold batch in *. split_and!; lia.
    + destruct (H2 j h Hh Hact) as (? & ? & ? & ?). unfold batch in *. split_and!; lia.
  - assert (Hnew : ∀ j h, i <> j -> gateways s !! j = Some h -> active g' -> active h -> g_end g' <> g_end h).
    { intros j h Hne Hh Hact Hh2 E. destruct (Ha Hact) as [(Hag & _ & E2)|(_ & E2 & _)].
      - destruct Hne. apply (H3 i j g h); try done. congruence.
      - destruct (H2 j h Hh Hh2). unfold batch in *. lia. }
    intros j k h h' [(<- & <- & _)|[Hne Hh]]%list_lookup_insert_Some [(<- & <- & _)|[Hne' Hh']]%list_lookup_insert_Some Hact Hact' E; try done.
    + by destruct (Hnew k h' Hne' Hh' Hact Hact').
    + by destruct (Hnew j h Hne Hh Hact' Hact).
    + by apply (H3 j k h h').
  - intros j h v [(<- & <- & _)|[Hne Hh]]%list_lookup_insert_Some Hv; [by apply Hr|].
    destruct (H4 j h v Hh Hv) as (? & ? & ? & ?). unfold batch in *. split_and!; try done; lia.
  - intros id Hid. destruct (H5 id Hid) as [Hle Hb]. split; [lia|].
    intros j h [(<- & <- & _)|[Hne Hh]]%list_lookup_insert_Some Hact E; [|by apply (Hb j h)].
    destruct (Ha Hact) as [(Hag & -> & Ee)|(_ & Ee & _)]; [apply (Hb i g); congruence|].
    pose proof (block_le id V HVm0 ltac:(lia)). unfold batch in *. lia.
Qed.

Lemma inv_next s V i g id e : inv s V -> gateways s !! i = Some g -> g_base g <> g_end g ->
  nextID (store_of s g) = Ret (Ok id, e) ->
  inv (mkSystem (rawClient e) (<[i := mkGateway (base e) (end_ e) None]> (gateways s)) (id :: given s)) V.
Proof.
  intros Hi Hg Hact [= <- <-]. cbn. pose proof (counter_range _ _ (inv_counter _ _ Hi)) as [HV0 HVm0]. destruct Hi as [H1 H2 H3 H4 H5 H6].
  destruct (H2 i g Hg Hact) as (Hle & Hm & Hb & Hpos). assert (Hu : u64 (g_base g + 1) = g_base g + 1) by (apply u64_small; unfold is_u64; lia).
  rewrite Hu. set (id := g_base g + 1). unfold batch in *.
  assert (Hblk : block id = g_end g) by (apply block_spec; unfold batch; [done|lia]).
  assert (Hold : ∀ g', active (mkGateway id (g_end g) None) -> active g) by (intros; done).
  split; cbn; [done| | | | |].
  - intros j h [(<- & <- & _)|[Hne Hh]]%list_lookup_insert_Some Ha; [|by apply (H2 j h)]. unfold active in Ha. cbn in *.
    unfold batch. split_and!; try done; lia.
  - intros j k h h' [(<- & <- & _)|[Hne Hh]]%list_lookup_insert_Some [(<- & <- & _)|[Hne' Hh']]%list_lookup_insert_Some Ha Ha' E; cbn in *; try done.
    + by apply (H3 i k g h').
    + by apply (H3 j i h g).
    + by apply (H3 j k h h').
  - intros j h v [(<- & <- & _)|[Hne Hh]]%list_lookup_insert_Some Hv; [done|by apply (H4 j h v)].
  - intros id' [->|Hid']%elem_of_cons.
    + split; [lia|]. intros j h [(<- & <- & _)|[Hne Hh]]%list_lookup_insert_Some Ha E; cbn in *; [done|].
      destruct Hne. apply (H3 i j g h); try done. congruence.
    + destruct (H5 id' Hid') as [Hr Hbb]. split; [done|]. intros j h [(<- & <- & _)|[Hne Hh]]%list_lookup_insert_Some Ha E; cbn in *; [|by apply (Hbb j h)].
      pose proof (Hbb i g Hg Hact E). lia.
  - constructor; [|done]. intros Hin. destruct (H5 id Hin) as [_ Hb']. pose proof (Hb' i g Hg Hact Hblk). lia.
Qed.

Lemma inv_counter_grows s V c V' : inv s V -> counter c V' -> V <= V' -> inv (mkSystem c (gateways s) (given s)) V'.
Proof.
  intros [H1 H2 H3 H4 H5 H6] Hc HV. split; cbn; try done.
  - intros i g Hg Ha. destruct (H2 i g Hg Ha) as (? & ? & ? & ?). split_and!; lia || done.
  - intros i g v Hg Hv. destruct (H4 i g v Hg Hv) as (? & ? & ? & ?). split_and!; lia || done.
  - intros id Hid. destruct (H5 id Hid) as [? ?]. split; [lia|done].
Qed.

(** [SetID] drops the block of the gateway, or fails and keeps it. *)
Lemma SetID_block id e r e' : SetID_ prefix id e = Ret (r, e') ->
  (base e' = 0 /\ end_ e' = 0) \/ (base e' = base e /\ end_ e' = end_ e).
Proof.
  unfold SetID_. rewrite bind_run. unfold commit. destruct (Commit [] _ (rawClient e)) as [[[]|] c]; intros [= <- <-]; cbn; auto.
Qed.

Lemma inv_step s s' V : inv s V -> forth s s' -> ∃ V', inv s' V'.
Proof.
  intros Hi [Hs Hforth]. pose proof (counter_range _ _ (inv_counter _ _ Hi)) as [HV0 HVm0].
  destruct (Hforth V (inv_counter _ _ Hi)) as (Vn & HVn & HVle). revert HVn.
  destruct Hs as [i g id e Hg Hr Hact Hn|i g v e Hg Hr He Hv Hlt|i g v e e' Hg Hr Hres Hset|i g v err e Hg Hr Hres|i g id r e Hg Hset|i g r e Hg Hcl|c Hc];
    cbn; intros HVn.
  - exists V. by apply (inv_next s V i g id e).
  - exists V. apply (getID_counter _ _ _ V) in Hv as [-> ->]; [|by apply Hi]. apply (inv_change s V V _ i g); [done|done|by apply Hi|lia| |].
    + intros Ha. by destruct Ha.
    + intros v [= <-]. cbn. split_and!; done || lia.
  - destruct (inv_read s V Hi i g v Hg Hr) as (He & Hv & Hlt & Hm).
    destruct (reserve_commit (store_of s g) v _ e V (inv_counter s V Hi) (proj1 Hv) Hlt Hm Hres) as [[_ Hne]|[-> HV']]; [done|].
    exists (V + batch). injection Hset as <-. cbn. apply (inv_change s V _ _ i g); [done|done|done|unfold batch; lia| |done].
    intros _. right. cbn. unfold batch in *. assert (Hu : u64 (V + 1000) = V + 1000) by (apply u64_small; unfold is_u64; lia).
    rewrite Hu. split_and!; try done. rewrite u64_small; unfold is_u64; lia.
  - destruct (inv_read s V Hi i g v Hg Hr) as (He & Hv & Hlt & Hm).
    destruct (reserve_commit (store_of s g) v _ e V (inv_counter s V Hi) (proj1 Hv) Hlt Hm Hres) as [[HV' _]|[-> HV']];
      [exists V|exists (V + batch)]; (apply (inv_change s V _ _ i g); [done|done|done|unfold batch; lia| |done]; intros Ha; by destruct Ha).
  - exists Vn. apply SetID_block in Hset. apply (inv_change s V Vn _ i g); [done..| |].
    + intros Ha. left. destruct Hset as [[Eb Ee]|[Eb Ee]]; unfold active in *; cbn in *; [congruence|].
      by rewrite <- Eb, <- Ee.
    + cbn. intros v Hv. destruct (inv_read s V Hi i g v Hg Hv) as (? & ? & ? & ?).
      split_and!; [by destruct Hset as [[-> ->]|[-> ->]]|lia..|done].
  - exists Vn. by apply (inv_counter_grows s V).
  - exists Vn. by apply (inv_counter_grows s V).
Qed.

Lemma fresh_inv s : fresh s -> ∃ V, inv s V.
Proof.
  intros (Hg & Hi & V & HV). exists V. rewrite Forall_lookup in Hi. split; [done| | | | |].
  - intros i g Hl Ha. by destruct (Hi i g Hl).
  - intros i j g g' Hl _ Ha. by destruct (Hi i g Hl).
  - intros i g v Hl Hv. destruct (Hi i g Hl). congruence.
  - rewrite Hg. by intros id ?%elem_of_nil.
  - rewrite Hg. constructor.
Qed.

Lemma reached_inv s : reached s -> ∃ V, inv s V.
Proof.
  intros (s0 & Hf & Hr). apply fresh_inv in Hf. induction Hr as [s|s s1 s2 Hs _ IH]; [done|].
  apply IH. destruct Hf as [V HV]. by apply (inv_step s s1 V).
Qed.

(** C12: however the gateways interleave and whichever requests fail, an id is given once,
    and the ids given are those of the blocks reserved so far: positive, and at most the
    counter; as long as no [Clean] or [SetID] sets the counter back, or to a value that is
    not the end of a block. *)
Theorem ids_unique s : reached s ->
  NoDup (given s) /\ ∃ V, counter (cli s) V /\ ∀ id, id ∈ given s -> 0 < id <= V.
Proof.
  intros Hr. destruct (reached_inv s Hr) as [V Hi]. split; [apply Hi|]. exists V. split; [apply Hi|].
  intros id Hid. by apply (inv_given s V Hi).
Qed.

End Ids.

(** Two gateways race for the first block: one of them gets it and gives out its first id. *)
Module IdSamples.
#[local] Existing Instance MapEtcd.client.
#[local] Existing Instance MapEtcd.laws.
Definition prefix : bytes := str "/gw".
Definition idle : gateway := mkGateway 100 100 None.
Definition start : system := mkSystem ((∅, []) : etcd) [idle; idle] [].

Lemma start_fresh : fresh prefix start.
Proof. split; [done|]. split; [by repeat constructor|]. by exists 0. Qed.

(** The client after an operation. *)
Definition after {A} (x : M A) (e : EtcdStore) : EtcdStore := match x e with Ret (_, e') => e' | _ => e end.
Definition reading : gateway := mkGateway 100 100 (Some 0).
Definition both_read : system := mkSystem (cli start) [reading; reading] [].
Definition reserved : EtcdStore := after (_ ← reserve prefix 0; setIDs 0 1000) (store_of both_read reading).
Definition one_reserved : system := mkSystem (rawClient reserved) [mkGateway 0 1000 None; reading] [].
Definition given_one : system := mkSystem (rawClient reserved) [mkGateway 1 1000 None; idle] [1].

Lemma forth_same s s' : step prefix s s' -> cli s' = cli s -> forth prefix s s'.
Proof. intros Hs Hc. split; [done|]. intros V HV. exists V. by rewrite Hc. Qed.

Lemma race : rtc (forth prefix) start given_one.
Proof.
  apply (rtc_l _ _ (mkSystem (cli start) [reading; idle] [])).
  { apply forth_same; [|done]. exact (step_read prefix start 0 idle 0 (store_of start idle) eq_refl eq_refl eq_refl eq_refl eq_refl). }
  apply (rtc_l _ _ both_read).
  { apply forth_same; [|done]. exact (step_read prefix (mkSystem (cli start) [reading; idle] []) 1 idle 0 (store_of start idle) eq_refl eq_refl eq_refl eq_refl eq_refl). }
  apply (rtc_l _ _ one_reserved).
  { split; [exact (step_reserved prefix both_read 0 reading 0 (after (reserve prefix 0) (store_of both_read reading)) reserved eq_refl eq_refl eq_refl eq_refl)|].
    intros V (HV & _ & Hk). exists 1000. split; [by split_and!|]. destruct (Z.eqb_spec V 0) as [->|]; [lia|]. cbn in Hk. by rewrite lookup_empty in Hk. }
  apply (rtc_l _ _ (mkSystem (rawClient reserved) [mkGateway 0 1000 None; idle] [])).
  { apply forth_same; [|done]. exact (step_failed prefix one_reserved 1 reading 0 ErrStaleOP (store_of one_reserved reading) eq_refl eq_refl eq_refl). }
  apply rtc_once. apply forth_same; [|done].
  exact (step_next prefix (mkSystem (rawClient reserved) [mkGateway 0 1000 None; idle] []) 0 (mkGateway 0 1000 None) 1
    (mkStore 1 1000 (rawClient reserved)) eq_refl eq_refl ltac:(done) eq_refl).
Qed.

(** After [Clean] the other gateway gives the same id. *)
Definition cleaned : EtcdStore := after (Clean prefix) (store_of given_one (mkGateway 1 1000 None)).
Definition reserved_again : EtcdStore := after (_ ← reserve prefix 0; setIDs 0 1000) (mkStore 100 100 (rawClient cleaned)).

Lemma given_twice : ∃ s, rtc (step prefix) start s /\ given s = [1; 1].
Proof.
  set (one := mkGateway 1 1000 None).
  exists (mkSystem (rawClient reserved_again) [one; mkGateway 1 1000 None] [1; 1]). split; [|done].
  assert (Hr : rtc (step prefix) start given_one) by (apply (rtc_subrel (forth prefix)); [by intros ? ? [H _]|exact race]).
  etrans; [exact Hr|].
  eapply rtc_l; [exact (step_clean prefix given_one 0 one (Ok ()) cleaned eq_refl eq_refl)|].
  eapply rtc_l; [exact (step_read prefix (mkSystem (rawClient cleaned) [one; idle] [1]) 1 idle 0
    (mkStore 100 100 (rawClient cleaned)) eq_refl eq_refl eq_refl eq_refl eq_refl)|].
  eapply rtc_l; [exact (step_reserved prefix (mkSystem (rawClient cleaned) [one; reading] [1]) 1 reading 0
    (after (reserve prefix 0) (mkStore 100 100 (rawClient cleaned))) reserved_again eq_refl eq_refl eq_refl eq_refl)|].
  apply rtc_once. exact (step_next prefix (mkSystem (rawClient reserved_again) [one; mkGateway 0 1000 None] [1]) 1 (mkGateway 0 1000 None) 1
    (mkStore 1 1000 (rawClient reserved_again)) eq_refl eq_refl ltac:(done) eq_refl).
Qed.

Lemma ids_unique_witness : NoDup (given given_one).
Proof. apply (ids_unique prefix given_one). exists start. split; [exact start_fresh|exact race]. Defined.
End IdSamples.
