(* ===== verification/Plugins.v ===== *)
(** Model of the plugins: what the dispatcher keeps of them ([proxy/dispatcher_meta.go]) and
    the engine that runs the applied ones ([plugin/engine.go]).  A plugin's runtime is its
    JavaScript: whether it starts, and what its three functions do to a request, are given by
    classes. *)
From S2P Require Import Prelude Meta Dispatcher Validation.

(** A log line of level fatal ends the process: [Panic]. *)

(** ** The engine *)

(** What the scripts do: a status code, an error, and the context after it. *)
Class Scripts (C E : Type) := {
  script_Pre : Plugin -> C -> outcome (Z * option E * C);
  script_Post : Plugin -> C -> outcome (Z * option E * C);
  script_PostErr : Plugin -> Z -> E -> C -> outcome C
}.

(** A runtime is the plugin it was started from. *)
Record Engine := mkEngine { enable : bool; applied : list Plugin }.

Section Engine.
Context {checks : Checks} {C E : Type} `{!Scripts C E}.

Definition NewEngine (enable : bool) : Engine := mkEngine enable [].

(** [filter.BreakFilterChainCode] and [http.StatusOK]. *)
Definition BreakFilterChainCode : Z := -1.
Definition StatusOK : Z := 200.

(** The runtimes in order; a nil plugin is dereferenced, and [None] is the error of one that
    does not start. *)
Fixpoint startAll (plugins : list (option Plugin)) : outcome (option (list Plugin)) :=
  match plugins with
  | [] => Ret (Some [])
  | None :: _ => Panic
  | Some p :: plugins =>
      if NewRuntime p then rts ← startAll plugins; Ret (option_map (cons p) rts) else Ret None
  end.
Definition Engine_ApplyPlugins (plugins : list (option Plugin)) (eng : Engine) : outcome (bool * Engine) :=
  rts ← startAll plugins;
  Ret (match rts with Some rts => (true, mkEngine (enable eng) rts) | None => (false, eng) end).

Definition UpdatePlugin (plugin : Plugin) (eng : Engine) : bool * Engine :=
  match list_find (λ rt, Plugin_ID rt = Plugin_ID plugin) (applied eng) with
  | None => (false, eng)
  | Some (target, _) =>
      if NewRuntime plugin then (true, mkEngine (enable eng) (<[target := plugin]> (applied eng))) else (false, eng)
  end.

(** The runtimes in order, until one fails or breaks the chain. *)
Fixpoint chain (f : Plugin -> C -> outcome (Z * option E * C)) (rts : list Plugin) (c : C) : outcome (Z * option E * C) :=
  match rts with
  | [] => Ret (StatusOK, None, c)
  | rt :: rts =>
      '(code, err, c) ← f rt c;
      match err with
      | Some err => Ret (code, Some err, c)
      | None => if code =? BreakFilterChainCode then Ret (code, None, c) else chain f rts c
      end
  end.

Definition Engine_Pre (eng : Engine) (c : C) : outcome (Z * option E * C) :=
  if negb (enable eng) then Ret (StatusOK, None, c)
  else if len (applied eng) =? 0 then Ret (StatusOK, None, c)
  else chain script_Pre (applied eng) c.

Definition Engine_Post (eng : Engine) (c : C) : outcome (Z * option E * C) :=
  if negb (enable eng) then Ret (StatusOK, None, c)
  else if len (applied eng) =? 0 then Ret (StatusOK, None, c)
  else chain script_Post (rev (applied eng)) c.

Fixpoint chainErr (rts : list Plugin) (code : Z) (err : E) (c : C) : outcome C :=
  match rts with
  | [] => Ret c
  | rt :: rts => c ← script_PostErr rt code err c; chainErr rts code err c
  end.

Definition Engine_PostErr (eng : Engine) (code : Z) (err : E) (c : C) : outcome C :=
  if negb (enable eng) then Ret c
  else if len (applied eng) =? 0 then Ret c
  else chainErr (rev (applied eng)) code err c.

End Engine.

(** ** The dispatcher's plugins *)

Inductive pluginError := errPluginExists | errPluginNotFound | errEngine.

(** [jsEngine] is the engine last handed to [jsEngineFunc]. *)
Record pluginState := mkPlugins {
  plugins : gmap Z Plugin;
  appliedPlugins : AppliedPlugins;
  jsEngine : Engine
}.
Implicit Type r : pluginState.

Section Dispatcher.
Context {checks : Checks} (EnableJSPlugin : bool).

Definition newPlugins : pluginState := mkPlugins ∅ (mkAppliedPlugins 0 []) (NewEngine EnableJSPlugin).

Definition inAppliedPlugins (id : Z) r : bool := existsb (λ appliedID, id =? appliedID) (AppliedIDs (appliedPlugins r)).

(** The plugins of the applied ids: a missing one is nil. *)
Definition updateJSEngine r : outcome (option pluginError * pluginState) :=
  '(ok, newEngine) ← Engine_ApplyPlugins (map (λ id, plugins r !! id) (AppliedIDs (appliedPlugins r))) (NewEngine EnableJSPlugin);
  Ret (if ok : bool then (None, mkPlugins (plugins r) (appliedPlugins r) newEngine) else (Some errEngine, r)).

Definition maybeUpdateJSEngine (id : Z) r : outcome (option pluginError * pluginState) :=
  if inAppliedPlugins id r then updateJSEngine r else Ret (None, r).

Definition set_plugins m r : pluginState := mkPlugins m (appliedPlugins r) (jsEngine r).
Definition set_applied a r : pluginState := mkPlugins (plugins r) a (jsEngine r).

Definition addPlugin (value : Plugin) r : outcome (option pluginError * pluginState) :=
  match plugins r !! Plugin_ID value with
  | Some _ => Ret (Some errPluginExists, r)
  | None => Ret (None, set_plugins (<[Plugin_ID value := value]> (plugins r)) r)
  end.

Definition updatePlugin (value : Plugin) r : outcome (option pluginError * pluginState) :=
  match plugins r !! Plugin_ID value with
  | None => Ret (Some errPluginNotFound, r)
  | Some _ =>
      '(err, r) ← maybeUpdateJSEngine (Plugin_ID value) r;
      match err with
      | Some err => Ret (Some err, r)
      | None => Ret (None, set_plugins (<[Plugin_ID value := value]> (plugins r)) r)
      end
  end.

(** A log line of level fatal ends the process: [Panic]. *)
Definition removePlugin (id : Z) r : outcome (option pluginError * pluginState) :=
  match plugins r !! id with
  | None => Ret (Some errPluginNotFound, r)
  | Some _ => if inAppliedPlugins id r then Panic else Ret (None, set_plugins (delete id (plugins r)) r)
  end.

Definition updateAppliedPlugin (value : AppliedPlugins) r : outcome (option pluginError * pluginState) :=
  if forallb (λ id, bool_decide (is_Some (plugins r !! id))) (AppliedIDs value)
  then updateJSEngine (set_applied value r) else Ret (Some errPluginNotFound, r).

Definition removeAppliedPlugin r : outcome (option pluginError * pluginState) :=
  updateJSEngine (set_applied (mkAppliedPlugins 0 []) r).

(** The events; a deleted message comes by its id. *)
Inductive pluginEvt :=
| EvtPlugin (t : EvtType) (key : Z) (value : Plugin)
| EvtApplied (t : EvtType) (value : AppliedPlugins).

Definition doPluginEvent (t : EvtType) (key : Z) (value : Plugin) r :=
  match t with
  | EventTypeNew => addPlugin value r
  | EventTypeDelete => removePlugin key r
  | EventTypeUpdate => updatePlugin value r
  end.
Definition doApplyPluginEvent (t : EvtType) (value : AppliedPlugins) r :=
  match t with
  | EventTypeNew | EventTypeUpdate => updateAppliedPlugin value r
  | EventTypeDelete => removeAppliedPlugin r
  end.
Definition handlePlugin (evt : pluginEvt) r : outcome (option pluginError * pluginState) :=
  match evt with
  | EvtPlugin t key value => doPluginEvent t key value r
  | EvtApplied t value => doApplyPluginEvent t value r
  end.

(** ** What holds of them *)

(** The plugins that are applied are there. *)
Definition applied_present r : Prop := ∀ id, id ∈ AppliedIDs (appliedPlugins r) -> is_Some (plugins r !! id).

Lemma startAll_present ids (m : gmap Z Plugin) : (∀ id, id ∈ ids -> is_Some (m !! id)) ->
  ∃ ps, map (λ id, m !! id) ids = map Some ps /\
    startAll (map (λ id, m !! id) ids) = Ret (if forallb NewRuntime ps then Some ps else None).
Proof.
  induction ids as [|id ids IH]; intros Hp; [by exists []|]. destruct (Hp id ltac:(by left)) as [p Ep].
  destruct IH as (ps & Em & Es); [intros; apply Hp; by right|]. exists (p :: ps). cbn. rewrite Ep, Em. split; [done|].
  destruct (NewRuntime p); cbn; [|done]. rewrite <- Em, Es. by destruct (forallb _ ps).
Qed.

Lemma updateJSEngine_spec r : applied_present r ->
  ∃ ps, map (λ id, plugins r !! id) (AppliedIDs (appliedPlugins r)) = map Some ps /\
    updateJSEngine r = Ret (if forallb NewRuntime ps
      then (None, mkPlugins (plugins r) (appliedPlugins r) (mkEngine EnableJSPlugin ps)) else (Some errEngine, r)).
Proof.
  intros Hp. destruct (startAll_present _ _ Hp) as (ps & Em & Es). exists ps. split; [done|].
  unfold updateJSEngine, Engine_ApplyPlugins. rewrite Es. by destruct (forallb _ ps).
Qed.

Lemma forallb_present value r : forallb (λ id, bool_decide (is_Some (plugins r !! id))) (AppliedIDs value) = true ->
  applied_present (set_applied value r).
Proof. rewrite forallb_forall. intros H id Hid%list_elem_of_In. apply H in Hid. by apply bool_decide_eq_true in Hid. Qed.

(** The versions the engine should run: those the dispatcher holds, in the order applied. *)
Definition current r : list (option Plugin) := map (λ id, plugins r !! id) (AppliedIDs (appliedPlugins r)).
Definition in_step r : Prop := current r = map Some (applied (jsEngine r)).

Lemma inAppliedPlugins_spec id r : inAppliedPlugins id r = true <-> id ∈ AppliedIDs (appliedPlugins r).
Proof.
  unfold inAppliedPlugins. rewrite existsb_exists. split.
  - intros (x & Hx & E%Z.eqb_eq). subst. by apply list_elem_of_In.
  - intros H. exists id. split; [by apply list_elem_of_In|apply Z.eqb_refl].
Qed.

Lemma applied_insert id v r : applied_present r -> applied_present (set_plugins (<[id := v]> (plugins r)) r).
Proof. intros H id' Hid. cbn. destruct (decide (id = id')) as [->|]; [rewrite lookup_insert_eq|rewrite lookup_insert_ne by done]; eauto. Qed.

Lemma current_other id m r : (∀ id', id' <> id -> m !! id' = plugins r !! id') -> inAppliedPlugins id r = false ->
  current (set_plugins m r) = current r.
Proof.
  intros Hm Hid. unfold current. cbn. apply map_ext_in. intros id' Hin%list_elem_of_In. apply Hm. intros ->.
  apply inAppliedPlugins_spec in Hin. congruence.
Qed.

(** A rebuilt engine runs what the dispatcher holds when it is rebuilt. *)
Lemma updateJSEngine_current r err r' : applied_present r -> updateJSEngine r = Ret (err, r') ->
  applied_present r' /\ plugins r' = plugins r /\ appliedPlugins r' = appliedPlugins r /\
  match err with None => in_step r' | Some e => e = errEngine /\ r' = r end.
Proof.
  intros Hp Hr. destruct (updateJSEngine_spec r Hp) as (ps & Em & Eu). rewrite Eu in Hr.
  destruct (forallb NewRuntime ps); injection Hr as <- <-; [|done]. split_and!; try done.
Qed.

Lemma handlePlugin_present evt r err r' : applied_present r -> handlePlugin evt r = Ret (err, r') -> applied_present r'.
Proof.
  intros Hp. destruct evt as [t key v|t v]; unfold handlePlugin, doPluginEvent, doApplyPluginEvent.
  - destruct t.
    + unfold addPlugin. destruct (plugins r !! _); intros [= <- <-]; [done|by apply applied_insert].
    + unfold updatePlugin, maybeUpdateJSEngine. destruct (plugins r !! _); [|by intros [= <- <-]].
      destruct (inAppliedPlugins _ r); [|intros [= <- <-]; by apply applied_insert].
      destruct (updateJSEngine r) as [[[e|] r1]| |] eqn:Eu; cbn; try done;
        destruct (updateJSEngine_current _ _ _ Hp Eu) as (H1 & _); intros [= <- <-]; [done|by apply applied_insert].
    + unfold removePlugin. destruct (plugins r !! key); [|by intros [= <- <-]]. destruct (inAppliedPlugins key r) eqn:Ei; [done|].
      intros [= <- <-] id Hid. cbn in *. rewrite lookup_delete_ne; [by apply Hp|]. intros <-. apply inAppliedPlugins_spec in Hid. congruence.
  - assert (Hu : updateAppliedPlugin v r = Ret (err, r') -> applied_present r').
    { unfold updateAppliedPlugin. destruct (forallb _ _) eqn:Ef; [|by intros [= <- <-]].
      intros Hr. by apply updateJSEngine_current in Hr as (? & _); [|by apply forallb_present]. }
    destruct t; [done..|]. intros Hr. apply updateJSEngine_current in Hr as (? & _); [done|]. by intros id ?%elem_of_nil.
Qed.

Lemma handlePlugin_returns evt r : applied_present r ->
  (∀ key v, evt = EvtPlugin EventTypeDelete key v -> inAppliedPlugins key r = false) -> returns (handlePlugin evt r).
Proof.
  assert (Hu : ∀ r, applied_present r -> returns (updateJSEngine r)).
  { intros r0 H0. destruct (updateJSEngine_spec r0 H0) as (ps & _ & ->). done. }
  intros Hp Hd. destruct evt as [t key v|t v]; unfold handlePlugin, doPluginEvent, doApplyPluginEvent.
  - destruct t.
    + unfold addPlugin. by destruct (plugins r !! _).
    + unfold updatePlugin, maybeUpdateJSEngine. destruct (plugins r !! _); [|done]. destruct (inAppliedPlugins _ r); [|by eexists].
      apply returns_bind; [by apply Hu|]. by intros [[e|] r1] _.
    + unfold removePlugin. destruct (plugins r !! key); [|done]. by rewrite (Hd key v eq_refl).
  - assert (Ha : returns (updateAppliedPlugin v r)).
    { unfold updateAppliedPlugin. destruct (forallb _ _) eqn:Ef; [|done]. by apply Hu, forallb_present. }
    destruct t; [done..|]. apply Hu. by intros id ?%elem_of_nil.
Qed.

(** The states of a dispatcher that handles events. *)
Inductive plugins_reached : pluginState -> Prop :=
| plugins_new : plugins_reached newPlugins
| plugins_event evt r err r' : plugins_reached r -> handlePlugin evt r = Ret (err, r') -> plugins_reached r'.

Lemma reached_present r : plugins_reached r -> applied_present r.
Proof. induction 1; [by intros id ?%elem_of_nil|by eapply handlePlugin_present]. Qed.

(** C38: an event never finds an applied plugin missing, and ends the process only when it
    removes an applied one.  Applying plugins makes the engine run exactly the versions the
    dispatcher holds, in the order applied, and adding or removing another keeps it so.  But
    an update of an applied plugin rebuilds the engine before it stores the new version: the
    engine goes on with the old one. *)
Theorem engine_follows r : plugins_reached r ->
  (∀ evt, (∀ key v, evt = EvtPlugin EventTypeDelete key v -> inAppliedPlugins key r = false) -> returns (handlePlugin evt r)) /\
  (∀ t v r', handlePlugin (EvtApplied t v) r = Ret (None, r') -> in_step r') /\
  (∀ t key v r', in_step r -> inAppliedPlugins (match t with EventTypeDelete => key | _ => Plugin_ID v end) r = false ->
     handlePlugin (EvtPlugin t key v) r = Ret (None, r') -> in_step r') /\
  (∀ key v old r', inAppliedPlugins (Plugin_ID v) r = true -> plugins r !! Plugin_ID v = Some old ->
     handlePlugin (EvtPlugin EventTypeUpdate key v) r = Ret (None, r') ->
     plugins r' !! Plugin_ID v = Some v /\ map Some (applied (jsEngine r')) = current r /\ old ∈ applied (jsEngine r')).
Proof.
  intros Hr%reached_present. split_and!.
  - intros evt. by apply handlePlugin_returns.
  - intros t v r' Hh. assert (Hu : updateAppliedPlugin v r = Ret (None, r') -> in_step r').
    { unfold updateAppliedPlugin. destruct (forallb _ _) eqn:Ef; [|done].
      intros Hu. by apply updateJSEngine_current in Hu as (_ & _ & _ & ?); [|by apply forallb_present]. }
    unfold handlePlugin, doApplyPluginEvent in Hh. destruct t; [by apply Hu..|]. apply updateJSEngine_current in Hh as (_ & _ & _ & ?); [done|]. by intros id ?%elem_of_nil.
  - intros t key v r' Hs Hi Hh. unfold in_step in *. destruct t; cbn in Hh.
    + unfold addPlugin in Hh. destruct (plugins r !! _); [done|]. injection Hh as <-. cbn. rewrite <- Hs.
      apply (current_other (Plugin_ID v)); [|done]. intros id' Hne. by rewrite lookup_insert_ne.
    + unfold updatePlugin, maybeUpdateJSEngine in Hh. destruct (plugins r !! _); [|done]. rewrite Hi in Hh. injection Hh as <-. cbn. rewrite <- Hs.
      apply (current_other (Plugin_ID v)); [|done]. intros id' Hne. by rewrite lookup_insert_ne.
    + unfold removePlugin in Hh. destruct (plugins r !! key); [|done]. rewrite Hi in Hh. injection Hh as <-. cbn. rewrite <- Hs.
      apply (current_other key); [|done]. intros id' Hne. by rewrite lookup_delete_ne.
  - intros key v old r' Hi Ho Hh. cbn in Hh. unfold updatePlugin, maybeUpdateJSEngine in Hh. rewrite Ho, Hi in Hh.
    destruct (updateJSEngine r) as [[[e|] r1]| |] eqn:Eu; cbn in Hh; try done. injection Hh as <-.
    destruct (updateJSEngine_current _ _ _ Hr Eu) as (_ & Hp & Ha & Hs). cbn. rewrite lookup_insert_eq. split; [done|].
    assert (Hc : map Some (applied (jsEngine r1)) = current r) by (rewrite <- Hs; unfold current; by rewrite Hp, Ha). split; [done|].
    apply inAppliedPlugins_spec in Hi. assert (Hin : Some old ∈ map Some (applied (jsEngine r1))).
    { rewrite Hc. unfold current. apply list_elem_of_fmap. by exists (Plugin_ID v). }
    apply list_elem_of_fmap in Hin as (y & [= ->] & Hy). done.
Qed.

End Dispatcher.

(** A plugin added, applied and updated: the engine keeps its first version. *)
Module PluginSamples.
#[local] Instance sample_checks : Checks := {| regexp_Compile _ := true; NewRuntime _ := true |}.
Definition version (n : Z) : Plugin := mkPlugin 7 (str "p") [] [] Up 0 n 0 (str "x") [].
Definition added : pluginState := mkPlugins {[ 7 := version 1 ]} (mkAppliedPlugins 0 []) (NewEngine true).
Definition running : pluginState := mkPlugins {[ 7 := version 1 ]} (mkAppliedPlugins 1 [7]) (mkEngine true [version 1]).
Definition updated : pluginState := set_plugins {[ 7 := version 2 ]} running.

Lemma running_reached : plugins_reached true running.
Proof.
  apply (plugins_event true (EvtApplied EventTypeNew (mkAppliedPlugins 1 [7])) added None); [|vm_compute; reflexivity].
  apply (plugins_event true (EvtPlugin EventTypeNew 0 (version 1)) (newPlugins true) None); [constructor|vm_compute; reflexivity].
Qed.

Lemma engine_follows_witness : version 1 ∈ applied (jsEngine updated).
Proof.
  refine (proj2 (proj2 (proj2 (proj2 (proj2 (engine_follows true running running_reached))) 0 (version 2) (version 1) updated _ _ _)));
    vm_compute; reflexivity.
Defined.
End PluginSamples.
