(* ===== verification/Events.v ===== *)
(** All events of the dispatcher, those of plugins among them ([readyToReceiveWatchEvent] of
    [src/src/proxy/dispatcher_event.go]), and the theorem that they do to the state what the
    abstract specification says, with the errors it says. *)
From S2P Require Import Prelude Meta RouteParser RouteTable Matching Expr RateLimit Lbs Counters Runtime Dispatcher Validation Plugins DispatcherInv DispatcherSpec DispatcherRefine DispatcherRoute.
Import RouteParser.Parser.

(** ** The handler *)

Section Handler.
Context {L : Type} `{!Balancers L} {env : Env} {node_sort : NodeSort} {sort : SortSlice} {checks : Checks} (EnableJSPlugin : bool).

(** One turn of [readyToReceiveWatchEvent] with an event whose message is decoded; the code
    drops the error. *)
Definition handleEvent (evt : Evt + pluginEvt) (o : orders) (now : Z) (s : dispatcher L * pluginState)
    : outcome (option (error + pluginError) * (dispatcher L * pluginState)) :=
  let '(r, p) := s in
  match evt with
  | inl evt => x ← handle evt o now r; Ret (option_map inl x.1, (x.2, p))
  | inr evt => x ← handlePlugin EnableJSPlugin evt p; Ret (option_map inr x.1, (r, x.2))
  end.

End Handler.

(** ** The specification of the plugins *)

(** The plugins, the ids that are applied, and the versions that run. *)
Record pspec := mkPSpec { ps_plugins : gmap Z Plugin; ps_applied : AppliedPlugins; ps_running : list Plugin }.

Section Spec.
Context {checks : Checks}.

(** The applied plugins are started in the versions there are, all or none. *)
Definition restart (s : pspec) : option pluginError * list Plugin :=
  let versions := omap (λ id, ps_plugins s !! id) (AppliedIDs (ps_applied s)) in
  if forallb NewRuntime versions then (None, versions) else (Some errEngine, ps_running s).

(** None is the end of the process: a plugin that is applied is removed.  A plugin that is
    updated while it is applied restarts the engine with the version before. *)
Definition spec_plugin (evt : pluginEvt) (s : pspec) : option (option pluginError * pspec) :=
  let '(mkPSpec ps ap ru) := s in
  match evt with
  | EvtPlugin EventTypeNew _ v =>
      Some (match ps !! Plugin_ID v with
            | Some _ => (Some errPluginExists, s)
            | None => (None, mkPSpec (<[Plugin_ID v := v]> ps) ap ru)
            end)
  | EvtPlugin EventTypeUpdate _ v =>
      Some (match ps !! Plugin_ID v with
            | None => (Some errPluginNotFound, s)
            | Some _ =>
                match (if bool_decide (Plugin_ID v ∈ AppliedIDs ap) then restart s else (None, ru)) with
                | (None, ru) => (None, mkPSpec (<[Plugin_ID v := v]> ps) ap ru)
                | (Some e, _) => (Some e, s)
                end
            end)
  | EvtPlugin EventTypeDelete key _ =>
      match ps !! key with
      | None => Some (Some errPluginNotFound, s)
      | Some _ => if bool_decide (key ∈ AppliedIDs ap) then None else Some (None, mkPSpec (delete key ps) ap ru)
      end
  | EvtApplied t v =>
      let v := match t with EventTypeDelete => mkAppliedPlugins 0 [] | _ => v end in
      Some (if bool_decide (Forall (λ id, is_Some (ps !! id)) (AppliedIDs v))
            then let s := mkPSpec ps v ru in let '(e, ru) := restart s in (e, mkPSpec ps v ru)
            else (Some errPluginNotFound, s))
  end.

(** All events. *)
Definition spec_all (order : list Z) (evt : Evt + pluginEvt) (s : spec * pspec)
    : option (option (error + pluginError) * (spec * pspec)) :=
  match evt with
  | inl evt => let '(e, m) := spec_event order evt s.1 in Some (option_map inl e, (m, s.2))
  | inr evt => option_map (λ x, (option_map inr x.1, (s.1, x.2))) (spec_plugin evt s.2)
  end.

End Spec.

(** ** The plugins refine it *)

Section Plugins.
Context {checks : Checks} (EnableJSPlugin : bool).
Implicit Types p : pluginState.

Definition pabs p : pspec := mkPSpec (plugins p) (appliedPlugins p) (applied (jsEngine p)).

Lemma omap_present {A B} (f : A -> option B) (l : list A) ps : map f l = map Some ps -> omap f l = ps.
Proof.
  revert ps. induction l as [|x l IH]; intros [|y ps] E; try done. cbn in *. injection E as Ex E. rewrite Ex. by rewrite (IH ps).
Qed.

(** The engine is rebuilt as the specification restarts it. *)
Lemma refine_restart p : applied_present p -> ∃ p', updateJSEngine EnableJSPlugin p = Ret ((restart (pabs p)).1, p') /\
  plugins p' = plugins p /\ appliedPlugins p' = appliedPlugins p /\ applied (jsEngine p') = (restart (pabs p)).2.
Proof.
  intros Hp. destruct (updateJSEngine_spec EnableJSPlugin p Hp) as (ps & Em & ->). unfold restart. cbn.
  rewrite (omap_present _ _ _ Em). destruct (forallb NewRuntime ps); eexists; (split; [done|done]).
Qed.

Lemma inApplied_bool id p : inAppliedPlugins id p = bool_decide (id ∈ AppliedIDs (appliedPlugins p)).
Proof. apply eq_true_iff_eq. by rewrite inAppliedPlugins_spec, bool_decide_eq_true. Qed.

Lemma forallb_all p v : forallb (λ id, bool_decide (is_Some (plugins p !! id))) (AppliedIDs v) =
  bool_decide (Forall (λ id, is_Some (plugins p !! id)) (AppliedIDs v)).
Proof.
  apply eq_true_iff_eq. rewrite bool_decide_eq_true, Forall_forall, forallb_forall. split; intros H id Hid.
  - apply list_elem_of_In, H in Hid. by apply bool_decide_eq_true in Hid.
  - apply bool_decide_eq_true, H. by apply list_elem_of_In.
Qed.

Lemma refine_plugin evt p : applied_present p ->
  match spec_plugin evt (pabs p) with
  | None => handlePlugin EnableJSPlugin evt p = Panic
  | Some (e, s) => ∃ p', handlePlugin EnableJSPlugin evt p = Ret (e, p') /\ pabs p' = s
  end.
Proof.
  intros Hp. assert (Hset : ∀ v, (∀ id, id ∈ AppliedIDs v -> is_Some (plugins p !! id)) ->
    ∃ p', updateJSEngine EnableJSPlugin (set_applied v p) = Ret ((restart (mkPSpec (plugins p) v (applied (jsEngine p)))).1, p') /\
      pabs p' = mkPSpec (plugins p) v (restart (mkPSpec (plugins p) v (applied (jsEngine p)))).2).
  { intros v Hv. destruct (refine_restart (set_applied v p) Hv) as (p' & -> & E1 & E2 & E3). exists p'. split; [done|].
    unfold pabs. by rewrite E1, E2, E3. }
  destruct evt as [t key v|t v]; cbn [handlePlugin doPluginEvent doApplyPluginEvent].
  - destruct t; cbn [doPluginEvent spec_plugin pabs].
    + unfold addPlugin. destruct (plugins p !! Plugin_ID v); cbn; by eexists.
    + unfold updatePlugin, maybeUpdateJSEngine. destruct (plugins p !! Plugin_ID v); cbn; [|by eexists].
      rewrite inApplied_bool. destruct (bool_decide _); cbn; [|by eexists].
      destruct (refine_restart p Hp) as (p' & -> & E1 & E2 & E3). fold (pabs p). destruct (restart (pabs p)) as [[e|] ru] eqn:Er; cbn in *.
      * exists p'. split; [done|]. unfold pabs. rewrite E1, E2, E3. f_equal. unfold restart in Er. destruct (forallb _ _); [done|]. by injection Er as _ <-.
      * eexists. split; [done|]. unfold pabs, set_plugins. cbn. by rewrite E1, E2, E3.
    + unfold removePlugin. destruct (plugins p !! key); cbn; [|by eexists]. rewrite inApplied_bool. destruct (bool_decide _); cbn; [done|by eexists].
  - assert (Hu : ∀ v, updateAppliedPlugin EnableJSPlugin v p =
      if bool_decide (Forall (λ id, is_Some (plugins p !! id)) (AppliedIDs v)) then updateJSEngine EnableJSPlugin (set_applied v p) else Ret (Some errPluginNotFound, p)).
    { intros w. unfold updateAppliedPlugin. by rewrite forallb_all. }
    assert (Hw : doApplyPluginEvent EnableJSPlugin t v p =
      updateAppliedPlugin EnableJSPlugin (match t with EventTypeDelete => mkAppliedPlugins 0 [] | _ => v end) p) by (by destruct t).
    rewrite Hw, Hu.
    cbn [spec_plugin pabs]. set (w := match t with EventTypeDelete => _ | _ => v end). clearbody w.
    case_bool_decide as Hall; cbn zeta; [|by eexists]. rewrite Forall_forall in Hall. destruct (Hset w Hall) as (p' & -> & E).
    destruct (restart _) as [e ru]. exists p'. by rewrite E.
Qed.

End Plugins.

(** ** The handlers return *)

Section Returns.
Context {L : Type} `{!Balancers L} {env : Env} {node_sort : NodeSort} {sort : SortSlice}.
Implicit Type r : dispatcher L.

(** The runtime objects of the messages can be built: at the rates they had, and at those the
    number of gateways gives them. *)
Definition server_builds (now : Z) (v : Server) : Prop :=
  ∀ r, returns (newServerRuntime v (refreshQPS r (Server_MaxQPS v)) now).
Definition api_builds (now : Z) (v : API) : Prop :=
  ∀ r, returns (newAPIRuntime v (refreshQPS r (API_MaxQPS v)) now).

Record builds (evt : Evt) (now : Z) r : Prop := {
  builds_clones : ∀ k s, servers_ r !! k = Some s -> returns (serverRuntime_clone s now);
  builds_api_clones : ∀ k a, apis r !! k = Some a -> returns (apiRuntime_clone a now);
  builds_servers : ∀ k s, servers_ r !! k = Some s -> server_builds now (svr_meta s);
  builds_apis : ∀ k a, apis r !! k = Some a -> api_builds now (a_meta a);
  builds_new : match evt with EvtServer _ _ v => server_builds now v | EvtAPI _ _ v => api_builds now v | _ => True end
}.

Lemma copied_present {A} (clone : A -> outcome A) exclude (m m' : gmap Z A) k v : copyMap clone exclude m = Ret m' ->
  m !! k = Some v -> k <> exclude -> is_Some (m' !! k).
Proof. intros H Hk Hne. apply (copyMap_is_Some _ _ _ _ _ H). eauto. Qed.

Lemma refreshServers_returns order now : ∀ r, (∀ k s, servers_ r !! k = Some s -> server_builds now (svr_meta s)) ->
  returns (refreshServers order now r).
Proof.
  induction order as [|id order IH]; intros r Hb; [by eexists|]. cbn. destruct (servers_ r !! id) as [s|] eqn:Es; [|by apply IH].
  unfold serverRuntime_updateMeta. destruct (Hb id s Es r) as [rt Hrt]. rewrite Hrt. cbn.
  apply IH. intros k s'. cbn. destruct (decide (id = k)) as [<-|Hne].
  - rewrite lookup_insert_eq. intros [= <-]. cbn. apply newServerRuntime_meta in Hrt as [-> _]. by apply (Hb id).
  - rewrite lookup_insert_ne by done. apply Hb.
Qed.

Lemma refreshAPIs_returns order now : ∀ r, (∀ k a, apis r !! k = Some a -> api_builds now (a_meta a)) ->
  returns (refreshAPIs order now r).
Proof.
  induction order as [|id order IH]; intros r Hb; [by eexists|]. cbn. destruct (apis r !! id) as [a|] eqn:Ea; [|by apply IH].
  unfold apiRuntime_updateMeta. destruct (Hb id a Ea r) as [rt Hrt]. rewrite Hrt. cbn.
  apply IH. intros k a'. cbn. destruct (decide (id = k)) as [<-|Hne].
  - rewrite lookup_insert_eq. intros [= <-]. apply newAPIRuntime_meta in Hrt as ->. by apply (Hb id).
  - rewrite lookup_insert_ne by done. apply Hb.
Qed.

Lemma refreshServers_apis order now : ∀ r r', refreshServers order now r = Ret r' -> apis r' = apis r.
Proof. intros r r' Hr. by destruct (refreshServers_same _ _ _ _ Hr). Qed.

Lemma refreshAllQPS_returns so ao now r : (∀ k s, servers_ r !! k = Some s -> server_builds now (svr_meta s)) ->
  (∀ k a, apis r !! k = Some a -> api_builds now (a_meta a)) -> returns (refreshAllQPS so ao now r).
Proof.
  intros Hs Ha. unfold refreshAllQPS. destruct (refreshServers_returns so now r Hs) as [r1 E]. rewrite E. cbn.
  apply refreshAPIs_returns. by rewrite (refreshServers_apis _ _ _ _ E).
Qed.

(** [Add] returns on a well-formed table, which it keeps. *)
Lemma addIgnoring_returns rt a : wf_route rt -> ∃ rt', addIgnoring rt a = Ret rt' /\ wf_route rt'.
Proof.
  intros Hwf. unfold addIgnoring. destruct (Add_updates rt a Hwf) as ([e|nodes] & Hp & H); [rewrite H; by exists rt|].
  cbn zeta in H. destruct (conflict _ _); [rewrite H; by exists rt|]. destruct H as (rt' & -> & Hwf' & _). by exists rt'.
Qed.

Lemma Add_returns rt a : wf_route rt -> returns (Add rt a).
Proof.
  intros Hwf. destruct (Add_updates rt a Hwf) as ([e|nodes] & Hp & H); [rewrite H; by eexists|].
  cbn zeta in H. destruct (conflict _ _); [rewrite H; by eexists|]. destruct H as (rt' & -> & _). by eexists.
Qed.

Lemma copyAPIsLoop_returns m exclude ex2 now order : (∀ k a, m !! k = Some a -> returns (apiRuntime_clone a now)) ->
  ∀ rt values, wf_route rt -> ∃ rt' values', copyAPIsLoop m exclude ex2 now order rt values = Ret (rt', values') /\ wf_route rt'.
Proof.
  intros Hm. induction order as [|k order IH]; intros rt values Hwf; [by do 2 eexists|]. cbn.
  destruct (m !! k) as [a|] eqn:Ek; [|by apply IH]. destruct (k =? exclude); [by apply IH|].
  destruct (Hm k a Ek) as [v ->]. cbn. destruct (negb (k =? ex2) && apiRuntime_isUp a); [|by apply IH].
  destruct (addIgnoring_returns rt (a_meta v) Hwf) as (rt' & -> & Hwf'). by apply IH.
Qed.

Lemma doServerEvent_returns t key v now r : inv r -> builds (EvtServer t key v) now r -> returns (doServerEvent t key v now r).
Proof.
  intros H [Hc _ _ _ Hv]. unfold doServerEvent, addServer, updateServer, removeServer.
  assert (Hcopy : ∀ exclude (r0 : dispatcher L), servers_ r0 = servers_ r -> returns (copyServers r0 exclude now)).
  { intros exclude r0 E. unfold copyServers. rewrite E. apply copyMap_total. intros k s Hk _. by apply (Hc k). }
  destruct t; destruct (servers_ r !! _) as [rt|] eqn:Ek; try (by eexists).
  - destruct (Hcopy 0 r eq_refl) as [m ->]. cbn. destruct (Hv r) as [s ->]. by eexists.
  - match goal with |- context [copyServers ?x 0 now] => destruct (Hcopy 0 x eq_refl) as [m Em] end. rewrite Em. cbn.
    destruct (copied_present _ _ _ m (Server_ID v) rt Em Ek) as [s ->]; [by destruct (inv_servers r H _ _ Ek)|].
    unfold serverRuntime_updateMeta. match goal with |- context [refreshQPS ?x _] => destruct (Hv x) as [s' ->] end. by eexists.
  - match goal with |- context [copyServers ?x key now] => destruct (Hcopy key x eq_refl) as [m ->] end. by eexists.
Qed.

Lemma doAPIEvent_returns t key v o now r : inv r -> order_ok (apiOrder o) (apis r) -> builds (EvtAPI t key v) now r ->
  returns (doAPIEvent t key v o now r).
Proof.
  intros H Ho [_ Hc _ _ Hv]. unfold doAPIEvent, addAPI, updateAPI, removeAPI.
  assert (Hcopy : ∀ exclude ex2, ∃ rt m, copyAPIs r exclude ex2 now (apiOrder o) = Ret (rt, m) /\ wf_route rt)
    by (intros; apply copyAPIsLoop_returns; [done|apply NewRoute_wf]).
  destruct t; destruct (apis r !! _) as [a|] eqn:Ek; try (by eexists).
  - destruct (Hv r) as [a ->]. cbn. destruct (Hcopy 0 0) as (rt & m & -> & Hwf). cbn.
    destruct (apiRuntime_isUp a); [|by eexists]. destruct (Add_returns rt (a_meta a) Hwf) as [[e|rt'] ->]; by eexists.
  - destruct (Hcopy 0 (API_ID v)) as (rt & m & E & Hwf). rewrite E. cbn. pose proof (copyAPIs_meta _ _ _ _ _ _ _ (order_visits _ _ Ho) E) as Hm.
    assert (Hk : (a_meta <$> m) !! API_ID v = Some (a_meta a)).
    { rewrite Hm, lookup_delete_ne by (intros E0; by destruct (inv_apis r H _ _ Ek)). by rewrite lookup_fmap, Ek. }
    rewrite lookup_fmap in Hk. destruct (m !! API_ID v) as [cl|]; [|done]. unfold apiRuntime_updateMeta.
    destruct (Hv r) as [a' ->]. cbn. destruct (Add_returns rt (a_meta a') Hwf) as [[e|rt'] ->]; by eexists.
  - destruct (Hcopy key 0) as (rt & m & -> & Hwf). by eexists.
Qed.

Lemma handle_returns evt o now r : inv r -> order_ok (apiOrder o) (apis r) -> builds evt now r -> returns (handle evt o now r).
Proof.
  intros H Ho Hb. assert (Hcl : ∀ exclude, returns (copyClusters r exclude)) by (intros; apply copyMap_total; by eexists).
  assert (Hro : ∀ exclude, returns (copyRoutings r exclude)) by (intros; apply copyMap_total; by eexists).
  destruct evt as [t key v|t key v|t key v|t key v|t key v|t v|v]; cbn [handle].
  - unfold doRoutingEvent, addRouting, updateRouting, removeRouting. destruct t; destruct (routings r !! _) as [x|] eqn:Ek; try (by eexists).
    + destruct (Hro 0) as [m ->]. by eexists.
    + destruct (Hro 0) as [m E]. rewrite E. cbn. destruct (copied_present _ _ _ m _ x E Ek) as [y ->]; [by destruct (inv_routings r H _ _ Ek)|by eexists].
    + destruct (Hro key) as [m ->]. by eexists.
  - destruct Hb as [_ _ Hs Ha _]. unfold doProxyEvent, addProxy, removeProxy. destruct t; [| by eexists|].
    + destruct (proxies r !! _); [by eexists|]. match goal with |- context [refreshAllQPS ?a ?b now ?x] => destruct (refreshAllQPS_returns a b now x Hs Ha) as [r' ->] end. by eexists.
    + destruct (proxies r !! _); [|by eexists]. match goal with |- context [refreshAllQPS ?a ?b now ?x] => destruct (refreshAllQPS_returns a b now x Hs Ha) as [r' ->] end. by eexists.
  - by apply doAPIEvent_returns.
  - unfold doClusterEvent, addCluster, updateCluster, removeCluster. destruct t; destruct (clusters r !! _) as [x|] eqn:Ek; try (by eexists).
    + destruct (Hcl 0) as [m ->]. by eexists.
    + destruct (Hcl 0) as [m E]. rewrite E. cbn. destruct (copied_present _ _ _ m _ x E Ek) as [y ->]; [by destruct (inv_clusters r H _ _ Ek)|by eexists].
    + destruct (Hcl key) as [m ->]. by eexists.
  - by apply doServerEvent_returns.
  - unfold doBindEvent, addBind, removeBind. destruct t; [|by eexists|]; (destruct (servers_ r !! _); [|by eexists]); destruct (clusters r !! _); by eexists.
  - by eexists.
Qed.

End Returns.

(** ** Every event *)

Section Refinement.
Context {L : Type} `{!Balancers L} {env : Env} {node_sort : NodeSort} {sort : SortSlice} {checks : Checks} (EnableJSPlugin : bool).

(** C3: every event handler does to the state exactly what the specification says, and reports
    the error it says: whatever runtime objects, copies, routing table and engine stand behind
    them, the messages the dispatcher holds change as plain maps under create, update and
    delete.  The specification is a function: an API is refused only if its pattern cannot be
    read or is in conflict with the methods of the other APIs that are up, and a status is
    ignored only if the entry of the server met first has it.  The handler ends the process
    when an applied plugin is removed, and returns if the runtime objects of the messages can
    be built. *)
Theorem handle_refines : ∀ (s : system) p evt o now,
  reachable s -> plugins_reached EnableJSPlugin p -> orders_ok o (disp s) ->
  match spec_all (bindOrder o) evt (abs (disp s), pabs p) with
  | None => handleEvent EnableJSPlugin evt o now (disp s, p) = Panic
  | Some (e, m) =>
      (∀ e' r' p', handleEvent EnableJSPlugin evt o now (disp s, p) = Ret (e', (r', p')) -> e' = e /\ (abs r', pabs p') = m) /\
      ((∀ evt', evt = inl evt' -> builds evt' now (disp s)) -> returns (handleEvent EnableJSPlugin evt o now (disp s, p)))
  end.
Proof.
  intros s p evt o now Hs Hp (_ & Ho & _). pose proof (reachable_ok s Hs) as H. pose proof (reachable_route s Hs) as Hr.
  destruct evt as [evt|evt]; unfold spec_all, handleEvent; cbn [fst snd].
  - pose proof (refine_handle evt o now (disp s) H Ho Hr) as Href. destruct (spec_event _ evt _) as [e m] eqn:Es. split.
    + intros e' r' p' Hh. bind_inv Hh. injection Hh as <- <- <-. destruct a as [e' r']. specialize (Href e' r' eq_refl). cbn. split; congruence.
    + intros Hb. destruct (handle_returns evt o now (disp s) H Ho (Hb evt eq_refl)) as [x ->]. by eexists.
  - pose proof (refine_plugin EnableJSPlugin evt p (reached_present EnableJSPlugin p Hp)) as Href.
    destruct (spec_plugin evt (pabs p)) as [[e m]|]; cbn; [|by rewrite Href].
    destruct Href as (p' & -> & <-). split; [|by eexists]. by intros e' r' p'' [= <- <- <-].
Qed.

End Refinement.

(** ** Examples *)
Module EventSamples.
#[local] Instance env_plain : Env := plain_env.
#[local] Instance sample_checks : Checks := PluginSamples.sample_checks.

Definition orders_ : orders := mkOrders [7] [3] [1].
Definition twin : Evt + pluginEvt := inl (EvtAPI EventTypeNew 0 (sample_api 4 (str "/a") 1)).

Definition removal : Evt + pluginEvt := inl (EvtServer EventTypeDelete 7 (sample_server 7 None)).

Lemma orders_sample : orders_ok orders_ sample.
Proof. split_and!; vm_compute; reflexivity. Qed.

(** An API beside one with the same pattern and method is refused, and nothing changes; a
    server is removed with its binds. *)
Lemma handle_refines_witness :
  (∀ e r' p', handleEvent true twin orders_ 0 (sample, newPlugins true) = Ret (e, (r', p')) ->
     e = Some (inl (errRoute (ErrConflict [3]))) /\ sp_apis (abs r') = sp_apis (abs sample)) /\
  (∀ e r' p', handleEvent true removal orders_ 0 (sample, newPlugins true) = Ret (e, (r', p')) ->
     e = None /\ sp_binds (abs r') = {[1 := []]}).
Proof.
  assert (Hx : ∀ {A} (f : spec -> A) e a evt, option_map (λ y, (y.1, f y.2.1)) (spec_all [1] evt (abs sample, pabs (newPlugins true))) = Some (e, a) ->
    ∃ m, spec_all [1] evt (abs sample, pabs (newPlugins true)) = Some (e, m) /\ f m.1 = a).
  { intros A f e a evt. destruct (spec_all _ _ _) as [[e0 m]|]; [|done]. intros [= <- <-]. by exists m. }
  split; intros e r' p' Hh.
  - pose proof (handle_refines true (mkSystem sample []) (newPlugins true) twin orders_ 0 sample_reachable (plugins_new true) orders_sample) as H.
    destruct (Hx _ sp_apis (Some (inl (errRoute (ErrConflict [3])))) (sp_apis (abs sample)) twin) as (m & Es & Hm);
      [vm_compute; reflexivity|].
    cbn [disp orders_ bindOrder] in H. rewrite Es in H. destruct (proj1 H e r' p' Hh) as [-> <-]. split; [reflexivity|exact Hm].
  - pose proof (handle_refines true (mkSystem sample []) (newPlugins true) removal orders_ 0 sample_reachable (plugins_new true) orders_sample) as H.
    destruct (Hx _ sp_binds None {[1 := []]} removal) as (m & Es & Hm); [vm_compute; reflexivity|].
    cbn [disp orders_ bindOrder] in H. rewrite Es in H. destruct (proj1 H e r' p' Hh) as [-> <-]. split; [reflexivity|exact Hm].
Defined.
End EventSamples.
