(* ===== verification/Load.v ===== *)
(** Model of the loading of the dispatcher from the store ([load] and its parts in
    [src/src/proxy/dispatcher_meta.go], with the reading page by page of
    [store/store_etcd.go]).  [load] first starts the watch in a goroutine of its own, so the
    loading is a sequence of steps, between which changes are told, statuses change and
    requests are served: a step asks etcd for a page, or hands one message to the dispatcher.
    [Follow] puts the loading beside the watch. *)
From S2P Require Import Prelude Meta Format RouteTable Matching Expr RateLimit Lbs Counters Runtime Dispatcher Validation Etcd Store Plugins DispatcherInv.
Import EtcdStore.

(** The size of the pages. *)
Definition limit : Z := 32.

(** Reading a directory: where the next page starts, and what is left of the page that was
    read last, with whether it was full. *)
Record reading (S : Type) := mkReading { start : S; unvisited : option (list (bytes * bytes) * bool) }.
Arguments mkReading {S}.
Arguments start {S}.
Arguments unvisited {S}.
Definition from {S} (s : S) : reading S := mkReading s None.

(** How far the loading is. *)
Inductive loading :=
| LoadProxies (rd : reading bytes)
| LoadClusters (rd : reading Z)
| LoadServers (rd : reading Z)
| LoadBinds                                                    (* about to range over the clusters *)
| LoadBindsOf (ids : list Z)                                   (* the clusters that are left *)
| LoadBind (clusterID : Z) (servers : list Z) (ids : list Z)   (* the servers of a cluster that are left *)
| LoadAPIs (rd : reading Z)
| LoadRoutings (rd : reading Z)
| LoadPlugins (rd : reading Z)
| LoadApplied
| ApplyLoaded (value : AppliedPlugins)
| Loaded.

Definition load : loading := LoadProxies (from MinAddrFormat).

(** ** A directory *)
Section Dir.
Context `{Etcd} {S A X : Type} (range : S -> keyset) (decode : bytes -> option A) (next : A -> outcome S)
  (fn : A -> X -> outcome X) (here : reading S -> loading) (after : loading).

(** A step: the request of a page; or a message of the page decoded and visited.  A request
    that fails and a message that does not decode end the directory, what was visited stays;
    what the visitor reports is not looked at. *)
Definition dirStep (c : etcd) (rd : reading S) (x : X) : outcome (loading * X) :=
  match unvisited rd with
  | None =>
      match Get (range (start rd)) limit c with
      | None => Ret (after, x)
      | Some l => Ret (here (mkReading (start rd) (Some (l, negb (len l <? limit)))), x)
      end
  | Some ([], full) => Ret (if full : bool then here (from (start rd)) else after, x)
  | Some ((_, data) :: l, full) =>
      match decode data with
      | None => Ret (after, x)
      | Some value => x ← fn value x; s ← next value; Ret (here (mkReading s (Some (l, full))), x)
      end
  end.

End Dir.

(** A directory of messages with ids. *)
Definition idStep `{Etcd} {A X} `{Pb A} (dir : bytes) (fn : A -> X -> outcome X) (here : reading Z -> loading) (after : loading) :
    etcd -> reading Z -> X -> outcome (loading * X) :=
  dirStep (λ id, KRange (getKey dir id) (getKey dir endID)) (Unmarshal A) (λ v, Ret (u64 (GetID v + 1))) fn here after.

Section Load.
Context `{Etcd} (prefix : bytes) {checks : Checks}
  `{!Pb Cluster, !Pb Server, !Pb API, !Pb Routing, !Pb Plugin, !Message AppliedPlugins, !Message Bind, !Message Proxy}
  {L : Type} `{!Balancers L} {env : Env} {node_sort : NodeSort} {sort : SortSlice} (EnableJSPlugin : bool).
Implicit Types (r : dispatcher L).

(** The closures that are given to the store. *)
Definition visitor {A X} (fn : A -> dispatcher L -> outcome (X * dispatcher L)) (v : A) (s : dispatcher L * pluginState)
    : outcome (dispatcher L * pluginState) := x ← fn v s.1; Ret (x.2, s.2).
Definition pluginVisitor (v : Plugin) (s : dispatcher L * pluginState) : outcome (dispatcher L * pluginState) :=
  x ← addPlugin v s.2; Ret (s.1, x.2).

(** A step of the loading, given the orders in which the maps of the state are visited,
    [ids] being that of the clusters, and the time.  A bind that cannot be added ends the
    process. *)
Definition loadStep (o : orders) (ids : list Z) (now : Z) (c : etcd) (l : loading) (s : dispatcher L * pluginState)
    : outcome (loading * (dispatcher L * pluginState)) :=
  let '(r, p) := s in
  match l with
  | LoadProxies rd =>
      dirStep (λ addr, KRange (getAddrKey (proxiesDir prefix) addr) (getAddrKey (proxiesDir prefix) MaxAddrFormat)) (Unmarshal Proxy)
        (λ v, GetAddrNextFormat (Proxy_Addr v)) (visitor (λ v r, addProxy v (svrOrder o) (apiOrder o) now r))
        LoadProxies (LoadClusters (from 0)) c rd s
  | LoadClusters rd => idStep (clustersDir prefix) (visitor (λ v r, addCluster v r)) LoadClusters (LoadServers (from 0)) c rd s
  | LoadServers rd => idStep (serversDir prefix) (visitor (λ v r, addServer v now r)) LoadServers LoadBinds c rd s
  | LoadBinds => Ret (LoadBindsOf ids, s)
  | LoadBindsOf [] => Ret (LoadAPIs (from 0), s)
  | LoadBindsOf (clusterID :: ids) =>
      '(servers, _) ← GetBindServers prefix clusterID (mkStore 0 0 c);
      Ret (match servers with Err _ => LoadAPIs (from 0) | Ok servers => LoadBind clusterID servers ids end, s)
  | LoadBind _ [] ids => Ret (LoadBindsOf ids, s)
  | LoadBind clusterID (serverID :: servers) ids =>
      '(err, r) ← addBind (mkBind clusterID serverID) r;
      match err with None => Ret (LoadBind clusterID servers ids, (r, p)) | Some _ => Panic end
  | LoadAPIs rd => idStep (apisDir prefix) (visitor (λ v r, addAPI v (apiOrder o) now r)) LoadAPIs (LoadRoutings (from 0)) c rd s
  | LoadRoutings rd => idStep (routingsDir prefix) (visitor (λ v r, addRouting v r)) LoadRoutings (LoadPlugins (from 0)) c rd s
  | LoadPlugins rd => idStep (pluginsDir prefix) pluginVisitor LoadPlugins LoadApplied c rd s
  | LoadApplied =>
      '(applied, _) ← GetAppliedPlugins prefix (mkStore 0 0 c);
      Ret (match applied with Err _ => Loaded | Ok applied => ApplyLoaded applied end, s)
  | ApplyLoaded applied => '(_, p) ← updateAppliedPlugin EnableJSPlugin applied p; Ret (Loaded, (r, p))
  | Loaded => Ret (Loaded, s)
  end.

End Load.

(** ** The steps of a directory make a call of [getValues]

    When nothing happens in between, a turn of the loop of the store is a number of steps. *)
Section Turns.
Context `{Etcd} {A X E : Type} `{Pb A} (dir : bytes) (fn : A -> X -> outcome (E * X)) (here : reading Z -> loading) (after : loading) (c : etcd).

Definition fn' (v : A) (x : X) : outcome X := y ← fn v x; Ret y.2.

(** A number of steps. *)
Inductive steps : loading * X -> loading * X -> Prop :=
| steps_end y : steps y y
| steps_step rd x y z : idStep dir fn' here after c rd x = Ret y ->
    steps y z -> steps (here rd, x) z.

Lemma visit_steps l full : ∀ start x err start' x', visit fn l start x = Ret (err, (start', x')) ->
  steps (here (mkReading start (Some (l, full))), x)
    (match err with Some _ => after | None => here (mkReading start' (Some ([], full))) end, x').
Proof.
  induction l as [|[k data] l IH]; intros start x err start' x' Hv; cbn in Hv; [injection Hv as <- <- <-; apply steps_end|].
  destruct (Unmarshal A data) as [v|] eqn:Eu.
  - destruct (fn v x) as [[y x1]| |] eqn:Ef; cbn in Hv; try done. eapply steps_step; [|by apply IH].
    unfold idStep, dirStep. cbn. rewrite Eu. unfold fn'. by rewrite Ef.
  - injection Hv as <- <- <-. eapply steps_step; [|apply steps_end]. unfold idStep, dirStep. cbn. by rewrite Eu.
Qed.

Lemma steps_trans y1 y2 y3 : steps y1 y2 -> steps y2 y3 -> steps y1 y3.
Proof. induction 1; [done|]. intros. eapply steps_step; eauto. Qed.

Lemma turn_steps start x res : getValuesTurn dir limit fn c (start, x) = Ret res ->
  steps (here (from start), x) (match res with inl (start', x') => (here (from start'), x') | inr (_, x') => (after, x') end).
Proof.
  unfold getValuesTurn. intros Ht. destruct (Get _ limit c) as [l|] eqn:Eg.
  2: { injection Ht as <-. eapply steps_step; [|apply steps_end]. unfold idStep, dirStep. cbn. by rewrite Eg. }
  destruct (visit fn l start x) as [[err [start' x']]| |] eqn:Ev; cbn in Ht; try done. injection Ht as <-.
  eapply steps_step; [unfold idStep, dirStep; cbn; by rewrite Eg|].
  eapply steps_trans; [exact (visit_steps l (negb (len l <? limit)) _ _ _ _ _ Ev)|]. destruct err; [apply steps_end|].
  eapply steps_step; [reflexivity|]. cbn. destruct (len l <? limit); apply steps_end.
Qed.

(** So the steps reach what [getValues] leaves. *)
Lemma getValues_steps x err x' b n : getValues dir limit fn x (mkStore b n c) = Ret (err, x') -> steps (here (from 0), x) (after, x').
Proof.
  unfold getValues. cbn [rawClient]. generalize (S (S (size (kvs c)))) as fuel, 0 as start. intros fuel. revert x.
  induction fuel as [|fuel IH]; intros x start Hl; [done|]; cbn [loop] in Hl.
  destruct (getValuesTurn dir limit fn c (start, x)) as [[[start1 x1]|[err1 x1]]| |] eqn:Et; try done.
  - eapply steps_trans; [exact (turn_steps _ _ _ Et)|]. exact (IH _ _ Hl).
  - injection Hl as _ <-. exact (turn_steps _ _ _ Et).
Qed.

End Turns.
