(* ===== verification/Mirror.v ===== *)
(** The dispatcher as a mirror of the store.  Its clusters, servers and routings are maps of
    messages; a directory of the store is mirrored when the map holds exactly its messages.
    Events change the maps as plain updates, and each step of the loading brings them nearer
    to the store, however the steps are interleaved with what else goes on. *)
From S2P Require Import Prelude Meta JsonEscape Format RouteTable Matching Expr RateLimit Lbs Counters Runtime Dispatcher Validation Etcd Store Plugins DispatcherInv DispatcherSpec DispatcherRefine StorePages StoreLogic StoreSpec StoreReads Load.
Import EtcdStore.

(** ** The maps, and what events make of them *)

Record core := mkCore { k_clusters : gmap Z Cluster; k_servers : gmap Z Server; k_routings : gmap Z Routing }.

(** An event of a kind that is never refused. *)
Definition crud_map {A} (t : EvtType) (key id : Z) (v : A) (m : gmap Z A) : gmap Z A :=
  match t with
  | EventTypeNew => match m !! id with Some _ => m | None => <[id := v]> m end
  | EventTypeUpdate => match m !! id with Some _ => <[id := v]> m | None => m end
  | EventTypeDelete => delete key m
  end.

Definition core_evt (evt : Dispatcher.Evt) (k : core) : core :=
  match evt with
  | EvtCluster t key v => mkCore (crud_map t key (Cluster_ID v) v (k_clusters k)) (k_servers k) (k_routings k)
  | EvtServer t key v => mkCore (k_clusters k) (crud_map t key (Server_ID v) v (k_servers k)) (k_routings k)
  | EvtRouting t key v => mkCore (k_clusters k) (k_servers k) (crud_map t key (Routing_ID v) v (k_routings k))
  | _ => k
  end.

Lemma crud_crud_map {A} t key id (v : A) e1 e2 m : (crud t key id v e1 e2 m).2 = crud_map t key id v m.
Proof.
  destruct t; cbn; [by destruct (m !! id)..|]. destruct (m !! key) eqn:E; [done|]. symmetry. by apply delete_id.
Qed.

Definition core_spec (s : spec) : core := mkCore (sp_clusters s) (sp_servers s) (sp_routings s).

Lemma spec_core order evt s : core_spec (spec_event order evt s).2 = core_evt evt (core_spec s).
Proof.
  destruct s as [ro ap cl se pr bi]. destruct evt as [t k v|t k v|t k v|t k v|t k v|t v|v]; unfold spec_event, core_evt, core_spec;
    cbn [sp_clusters sp_servers sp_routings k_clusters k_servers k_routings].
  - rewrite <- (crud_crud_map t k _ v errRoutingExists errRoutingNotFound). by destruct (crud _ _ _ _ _ _ _).
  - by destruct (spec_proxy _ _ _ _).
  - by destruct (spec_api _ _ _ _).
  - rewrite <- (crud_crud_map t k _ v errClusterExists errClusterNotFound). by destruct (crud _ _ _ _ _ _ _).
  - rewrite <- (crud_crud_map t k _ v errServerExists errServerNotFound). by destruct (crud _ _ _ _ _ _ _).
  - by destruct (spec_bind _ _ _).
  - by destruct (bool_decide _).
Qed.

Section Core.
Context {L : Type} `{!Balancers L} {env : Env} {node_sort : NodeSort} {sort : SortSlice}.
Implicit Types (r : dispatcher L).

Definition core_of r : core := core_spec (abs r).

(** An event handled: what the routing table says of an API does not show here. *)
Lemma handle_core evt o now r err r' : wf_evt evt -> inv r -> handle evt o now r = Ret (err, r') ->
  inv r' /\ core_of r' = core_evt evt (core_of r).
Proof.
  intros Hw Hi Hh. split; [by eapply handle_inv|].
  assert (Hr : ∀ res, refines (bindOrder o) evt r res -> res = Ret (err, r') -> core_of r' = core_evt evt (core_of r)).
  { intros res Href E. unfold core_of. rewrite <- (spec_core (bindOrder o)). by rewrite (Href err r' E). }
  destruct evt as [t k v|t k v|t k v|t k v|t k v|t v|v]; cbn [handle] in Hh;
    try (eapply Hr; [|exact Hh]; eauto using refine_routing, refine_proxy, refine_cluster, refine_server, refine_bind, refine_status; fail).
  apply doAPIEvent_others in Hh. unfold others in Hh. injection Hh as E1 E2 E3 E4 E5. unfold core_of, core_spec. cbn in *. by rewrite E1, E2, E3.
Qed.

End Core.

(** ** A directory mirrored *)

Section Mirrors.
Context {A} `{Pb A}.
Implicit Types (m : kv) (sp : gmap Z A) (v w : A).

(** The map holds the message of every key, the least and the greatest id apart. *)
Definition mirrors (dir : bytes) m sp : Prop :=
  ∀ id, sp !! id = if (0 <? id) && (id <? endID) then m !! getKey dir id ≫= Unmarshal A else None.

Definition in_range (id : Z) : Prop := 0 < id < endID.

Lemma in_range_true id : in_range id -> (0 <? id) && (id <? endID) = true.
Proof. unfold in_range. intros [??]. by rewrite andb_true_iff, !Z.ltb_lt. Qed.

Lemma in_range_u64 id : in_range id -> is_u64 id.
Proof. unfold in_range, is_u64, endID. lia. Qed.

Lemma mirrors_Some dir m sp id w : typed (A := A) dir m -> mirrors dir m sp ->
  sp !! id = Some w <-> in_range id /\ GetID w = id /\ ∃ data, Marshal w = Some data /\ m !! getKey dir id = Some data.
Proof.
  intros Ht Hm. rewrite Hm. split.
  - destruct ((0 <? id) && (id <? endID)) eqn:E; [|done]. rewrite andb_true_iff, !Z.ltb_lt in E.
    intros (data & Hk & Hu)%bind_Some. assert (Hid : is_u64 id) by (by apply in_range_u64).
    destruct (Ht _ _ Hk) as (v & Hv & Ek & Em).
    { rewrite getKey_digits by done. apply HasPrefix_app. }
    apply getKey_inj in Ek as ->; [|done..]. rewrite (Marshal_decode v data Em) in Hu. simplify_eq. eauto.
  - intros (Hr & <- & data & Em & Hk). rewrite in_range_true by done. rewrite Hk. cbn. by apply Marshal_decode.
Qed.

Lemma mirrors_None dir m sp id : typed (A := A) dir m -> mirrors dir m sp -> in_range id -> sp !! id = None <-> m !! getKey dir id = None.
Proof.
  intros Ht Hm Hr. split.
  - intros Hn. destruct (m !! getKey dir id) as [data|] eqn:Hk; [|done]. destruct (Ht _ _ Hk) as (v & Hv & Ek & Em).
    { rewrite getKey_digits by (by apply in_range_u64). apply HasPrefix_app. }
    apply getKey_inj in Ek as ->; [|by apply in_range_u64|done].
    rewrite (proj2 (mirrors_Some dir m sp (GetID v) v Ht Hm)) in Hn; [done|eauto].
  - intros Hk. rewrite Hm, Hk. by destruct ((0 <? id) && _).
Qed.

(** *** Events *)

Lemma mirrors_put dir m sp w data : typed (A := A) dir m -> mirrors dir m sp -> in_range (GetID w) -> Marshal w = Some data ->
  mirrors dir (<[getKey dir (GetID w) := data]> m)
    (crud_map (if bool_decide (m !! getKey dir (GetID w) = None) then EventTypeNew else EventTypeUpdate) 0 (GetID w) w sp).
Proof.
  intros Ht Hm Hr Em. pose proof (mirrors_None dir m sp (GetID w) Ht Hm Hr) as Hn.
  assert (E : crud_map (if bool_decide (m !! getKey dir (GetID w) = None) then EventTypeNew else EventTypeUpdate) 0 (GetID w) w sp = <[GetID w := w]> sp).
  { case_bool_decide as E; cbn; [by rewrite (proj2 Hn)|]. destruct (sp !! GetID w) eqn:Es; [done|]. by destruct (E (proj1 Hn eq_refl)). }
  rewrite E. intros id. destruct (decide (GetID w = id)) as [<-|Hne].
  - rewrite lookup_insert_eq, in_range_true, lookup_insert_eq by done. cbn. symmetry. by apply Marshal_decode.
  - rewrite lookup_insert_ne, Hm by done. destruct ((0 <? id) && (id <? endID)) eqn:Ei; [|done].
    rewrite andb_true_iff, !Z.ltb_lt in Ei. rewrite lookup_insert_ne; [done|].
    intros Ek%getKey_inj; [done|by apply in_range_u64..].
Qed.

Lemma mirrors_delete dir m sp id w : mirrors dir m sp -> in_range id ->
  mirrors dir (delete (getKey dir id) m) (crud_map EventTypeDelete id (GetID w) w sp).
Proof.
  intros Hm Hr id'. cbn. destruct (decide (id = id')) as [<-|Hne].
  - rewrite !lookup_delete_eq. cbn. by destruct ((0 <? id) && _).
  - rewrite lookup_delete_ne, Hm by done. destruct ((0 <? id') && (id' <? endID)) eqn:Ei; [|done].
    rewrite andb_true_iff, !Z.ltb_lt in Ei. rewrite lookup_delete_ne; [done|].
    intros Ek%getKey_inj; [done|by apply in_range_u64..].
Qed.

Lemma mirrors_other dir m m' sp : (∀ id, in_range id -> m' !! getKey dir id = m !! getKey dir id) -> mirrors dir m sp -> mirrors dir m' sp.
Proof.
  intros Hs Hm id. rewrite Hm. destruct ((0 <? id) && (id <? endID)) eqn:Ei; [|done].
  rewrite andb_true_iff, !Z.ltb_lt in Ei. by rewrite Hs.
Qed.

(** *** Loading *)

Definition added (l : list A) sp : gmap Z A := fold_left (λ sp v, crud_map EventTypeNew 0 (GetID v) v sp) l sp.

Lemma added_lookup l : ∀ sp id w, NoDup (GetID <$> l) -> (∀ v, v ∈ l -> sp !! GetID v = None) ->
  added l sp !! id = Some w <-> sp !! id = Some w \/ (w ∈ l /\ GetID w = id).
Proof.
  induction l as [|v l IH]; intros sp id w Hnd Hf.
  - cbn. split; [by left|]. intros [?|[?%elem_of_nil _]]; done.
  - cbn in Hnd. apply NoDup_cons in Hnd as [Hv Hnd]. cbn. rewrite (Hf v) by (by left). rewrite IH; [|done|].
    + rewrite elem_of_cons. destruct (decide (GetID v = id)) as [<-|Hne].
      * rewrite lookup_insert_eq. rewrite (Hf v) by (by left). split; [intros [[= <-]|[??]]; right; auto|intros [?|[[->|?] ?]]; auto; done].
      * rewrite lookup_insert_ne by done. split; [intros [?|[??]]; auto|intros [?|[[->|?] ?]]; auto; done].
    + intros u Hu. rewrite lookup_insert_ne; [apply Hf; by right|]. intros E. destruct Hv. rewrite E. by apply list_elem_of_fmap_2.
Qed.

Lemma values_NoDup dir m : typed (A := A) dir m -> NoDup (GetID <$> values (A := A) dir m).
Proof.
  intros Ht. pose proof (values_sorted (A := A) dir m Ht) as Hs. induction Hs as [|v l Hs IH Hv]; [constructor|].
  cbn. constructor; [|done]. intros (w & E & Hw)%list_elem_of_fmap. rewrite Forall_forall in Hv. specialize (Hv w Hw). lia.
Qed.

Lemma added_mirrors dir m : typed (A := A) dir m -> m !! getKey dir 0 = None -> mirrors dir m (added (values dir m) ∅).
Proof.
  intros Ht Hz id. apply option_eq. intros w.
  rewrite added_lookup by (by apply values_NoDup || by intros; apply lookup_empty). rewrite elem_of_values by done.
  split.
  - intros [?|[(Hr & data & Em & Hk) <-]]; [by rewrite lookup_empty in *|].
    assert (Hne : GetID w <> 0) by (intros E; rewrite E in Hk; congruence).
    rewrite in_range_true by (unfold in_range; lia). rewrite Hk. cbn. by apply Marshal_decode.
  - intros Hw. right.
    destruct ((0 <? id) && (id <? endID)) eqn:Ei; [|done]. rewrite andb_true_iff, !Z.ltb_lt in Ei.
    apply bind_Some in Hw as (data & Hk & Hu). destruct (Ht _ _ Hk) as (v & Hv & Ek & Em).
    { rewrite getKey_digits by (by apply in_range_u64). apply HasPrefix_app. }
    apply getKey_inj in Ek as ->; [|by apply in_range_u64|done].
    rewrite (Marshal_decode v data Em) in Hu. simplify_eq. split; [|done]. split; [lia|eauto].
Qed.

End Mirrors.

(** ** Reading a directory step by step *)

Section Reading.
Context `{EtcdLaws} {A} `{Pb A} {X : Type} (fn : A -> X -> outcome X) (here : reading Z -> loading) (after : loading).
Implicit Types (m : kv) (rd : reading Z).

(** The messages visited so far are the first of the directory, and those that are left are
    read from here on. *)
Record reading_ok (dir : bytes) m rd (done : list A) : Prop := {
  rd_start : is_u64 (start rd);
  rd_values : values dir m = done ++ decoded (dir_entries dir (start rd) m);
  rd_page : ∀ l full, unvisited rd = Some (l, full) -> ∃ rest, dir_entries dir (start rd) m = l ++ rest /\ (full = false -> rest = [])
}.

(** What is left to do of it. *)
Definition rd_left (dir : bytes) m rd : nat :=
  3 * length (dir_entries dir (start rd) m) + match unvisited rd with None => 1 | Some ([], true) => 2 | _ => 0 end.

Lemma from_ok dir m : reading_ok dir m (from 0) [].
Proof. split; [apply is_u64_0|done|done]. Qed.

(** Each step goes on: it ends the directory when all was visited, or turns the page, or
    visits the next message. *)
Lemma idStep_ok dir m c rd done x l' x' : kvs c = m -> reads c -> typed (A := A) dir m -> reading_ok dir m rd done ->
  idStep dir fn here after c rd x = Ret (l', x') ->
  (l' = after /\ x' = x /\ values dir m = done) \/
  ∃ rd', l' = here rd' /\ (rd_left dir m rd' < rd_left dir m rd)%nat /\
    (x' = x /\ reading_ok dir m rd' done \/ ∃ v, fn v x = Ret x' /\ v ∈ values dir m /\ reading_ok dir m rd' (done ++ [v])).
Proof.
  intros <- Hg Ht [Hs Hv Hp] Hr. destruct rd as [st un]. cbn [start unvisited] in *. unfold idStep, dirStep in Hr. cbn [start unvisited] in Hr.
  destruct un as [[l full]|].
  - destruct (Hp l full eq_refl) as (rest & El & Hend). destruct l as [|[k data] l].
    + injection Hr as <- <-. destruct full.
      * right. eexists. split; [done|]. split; [unfold rd_left; cbn; lia|]. left. split; [done|]. by split.
      * left. split_and!; [done..|]. rewrite Hv, El, Hend by done. by rewrite app_nil_r.
    + pose proof El as Enext. destruct (next_page dir (kvs c) st [] (k, data) (l ++ rest) Ht Hs El) as (v & Hd & Hn & Er). cbn in Hd. rewrite Hd in Hr.
      destruct (fn v x) as [x1| |] eqn:Ef; cbn in Hr; try done. injection Hr as <- <-. rewrite u64_small by done.
      right. eexists. split; [done|]. split.
      { unfold rd_left. cbn [start unvisited]. rewrite Er, El. rewrite <- app_comm_cons. cbn [length]. destruct l, full; lia. }
      right. exists v. split; [done|]. assert (Hvs : values dir (kvs c) = (done ++ [v]) ++ decoded (dir_entries dir (GetID v + 1) (kvs c))).
      { rewrite Hv, El, Er. cbn. unfold decoded. cbn. rewrite Hd. by rewrite <- app_assoc. }
      split; [rewrite Hvs; set_solver|]. split; cbn [start unvisited]; [done|done|]. intros l0 f0 [= <- <-]. by exists rest.
  - destruct (Hg (KRange (getKey dir st) (getKey dir endID)) limit) as [l Eg]. rewrite Eg in Hr. injection Hr as <- <-. right. eexists. split; [done|].
    apply Get_ok in Eg. unfold page in Eg. rewrite (proj2 (Z.leb_gt limit 0)) in Eg by (unfold limit; lia). fold (dir_entries dir st (kvs c)) in Eg.
    split; [unfold rd_left; cbn [start unvisited]; destruct l as [|e l]; [change (negb (len [] <? limit)) with false|]; cbv iota; lia|].
    left. split; [done|]. split; cbn [start unvisited]; [done|done|]. intros l0 f0 [= <- <-].
    exists (drop (Z.to_nat limit) (dir_entries dir st (kvs c))). split; [by rewrite Eg, take_drop|]. intros Hf%negb_false_iff%Z.ltb_lt.
    apply drop_ge. rewrite Eg in Hf. unfold len in Hf. rewrite length_take in Hf. unfold limit in *. lia.
Qed.

(** In any case it is a visit, or nothing, and the directory is left or not. *)
Lemma dirStep_cases {S B Y} (range : S -> keyset) decode next (f : B -> Y -> outcome Y) h a c (y : reading S) x l' x' :
  dirStep range decode next f h a c y x = Ret (l', x') ->
  (l' = a \/ ∃ y, l' = h y) /\ (x' = x \/ ∃ v, f v x = Ret x').
Proof.
  unfold dirStep. destruct (unvisited y) as [[[|[k data] l] full]|].
  - intros [= <- <-]. split; [destruct full; eauto|by left].
  - destruct (decode data) as [v|]; [|intros [= <- <-]; split; by left]. destruct (f v x) as [x1| |] eqn:Ef; cbn; try done.
    destruct (next v) as [s| |]; cbn; try done. intros [= <- <-]. split; right; [by eexists|by exists v].
  - destruct (Get _ _ _); intros [= <- <-]; (split; [|by left]); [right; by eexists|by left].
Qed.

End Reading.

(** ** What the loading gives *)

Section LoadMirror.
Context `{EtcdLaws} (prefix : bytes) {checks : Checks}
  `{!Pb Cluster, !Pb Server, !Pb API, !Pb Routing, !Pb Plugin, !Message AppliedPlugins, !Message Bind, !Message Proxy}
  {L : Type} `{!Balancers L} {env : Env} {node_sort : NodeSort} {sort : SortSlice} (EnableJSPlugin : bool).
Implicit Types (r : dispatcher L) (m : kv).

Local Abbreviation dirs := [clustersDir prefix; serversDir prefix; apisDir prefix; routingsDir prefix].

(** A well typed store in which no message has the id 0, which stands for none, nor the
    greatest, at which reading a directory ends. *)
Definition ids_used m : Prop := ∀ dir id, dir ∈ dirs -> ¬ in_range id -> is_u64 id -> m !! getKey dir id = None.
Definition usable m : Prop := store_ok prefix m /\ ids_used m.

(** The maps mirror the directories. *)
Definition core_mirrors m (κ : core) : Prop :=
  mirrors (clustersDir prefix) m (k_clusters κ) /\ mirrors (serversDir prefix) m (k_servers κ) /\
  mirrors (routingsDir prefix) m (k_routings κ).
Definition mirrored m r : Prop := core_mirrors m (core_of r).

Definition all_of {A} `{Pb A} (dir : bytes) m : gmap Z A := added (values dir m) ∅.

Lemma all_mirrors {A} `{Pb A} dir m : ids_used m -> dir ∈ dirs -> typed (A := A) dir m -> mirrors dir m (all_of (A := A) dir m).
Proof. intros Hu Hd Ht. apply added_mirrors; [done|]. apply Hu; [done|unfold in_range; lia|apply is_u64_0]. Qed.

(** The maps at each point of the loading: the directories that were read are there, and of
    the one that is being read the messages visited. *)
Definition load_ok m (l : loading) (κ : core) : Prop :=
  let cl := all_of (clustersDir prefix) m in
  let se := all_of (serversDir prefix) m in
  match l with
  | LoadProxies _ => κ = mkCore ∅ ∅ ∅
  | LoadClusters rd => ∃ done, reading_ok (clustersDir prefix) m rd done /\ κ = mkCore (added done ∅) ∅ ∅
  | LoadServers rd => ∃ done, reading_ok (serversDir prefix) m rd done /\ κ = mkCore cl (added done ∅) ∅
  | LoadBinds | LoadBindsOf _ | LoadBind _ _ _ => κ = mkCore cl se ∅
  | LoadAPIs rd => (∃ done : list API, reading_ok (apisDir prefix) m rd done) /\ κ = mkCore cl se ∅
  | LoadRoutings rd => ∃ done, reading_ok (routingsDir prefix) m rd done /\ κ = mkCore cl se (added done ∅)
  | _ => core_mirrors m κ
  end.

(** A visitor of messages, as an event. *)
Definition handles {A X} (fn : A -> dispatcher L -> outcome (X * dispatcher L)) (evt : A -> Dispatcher.Evt) (ok : A -> Prop) : Prop :=
  ∀ v r x r', ok v -> inv r -> fn v r = Ret (x, r') -> inv r' /\ core_of r' = core_evt (evt v) (core_of r).

Lemma handle_handles {A} (evt : A -> Dispatcher.Evt) o now : handles (λ v r, handle (evt v) o now r) evt (λ v, wf_evt (evt v)).
Proof. intros v r x r' Hv Hi Hh. by eapply handle_core. Qed.

Lemma visitor_inv {A X} (fn : A -> dispatcher L -> outcome (X * dispatcher L)) evt ok v r (p : pluginState) r' p' :
  handles fn evt ok -> ok v -> inv r -> visitor fn v (r, p) = Ret (r', p') -> inv r' /\ core_of r' = core_evt (evt v) (core_of r) /\ p' = p.
Proof.
  intros Hf Hv Hi Hr. unfold visitor in Hr. cbn in Hr. destruct (fn v r) as [[x r1]| |] eqn:E; cbn in Hr; try done.
  injection Hr as <- <-. destruct (Hf v r x r1 Hv Hi E). done.
Qed.

(** No message that is read has the id 0. *)
Lemma values_id {A} `{Pb A} dir m (v : A) : ids_used m -> dir ∈ dirs -> typed (A := A) dir m -> v ∈ values dir m -> GetID v <> 0.
Proof.
  intros Hu Hd Ht (Hr & data & _ & Hk)%elem_of_values E; [|done]. rewrite E in Hk.
  rewrite Hu in Hk; [done..|unfold in_range; lia|apply is_u64_0].
Qed.

Lemma added_snoc {A} `{Pb A} (l : list A) v sp : added (l ++ [v]) sp = crud_map EventTypeNew 0 (GetID v) v (added l sp).
Proof. unfold added. by rewrite fold_left_app. Qed.

(** A step in a directory that the maps have. *)
Lemma idStep_dispatcher {A X} `{Pb A} (fn : A -> dispatcher L -> outcome (X * dispatcher L)) evt dir here after c rd done r p l' r' p' :
  usable (kvs c) -> reads c -> dir ∈ dirs -> typed (A := A) dir (kvs c) -> handles fn evt (λ v, GetID v <> 0) -> inv r ->
  reading_ok dir (kvs c) rd done -> idStep dir (visitor fn) here after c rd (r, p) = Ret (l', (r', p')) ->
  inv r' /\
  ((l' = after /\ core_of r' = core_of r /\ values dir (kvs c) = done) \/
   ∃ rd', l' = here rd' /\ (rd_left dir (kvs c) rd' < rd_left dir (kvs c) rd)%nat /\
     (core_of r' = core_of r /\ reading_ok dir (kvs c) rd' done \/
      ∃ v, core_of r' = core_evt (evt v) (core_of r) /\ reading_ok dir (kvs c) rd' (done ++ [v]))).
Proof.
  intros [Hok Hu] Hg Hd Ht Hf Hi Hrd Hr.
  destruct (idStep_ok (visitor fn) here after dir (kvs c) c rd done (r, p) l' (r', p') eq_refl Hg Ht Hrd Hr)
    as [(-> & [= -> ->] & Hv)|(rd' & -> & Hlt & [([= -> ->] & Hrd')|(v & Hvis & Hin & Hrd')])].
  - split; [done|]. by left.
  - split; [done|]. right. exists rd'. split_and!; [done..|]. by left.
  - destruct (visitor_inv fn evt (λ v, GetID v <> 0) v r p r' p' Hf (values_id dir (kvs c) v Hu Hd Ht Hin) Hi Hvis) as (Hi' & Hc & _).
    split; [done|]. right. exists rd'. split_and!; [done..|]. right. by exists v.
Qed.

(** The other steps change no map. *)
Lemma core_quiet {A X} (fn : A -> dispatcher L -> outcome (X * dispatcher L)) evt v r p s : handles fn evt (λ _, True) ->
  (∀ v κ, core_evt (evt v) κ = κ) -> inv r -> visitor fn v (r, p) = Ret s -> inv s.1 /\ core_of s.1 = core_of r.
Proof.
  intros Hf He Hi Hr. destruct s as [r' p']. destruct (visitor_inv fn evt (λ _, True) v r p r' p' Hf I Hi Hr) as (Hi' & Hc & _).
  split; [done|]. cbn [fst]. by rewrite Hc, He.
Qed.

Ltac in_list := repeat first [apply list_elem_of_here|apply list_elem_of_further].

(** The cases of a step in a directory the maps have: it ends, turns a page or visits. *)
Ltac visited fn evt Hrd Hr o now :=
  let Hf := fresh in
  assert (Hf : handles fn evt (λ v, GetID v <> 0)) by (by apply (handle_handles evt o now));
  match type of Hrd with reading_ok ?dir (kvs ?c) _ _ => match goal with
    Hus : usable (kvs c), Hg : reads c, Ht : typed dir (kvs c), Hi : inv ?r |- _ =>
      destruct (idStep_dispatcher fn evt dir _ _ c _ _ _ _ _ _ _ Hus Hg ltac:(in_list) Ht Hf Hi Hrd Hr)
        as [Hi' [(-> & Hc' & Hv)|(rd' & -> & _ & [[Hc' Hrd']|(v & Hc' & Hrd')])]] end end;
  split; try done.

(** Every step of the loading brings the maps on. *)
Lemma loadStep_ok o ids now c l r p l' r' p' : usable (kvs c) -> reads c -> inv r -> load_ok (kvs c) l (core_of r) ->
  loadStep prefix EnableJSPlugin o ids now c l (r, p) = Ret (l', (r', p')) ->
  inv r' /\ load_ok (kvs c) l' (core_of r').
Proof.
  intros Hus Hg Hi Hl Hr. pose proof Hus as [Hok Hu]. destruct (store_typed prefix _ Hok) as (Tc & Ts & Ta & Tr & _).
  destruct l as [rd|rd|rd| |ks|cid sids ks|rd|rd|rd| |a|]; cbn [loadStep] in Hr.
  - apply dirStep_cases in Hr as [Hl' Hx].
    assert (Hs : inv r' /\ core_of r' = core_of r).
    { destruct Hx as [[= -> ->]|[v Hv]]; [done|].
      apply (core_quiet (λ v r, addProxy v (svrOrder o) (apiOrder o) now r) (λ v, EvtProxy EventTypeNew [] v)) in Hv; [done| |done|done].
      intros v0 r0 x r1 _. by apply (handle_handles (λ v, EvtProxy EventTypeNew [] v) o now). }
    destruct Hs as [Hi' ->]. split; [done|]. destruct Hl' as [->|[rd' ->]]; [|done]. exists []. split; [apply from_ok|done].
  - destruct Hl as (dn & Hrd & Hc).
    visited (λ v r, addCluster v r) (EvtCluster EventTypeNew 0) Hrd Hr o now; rewrite Hc', Hc.
    + exists []. split; [apply from_ok|]. unfold all_of. by rewrite Hv.
    + by exists dn.
    + exists (dn ++ [v]). split; [done|]. by rewrite added_snoc.
  - destruct Hl as (dn & Hrd & Hc).
    visited (λ v r, addServer v now r) (EvtServer EventTypeNew 0) Hrd Hr o now; rewrite Hc', Hc.
    + unfold load_ok, all_of. by rewrite Hv.
    + by exists dn.
    + exists (dn ++ [v]). split; [done|]. by rewrite added_snoc.
  - injection Hr as <- <- <-. done.
  - destruct ks as [|cid ks]; [injection Hr as <- <- <-; split; [done|]; split; [eexists; apply from_ok|done]|].
    destruct (GetBindServers prefix cid _) as [[[sids|er] e1]| |]; cbn in Hr; try done; injection Hr as <- <- <-; [done|].
    split; [done|]. split; [eexists; apply from_ok|done].
  - destruct sids as [|sid sids]; [by injection Hr as <- <- <-|].
    destruct (addBind (mkBind cid sid) r) as [[er r1]| |] eqn:E; cbn in Hr; try done. destruct er; [done|]. injection Hr as <- <- <-.
    destruct (handle_handles (λ b, EvtBind EventTypeNew b) o now (mkBind cid sid) r None r1 I Hi E) as [H1 Hc]. split; [done|].
    unfold load_ok in *. by rewrite Hc.
  - destruct Hl as [(dn & Hrd) Hc].
    visited (λ v r, addAPI v (apiOrder o) now r) (EvtAPI EventTypeNew 0) Hrd Hr o now; rewrite Hc', Hc.
    + exists []. split; [apply from_ok|done].
    + split; [by exists dn|done].
    + split; [by exists (dn ++ [v])|done].
  - destruct Hl as (dn & Hrd & Hc).
    visited (λ v r, addRouting v r) (EvtRouting EventTypeNew 0) Hrd Hr o now; rewrite Hc', Hc.
    + rewrite <- Hv. split_and!; (apply all_mirrors; [done|in_list|done]).
    + by exists dn.
    + exists (dn ++ [v]). split; [done|]. by rewrite added_snoc.
  - apply dirStep_cases in Hr as [Hl' Hx]. assert (r' = r) as ->.
    { destruct Hx as [[= -> ->]|[v Hv]]; [done|]. unfold pluginVisitor in Hv. cbn in Hv. destruct (addPlugin v p) as [[er p1]| |]; cbn in Hv; try done. by injection Hv as <- <-. }
    split; [done|]. by destruct Hl' as [->|[rd' ->]].
  - destruct (GetAppliedPlugins prefix _) as [[[a|er] e1]| |]; cbn in Hr; try done; by injection Hr as <- <- <-.
  - destruct (updateAppliedPlugin EnableJSPlugin a p) as [[er p1]| |]; cbn in Hr; try done. by injection Hr as <- <- <-.
  - by injection Hr as <- <- <-.
Qed.

(** ** Binds *)

(** The clusters that are left to bind are there, and the servers that are left are bound. *)
Definition binds_known m (l : loading) (κ : core) : Prop :=
  match l with
  | LoadBindsOf ids => ∀ c, c ∈ ids -> is_Some (k_clusters κ !! c)
  | LoadBind c sids ids => (∀ c, c ∈ ids -> is_Some (k_clusters κ !! c)) /\ is_Some (k_clusters κ !! c) /\ ∀ s, s ∈ sids -> s ∈ bound prefix c m
  | _ => True
  end.

(** The bind is still to come. *)
Definition bind_ahead (b : Bind) (l : loading) : Prop :=
  match l with
  | LoadProxies _ | LoadClusters _ | LoadServers _ | LoadBinds => True
  | LoadBindsOf ids => Bind_ClusterID b ∈ ids
  | LoadBind c sids ids => c = Bind_ClusterID b /\ Bind_ServerID b ∈ sids \/ Bind_ClusterID b ∈ ids
  | _ => False
  end.

Lemma core_clusters r : k_clusters (core_of r) = c_meta <$> clusters r.
Proof. done. Qed.
Lemma core_servers r : k_servers (core_of r) = svr_meta <$> servers_ r.
Proof. done. Qed.

Lemma is_Some_fmap {A B} (f : A -> B) (m : gmap Z A) k : is_Some ((f <$> m) !! k) <-> is_Some (m !! k).
Proof. rewrite lookup_fmap. apply fmap_is_Some. Qed.

Lemma elem_of_keys {A} (m : gmap Z A) k : k ∈ keys m <-> is_Some (m !! k).
Proof.
  unfold keys. rewrite list_elem_of_fmap. split; [intros ([k' v] & -> & Hv%elem_of_map_to_list); by exists v|].
  intros [v Hv]. exists (k, v). split; [done|by apply elem_of_map_to_list].
Qed.

Lemma bound_u64 c m s : store_ok prefix m -> s ∈ bound prefix c m -> is_u64 s.
Proof.
  intros Hok (b & -> & Hb)%list_elem_of_fmap. unfold bind_entries in Hb.
  apply list_elem_of_omap in Hb as ([k data] & [Hp Hk]%elem_of_entries & Hd). cbn in Hp, Hd. apply Hok in Hk as [].
  destruct ok_bind as (b' & _ & Hs & _ & Em).
  - apply HasPrefix_extends in Hp as [x ->]. unfold getClusterBindPrefix, getKey. rewrite <- !app_assoc, HasPrefix_app2. apply HasPrefix_app.
  - apply Marshal_decode' in Em. by simplify_eq.
Qed.

(** A server of the store is one of the dispatcher, once they are loaded. *)
Lemma loaded_server m r s : usable m -> core_of r = mkCore (all_of (clustersDir prefix) m) (all_of (serversDir prefix) m) ∅ -> is_u64 s ->
  is_Some (servers_ r !! s) <-> is_Some (m !! getKey (serversDir prefix) s).
Proof.
  intros [Hok Hu] Hc Hs. destruct (store_typed prefix m Hok) as (_ & Ts & _). rewrite <- (is_Some_fmap svr_meta), <- core_servers, Hc. cbn.
  pose proof (all_mirrors (A := Server) (serversDir prefix) m Hu ltac:(in_list) Ts) as Hm.
  destruct (decide (in_range s)) as [Hr|Hn].
  - rewrite <- !not_eq_None_Some. by rewrite (mirrors_None _ _ _ _ Ts Hm Hr).
  - rewrite (Hu (serversDir prefix) s ltac:(in_list) Hn Hs), Hm. destruct ((0 <? s) && (s <? endID)) eqn:E; [|by split; intros [? ?]].
    rewrite andb_true_iff, !Z.ltb_lt in E. by destruct Hn.
Qed.

Lemma loaded_cluster m r b data : usable m -> core_of r = mkCore (all_of (clustersDir prefix) m) (all_of (serversDir prefix) m) ∅ ->
  in_range (Bind_ClusterID b) -> m !! getKey (clustersDir prefix) (Bind_ClusterID b) = Some data -> is_Some (clusters r !! Bind_ClusterID b).
Proof.
  intros [Hok Hu] Hc Hr Hk. destruct (store_typed prefix m Hok) as (Tc & _). rewrite <- (is_Some_fmap c_meta), <- core_clusters, Hc. cbn.
  pose proof (all_mirrors (A := Cluster) (clustersDir prefix) m Hu ltac:(in_list) Tc) as Hm.
  rewrite <- not_eq_None_Some, (mirrors_None _ _ _ _ Tc Hm Hr). congruence.
Qed.

(** The next bind: it is added if its server is in the store, and otherwise ends the process. *)
Lemma next_bind o ids now c cid sid sids ks r p : usable (kvs c) -> load_ok (kvs c) (LoadBind cid (sid :: sids) ks) (core_of r) ->
  binds_known (kvs c) (LoadBind cid (sid :: sids) ks) (core_of r) ->
  match kvs c !! getKey (serversDir prefix) sid with
  | Some _ => ∃ r', addBind (mkBind cid sid) r = Ret (None, r') /\
      loadStep prefix EnableJSPlugin o ids now c (LoadBind cid (sid :: sids) ks) (r, p) = Ret (LoadBind cid sids ks, (r', p))
  | None => addBind (mkBind cid sid) r = Ret (Some errServerNotFound, r) /\
      loadStep prefix EnableJSPlugin o ids now c (LoadBind cid (sid :: sids) ks) (r, p) = Panic
  end.
Proof.
  intros Hus Hc (_ & [cl Hcl] & Hb). pose proof Hus as [Hok _]. cbn [load_ok] in Hc.
  assert (Hsid : is_u64 sid) by (eapply bound_u64; [done|apply Hb; by left]).
  pose proof (loaded_server (kvs c) r sid Hus Hc Hsid) as Hs. rewrite core_clusters, lookup_fmap in Hcl.
  destruct (kvs c !! getKey (serversDir prefix) sid) as [data|].
  - destruct (proj2 Hs ltac:(by eexists)) as [s Es]. cbn [loadStep]. unfold addBind. cbn [Bind_ServerID Bind_ClusterID]. rewrite Es.
    destruct (clusters r !! cid); [|done]. by eexists.
  - cbn [loadStep]. unfold addBind. cbn [Bind_ServerID]. destruct (servers_ r !! sid) eqn:Es; [|done].
    by destruct (proj1 Hs ltac:(by eexists)).
Qed.

(** While a bind is left whose server is gone, the loading does not come by it. *)
Lemma bind_blocks o ids now c l r p l' r' p' b data cluster : usable (kvs c) -> reads c -> inv r -> ids ≡ₚ keys (clusters r) ->
  load_ok (kvs c) l (core_of r) -> binds_known (kvs c) l (core_of r) -> bind_ahead b l ->
  in_range (Bind_ClusterID b) -> kvs c !! getKey (clustersDir prefix) (Bind_ClusterID b) = Some cluster ->
  Marshal b = Some data -> kvs c !! getBindKey prefix b = Some data -> kvs c !! getKey (serversDir prefix) (Bind_ServerID b) = None ->
  loadStep prefix EnableJSPlugin o ids now c l (r, p) = Ret (l', (r', p')) ->
  binds_known (kvs c) l' (core_of r') /\ bind_ahead b l'.
Proof.
  intros Hus Hg Hi Ho Hl Hk Ha Hrc Hkc Em Hkb Hns Hr. pose proof (loadStep_ok o ids now c l r p l' r' p' Hus Hg Hi Hl Hr) as [_ Hl']. pose proof Hus as [Hok _].
  destruct l as [rd|rd|rd| |ks|cid sids ks|rd|rd|rd| |a|]; try done; cbn [loadStep] in Hr.
  - apply dirStep_cases in Hr as [[->|[rd' ->]] _]; done.
  - apply dirStep_cases in Hr as [[->|[rd' ->]] _]; done.
  - apply dirStep_cases in Hr as [[->|[rd' ->]] _]; done.
  - injection Hr as <- <- <-. split.
    + intros c' Hc'. rewrite Ho, elem_of_keys in Hc'. rewrite core_clusters. by apply is_Some_fmap.
    + cbn. rewrite Ho, elem_of_keys. by eapply loaded_cluster.
  - destruct ks as [|cid ks]; [by apply elem_of_nil in Ha|]. rewrite (GetBindServers_run prefix cid (mkStore 0 0 c) Hok Hg) in Hr. injection Hr as <- <- <-.
    cbn in Hk. split; [split_and!; [intros; apply Hk; by right|apply Hk; by left|done]|].
    cbn in Ha. apply elem_of_cons in Ha as [<-|Ha]; [left; split; [done|by eapply bound_elem]|by right].
  - destruct sids as [|sid sids].
    + injection Hr as <- <- <-. destruct Ha as [[_ ?%elem_of_nil]|Ha]; [done|]. split; [exact (proj1 Hk)|done].
    + pose proof (next_bind o ids now c cid sid sids ks r p Hus Hl Hk) as Hn. cbn [loadStep] in Hn.
      destruct (kvs c !! getKey (serversDir prefix) sid) as [d|] eqn:Es; [|destruct Hn as [_ Hn]; rewrite Hn in Hr; discriminate Hr].
      destruct Hn as (r1 & _ & Hn). rewrite Hn in Hr. injection Hr as <- <- <-. cbn [load_ok] in Hl, Hl'.
      destruct Hk as (H1 & H2 & H3). split; [split_and!; rewrite ?Hl', <- ?Hl; [done|done|intros; apply H3; by right]|].
      destruct Ha as [[-> Ha]|Ha]; [|by right]. left. split; [done|]. apply elem_of_cons in Ha as [<-|Ha]; [congruence|done].
Qed.

(** ** The loading gets to the binds and through them *)

(** The steps that are left, at most, from the clusters to the end of the binds. *)
Definition load_left m (l : loading) : nat :=
  let per := (size m + 3)%nat in
  let binds := (size m * per + 3)%nat in
  match l with
  | LoadClusters rd => rd_left (clustersDir prefix) m rd + (3 * length (dir_entries (serversDir prefix) 0 m) + 3) + binds
  | LoadServers rd => rd_left (serversDir prefix) m rd + binds + 1
  | LoadBinds => binds
  | LoadBindsOf ids => length ids * per + 1
  | LoadBind _ sids ids => length sids + length ids * per + 2
  | _ => 0
  end.

Definition before_apis (l : loading) : Prop :=
  match l with LoadClusters _ | LoadServers _ | LoadBinds | LoadBindsOf _ | LoadBind _ _ _ => True | _ => False end.

Lemma bind_not_hang {A B} (x : outcome A) (f : A -> outcome B) : x <> Hang -> (∀ a, f a <> Hang) -> (x ≫= f) <> Hang.
Proof. intros Hx Hf. destruct x; cbn; [apply Hf|done|done]. Qed.

Lemma newServerRuntime_not_hang meta qps now : newServerRuntime meta qps now <> Hang.
Proof.
  unfold newServerRuntime. apply bind_not_hang; [|done]. unfold newRateLimiter. apply bind_not_hang; [unfold div64; by destruct (_ =? _)|].
  intros fill. apply bind_not_hang; [|done]. unfold NewBucket, NewBucketWithClock, NewBucketWithQuantumAndClock. by repeat destruct (_ <=? _).
Qed.

Lemma copyList_not_hang {A} (clone : A -> outcome A) exclude l : (∀ v, clone v <> Hang) -> copyList clone exclude l <> Hang.
Proof.
  intros Hc. induction l as [|[k v] l IH]; [done|]. cbn. fold (copyList clone exclude l). apply bind_not_hang; [done|].
  intros vs. destruct (k =? exclude); [done|]. by apply bind_not_hang.
Qed.

Lemma addCluster_not_hang v r : addCluster v r <> Hang.
Proof.
  unfold addCluster. destruct (clusters r !! _); [done|]. apply bind_not_hang; [|done].
  by apply (copyList_not_hang (λ c, Ret (clusterRuntime_clone c)) 0 (map_to_list (clusters r))).
Qed.

Lemma addServer_not_hang v now r : addServer v now r <> Hang.
Proof.
  unfold addServer. destruct (servers_ r !! _); [done|]. apply bind_not_hang.
  - apply (copyList_not_hang (λ s, serverRuntime_clone s now) 0 (map_to_list (servers_ r))). intros s. apply newServerRuntime_not_hang.
  - intros m. apply bind_not_hang; [apply newServerRuntime_not_hang|done].
Qed.

Lemma idStep_not_hang {A X} `{Pb A} dir (fn : A -> X -> outcome X) here after (c : etcd) rd x : (∀ v x, fn v x <> Hang) -> idStep dir fn here after c rd x <> Hang.
Proof.
  intros Hf. unfold idStep, dirStep. destruct (unvisited rd) as [[[|[k data] l] full]|]; [done| |by destruct (Get _ _ _)].
  destruct (Unmarshal A data); [|done]. apply bind_not_hang; [done|]. intros y. by apply bind_not_hang.
Qed.

Lemma visitor_not_hang {A X} (fn : A -> dispatcher L -> outcome (X * dispatcher L)) v s : (∀ v r, fn v r <> Hang) -> visitor fn v s <> Hang.
Proof. intros Hf. unfold visitor. by apply bind_not_hang. Qed.

Lemma all_of_size {A} `{Pb A} dir m : typed (A := A) dir m -> (size (all_of (A := A) dir m) <= size m)%nat.
Proof.
  intros Ht. assert (Hl : ∀ l (sp : gmap Z A), (size (added l sp) <= size sp + length l)%nat).
  { induction l as [|v l IH]; intros sp; cbn [added fold_left length]; [lia|]. fold (added l (crud_map EventTypeNew 0 (GetID v) v sp)).
    etransitivity; [apply IH|]. cbn. destruct (sp !! GetID v) eqn:E; [lia|]. rewrite map_size_insert_None by done. lia. }
  unfold all_of. etransitivity; [apply Hl|]. rewrite map_size_empty. unfold values.
  rewrite length_decoded by (apply (typed_decodes dir m 0 Ht is_u64_0)). apply length_entries.
Qed.

Lemma bound_length c m : (length (bound prefix c m) <= size m)%nat.
Proof.
  unfold bound. rewrite length_fmap. unfold bind_entries. etransitivity; [|apply (length_entries (KPrefix (getClusterBindPrefix prefix c)))].
  induction (entries _ m) as [|x l IH]; [done|]. cbn. destruct (Unmarshal Bind x.2); cbn; lia.
Qed.

(** From the clusters on a step is made, or ends the process, and each one is nearer to the
    end of the binds. *)
Lemma load_progress o ids now c l r p : usable (kvs c) -> reads c -> inv r -> ids ≡ₚ keys (clusters r) ->
  load_ok (kvs c) l (core_of r) -> before_apis l ->
  loadStep prefix EnableJSPlugin o ids now c l (r, p) <> Hang /\
  ∀ l' s', loadStep prefix EnableJSPlugin o ids now c l (r, p) = Ret (l', s') -> (load_left (kvs c) l' < load_left (kvs c) l)%nat.
Proof.
  intros Hus Hg Hi Ho Hl Hb. pose proof Hus as [Hok Hu]. destruct (store_typed prefix _ Hok) as (Tc & Ts & _).
  destruct l as [rd|rd|rd| |ks|cid sids ks|rd|rd|rd| |a|]; try done; cbn [loadStep].
  - destruct Hl as (dn & Hrd & _). split; [apply idStep_not_hang; intros; apply visitor_not_hang; intros; apply addCluster_not_hang|].
    intros l' s' Hr. destruct (idStep_ok _ _ _ (clustersDir prefix) (kvs c) c rd dn (r, p) l' s' eq_refl Hg Tc Hrd Hr) as [(-> & _)|(rd' & -> & Hlt & _)].
    + cbn [load_left]. unfold rd_left at 1, from. cbn [start unvisited]. lia.
    + cbn [load_left]. lia.
  - destruct Hl as (dn & Hrd & _). split; [apply idStep_not_hang; intros; apply visitor_not_hang; intros; apply addServer_not_hang|].
    intros l' s' Hr. destruct (idStep_ok _ _ _ (serversDir prefix) (kvs c) c rd dn (r, p) l' s' eq_refl Hg Ts Hrd Hr) as [(-> & _)|(rd' & -> & Hlt & _)];
      cbn [load_left]; lia.
  - split; [done|]. intros l' s' [= <- _]. cbn [load_left].
    assert (Hlen : (length ids <= size (kvs c))%nat).
    { rewrite Ho. unfold keys. rewrite length_fmap, length_map_to_list. cbn [load_ok] in Hl.
      rewrite <- (map_size_fmap c_meta (clusters r)), <- core_clusters, Hl. cbn. by apply all_of_size. }
    pose proof (Nat.mul_le_mono_r _ _ (size (kvs c) + 3) Hlen). lia.
  - destruct ks as [|cid ks]; [split; [done|]; intros l' s' [= <- _]; cbn; lia|].
    rewrite (GetBindServers_run prefix cid (mkStore 0 0 c) Hok Hg). split; [done|]. intros l' s' [= <- _]. cbn [load_left rawClient length].
    pose proof (bound_length cid (kvs c)). lia.
  - destruct sids as [|sid sids]; [split; [done|]; intros l' s' [= <- _]; cbn [load_left length]; lia|]. split.
    + unfold addBind. cbn [Bind_ServerID Bind_ClusterID]. by destruct (servers_ r !! sid), (clusters r !! cid).
    + intros l' s' Hr. destruct (addBind _ r) as [[[er|] r1]| |]; cbn in Hr; try done. injection Hr as <- _. cbn [load_left length]. lia.
Qed.

End LoadMirror.

(** ** A server removed and its binds left *)

Section Removal.
Context `{EtcdLaws} (prefix : bytes)
  `{!Pb Cluster, !Pb Server, !Pb API, !Pb Routing, !Pb Plugin, !Message AppliedPlugins, !Message Bind, !Message Proxy}.
Implicit Types (e : EtcdStore).


Definition all_dirs : list bytes :=
  [clustersDir prefix; serversDir prefix; bindsDir prefix; apisDir prefix; proxiesDir prefix; routingsDir prefix; pluginsDir prefix].

(** A key is below one directory only. *)
Lemma dir_unique k d1 d2 : d1 ∈ all_dirs -> d2 ∈ all_dirs -> HasPrefix k (d1 ++ str "/") = true -> HasPrefix k (d2 ++ str "/") = true -> d1 = d2.
Proof.
  intros H1 H2 [x ->]%HasPrefix_extends Hp. unfold all_dirs in *.
  repeat (apply elem_of_cons in H1 as [->|H1]); [..|by apply elem_of_nil in H1];
  repeat (apply elem_of_cons in H2 as [->|H2]); try done; try (by apply elem_of_nil in H2);
    exfalso; revert Hp; unfold clustersDir, serversDir, bindsDir, apisDir, proxiesDir, routingsDir, pluginsDir; rewrite <- !app_assoc, HasPrefix_app2; done.
Qed.

Lemma getKey_below dir id : HasPrefix (getKey dir id) (dir ++ str "/") = true.
Proof. unfold getKey. rewrite app_assoc. apply HasPrefix_app. Qed.

Lemma getBindKey_below b : HasPrefix (getBindKey prefix b) (bindsDir prefix ++ str "/") = true.
Proof. unfold getBindKey, getClusterBindPrefix, getKey. rewrite <- !app_assoc, HasPrefix_app2. apply HasPrefix_app. Qed.

Lemma kvs_removed k0 k e e' : delete_ (KOne k0) e = Ret (Ok (), e') ->
  kvs (rawClient e') !! k = if bytes_eqb k k0 then None else kvs (rawClient e) !! k.
Proof.
  intros (b & e1 & Hc & Hr)%bind_ok_inv. injection Hr as <-. apply commit_ok_inv in Hc as (-> & _ & _ & -> & _).
  exact (lookup_deleted (KOne k0) (kvs (rawClient e)) k).
Qed.

Lemma kvs_removed_ne k0 k e e' : delete_ (KOne k0) e = Ret (Ok (), e') -> k <> k0 -> kvs (rawClient e') !! k = kvs (rawClient e) !! k.
Proof. intros Hd Hne. rewrite (kvs_removed _ _ _ _ Hd). unfold bytes_eqb. by rewrite bool_decide_eq_false_2. Qed.

Lemma kvs_removed_one k0 e e' : delete_ (KOne k0) e = Ret (Ok (), e') -> kvs (rawClient e') !! k0 = None.
Proof. intros Hd. rewrite (kvs_removed _ _ _ _ Hd). unfold bytes_eqb. by rewrite bool_decide_eq_true_2. Qed.

Lemma usable_removed k0 e e' : delete_ (KOne k0) e = Ret (Ok (), e') -> usable prefix (kvs (rawClient e)) -> usable prefix (kvs (rawClient e')).
Proof.
  intros Hd [Hok Hu]. split.
  - intros k data Hk. destruct (decide (k = k0)) as [->|Hne]; [by rewrite (kvs_removed_one _ _ _ Hd) in Hk|].
    rewrite (kvs_removed_ne _ _ _ _ Hd Hne) in Hk. by apply Hok.
  - intros dir id Hdir Hr Hid. destruct (decide (getKey dir id = k0)) as [<-|Hne]; [by apply (kvs_removed_one _ _ _ Hd)|].
    rewrite (kvs_removed_ne _ _ _ _ Hd Hne). by apply Hu.
Qed.

End Removal.
