(* ===== verification/StoreWatch.v ===== *)
(** Model of the watch of the store [src/src/store/store_watch.go]: a change of a key in etcd
    becomes an event with a source, a type and a decoded message, and the dispatcher
    ([proxy/dispatcher_event.go]) takes it as one of its events.  The watch is opened at the
    revision etcd is at then; it can close, and is opened again at the revision of that moment. *)
From S2P Require Import Prelude Meta JsonEscape Format RouteTable Matching Expr RateLimit Lbs Counters Runtime Dispatcher Validation Etcd Store Plugins Events.
Import EtcdStore.

Inductive EvtSrc :=
| EventSrcCluster | EventSrcServer | EventSrcBind | EventSrcAPI | EventSrcRouting | EventSrcProxy | EventSrcPlugin
| EventSrcApplyPlugin.

Inductive EvtValue :=
| ValueCluster (v : Cluster) | ValueServer (v : Server) | ValueBind (v : Bind) | ValueAPI (v : API)
| ValueRouting (v : Routing) | ValueProxy (v : Proxy) | ValuePlugin (v : Plugin) | ValueApplied (v : AppliedPlugins).

Record Evt := mkEvt { Src : EvtSrc; Type_ : EvtType; Key : bytes; Value : EvtValue }.

(** The zero messages, of an event without a value. *)
Definition zeroCluster : Cluster := mkCluster 0 [] RoundRobin.
Definition zeroServer : Server := mkServer 0 [] 0 None None 0 Wait HTTP.
Definition zeroAPI : API :=
  mkAPI 0 [] [] [] [] Down None None [] false MatchDefault 0 None Wait None None
    [] [] 0 [] false None.
Definition zeroRouting : Routing := mkRouting 0 0 [] Meta.Copy 0 Down 0 [].
Definition zeroProxy : Proxy := mkProxy [] [].
Definition zeroPlugin : Plugin := mkPlugin 0 [] [] [] Down 0 0 0 [] [].
Definition zeroApplied : AppliedPlugins := mkAppliedPlugins 0 [].

(** [strings.Replace(s, old, "", 1)] of a text that is not empty. *)
Fixpoint remove_first (s old : bytes) : bytes :=
  if HasPrefix s old then drop (length old) s
  else match s with [] => [] | c :: s => c :: remove_first s old end.

(** [strings.SplitN(s, sep, 2)] at a byte. *)
Fixpoint splitN2 (s : bytes) (sep : Z) : list bytes :=
  match s with
  | [] => [[]]
  | c :: t =>
      if c =? sep then [[]; t]
      else match splitN2 t sep with x :: l => (c :: x) :: l | [] => [] end
  end.

(** [infos[i]]. *)
Definition info {A} (infos : list A) (i : nat) : outcome A := match infos !! i with Some x => Ret x | None => Panic end.

Section Watch.
Context (prefix : bytes)
  `{!Message Cluster, !Message Server, !Message API, !Message Routing, !Message Plugin, !Message AppliedPlugins, !Message Proxy}.

(** [protoc.MustUnmarshal] ends the process on a text that does not decode. *)
Definition MustUnmarshal {A} `{!Message A} (zero : A) (data : bytes) : outcome A :=
  if 0 <? len data then must (Unmarshal A data) else Ret zero.

Definition doWatchWithCluster (evtType : EvtType) (key data : bytes) : outcome Evt :=
  value ← MustUnmarshal zeroCluster data;
  Ret (mkEvt EventSrcCluster evtType (remove_first key (clustersDir prefix ++ str "/")) (ValueCluster value)).
Definition doWatchWithServer (evtType : EvtType) (key data : bytes) : outcome Evt :=
  value ← MustUnmarshal zeroServer data;
  Ret (mkEvt EventSrcServer evtType (remove_first key (serversDir prefix ++ str "/")) (ValueServer value)).
Definition doWatchWithBind (evtType : EvtType) (key data : bytes) : outcome Evt :=
  let infos := splitN2 (remove_first key (bindsDir prefix ++ str "/")) (ch "/") in
  c ← info infos 0; clusterID ← MustParseStrUInt64 c;
  s ← info infos 1; serverID ← MustParseStrUInt64 s;
  Ret (mkEvt EventSrcBind evtType key (ValueBind (mkBind clusterID serverID))).
Definition doWatchWithAPI (evtType : EvtType) (key data : bytes) : outcome Evt :=
  value ← MustUnmarshal zeroAPI data;
  Ret (mkEvt EventSrcAPI evtType (remove_first key (apisDir prefix ++ str "/")) (ValueAPI value)).
Definition doWatchWithRouting (evtType : EvtType) (key data : bytes) : outcome Evt :=
  value ← MustUnmarshal zeroRouting data;
  Ret (mkEvt EventSrcRouting evtType (remove_first key (routingsDir prefix ++ str "/")) (ValueRouting value)).
Definition doWatchWithProxy (evtType : EvtType) (key data : bytes) : outcome Evt :=
  value ← MustUnmarshal zeroProxy data;
  Ret (mkEvt EventSrcProxy evtType (remove_first key (proxiesDir prefix ++ str "/")) (ValueProxy value)).
Definition doWatchWithPlugin (evtType : EvtType) (key data : bytes) : outcome Evt :=
  value ← MustUnmarshal zeroPlugin data;
  Ret (mkEvt EventSrcPlugin evtType (remove_first key (pluginsDir prefix ++ str "/")) (ValuePlugin value)).
Definition doWatchWithApplyPlugin (evtType : EvtType) (key data : bytes) : outcome Evt :=
  value ← MustUnmarshal zeroApplied data;
  Ret (mkEvt EventSrcApplyPlugin evtType [] (ValueApplied value)).

(** A change of a key: its event, or none for a key of no directory. *)
Definition doWatch_key (evtType : EvtType) (key data : bytes) : outcome (option Evt) :=
  if HasPrefix key (clustersDir prefix) then Some <$> doWatchWithCluster evtType key data
  else if HasPrefix key (serversDir prefix) then Some <$> doWatchWithServer evtType key data
  else if HasPrefix key (bindsDir prefix) then Some <$> doWatchWithBind evtType key data
  else if HasPrefix key (apisDir prefix) then Some <$> doWatchWithAPI evtType key data
  else if HasPrefix key (routingsDir prefix) then Some <$> doWatchWithRouting evtType key data
  else if HasPrefix key (proxiesDir prefix) then Some <$> doWatchWithProxy evtType key data
  else if HasPrefix key (pluginsDir prefix) then Some <$> doWatchWithPlugin evtType key data
  else if HasPrefix key (appliedPluginDir prefix) then Some <$> doWatchWithApplyPlugin evtType key data
  else Ret None.

(** A turn of the inner loop of [doWatch]; only keys of the prefix are watched. *)
Definition doWatch_event (ev : event) : outcome (option Evt) :=
  match ev with
  | PUT key data create =>
      if HasPrefix key prefix then doWatch_key (if create then EventTypeNew else EventTypeUpdate) key data else Ret None
  | DELETE key => if HasPrefix key prefix then doWatch_key EventTypeDelete key [] else Ret None
  end.

(** The goroutine of [doWatch]: before a watch is opened, first or again; reading the changes
    from one of the history on, until its channel closes; or over, when the watch is canceled
    or the client is closed. *)
Inductive watching := NotWatching | WatchingFrom (n : nat) | WatchOver.

(** A step of it, with the event it sends.  Between the closing of a channel and the next
    watch the changes are not told. *)
Inductive doWatch `{Etcd} (c : etcd) : watching -> option Evt -> watching -> Prop :=
| watch_opened : doWatch c NotWatching None (WatchingFrom (length (history c)))
| watch_event n ev x : history c !! n = Some ev -> doWatch_event ev = Ret x -> doWatch c (WatchingFrom n) x (WatchingFrom (S n))
| watch_closed n : doWatch c (WatchingFrom n) None NotWatching
| watch_over w : doWatch c w None WatchOver.

(** ** The dispatcher *)

(** A deleted message is known by the id in its key. *)
Definition evtKey (evt : Evt) : outcome Z :=
  match Type_ evt with EventTypeDelete => MustParseStrUInt64 (Key evt) | _ => Ret 0 end.

(** The message of an event as the handlers take it from the event. *)
Definition evtOf (evt : Evt) : outcome (Dispatcher.Evt + pluginEvt) :=
  match Value evt with
  | ValueCluster v => key ← evtKey evt; Ret (inl (EvtCluster (Type_ evt) key v))
  | ValueServer v => key ← evtKey evt; Ret (inl (EvtServer (Type_ evt) key v))
  | ValueBind v => Ret (inl (EvtBind (Type_ evt) v))
  | ValueAPI v => key ← evtKey evt; Ret (inl (EvtAPI (Type_ evt) key v))
  | ValueRouting v => key ← evtKey evt; Ret (inl (EvtRouting (Type_ evt) key v))
  | ValueProxy v => Ret (inl (EvtProxy (Type_ evt) (Key evt) v))
  | ValuePlugin v => key ← evtKey evt; Ret (inr (EvtPlugin (Type_ evt) key v))
  | ValueApplied v => Ret (inr (EvtApplied (Type_ evt) v))
  end.

(** One turn of [readyToReceiveWatchEvent] with an event of the store. *)
Definition readyToReceiveWatchEvent {checks : Checks} {L : Type} `{!Balancers L} {env : Env} {node_sort : NodeSort} {sort : SortSlice}
    (EnableJSPlugin : bool) (evt : Evt) (o : orders) (now : Z) (s : dispatcher L * pluginState)
    : outcome (option (Dispatcher.error + pluginError) * (dispatcher L * pluginState)) :=
  evt ← evtOf evt; handleEvent EnableJSPlugin evt o now s.

(** What a change is for the dispatcher. *)
Definition received (ev : event) : outcome (option (Dispatcher.Evt + pluginEvt)) :=
  evt ← doWatch_event ev;
  match evt with Some evt => Some <$> evtOf evt | None => Ret None end.

End Watch.
