(* ===== verification/Follow.v ===== *)
(** A gateway that follows the store: it loads the directories and beside that watches etcd,
    whose changes it is told one at a time and as late as it likes, while health checks, timers
    and requests go on.  When no change falls into the loading or a gap of the watch, its
    clusters, servers and routings are those of the store as it was after the last change it
    handled. *)
From S2P Require Import Prelude Meta JsonEscape Format RouteTable Matching Expr RateLimit Lbs Counters Runtime Dispatcher Validation Etcd Store Plugins Events DispatcherInv DispatcherSpec DispatcherRefine StorePages StoreLogic StoreSpec StoreReads Load Mirror StoreWatch Codec.
Import EtcdStore.

(** ** Texts *)

Lemma remove_first_prefix p x : remove_first (p ++ x) p = x.
Proof.
  assert (E : ∀ s old, remove_first s old = if HasPrefix s old then drop (length old) s
    else match s with [] => [] | c :: s => c :: remove_first s old end) by (by intros []).
  by rewrite E, HasPrefix_app, drop_app_length.
Qed.

Lemma splitN2_at a b sep : Forall (λ c, c <> sep) a -> splitN2 (a ++ sep :: b) sep = [a; b].
Proof.
  induction 1 as [|c a Hc _ IH]; cbn; [by rewrite Z.eqb_refl|]. rewrite (proj2 (Z.eqb_neq c sep)) by done. by rewrite IH.
Qed.

Lemma digits_not_slash n v : Forall (λ c, c <> ch "/") (digits n v).
Proof. eapply Forall_impl; [apply digits_digit|]. intros c Hc. unfold digit in Hc. chars. lia. Qed.

Lemma ParseKey id : is_u64 id -> MustParseStrUInt64 (digits 20 id) = Ret id.
Proof. intros Hid. unfold MustParseStrUInt64. rewrite ParseUint_digits; [done|by apply u64_lt_20_digits|apply Hid]. Qed.

Ltac in_dirs := repeat first [apply list_elem_of_here|apply list_elem_of_further].

Section Received.
Context (prefix : bytes)
  `{!Pb Cluster, !Pb Server, !Pb API, !Pb Routing, !Pb Plugin, !Message AppliedPlugins, !Message Bind, !Message Proxy}.

Lemma remove_dir dir id : is_u64 id -> remove_first (getKey dir id) (dir ++ str "/") = digits 20 id.
Proof. intros Hid. rewrite getKey_digits by done. apply remove_first_prefix. Qed.

Lemma MustUnmarshal_ok {A} `{Pb A} (v zero : A) data : GetID v <> 0 -> Marshal v = Some data -> MustUnmarshal zero data = Ret v.
Proof.
  intros Hid Em. unfold MustUnmarshal. destruct (Z.ltb_spec 0 (len data)) as [_|Hl].
  - by rewrite (Marshal_decode v data Em).
  - assert (data = []) as -> by (apply len_zero; pose proof (len_nonneg data); lia). by destruct (Marshal_nonempty v Hid).
Qed.

(** Which handler a key is for. *)
Ltac prefixed := unfold getBindKey, getClusterBindPrefix, getAddrKey, getKey, clustersDir, serversDir, bindsDir, apisDir,
  proxiesDir, routingsDir, pluginsDir, appliedPluginDir, idPath; rewrite <- ?app_assoc, ?HasPrefix_app2; first [reflexivity|apply HasPrefix_app].
Ltac chain := unfold doWatch_key;
  repeat match goal with |- context [if HasPrefix ?k ?d then _ else _] =>
    let E := fresh in first [assert (E : HasPrefix k d = true) by prefixed|assert (E : HasPrefix k d = false) by prefixed];
    rewrite E; clear E; cbv iota end; reflexivity.

Lemma key_cluster t id data : doWatch_key prefix t (getKey (clustersDir prefix) id) data =
  Some <$> doWatchWithCluster prefix t (getKey (clustersDir prefix) id) data.
Proof. chain. Qed.
Lemma key_server t id data : doWatch_key prefix t (getKey (serversDir prefix) id) data =
  Some <$> doWatchWithServer prefix t (getKey (serversDir prefix) id) data.
Proof. chain. Qed.
Lemma key_bind t b data : doWatch_key prefix t (getBindKey prefix b) data = Some <$> doWatchWithBind prefix t (getBindKey prefix b) data.
Proof. chain. Qed.
Lemma key_api t id data : doWatch_key prefix t (getKey (apisDir prefix) id) data =
  Some <$> doWatchWithAPI prefix t (getKey (apisDir prefix) id) data.
Proof. chain. Qed.
Lemma key_routing t id data : doWatch_key prefix t (getKey (routingsDir prefix) id) data =
  Some <$> doWatchWithRouting prefix t (getKey (routingsDir prefix) id) data.
Proof. chain. Qed.
Lemma key_proxy t addr data : doWatch_key prefix t (getAddrKey (proxiesDir prefix) addr) data =
  Some <$> doWatchWithProxy prefix t (getAddrKey (proxiesDir prefix) addr) data.
Proof. chain. Qed.
Lemma key_plugin t id data : doWatch_key prefix t (getKey (pluginsDir prefix) id) data =
  Some <$> doWatchWithPlugin prefix t (getKey (pluginsDir prefix) id) data.
Proof. chain. Qed.
Lemma key_applied t data : doWatch_key prefix t (appliedPluginDir prefix) data = Some <$> doWatchWithApplyPlugin t (appliedPluginDir prefix) data.
Proof. chain. Qed.
Lemma key_id t data : doWatch_key prefix t (idPath prefix) data = Ret None.
Proof. chain. Qed.

(** *** What a change is for the maps *)

Definition core_after (x : option (Dispatcher.Evt + pluginEvt)) (k : core) : core :=
  match x with Some (inl evt) => core_evt evt k | _ => k end.

Definition change_ok (x : option (Dispatcher.Evt + pluginEvt)) : Prop :=
  match x with Some (inl evt) => wf_evt evt /\ ∀ v, evt <> EvtStatusChanged v | _ => True end.

(** A key with an id of a message. *)
Definition ranged (k : bytes) : Prop :=
  ∀ dir id, dir ∈ [clustersDir prefix; serversDir prefix; apisDir prefix; routingsDir prefix; pluginsDir prefix] ->
    ¬ in_range id -> is_u64 id -> k <> getKey dir id.

Definition shaped (m : kv) : Prop := ∀ k data, m !! k = Some data -> shape prefix k data /\ ranged k.

Lemma shaped_typed m : shaped m -> store_ok prefix m.
Proof. intros Hs k data Hk. by apply shape_entry, Hs. Qed.

Lemma ranged_in dir id : dir ∈ [clustersDir prefix; serversDir prefix; apisDir prefix; routingsDir prefix; pluginsDir prefix] ->
  is_u64 id -> ranged (getKey dir id) -> in_range id.
Proof.
  intros Hd Hid Hr. destruct (decide (0 < id < endID)) as [?|Hn]; [done|]. by destruct (Hr dir id Hd Hn Hid).
Qed.

Lemma frame_put {A} `{Pb A} dir m k data (sp : gmap Z A) : HasPrefix k (dir ++ str "/") = false -> mirrors dir m sp -> mirrors dir (<[k := data]> m) sp.
Proof.
  intros Hk. apply mirrors_other. intros id _. rewrite lookup_insert_ne; [done|]. intros ->. by rewrite getKey_below in Hk.
Qed.

Lemma frame_delete {A} `{Pb A} dir m k (sp : gmap Z A) : HasPrefix k (dir ++ str "/") = false -> mirrors dir m sp -> mirrors dir (delete k m) sp.
Proof.
  intros Hk. apply mirrors_other. intros id _. rewrite lookup_delete_ne; [done|]. intros ->. by rewrite getKey_below in Hk.
Qed.


Ltac frames := repeat apply conj; first [done|apply frame_put; [prefixed|done]|apply frame_delete; [prefixed|done]].

Lemma watched t k data : HasPrefix k prefix = true -> (if HasPrefix k prefix then doWatch_key prefix t k data else Ret None) = doWatch_key prefix t k data.
Proof. by intros ->. Qed.

(** *** What the dispatcher is told *)

Local Abbreviation kind create := (if (create : bool) then EventTypeNew else EventTypeUpdate).

Ltac told key handler := unfold received, doWatch_event; rewrite watched by prefixed; rewrite key; unfold handler.

(** The id in the key of a deleted message. *)
Lemma deleted_key {A} (zero : A) src id (value : A -> EvtValue) (told : Z -> A -> Dispatcher.Evt + pluginEvt) `{!Message A} : is_u64 id ->
  (∀ v, evtOf (mkEvt src EventTypeDelete (digits 20 id) (value v)) =
    (key ← evtKey (mkEvt src EventTypeDelete (digits 20 id) (value v)); Ret (told key v))) ->
  (evt ← Some <$> (v ← MustUnmarshal zero []; Ret (mkEvt src EventTypeDelete (digits 20 id) (value v)));
   match evt with Some evt => Some <$> evtOf evt | None => Ret None end) = Ret (Some (told id zero)).
Proof.
  intros Hid Hr. change (MustUnmarshal zero []) with (Ret zero). cbn [mbind outcome_mbind fmap outcome_fmap].
  rewrite Hr. unfold evtKey. cbn [Type_ Key]. by rewrite ParseKey.
Qed.

Lemma received_cluster (v : Cluster) data c : GetID v <> 0 -> Marshal v = Some data ->
  received prefix (PUT (getKey (clustersDir prefix) (GetID v)) data c) = Ret (Some (inl (EvtCluster (kind c) 0 v))).
Proof. intros Hid Em. told key_cluster doWatchWithCluster. rewrite (MustUnmarshal_ok v _ data) by done. by destruct c. Qed.
Lemma deleted_cluster id : is_u64 id -> received prefix (DELETE (getKey (clustersDir prefix) id)) = Ret (Some (inl (EvtCluster EventTypeDelete id zeroCluster))).
Proof.
  intros Hid. told key_cluster doWatchWithCluster. rewrite remove_dir by done. by apply (deleted_key _ _ _ ValueCluster (λ id v, inl (EvtCluster EventTypeDelete id v))).
Qed.
Lemma received_server (v : Server) data c : GetID v <> 0 -> Marshal v = Some data ->
  received prefix (PUT (getKey (serversDir prefix) (GetID v)) data c) = Ret (Some (inl (EvtServer (kind c) 0 v))).
Proof. intros Hid Em. told key_server doWatchWithServer. rewrite (MustUnmarshal_ok v _ data) by done. by destruct c. Qed.
Lemma deleted_server id : is_u64 id -> received prefix (DELETE (getKey (serversDir prefix) id)) = Ret (Some (inl (EvtServer EventTypeDelete id zeroServer))).
Proof.
  intros Hid. told key_server doWatchWithServer. rewrite remove_dir by done. by apply (deleted_key _ _ _ ValueServer (λ id v, inl (EvtServer EventTypeDelete id v))).
Qed.
Lemma received_api (v : API) data c : GetID v <> 0 -> Marshal v = Some data ->
  received prefix (PUT (getKey (apisDir prefix) (GetID v)) data c) = Ret (Some (inl (EvtAPI (kind c) 0 v))).
Proof. intros Hid Em. told key_api doWatchWithAPI. rewrite (MustUnmarshal_ok v _ data) by done. by destruct c. Qed.
Lemma deleted_api id : is_u64 id -> received prefix (DELETE (getKey (apisDir prefix) id)) = Ret (Some (inl (EvtAPI EventTypeDelete id zeroAPI))).
Proof.
  intros Hid. told key_api doWatchWithAPI. rewrite remove_dir by done. by apply (deleted_key _ _ _ ValueAPI (λ id v, inl (EvtAPI EventTypeDelete id v))).
Qed.
Lemma received_routing (v : Routing) data c : GetID v <> 0 -> Marshal v = Some data ->
  received prefix (PUT (getKey (routingsDir prefix) (GetID v)) data c) = Ret (Some (inl (EvtRouting (kind c) 0 v))).
Proof. intros Hid Em. told key_routing doWatchWithRouting. rewrite (MustUnmarshal_ok v _ data) by done. by destruct c. Qed.
Lemma deleted_routing id : is_u64 id -> received prefix (DELETE (getKey (routingsDir prefix) id)) = Ret (Some (inl (EvtRouting EventTypeDelete id zeroRouting))).
Proof.
  intros Hid. told key_routing doWatchWithRouting. rewrite remove_dir by done. by apply (deleted_key _ _ _ ValueRouting (λ id v, inl (EvtRouting EventTypeDelete id v))).
Qed.
Lemma received_plugin (v : Plugin) data c : GetID v <> 0 -> Marshal v = Some data ->
  received prefix (PUT (getKey (pluginsDir prefix) (GetID v)) data c) = Ret (Some (inr (EvtPlugin (kind c) 0 v))).
Proof. intros Hid Em. told key_plugin doWatchWithPlugin. rewrite (MustUnmarshal_ok v _ data) by done. by destruct c. Qed.
Lemma deleted_plugin id : is_u64 id -> received prefix (DELETE (getKey (pluginsDir prefix) id)) = Ret (Some (inr (EvtPlugin EventTypeDelete id zeroPlugin))).
Proof.
  intros Hid. told key_plugin doWatchWithPlugin. rewrite remove_dir by done. by apply (deleted_key _ _ _ ValuePlugin (λ id v, inr (EvtPlugin EventTypeDelete id v))).
Qed.

Lemma received_bind b t data : is_u64 (Bind_ClusterID b) -> is_u64 (Bind_ServerID b) ->
  (evt ← doWatch_key prefix t (getBindKey prefix b) data;
   match evt with Some evt => Some <$> evtOf evt | None => Ret None end) = Ret (Some (inl (EvtBind t b))).
Proof.
  intros Hc Hs. rewrite key_bind. unfold doWatchWithBind, getBindKey, getClusterBindPrefix.
  assert (E : remove_first (getKey (getKey (bindsDir prefix) (Bind_ClusterID b)) (Bind_ServerID b)) (bindsDir prefix ++ str "/") =
    digits 20 (Bind_ClusterID b) ++ ch "/" :: digits 20 (Bind_ServerID b)).
  { rewrite !getKey_digits by done. rewrite <- !app_assoc. rewrite (app_assoc (bindsDir prefix)), remove_first_prefix. done. }
  rewrite E, splitN2_at by apply digits_not_slash. unfold info. cbn [lookup list_lookup mbind outcome_mbind].
  rewrite !ParseKey by done. cbn -[digits]. by destruct b.
Qed.

Lemma MustUnmarshal_some {A} `{!Message A} (v zero : A) data : Marshal v = Some data -> returns (MustUnmarshal zero data).
Proof. intros Em. unfold MustUnmarshal. destruct (0 <? len data); [|by eexists]. rewrite (Marshal_decode' v data Em). by eexists. Qed.

Lemma received_proxy t addr data : returns (MustUnmarshal zeroProxy data) -> ∃ v key,
  (evt ← doWatch_key prefix t (getAddrKey (proxiesDir prefix) addr) data;
   match evt with Some evt => Some <$> evtOf evt | None => Ret None end) = Ret (Some (inl (EvtProxy t key v))).
Proof. intros [v Hv]. rewrite key_proxy. unfold doWatchWithProxy. rewrite Hv. cbn. by do 2 eexists. Qed.

Lemma received_applied t data : returns (MustUnmarshal zeroApplied data) -> ∃ v,
  (evt ← doWatch_key prefix t (appliedPluginDir prefix) data;
   match evt with Some evt => Some <$> evtOf evt | None => Ret None end) = Ret (Some (inr (EvtApplied t v))).
Proof. intros [v Hv]. rewrite key_applied. unfold doWatchWithApplyPlugin. rewrite Hv. cbn. by eexists. Qed.

(** *** Changes keep the mirror *)

Lemma put_mirrors m k data κ : shaped m -> core_mirrors prefix m κ -> shape prefix k data -> ranged k ->
  ∃ x, received prefix (PUT k data (bool_decide (m !! k = None))) = Ret x /\ change_ok x /\ core_mirrors prefix (<[k := data]> m) (core_after x κ).
Proof.
  intros Hs (Mc & Ms & Mr) Hk Hr. apply shaped_typed, store_typed in Hs as (Tc & Ts & _ & Tr & _).
  destruct Hk as [v data Hid Em|v data Hid Em|v data Hid Em|v data Hid Em|v data Hid Em|b data H1 H2 Em|p data Em|a data Em|n Hn];
    try (apply ranged_in in Hr; [|solve [in_dirs]|done]; assert (GetID v <> 0) by (unfold in_range in Hr; lia)).
  - eexists. split; [by apply received_cluster|]. split; [by case_bool_decide|]. split; [exact (mirrors_put _ _ _ v data Tc Mc Hr Em)|frames].
  - eexists. split; [by apply received_server|]. split; [by case_bool_decide|]. split; [frames|split; [exact (mirrors_put _ _ _ v data Ts Ms Hr Em)|frames]].
  - eexists. split; [by apply received_api|]. split; [by case_bool_decide|frames].
  - eexists. split; [by apply received_routing|]. split; [by case_bool_decide|]. split; [frames|split; [frames|exact (mirrors_put _ _ _ v data Tr Mr Hr Em)]].
  - eexists. split; [by apply received_plugin|]. split; [done|frames].
  - eexists. split; [unfold received, doWatch_event; rewrite watched by prefixed; by apply received_bind|]. split; [done|frames].
  - destruct (received_proxy (kind (bool_decide (m !! getAddrKey (proxiesDir prefix) (Proxy_Addr p) = None))) (Proxy_Addr p) data) as (v & key & Hp).
    { by apply (MustUnmarshal_some p). }
    eexists. split; [unfold received, doWatch_event; rewrite watched by prefixed; exact Hp|]. split; [done|frames].
  - destruct (received_applied (kind (bool_decide (m !! appliedPluginDir prefix = None))) data) as (v & Hp).
    { by apply (MustUnmarshal_some a). }
    eexists. split; [unfold received, doWatch_event; rewrite watched by prefixed; exact Hp|]. split; [done|frames].
  - exists None. split; [unfold received, doWatch_event; rewrite watched by prefixed; by rewrite key_id|]. split; [done|frames].
Qed.

Lemma delete_mirrors m k data κ : shaped m -> core_mirrors prefix m κ -> m !! k = Some data ->
  ∃ x, received prefix (DELETE k) = Ret x /\ change_ok x /\ core_mirrors prefix (delete k m) (core_after x κ).
Proof.
  intros Hs (Mc & Ms & Mr) Hk. apply Hs in Hk as [Hk Hr].
  destruct Hk as [v data Hid Em|v data Hid Em|v data Hid Em|v data Hid Em|v data Hid Em|b data H1 H2 Em|p data Em|a data Em|n Hn];
    try (apply ranged_in in Hr; [|solve [in_dirs]|done]).
  - eexists. split; [by apply deleted_cluster|]. split; [done|]. split; [exact (mirrors_delete _ _ _ _ zeroCluster Mc Hr)|frames].
  - eexists. split; [by apply deleted_server|]. split; [done|]. split; [frames|split; [exact (mirrors_delete _ _ _ _ zeroServer Ms Hr)|frames]].
  - eexists. split; [by apply deleted_api|]. split; [done|frames].
  - eexists. split; [by apply deleted_routing|]. split; [done|]. split; [frames|split; [frames|exact (mirrors_delete _ _ _ _ zeroRouting Mr Hr)]].
  - eexists. split; [by apply deleted_plugin|]. split; [done|frames].
  - eexists. split; [unfold received, doWatch_event; rewrite watched by prefixed; by apply received_bind|]. split; [done|frames].
  - destruct (received_proxy EventTypeDelete (Proxy_Addr p) []) as (v & key & Hp); [by eexists|].
    eexists. split; [unfold received, doWatch_event; rewrite watched by prefixed; exact Hp|]. split; [done|frames].
  - destruct (received_applied EventTypeDelete []) as (v & Hp); [by eexists|].
    eexists. split; [unfold received, doWatch_event; rewrite watched by prefixed; exact Hp|]. split; [done|frames].
  - exists None. split; [unfold received, doWatch_event; rewrite watched by prefixed; by rewrite key_id|]. split; [done|frames].
Qed.

End Received.

(** ** What goes on between the changes

    Health checks, their results, timers and requests change no message. *)
Section Internal.
Context {L : Type} `{!Balancers L} {env : Env} {node_sort : NodeSort} {sort : SortSlice}.
Implicit Types (r : dispatcher L).

Definition same_core r r' : Prop := core_of r' = core_of r.

Lemma same_core_trans r1 r2 r3 : same_core r1 r2 -> same_core r2 r3 -> same_core r1 r3.
Proof. unfold same_core. congruence. Qed.

Lemma scheduleCheck_core limit id s s0 r : servers_ r !! id = Some s0 -> svr_meta s = svr_meta s0 -> same_core r (scheduleCheck limit id s r).
Proof.
  intros Hs Hm. unfold same_core, core_of, core_spec. unfold scheduleCheck.
  destruct (Server_HeathCheck (svr_meta s)); cbn; f_equal; rewrite fmap_insert; cbn; apply insert_id; by rewrite lookup_fmap, Hs, Hm.
Qed.

Lemma check_core id resp limit order r ev r' : Dispatcher.check id resp limit order r = Ret (ev, r') -> same_core r r'.
Proof.
  unfold Dispatcher.check. destruct (servers_ r !! id) as [s|] eqn:Es; [|by intros [= _ <-]].
  destruct (Server_HeathCheck (svr_meta s)) as [hc|] eqn:Eh.
  - intros Hr. bind_inv Hr. destruct a as [ok s']. injection Hr as _ <-.
    apply doCheck_spec with (hc := hc) in E as [_ E]; [|done]. by apply (scheduleCheck_core _ _ _ s).
  - intros [= _ <-]. by apply (scheduleCheck_core _ _ _ s).
Qed.

Lemma select_core ctx id r res r' : selectServerFromCluster ctx id r = Ret (res, r') -> same_core r r'.
Proof.
  unfold selectServerFromCluster. destruct (clusters r !! id) as [c|] eqn:Ec; [|by intros [= _ <-]].
  destruct (binds_ r !! id); [|by intros [= _ <-]]. intros Hr. unfold selectServer in Hr. bind_inv Hr. destruct a as [sid lb].
  bind_inv E. destruct a. injection E as <- <-. injection Hr as _ <-.
  unfold same_core, core_of, core_spec. cbn. f_equal. rewrite fmap_insert. cbn. apply insert_id. by rewrite lookup_fmap, Ec.
Qed.

Lemma routing_matches_meta rt id req mt rt' : routingRuntime_matches rt id req = Ret (mt, rt') -> r_meta rt' = r_meta rt.
Proof.
  unfold routingRuntime_matches. intros E. destruct (_ && _); [by injection E as _ <-|].
  bind_inv E. destruct a; cbn in E; [|by injection E as _ <-]. bind_inv E. destruct a. by injection E as _ <-.
Qed.

Lemma adjust_core order apiID ctx req dn : ∀ r dn' r', adjustByRouting order apiID ctx req dn r = Ret (dn', r') -> same_core r r'.
Proof.
  induction order as [|k order IH]; intros r dn' r' Hr; cbn in Hr; [by injection Hr as _ <-|].
  destruct (routings r !! k) as [rt|] eqn:Ek; [|by eapply IH].
  destruct (routingRuntime_isUp rt); cbn [negb] in Hr; [|by eapply IH].
  bind_inv Hr. destruct a as [mt rt']. apply routing_matches_meta in E.
  assert (H1 : same_core r (set_routings (<[k := rt']> (routings r)) r)).
  { unfold same_core, core_of, core_spec. cbn. f_equal. rewrite fmap_insert, E. apply insert_id. by rewrite lookup_fmap, Ek. }
  destruct mt; cbn [negb] in Hr; [|exact (same_core_trans _ _ _ H1 (IH _ _ _ Hr))].
  bind_inv Hr. destruct a as [svr r2]. injection Hr as _ <-. exact (same_core_trans _ _ _ H1 (select_core _ _ _ _ _ E0)).
Qed.

Lemma dispatchNodes_core order apiID ctx req nodes : ∀ idx r dns r', dispatchNodes order apiID ctx req idx nodes r = Ret (dns, r') -> same_core r r'.
Proof.
  induction nodes as [|n nodes IH]; intros idx r dns r' Hr; cbn in Hr; [by injection Hr as _ <-|].
  unfold dispatcher_selectServer in Hr. bind_inv Hr. destruct a as [dn r1]. bind_inv E. destruct a as [d r2].
  bind_inv Hr. destruct a as [rest r3]. injection Hr as _ <-.
  eapply same_core_trans; [by eapply select_core|]. eapply same_core_trans; [by eapply adjust_core|by eapply IH].
Qed.

Lemma dispatch_core order ctx req r res r' : dispatch order ctx req r = Ret (res, r') -> same_core r r'.
Proof.
  unfold dispatch. intros Hr. bind_inv Hr. destruct a as [[api|] ps]; [|by injection Hr as _ <-].
  destruct (API_UseDefault _); [by injection Hr as _ <-|]. bind_inv Hr. destruct a as [dns r1]. injection Hr as _ <-.
  by eapply dispatchNodes_core.
Qed.

(** The steps of a gateway that are not changes of the store. *)
Inductive internal : system (L := L) -> system (L := L) -> Prop :=
| internal_status v o now r p1 p2 e r' :
    orders_ok o r -> handle (EvtStatusChanged v) o now r = Ret (e, r') ->
    internal (mkSystem r (p1 ++ v :: p2)) (mkSystem r' (p1 ++ p2))
| internal_check id q resp limit order r p ev r' :
    checkerC r = id :: q -> order ≡ₚ keys (binds_ r) ->
    Dispatcher.check id resp limit order (set_checkerC q r) = Ret (ev, r') ->
    internal (mkSystem r p) (mkSystem r' (p ++ option_list ev))
| internal_timer h id r p : timers_ r !! h = Some id -> internal (mkSystem r p) (mkSystem (heathCheckTimeout h id r) p)
| internal_request order ctx req r p res r' :
    order ≡ₚ keys (routings r) -> dispatch order ctx req r = Ret (res, r') -> internal (mkSystem r p) (mkSystem r' p).

Lemma internal_step s s' : internal s s' -> step s s'.
Proof. destruct 1; by econstructor. Qed.

Lemma internal_core s s' : internal s s' -> inv (disp s) -> inv (disp s') /\ same_core (disp s) (disp s').
Proof.
  intros Hs Hi. split; [by eapply step_inv; [apply internal_step|]|].
  destruct Hs as [v o now r p1 p2 e r' Ho Hh|id q resp limit order r p ev r' _ _ Hc|h id r p _|order ctx req r p res r' _ Hd]; cbn in *.
  - by destruct (handle_core (EvtStatusChanged v) o now r e r' I Hi Hh) as [_ Hc].
  - by apply check_core in Hc.
  - unfold heathCheckTimeout. cbn. by destruct (servers_ r !! id).
  - by eapply dispatch_core.
Qed.

End Internal.

(** ** The history *)

(** The changes [es] lead from [m] to [m']; a put tells whether the key is new. *)
Fixpoint replays (m : kv) (es : list event) (m' : kv) : Prop :=
  match es with
  | [] => m = m'
  | PUT k v create :: es => create = bool_decide (m !! k = None) /\ replays (<[k := v]> m) es m'
  | DELETE k :: es => is_Some (m !! k) /\ replays (delete k m) es m'
  end.

Lemma replays_app es1 es2 : ∀ m m' m'', replays m es1 m' -> replays m' es2 m'' -> replays m (es1 ++ es2) m''.
Proof.
  induction es1 as [|[k v c|k] es1 IH]; intros m m' m''; cbn; [by intros ->|intros [? ?] ?; split; eauto..].
Qed.

Definition deleted (l : list (bytes * bytes)) (m : kv) : kv := fold_left (λ m e, delete e.1 m) l m.

Lemma lookup_deletes l : ∀ (m : kv) k, deleted l m !! k = if bool_decide (k ∈ l.*1) then None else m !! k.
Proof.
  induction l as [|[k' v] l IH]; intros m k; [done|]. cbn. rewrite IH. destruct (decide (k ∈ l.*1)).
  - rewrite !bool_decide_true; [done|by right|done].
  - rewrite (bool_decide_false (k ∈ l.*1)) by done. destruct (decide (k' = k)) as [->|Hne].
    + rewrite lookup_delete_eq, bool_decide_true; [done|by left].
    + rewrite lookup_delete_ne, bool_decide_false; [done| |done]. by intros [?|?]%elem_of_cons.
Qed.

Lemma replays_deletes l : ∀ m : kv, NoDup l.*1 -> (∀ k v, (k, v) ∈ l -> m !! k = Some v) ->
  replays m (map (λ e, DELETE e.1) l) (deleted l m).
Proof.
  induction l as [|[k v] l IH]; intros m Hnd Hl; [done|]. cbn in Hnd. apply NoDup_cons in Hnd as [Hk Hnd]. cbn. split.
  - rewrite (Hl k v) by (by left). done.
  - apply IH; [done|]. intros k' v' Hin. rewrite lookup_delete_ne; [apply Hl; by right|]. intros <-. apply Hk.
    by apply (list_elem_of_fmap_2 fst _ (k, v')).
Qed.

Lemma entries_NoDup ks m : NoDup (entries ks m).*1.
Proof.
  pose proof (ascending_entries ks m) as Ha. induction Ha as [|[k v] l Ha IH Hk]; [constructor|]. cbn. constructor; [|done].
  intros ([k' v'] & E & Hin)%list_elem_of_fmap. rewrite Forall_forall in Hk. specialize (Hk _ Hin). cbn in *. subst. by rewrite key_lt_irrefl in Hk.
Qed.

Lemma apply_op_replays o m : replays m (apply_op o m).2 (apply_op o m).1.
Proof.
  destruct o as [k v l|ks]; [done|]. assert (E : (apply_op (OpDelete ks) m).1 = deleted (entries ks m) m).
  { apply map_eq. intros k. rewrite lookup_deleted, lookup_deletes. destruct (m !! k) as [v|] eqn:Ek.
    - assert (Hin : k ∈ (entries ks m).*1 <-> in_keys ks k = true).
      { rewrite list_elem_of_fmap. split; [intros ([k' v'] & -> & Hin); by apply elem_of_entries in Hin as []|].
        intros Hk. exists (k, v). split; [done|by apply elem_of_entries]. }
      destruct (in_keys ks k); [by rewrite bool_decide_true by (by apply Hin)|]. rewrite bool_decide_false; [done|].
      intros ?%Hin. done.
    - by destruct (in_keys ks k), (bool_decide _). }
  rewrite E. apply replays_deletes; [apply entries_NoDup|]. intros k v Hin. by apply elem_of_entries in Hin as [].
Qed.

Lemma apply_ops_replays ops : ∀ m, replays m (apply_ops ops m).2 (apply_ops ops m).1.
Proof.
  induction ops as [|o ops IH]; intros m; [done|]. cbn. pose proof (apply_op_replays o m) as Ho. destruct (apply_op o m) as [m1 es1].
  pose proof (IH m1) as Hi. destruct (apply_ops ops m1) as [m2 es2]. by eapply replays_app.
Qed.

Lemma replays_fun es : ∀ m m1 m2, replays m es m1 -> replays m es m2 -> m1 = m2.
Proof. induction es as [|[k v c|k] es IH]; intros m m1 m2; cbn; [by intros <- <-|intros [_ H1] [_ H2]; by eapply IH..]. Qed.

(** ** A gateway and the store *)
Section Follow.
Context `{EtcdLaws} (prefix : bytes) {checks : Checks}
  `{!Pb Cluster, !Pb Server, !Pb API, !Pb Routing, !Pb Plugin, !Message AppliedPlugins, !Message Bind, !Message Proxy}
  {L : Type} `{!Balancers L} {env : Env} {node_sort : NodeSort} {sort : SortSlice} (EnableJSPlugin : bool).

(** etcd; how far the loading is; the goroutine of the watch, with the event it has at hand
    for the dispatcher, since the channel has no buffer; the dispatcher with the status
    messages on their way, and its plugins. *)
Record gateway := mkGateway {
  g_store : etcd;
  g_load : loading;
  g_watch : watching;
  g_hand : option StoreWatch.Evt;
  g_system : system (L := L);
  g_plugins : pluginState
}.
Implicit Types (g : gateway) (c : etcd).

(** [load] begins, with the watch in a goroutine of its own. *)
Definition started c p : gateway := mkGateway c load NotWatching None (mkSystem newDispatcher []) p.

Definition op_ranged (o : Op) : Prop := match o with OpPut k _ _ => ranged prefix k | OpDelete _ => True end.

(** A transaction on etcd: of this gateway or another, or the expiry of a lease. *)
Definition txn c c' : Prop := ∃ ops, Forall (op_ok prefix) ops /\ Forall op_ranged ops /\
  (kvs c', history c') = let '(m, es) := apply_ops ops (kvs c) in (m, history c ++ es).

(** The store changes, the loading goes on, the watch goes on, an event of the watch is
    handled, and health checks, statuses, timers and requests go on. *)
Inductive follow : gateway -> gateway -> Prop :=
| follow_store c c' l w h s p : txn c c' -> follow (mkGateway c l w h s p) (mkGateway c' l w h s p)
| follow_load c l w h r q p o ids now l' r' p' : orders_ok o r -> ids ≡ₚ keys (clusters r) ->
    loadStep prefix EnableJSPlugin o ids now c l (r, p) = Ret (l', (r', p')) ->
    follow (mkGateway c l w h (mkSystem r q) p) (mkGateway c l' w h (mkSystem r' q) p')
| follow_watch c l w x w' s p : doWatch prefix c w x w' -> follow (mkGateway c l w None s p) (mkGateway c l w' x s p)
| follow_event c l w evt r q p o now e r' p' : orders_ok o r ->
    readyToReceiveWatchEvent EnableJSPlugin evt o now (r, p) = Ret (e, (r', p')) ->
    follow (mkGateway c l w (Some evt) (mkSystem r q) p) (mkGateway c l w None (mkSystem r' q) p')
| follow_internal c l w h s s' p : internal s s' -> follow (mkGateway c l w h s p) (mkGateway c l w h s' p).

(** How many of the changes the watch has taken: all there are, when none is open. *)
Definition taken g : nat := match g_watch g with WatchingFrom n => n | _ => length (history (g_store g)) end.

(** A step that lets no change be missed: the store changes only when the loading is over and
    the watch is open; the watch closes only when it has taken every change; and while the
    loading goes on no request fails. *)
Record calm g g' : Prop := {
  calm_follow : follow g g';
  calm_store : history (g_store g') = history (g_store g) \/ g_load g = Loaded /\ ∃ n, g_watch g = WatchingFrom n;
  calm_watch : ∀ n, g_watch g = WatchingFrom n -> (∃ n', g_watch g' = WatchingFrom n') \/ n = length (history (g_store g));
  calm_reads : g_load g = Loaded \/ reads (g_store g)
}.

Definition ev_ok (ev : event) : Prop := match ev with PUT k data _ => shape prefix k data /\ ranged prefix k | DELETE _ => True end.

Lemma apply_ops_events ops : Forall (op_ok prefix) ops -> Forall op_ranged ops -> ∀ m, Forall ev_ok (apply_ops ops m).2.
Proof.
  induction 1 as [|o ops Ho _ IH]; intros Hr m; [constructor|]. apply Forall_cons in Hr as [Hr1 Hr]. cbn.
  destruct (apply_op o m) as [m1 es1] eqn:E. pose proof (IH Hr m1) as Hi. destruct (apply_ops ops m1) as [m2 es2]. cbn.
  apply Forall_app. split; [|done]. destruct o as [k v l|ks]; injection E as <- <-; [by constructor|].
  apply Forall_forall. by intros ev (x & -> & _)%list_elem_of_fmap.
Qed.

Lemma shaped_put m k data : shaped prefix m -> shape prefix k data -> ranged prefix k -> shaped prefix (<[k := data]> m).
Proof.
  intros Hs Hk Hr k' d. destruct (decide (k = k')) as [<-|]; [rewrite lookup_insert_eq; by intros [= <-]|].
  rewrite lookup_insert_ne by done. apply Hs.
Qed.

Lemma shaped_delete m k : shaped prefix m -> shaped prefix (delete k m).
Proof. intros Hs k' d [_ Hk]%lookup_delete_Some. by apply Hs. Qed.

Lemma shaped_usable m : shaped prefix m -> usable prefix m.
Proof.
  intros Hs. split; [by apply shaped_typed|]. intros dir id Hd Hr Hid. destruct (m !! getKey dir id) as [data|] eqn:Ek; [|done].
  apply Hs in Ek as [_ Ek]. destruct (Ek dir id); [|done..]. by apply (elem_of_app [clustersDir prefix; serversDir prefix; apisDir prefix; routingsDir prefix] [pluginsDir prefix]); left.
Qed.

(** The next change of the history, and the map after it. *)
Definition changed (ev : event) (m : kv) : kv := match ev with PUT k v _ => <[k := v]> m | DELETE k => delete k m end.

Lemma next_change m ev es m' κ : shaped prefix m -> core_mirrors prefix m κ -> Forall ev_ok (ev :: es) -> replays m (ev :: es) m' ->
  ∃ x, received prefix ev = Ret x /\ change_ok x /\ core_mirrors prefix (changed ev m) (core_after x κ) /\
    shaped prefix (changed ev m) /\ Forall ev_ok es /\ replays (changed ev m) es m' /\ replays m [ev] (changed ev m).
Proof.
  intros Hs Hm [Hev He]%Forall_cons Hr. destruct ev as [k v c|k]; cbn in Hr.
  - destruct Hr as [-> Hr]. destruct Hev as [H1 H2]. destruct (put_mirrors prefix m k v _ Hs Hm H1 H2) as (x & ? & ? & ?).
    exists x. split_and!; try done. by apply shaped_put.
  - destruct Hr as [[v Hk] Hr]. destruct (delete_mirrors prefix m k v _ Hs Hm Hk) as (x & ? & ? & ?).
    exists x. split_and!; try done; first [by apply shaped_delete|by exists v].
Qed.

(** *** The invariant of calm steps *)

(** [m] is the store after its first [k] changes; the dispatcher mirrors it, or the part of it
    that is loaded; the watch is there, or has the next change at hand. *)
Record follow_inv c0 m (k : nat) g : Prop := {
  fi_shaped : shaped prefix m;
  fi_seen : (length (history c0) <= k <= length (history (g_store g)))%nat;
  fi_past : replays (kvs c0) (firstn (k - length (history c0)) (drop (length (history c0)) (history (g_store g)))) m;
  fi_events : Forall ev_ok (drop k (history (g_store g)));
  fi_future : replays m (drop k (history (g_store g))) (kvs (g_store g));
  fi_hand : match g_hand g with
            | None => k = taken g
            | Some evt => S k = taken g /\ ∃ ev, history (g_store g) !! k = Some ev /\ doWatch_event prefix ev = Ret (Some evt)
            end;
  fi_load : load_ok prefix m (g_load g) (core_of (disp (g_system g)));
  fi_quiet : g_load g = Loaded \/ k = length (history c0) /\ length (history (g_store g)) = length (history c0);
  fi_inv : inv (disp (g_system g))
}.

Lemma started_inv c p : shaped prefix (kvs c) -> follow_inv c (kvs c) (length (history c)) (started c p).
Proof. intros Hs. split; cbn; rewrite ?drop_all, ?Nat.sub_diag, ?take_0; try done; first [by right|apply inv_init]. Qed.

(** While the loading goes on the store is what it was. *)
Lemma quiet_store c0 m k g : follow_inv c0 m k g -> g_load g <> Loaded ->
  m = kvs c0 /\ kvs (g_store g) = kvs c0 /\ g_hand g = None /\ taken g = length (history (g_store g)).
Proof.
  intros [_ _ Hp _ Hf Hh _ Hq _] Hl. destruct Hq as [?|[-> Hq]]; [done|]. rewrite Nat.sub_diag, take_0 in Hp. cbn in Hp. subst m.
  rewrite drop_ge in Hf by lia. cbn in Hf. split_and!; [done..| |].
  - destruct (g_hand g) as [evt|]; [|done]. destruct Hh as (_ & ev & Hev & _). apply lookup_lt_Some in Hev. lia.
  - destruct (g_hand g) as [evt|]; [|lia]. destruct Hh as (_ & ev & Hev & _). apply lookup_lt_Some in Hev. lia.
Qed.

Lemma take_snoc {A} (l : list A) n k x : (n <= k)%nat -> l !! k = Some x -> firstn (S k - n) (drop n l) = firstn (k - n) (drop n l) ++ [x].
Proof.
  intros Hn Hx. replace (S k - n)%nat with (S (k - n)) by lia. apply take_S_r. rewrite lookup_drop. by replace (n + (k - n))%nat with k by lia.
Qed.

(** The mirror after the next change, whatever becomes of the rest of the gateway. *)
Lemma follow_next c0 m k g ev x l' w' s' p' : follow_inv c0 m k g -> history (g_store g) !! k = Some ev -> received prefix ev = Ret x ->
  l' = g_load g -> taken (mkGateway (g_store g) l' w' None s' p') = S k -> inv (disp s') ->
  core_of (disp s') = core_after x (core_of (disp (g_system g))) ->
  follow_inv c0 (changed ev m) (S k) (mkGateway (g_store g) l' w' None s' p').
Proof.
  intros [Hs Hn Hp He Hf _ Hl Hq _] Hev Hx -> Ht Hi Hc. pose proof (lookup_lt_Some _ _ _ Hev) as Hlt.
  assert (Hld : g_load g = Loaded) by (destruct Hq as [?|[-> Hq]]; [done|lia]). rewrite Hld in Hl.
  rewrite (drop_S _ _ _ Hev) in He, Hf.
  destruct (next_change m ev _ _ _ Hs Hl He Hf) as (y & Hy & _ & Hm & Hs' & He' & Hf' & Hone). rewrite Hx in Hy. injection Hy as <-.
  split; cbn [g_store g_load g_hand g_system]; try done; [lia| |by rewrite Hld, Hc|by left].
  rewrite (take_snoc _ _ _ ev) by (done || lia). by eapply replays_app.
Qed.

(** The store changes: the new changes are behind those that are taken. *)
Lemma keeps_store c0 m k c c' l w h s p : follow_inv c0 m k (mkGateway c l w h s p) -> txn c c' ->
  history c' = history c \/ l = Loaded /\ (∃ n, w = WatchingFrom n) -> follow_inv c0 m k (mkGateway c' l w h s p).
Proof.
  intros [H1 H2 H3 H4 H5 H6 H7 H8 H9] (ops & Ho & Hr & Ec) Hcs. cbn in *. pose proof (apply_ops_replays ops (kvs c)) as Hrep.
  pose proof (apply_ops_events ops Ho Hr (kvs c)) as Hevs. destruct (apply_ops ops (kvs c)) as [m' es]. injection Ec as Ek Eh. cbn in Hrep, Hevs.
  assert (Hes : es = [] \/ l = Loaded /\ ∃ n, w = WatchingFrom n).
  { destruct Hcs as [E|?]; [left|by right]. rewrite Eh in E. apply (f_equal length) in E. rewrite length_app in E. destruct es; [done|cbn in E; lia]. }
  split; cbn; rewrite ?Ek, ?Eh, ?length_app, ?drop_app_le by lia; try done.
  - lia.
  - rewrite take_app_le; [done|]. rewrite length_drop. lia.
  - by apply Forall_app.
  - by eapply replays_app.
  - unfold taken in *. cbn in *. destruct Hes as [->|[-> [n ->]]]; [by rewrite ?Eh, ?app_nil_r|].
    destruct h as [evt|]; [|done]. destruct H6 as (E & ev & Hev & Hd). split; [done|]. exists ev. split; [|done]. by apply lookup_app_l_Some.
  - destruct H8 as [?|[? ?]]; [by left|]. destruct Hes as [->|[-> _]]; [right|by left]. split; [done|]. cbn. lia.
Qed.

(** The loading goes on. *)
Lemma keeps_load c0 m k c l w h r q p o ids now l' r' p' : follow_inv c0 m k (mkGateway c l w h (mkSystem r q) p) ->
  loadStep prefix EnableJSPlugin o ids now c l (r, p) = Ret (l', (r', p')) -> l = Loaded \/ reads c ->
  follow_inv c0 m k (mkGateway c l' w h (mkSystem r' q) p').
Proof.
  intros Hi Hs Hcr. assert (l = Loaded \/ l <> Loaded) as [E|E] by (destruct l; (by left) || by right).
  - subst l. cbn in Hs. injection Hs as <- <- <-. destruct Hi; by split.
  - destruct (quiet_store _ _ _ _ Hi E) as (Em & Ek & _ & _). cbn in Ek. destruct Hcr as [?|Hg]; [done|].
    destruct Hi as [H1 H2 H3 H4 H5 H6 H7 H8 H9]. cbn in *. subst m.
    destruct (loadStep_ok prefix EnableJSPlugin o ids now c l r p l' r' p') as [Hi' Hl']; [rewrite Ek; by apply shaped_usable|done|done|by rewrite Ek|done|].
    split; cbn; try done; [by rewrite Ek in Hl'|by destruct H8; [|right]].
Qed.

(** The watch goes on: what it has at hand is not handled, what is no event is. *)
Lemma keeps_watch c0 m k c l w x w' s p : follow_inv c0 m k (mkGateway c l w None s p) -> doWatch prefix c w x w' ->
  (∀ n, w = WatchingFrom n -> (∃ n', w' = WatchingFrom n') \/ n = length (history c)) ->
  ∃ m' k', follow_inv c0 m' k' (mkGateway c l w' x s p).
Proof.
  intros Hi Hw Hcw. destruct Hw as [|n ev x Hev Hx|n|w].
  - exists m, k. destruct Hi. split; try done.
  - pose proof (fi_hand _ _ _ _ Hi) as Hk. cbn in Hk. unfold taken in Hk. cbn in Hk. subst k. destruct x as [evt|].
    + exists m, n. destruct Hi. split; try done. cbn. split; [done|]. by exists ev.
    + exists (changed ev m), (S n). apply (follow_next c0 m n (mkGateway c l (WatchingFrom n) None s p) ev None); try done.
      * unfold received. by rewrite Hx.
      * by apply Hi.
  - exists m, k. destruct (Hcw n eq_refl) as [[n' Hn']|Hn]; [done|]. destruct Hi. split; try done. cbn in *. unfold taken in *. cbn in *. by subst.
  - exists m, k. assert (Ht : taken (mkGateway c l w None s p) = length (history c)).
    { unfold taken. cbn. destruct w as [|n|]; [done| |done]. destruct (Hcw n eq_refl) as [[n' Hn']|Hn]; done. }
    destruct Hi. split; try done. cbn in *. by rewrite fi_hand0, Ht.
Qed.

(** The event at hand is handled. *)
Lemma keeps_event c0 m k c l w evt r q p o now e r' p' : follow_inv c0 m k (mkGateway c l w (Some evt) (mkSystem r q) p) ->
  readyToReceiveWatchEvent EnableJSPlugin evt o now (r, p) = Ret (e, (r', p')) ->
  ∃ m' k', follow_inv c0 m' k' (mkGateway c l w None (mkSystem r' q) p').
Proof.
  intros Hi Hh. pose proof (fi_hand _ _ _ _ Hi) as (Hk & ev & Hev & Hx). cbn in Hk, Hev, Hx. unfold readyToReceiveWatchEvent in Hh.
  destruct (evtOf evt) as [y| |] eqn:Ey; cbn [mbind outcome_mbind] in Hh; try done.
  assert (Hrec : received prefix ev = Ret (Some y)) by (unfold received; rewrite Hx; cbn; by rewrite Ey).
  exists (changed ev m), (S k). pose proof (fi_inv _ _ _ _ Hi) as Hinv. cbn in Hinv.
  assert (Hok : change_ok (Some y)).
  { destruct Hi as [Hs _ _ He Hf _ Hl Hq _]. cbn in *. pose proof (lookup_lt_Some _ _ _ Hev).
    assert (l = Loaded) as -> by (destruct Hq as [?|[-> Hq]]; [done|lia]). rewrite (drop_S _ _ _ Hev) in He, Hf.
    destruct (next_change m ev _ _ _ Hs Hl He Hf) as (z & Hz & Hok & _). rewrite Hrec in Hz. by injection Hz as <-. }
  assert (inv r' /\ core_of r' = core_after (Some y) (core_of r)) as [H1 H2].
  { destruct y as [devt|pevt]; cbn in Hh.
    - destruct Hok as [Hok _]. destruct (handle devt o now r) as [[e1 r1]| |] eqn:E; cbn in Hh; try done. injection Hh as _ <- _.
      by apply (handle_core devt o now r e1 r1).
    - destruct (handlePlugin EnableJSPlugin pevt p) as [[e1 p1]| |]; cbn in Hh; try done. by injection Hh as _ <- _. }
  by apply (follow_next c0 m k (mkGateway c l w (Some evt) (mkSystem r q) p) ev (Some y)).
Qed.

Lemma calm_keeps c0 m k g g' : follow_inv c0 m k g -> calm g g' -> ∃ m' k', follow_inv c0 m' k' g'.
Proof.
  intros Hi [Hf Hcs Hcw Hcr]. destruct Hf as [c c' l w h s p Ht|c l w h r q p o ids now l' r' p' Ho Hid Hs
    |c l w x w' s p Hw|c l w evt r q p o now e r' p' Ho Hh|c l w h s s' p Hs].
  - exists m, k. by eapply keeps_store.
  - exists m, k. by eapply keeps_load.
  - by eapply keeps_watch.
  - by eapply keeps_event.
  - exists m, k. destruct Hi as [H1 H2 H3 H4 H5 H6 H7 H8 H9]. cbn in *. destruct (internal_core s s' Hs H9) as [Hinv Hc]. split; cbn; try done. by rewrite Hc.
Qed.

Lemma calm_inv c0 p0 g : shaped prefix (kvs c0) -> rtc calm (started c0 p0) g -> ∃ m k, follow_inv c0 m k g.
Proof.
  intros Hs Hf. assert (Hi : ∃ m k, follow_inv c0 m k (started c0 p0)) by (do 2 eexists; by apply started_inv).
  induction Hf as [g|g1 g2 g3 Hstep _ IH]; [done|]. destruct Hi as (m & k & Hi). by apply IH, (calm_keeps c0 m k g1).
Qed.

(** C4: a gateway that starts on a store loads it while the watch goes on beside the loading,
    and takes the changes of the store late, one at a time, in any interleaving with further
    transactions, requests, checks, statuses and timers.  If no change falls into the loading
    or a gap of the watch and no request of the loading fails ([calm]), then, once it is
    loaded, its clusters, servers and routings are exactly the messages of the store as it was
    after the changes the dispatcher has handled: all the watch has taken but the one at hand.
    When there is none left they are those of the store now; and the next change is always one
    it can take.  (Without [calm] a change can be missed for good, see
    [FollowSamples.change_missed].) *)
Theorem store_mirrored c0 p0 g : shaped prefix (kvs c0) -> rtc calm (started c0 p0) g -> g_load g = Loaded ->
  (∃ m k, replays (kvs c0) (firstn (k - length (history c0)) (drop (length (history c0)) (history (g_store g)))) m /\
     replays m (drop k (history (g_store g))) (kvs (g_store g)) /\
     taken g = (match g_hand g with None => k | Some _ => S k end) /\ mirrored prefix m (disp (g_system g))) /\
  (g_hand g = None -> taken g = length (history (g_store g)) -> mirrored prefix (kvs (g_store g)) (disp (g_system g))) /\
  (∀ ev, g_hand g = None -> history (g_store g) !! taken g = Some ev -> returns (received prefix ev)) /\
  (∀ evt, g_hand g = Some evt -> returns (evtOf evt)).
Proof.
  intros Hs Hf Hld. destruct (calm_inv c0 p0 g Hs Hf) as (m & k & [H1 H2 H3 H4 H5 H6 H7 H8 H9]). rewrite Hld in H7. split_and!.
  - exists m, k. split_and!; try done; by destruct (g_hand g); [destruct H6|].
  - intros E Ht. rewrite E in H6. subst k. rewrite Ht, drop_all in H5. cbn in H5. by subst.
  - intros ev E Hev. rewrite E in H6. subst k. rewrite (drop_S _ _ _ Hev) in H4, H5.
    destruct (next_change m ev _ _ _ H1 H7 H4 H5) as (x & Hx & _). by exists x.
  - intros evt E. rewrite E in H6. destruct H6 as (_ & ev & Hev & Hd). rewrite (drop_S _ _ _ Hev) in H4, H5.
    destruct (next_change m ev _ _ _ H1 H7 H4 H5) as (x & Hx & _). unfold received in Hx. rewrite Hd in Hx. cbn in Hx.
    by destruct (evtOf evt) as [y| |].
Qed.

(** *** A store in which a bound server is missing *)

(** While nothing changes the loading does not come by the bind. *)
Lemma calm_blocked c0 p0 g b data cluster : shaped prefix (kvs c0) ->
  in_range (Bind_ClusterID b) -> kvs c0 !! getKey (clustersDir prefix) (Bind_ClusterID b) = Some cluster ->
  Marshal b = Some data -> kvs c0 !! getBindKey prefix b = Some data -> kvs c0 !! getKey (serversDir prefix) (Bind_ServerID b) = None ->
  rtc calm (started c0 p0) g ->
  (∃ m k, follow_inv c0 m k g) /\ binds_known prefix (kvs c0) (g_load g) (core_of (disp (g_system g))) /\ bind_ahead b (g_load g).
Proof.
  intros Hs Hrc Hkc Em Hkb Hns Hf.
  assert (Hi : (∃ m k, follow_inv c0 m k (started c0 p0)) /\ binds_known prefix (kvs c0) (g_load (started c0 p0)) (core_of (disp (g_system (started c0 p0)))) /\
    bind_ahead b (g_load (started c0 p0))) by (split; [do 2 eexists; by apply started_inv|done]).
  induction Hf as [g|g1 g2 g3 Hstep _ IH]; [done|]. apply IH. destruct Hi as ((m & k & Hi) & Hk & Ha).
  split; [by apply (calm_keeps c0 m k g1)|]. assert (Hnl : g_load g1 <> Loaded) by (intros E; by rewrite E in Ha).
  destruct (quiet_store c0 m k g1 Hi Hnl) as (_ & Ek & Eh & _). pose proof (fi_load _ _ _ _ Hi) as Hl. pose proof (fi_inv _ _ _ _ Hi) as Hinv.
  destruct (quiet_store c0 m k g1 Hi Hnl) as (-> & _). destruct Hstep as [Hfo _ _ Hcr].
  destruct Hfo as [c c' l w h s p _|c l w h r q p o ids now l' r' p' Ho Hid Hst|c l w x w' s p _|c l w evt r q p o now e r' p' _ _|c l w h s s' p Hin];
    cbn in *; try done.
  - destruct Hcr as [?|Hg]; [done|]. rewrite <- Ek in *. eapply (bind_blocks prefix EnableJSPlugin o ids now c l r p l' r' p' b); try done.
    by apply shaped_usable; rewrite Ek in *.
  - destruct (internal_core s s' Hin Hinv) as [_ Hc]. by rewrite Hc.
Qed.

(** C22: a gateway does not come up on a store from which a server was removed while it was
    bound.  [RemoveServer] leaves the binds; as long as nothing else changes the store and no
    request fails, the loading does not come by the bind, whatever else goes on beside it.
    Each bind it meets is added if its server is in the store, and the first whose server is
    gone ends the process.  From the clusters on each step of the loading is made or ends the
    process, and brings it nearer to that bind. *)
Theorem load_dies e e' p0 b data cluster g : shaped prefix (kvs (rawClient e)) ->
  in_range (Bind_ClusterID b) -> kvs (rawClient e) !! getKey (clustersDir prefix) (Bind_ClusterID b) = Some cluster ->
  Marshal b = Some data -> kvs (rawClient e) !! getBindKey prefix b = Some data ->
  RemoveServer prefix (Bind_ServerID b) e = Ret (Ok (), e') ->
  rtc calm (started (rawClient e') p0) g -> reads (g_store g) ->
  bind_ahead b (g_load g) /\
  ∀ o ids now, let r := disp (g_system g) in let p := g_plugins g in let c := g_store g in
  orders_ok o r -> ids ≡ₚ keys (clusters r) ->
  (∀ cid sid sids ks, g_load g = LoadBind cid (sid :: sids) ks ->
     match kvs (rawClient e') !! getKey (serversDir prefix) sid with
     | Some _ => ∃ r', addBind (mkBind cid sid) r = Ret (None, r') /\
         loadStep prefix EnableJSPlugin o ids now c (g_load g) (r, p) = Ret (LoadBind cid sids ks, (r', p))
     | None => addBind (mkBind cid sid) r = Ret (Some errServerNotFound, r) /\
         loadStep prefix EnableJSPlugin o ids now c (g_load g) (r, p) = Panic
     end) /\
  (before_apis (g_load g) ->
     loadStep prefix EnableJSPlugin o ids now c (g_load g) (r, p) <> Hang /\
     ∀ l' s', loadStep prefix EnableJSPlugin o ids now c (g_load g) (r, p) = Ret (l', s') ->
       (load_left prefix (kvs (rawClient e')) l' < load_left prefix (kvs (rawClient e')) (g_load g))%nat).
Proof.
  intros Hs Hrc Hkc Em Hkb Hd Hf Hg.
  assert (Hsd : ∀ d k, d ∈ all_dirs prefix -> d <> serversDir prefix -> HasPrefix k (d ++ str "/") = true -> k <> getKey (serversDir prefix) (Bind_ServerID b)).
  { intros d k Hin Hne Hk ->. destruct Hne. eapply dir_unique; [done| |exact Hk|apply getKey_below]. unfold all_dirs. in_dirs. }
  assert (Hs' : shaped prefix (kvs (rawClient e'))).
  { intros k d Hk. destruct (decide (k = getKey (serversDir prefix) (Bind_ServerID b))) as [->|Hne]; [by rewrite (kvs_removed_one _ _ _ Hd) in Hk|].
    rewrite (kvs_removed_ne _ _ _ _ Hd Hne) in Hk. by apply Hs. }
  destruct (calm_blocked (rawClient e') p0 g b data cluster Hs' Hrc) as ((m & k & Hi) & Hk & Ha); [| done| | |done|].
  - rewrite (kvs_removed_ne _ _ _ _ Hd); [done|]. apply (Hsd (clustersDir prefix)); [unfold all_dirs; in_dirs| |apply getKey_below].
    unfold clustersDir, serversDir. by intros E%app_inv_head.
  - rewrite (kvs_removed_ne _ _ _ _ Hd); [done|]. apply (Hsd (bindsDir prefix)); [unfold all_dirs; in_dirs| |apply getBindKey_below].
    unfold bindsDir, serversDir. by intros E%app_inv_head.
  - exact (kvs_removed_one _ _ _ Hd).
  - assert (Hnl : g_load g <> Loaded) by (intros E; by rewrite E in Ha). destruct (quiet_store _ m k g Hi Hnl) as (-> & Ek & _).
    destruct Hi as [_ _ _ _ _ _ Hl _ Hinv]. rewrite <- Ek in *. split; [done|]. intros o ids now r p c Ho Hids. split.
    + intros cid sid sids ks E. rewrite E in *. apply next_bind; [by apply shaped_usable|done..].
    + intros Hb. apply load_progress; [by apply shaped_usable|done..].
Qed.

(** The requests of the store are such transactions, but for what is not an id. *)
Lemma requests_txns q e r e' : request_ok q -> run prefix q e = Ret (r, e') ->
  rtc (λ c c', same c c' \/ ∃ ops, Forall (op_ok prefix) ops /\
    (kvs c', history c') = let '(m, es) := apply_ops ops (kvs c) in (m, history c ++ es)) (rawClient e) (rawClient e').
Proof.
  intros Hq Hr. set (R := λ c c' : etcd, _).
  refine (proj1 (sat_run prefix (λ c, rtc R (rawClient e) c) _ _ q Hq e r e' (rtc_refl _ _) Hr)).
  - intros c c' Hs Hc. eapply rtc_r; [exact Hc|by left].
  - intros ops Ho cmps c Hc. eapply rtc_r; [exact Hc|]. destruct (Commit cmps ops c) as [[b|] c'] eqn:Ec; cbn.
    + apply Commit_ok in Ec as [_ Ec]. destruct b; [right; by exists ops|left; injection Ec as E1 E2; by split].
    + apply Commit_failed in Ec as [Ec|[_ Ec]]; [left; injection Ec as E1 E2; by split|right; by exists ops].
Qed.

End Follow.

(** ** Examples: a store with a cluster, and a server bound to it *)
Module FollowSamples.
Ltac in_list := unfold all_dirs; in_dirs.
#[local] Existing Instance MapEtcd.client.
#[local] Existing Instance MapEtcd.laws.
#[local] Instance env_plain : Env := plain_env.
#[local] Instance sample_checks : Checks := {| regexp_Compile _ := true; NewRuntime _ := true |}.
#[local] Instance Cluster_pb : Pb Cluster := Countables.pb Cluster.
#[local] Instance Server_pb : Pb Server := Countables.pb Server.
#[local] Instance API_pb : Pb API := Countables.pb API.
#[local] Instance Routing_pb : Pb Routing := Countables.pb Routing.
#[local] Instance Plugin_pb : Pb Plugin := Countables.pb Plugin.
#[local] Instance Applied_message : Message AppliedPlugins := Countables.message AppliedPlugins.
#[local] Instance Bind_message : Message Bind := Countables.message Bind.
#[local] Instance Proxy_message : Message Proxy := Countables.message Proxy.

Definition prefix : bytes := str "/gw".
Definition one : Cluster := mkCluster 1 (str "a") RoundRobin.
Definition two : Cluster := mkCluster 2 (str "b") RoundRobin.
Definition server : Server := mkServer 3 (str "h:1") 10 None None 0 Wait HTTP.
Definition bind : Bind := mkBind 1 3.
Definition text {A} `{Message A} (v : A) : bytes := default [] (Marshal v).

Definition stored : list (bytes * bytes) :=
  [(getKey (clustersDir prefix) 1, text one); (getKey (serversDir prefix) 3, text server); (getBindKey prefix bind, text bind)].
Definition c0 : etcd := (list_to_map stored : kv, []).
Definition st : EtcdStore := mkStore 0 0 c0.

Lemma dirs_below dir : dir ∈ [clustersDir prefix; serversDir prefix; apisDir prefix; routingsDir prefix; pluginsDir prefix] -> dir ∈ all_dirs prefix.
Proof. intros Hd. repeat (apply elem_of_cons in Hd as [->|Hd]); [..|by apply elem_of_nil in Hd]; in_list. Qed.

(** A key of a message in range. *)
Lemma ranged_key dir id : dir ∈ all_dirs prefix -> in_range id -> ranged prefix (getKey dir id).
Proof.
  intros Hd Hr dir' id' Hd' Hn Hid E. assert (dir = dir') as <-.
  { apply (dir_unique prefix (getKey dir id)); [done|by apply dirs_below|apply getKey_below|rewrite E; apply getKey_below]. }
  apply getKey_inj in E as ->; [done|by apply in_range_u64|done].
Qed.

Lemma ranged_bind b : ranged prefix (getBindKey prefix b).
Proof.
  intros dir id Hd _ _ E. assert (Hb := getBindKey_below prefix b). assert (bindsDir prefix = dir) as <-.
  { apply (dir_unique prefix (getBindKey prefix b)); [in_list|by apply dirs_below|done|rewrite E; apply getKey_below]. }
  unfold bindsDir, clustersDir, serversDir, apisDir, routingsDir, pluginsDir in Hd.
  repeat (apply elem_of_cons in Hd as [Hd%app_inv_head|Hd]; [discriminate Hd|]). by apply elem_of_nil in Hd.
Qed.

Lemma stored_shaped : shaped prefix (kvs c0).
Proof.
  assert (H1 : in_range 1) by (split; done). assert (H3 : in_range 3) by (split; done).
  intros k data Hk. apply elem_of_list_to_map_2 in Hk. unfold stored in Hk.
  repeat (apply elem_of_cons in Hk as [[= -> ->]|Hk]); [..|by apply elem_of_nil in Hk].
  - split; [apply (shape_cluster prefix one); done|apply (ranged_key _ 1); [in_list|done]].
  - split; [apply (shape_server prefix server); done|apply (ranged_key _ 3); [in_list|done]].
  - split; [apply (shape_bind prefix bind); done|apply (ranged_bind bind)].
Qed.

Lemma sample_reads c : reads c.
Proof. intros ks n. by eexists. Qed.

(** Steps of the loading, one after the other. *)
Fixpoint loads (n : nat) (c : etcd) (l : loading) (s : dispatcher lb * pluginState) : option (loading * (dispatcher lb * pluginState)) :=
  match n with
  | O => Some (l, s)
  | S n => match loadStep prefix true (some_orders s.1) (keys (clusters s.1)) 0 c l s with Ret (l, s) => loads n c l s | _ => None end
  end.

Lemma loads_calm n c w h q : ∀ l r p l' r' p', loads n c l (r, p) = Some (l', (r', p')) ->
  rtc (calm prefix true) (mkGateway c l w h (mkSystem r q) p) (mkGateway c l' w h (mkSystem r' q) p').
Proof.
  induction n as [|n IH]; intros l r p l' r' p' Hl; cbn [loads] in Hl; [injection Hl as <- <- <-; apply rtc_refl|].
  destruct (loadStep _ _ _ _ _ _ _ _) as [[l1 [r1 p1]]| |] eqn:E; try done. eapply rtc_l; [|by apply IH]. split.
  - eapply follow_load; [apply some_orders_ok| |exact E]. done.
  - by left.
  - intros m Hm. left. by exists m.
  - right. apply sample_reads.
Qed.

(** What is loaded after [n] steps from a point. *)
Definition point : Type := loading * (dispatcher lb * pluginState).
Definition first : point := (load, (newDispatcher, newPlugins true)).
Definition after_ (n : nat) (c : etcd) (x : point) : point := default x (loads n c x.1 x.2).

Lemma after_calm n c x w h q : is_Some (loads n c x.1 x.2) ->
  rtc (calm prefix true) (mkGateway c x.1 w h (mkSystem x.2.1 q) x.2.2) (mkGateway c (after_ n c x).1 w h (mkSystem (after_ n c x).2.1 q) (after_ n c x).2.2).
Proof.
  intros [[l' [r' p']] E]. unfold after_. rewrite E. cbn. destruct x as [l [r p]]. by apply (loads_calm n).
Qed.

Lemma loads_some n c x : match loads n c x.1 x.2 with Some _ => true | None => false end = true -> is_Some (loads n c x.1 x.2).
Proof. by destruct (loads n c x.1 x.2); eauto. Qed.

(** The gateway that has loaded it; one more cluster in the store; and the gateway that has
    handled the change. *)
Definition loaded_ : point := after_ 40 c0 first.
Definition put_two : list Op := [OpPut (getKey (clustersDir prefix) 2) (text two) None].
Definition c1 : etcd := ((apply_ops put_two (kvs c0)).1, [PUT (getKey (clustersDir prefix) 2) (text two) true]).
Definition told : StoreWatch.Evt := mkEvt EventSrcCluster EventTypeNew (digits 20 2) (ValueCluster two).
Definition handled (evt : StoreWatch.Evt) (s : dispatcher lb * pluginState) : dispatcher lb * pluginState :=
  match readyToReceiveWatchEvent true evt (some_orders s.1) 0 s with Ret (_, s) => s | _ => s end.
Definition last_ : dispatcher lb * pluginState := handled told loaded_.2.
Definition g0 : gateway (L := lb) := started c0 (newPlugins true).
Definition g2 : gateway (L := lb) := mkGateway c1 Loaded (WatchingFrom 1) None (mkSystem last_.1 []) last_.2.

Lemma two_ranged : txn prefix c0 c1.
Proof.
  exists put_two. assert (Hr : in_range 2) by (split; done). split_and!.
  - constructor; [|constructor]. apply (shape_cluster prefix two); done.
  - constructor; [|constructor]. apply (ranged_key _ 2); [in_list|done].
  - reflexivity.
Qed.

Lemma handled_returns evt s : match readyToReceiveWatchEvent true evt (some_orders s.1) 0 s with Ret _ => true | _ => false end = true ->
  ∃ e, readyToReceiveWatchEvent true evt (some_orders s.1) 0 (s.1, s.2) = Ret (e, ((handled evt s).1, (handled evt s).2)).
Proof. rewrite <- surjective_pairing. unfold handled. destruct (readyToReceiveWatchEvent _ _ _ _ _) as [[e [r p]]| |]; try done. by exists e. Qed.

Lemma event_calm c w evt r q p o now e r' p' : orders_ok o r -> readyToReceiveWatchEvent true evt o now (r, p) = Ret (e, (r', p')) ->
  calm prefix true (mkGateway c Loaded w (Some evt) (mkSystem r q) p) (mkGateway c Loaded w None (mkSystem r' q) p').
Proof. intros Ho Hh. split; [by eapply follow_event|by left|intros n Hn; left; by exists n|by left]. Qed.

Lemma sample_calm : rtc (calm prefix true) g0 g2.
Proof.
  etransitivity; [apply (after_calm 40 c0 first NotWatching None []), loads_some; vm_compute; reflexivity|]. fold loaded_.
  assert (Hl : loaded_.1 = Loaded) by (vm_compute; reflexivity). rewrite Hl.
  eapply rtc_l; [split; [apply follow_watch, (watch_opened prefix c0)|by left|done|by left]|].
  eapply rtc_l; [split; [apply (follow_store prefix true c0 c1), two_ranged|right; split; [done|by eexists]|intros n Hn; left; by exists n|by left]|].
  eapply rtc_l; [split; [apply follow_watch, (watch_event prefix c1 0 (PUT (getKey (clustersDir prefix) 2) (text two) true) (Some told)); [done|vm_compute; reflexivity]
    |by left|intros n Hn; left; by eexists|by left]|].
  destruct (handled_returns told loaded_.2) as [e He]; [vm_compute; reflexivity|]. apply rtc_once.
  exact (event_calm c1 (WatchingFrom 1) told _ [] _ _ 0 e _ _ (some_orders_ok _) He).
Qed.

Lemma store_mirrored_witness : mirrored prefix (kvs c1) last_.1.
Proof.
  refine (proj1 (proj2 (store_mirrored prefix true c0 (newPlugins true) g2 stored_shaped sample_calm eq_refl)) eq_refl eq_refl).
Defined.

(** Outside calm steps: a change after a directory was read and before the watch is open is
    never told. *)
Lemma change_missed : ∃ g, rtc (follow prefix true) g0 g /\ g_load g = Loaded /\ g_hand g = None /\ g_watch g = WatchingFrom (length (history (g_store g))) /\
  kvs (g_store g) !! getKey (clustersDir prefix) 2 = Some (text two) /\ clusters (disp (g_system g)) !! 2 = None.
Proof.
  exists (mkGateway c1 loaded_.1 (WatchingFrom 1) None (mkSystem loaded_.2.1 []) loaded_.2.2). split; [|split_and!; vm_compute; reflexivity].
  etransitivity.
  { eapply (rtc_subrel _ (follow prefix true)); [|apply (after_calm 40 c0 first NotWatching None []), loads_some; vm_compute; reflexivity]. by intros x y [Hf _ _ _]. }
  fold loaded_. eapply rtc_l; [apply (follow_store prefix true c0 c1), two_ranged|]. apply rtc_once, follow_watch, (watch_opened prefix c1).
Qed.

(** And a change that is told between the reading of a page and the visit of the message is
    undone: here a cluster is removed, and added after that. *)
Definition page_read : point := after_ 3 c0 first.
Definition remove_one : list Op := [OpDelete (KOne (getKey (clustersDir prefix) 1))].
Definition c_less : etcd := ((apply_ops remove_one (kvs c0)).1, [DELETE (getKey (clustersDir prefix) 1)]).
Definition gone : StoreWatch.Evt := mkEvt EventSrcCluster EventTypeDelete (digits 20 1) (ValueCluster zeroCluster).
Definition unheard_ : dispatcher lb * pluginState := handled gone page_read.2.
Definition undone : point := after_ 40 c_less (page_read.1, unheard_).

Lemma change_undone : ∃ g, rtc (follow prefix true) g0 g /\ g_load g = Loaded /\ g_hand g = None /\ g_watch g = WatchingFrom (length (history (g_store g))) /\
  kvs (g_store g) !! getKey (clustersDir prefix) 1 = None /\ c_meta <$> clusters (disp (g_system g)) !! 1 = Some one.
Proof.
  exists (mkGateway c_less undone.1 (WatchingFrom 1) None (mkSystem undone.2.1 []) undone.2.2). split; [|split_and!; vm_compute; reflexivity].
  assert (Hsub : ∀ x y, rtc (calm prefix true) x y -> rtc (follow prefix true) x y) by (intros x y; apply rtc_subrel; by intros ? ? [Hf _ _ _]).
  eapply rtc_l; [apply follow_watch, (watch_opened prefix c0)|].
  etransitivity; [apply Hsub, (after_calm 3 c0 first (WatchingFrom 0) None []), loads_some; vm_compute; reflexivity|]. fold page_read.
  eapply rtc_l; [apply (follow_store prefix true c0 c_less); exists remove_one; split_and!; [by repeat constructor..|reflexivity]|].
  eapply rtc_l; [apply follow_watch, (watch_event prefix c_less 0 (DELETE (getKey (clustersDir prefix) 1)) (Some gone)); [done|vm_compute; reflexivity]|].
  destruct (handled_returns gone page_read.2) as [e He]; [vm_compute; reflexivity|]. eapply rtc_l.
  { eapply follow_event; [apply some_orders_ok|]. exact He. }
  apply Hsub. apply (after_calm 40 c_less (page_read.1, unheard_) (WatchingFrom 1) None []), loads_some. vm_compute. reflexivity.
Qed.

(** The server removed, and another gateway started: at the bind it ends. *)
Definition removed : EtcdStore := match RemoveServer prefix 3 st with Ret (_, e) => e | _ => st end.
Definition at_bind : point := after_ 9 (rawClient removed) first.

Lemma load_dies_witness : at_bind.1 = LoadBind 1 [3] [] /\
  loadStep prefix true (some_orders at_bind.2.1) (keys (clusters at_bind.2.1)) 0 (rawClient removed) at_bind.1 at_bind.2 = Panic.
Proof.
  assert (Hl : at_bind.1 = LoadBind 1 [3] []) by (vm_compute; reflexivity). split; [exact Hl|].
  destruct (load_dies prefix true st removed (newPlugins true) bind (text bind) (text one)
    (mkGateway (rawClient removed) at_bind.1 NotWatching None (mkSystem at_bind.2.1 []) at_bind.2.2)) as [_ Hd].
  - exact stored_shaped.
  - split; done.
  - vm_compute. reflexivity.
  - reflexivity.
  - vm_compute. reflexivity.
  - reflexivity.
  - apply (after_calm 9 (rawClient removed) first NotWatching None []), loads_some. vm_compute. reflexivity.
  - apply sample_reads.
  - destruct (Hd (some_orders at_bind.2.1) (keys (clusters at_bind.2.1)) 0 (some_orders_ok _) (reflexivity _)) as [Hb _].
    specialize (Hb 1 3 [] [] Hl). assert (Hk : kvs (rawClient removed) !! getKey (serversDir prefix) 3 = None) by (vm_compute; reflexivity).
    rewrite Hk in Hb. destruct Hb as [_ Hb]. cbn [g_store g_load g_system g_plugins disp] in Hb. by rewrite <- surjective_pairing in Hb.
Defined.
End FollowSamples.
